(** * agent-mesh: a shallow embedding of the orchestration core

    The development follows the TypeScript sources: the planner's task
    graph (Shaka: [buildDAG], [getReadyTasks], [markTaskComplete],
    [isDAGComplete]), the mesh scheduler ([executePlan], [processRequest]),
    the hybrid store (PunkRecords: [chunkText], [addDocument], [search]),
    the tool executor's retry loop (Atlas), the critic's scoring (Lilith)
    and the context manager's eviction (York).

    JavaScript numbers that only ever carry counts are [nat] or [Z];
    relevance scores are rationals ([Q]) where only documents, ids and
    positions matter, and IEEE 754 doubles ([spec_float], module
    [HybridSearch]) where the scores themselves are computed with; a
    JavaScript [Map] is an insertion-ordered association list; a plan
    that has been through JSON keeps a plain object where its [Map] was;
    what an [async] function does before its first [await] and after its
    last are separate steps where calls can overlap (York's eviction);
    external collaborators (satellite
    execution, the tool transport, the embedder, the vector and keyword
    engines, the text generator) are [Section] variables. *)

From Stdlib Require Import ZArith QArith Qround Lia Permutation Sorted Ascii String
  SpecFloat.
From stdpp Require Import base list strings pretty gmap.

Local Open Scope string_scope.
Local Open Scope list_scope.
Local Open Scope nat_scope.

(* ===================================================================== *)
(** ** JavaScript [Map<string, V>]: insertion-ordered, unique keys *)
(* ===================================================================== *)

Module JSMap.
Section Defs.
Context {V : Type}.

Definition t := list (string * V).

Definition empty : t := [].

(** [m.get(k)] *)
Fixpoint get (m : t) (k : string) : option V :=
  match m with
  | [] => None
  | (k', v) :: m' => if String.eqb k' k then Some v else get m' k
  end.

(** [m.set(k, v)]: an existing key keeps its position, a new key is
    appended. *)
Fixpoint set (k : string) (v : V) (m : t) : t :=
  match m with
  | [] => [(k, v)]
  | (k', v') :: m' =>
      if String.eqb k' k then (k, v) :: m' else (k', v') :: set k v m'
  end.

(** In-place mutation of the object stored under [k]
    ([m.get(k).field = ...]): the map's structure is untouched. *)
Fixpoint update (k : string) (f : V -> V) (m : t) : t :=
  match m with
  | [] => []
  | (k', v) :: m' =>
      if String.eqb k' k then (k', f v) :: m' else (k', v) :: update k f m'
  end.

Definition keys (m : t) : list string := map fst m.
Definition values (m : t) : list V := map snd m.
Definition size (m : t) : nat := length m.
End Defs.
Arguments t : clear implicits.
End JSMap.

(* ===================================================================== *)
(** ** The task graph (types/satellites.ts) *)
(* ===================================================================== *)

Inductive SatelliteId := shaka | lilith | edison | pythagoras | atlas | york.

Inductive NodeStatus := pending | ready | running | completed | failed.

Definition NodeStatus_eqb (a b : NodeStatus) : bool :=
  match a, b with
  | pending, pending | ready, ready | running, running
  | completed, completed | failed, failed => true
  | _, _ => false
  end.

Record SatelliteResult := mkResult {
  r_taskId : string;
  r_satelliteId : SatelliteId;
  r_success : bool;
  r_output : string;
  r_error : option string
}.

Record SatelliteTask := mkTask {
  t_id : string;
  t_satelliteId : SatelliteId;
  t_description : string;
  t_input : string;
  t_dependencies : list string;
  t_priority : Z
}.

Record DAGNode := mkNode {
  n_id : string;
  n_taskId : string;
  n_satelliteId : SatelliteId;
  n_status : NodeStatus;
  n_dependencies : list string;
  n_dependents : list string;
  n_result : option SatelliteResult
}.

Record TaskDAG := mkDAG {
  nodes : JSMap.t DAGNode;
  rootNodes : list string;
  leafNodes : list string
}.

(** One entry of the planner's [PlanningResult.tasks]. *)
Record PlannedTask := mkPlanned {
  p_description : string;
  p_satellite : SatelliteId;
  p_dependencies : list string;
  p_priority : Z
}.

Record ExecutionPlan := mkPlan {
  plan_id : string;
  userIntent : string;
  plan_tasks : list SatelliteTask;
  plan_dag : TaskDAG
}.

Definition set_status (s : NodeStatus) (n : DAGNode) : DAGNode :=
  mkNode (n_id n) (n_taskId n) (n_satelliteId n) s
         (n_dependencies n) (n_dependents n) (n_result n).

Definition set_result (r : SatelliteResult) (n : DAGNode) : DAGNode :=
  mkNode (n_id n) (n_taskId n) (n_satelliteId n) (n_status n)
         (n_dependencies n) (n_dependents n) (Some r).

Definition push_dependency (d : string) (n : DAGNode) : DAGNode :=
  mkNode (n_id n) (n_taskId n) (n_satelliteId n) (n_status n)
         (n_dependencies n ++ [d]) (n_dependents n) (n_result n).

Definition push_dependent (d : string) (n : DAGNode) : DAGNode :=
  mkNode (n_id n) (n_taskId n) (n_satelliteId n) (n_status n)
         (n_dependencies n) (n_dependents n ++ [d]) (n_result n).

Module Shaka.

(** [`node_${index}`] *)
Definition nodeId (index : nat) : string := "node_" +:+ pretty index.

(** First loop of [buildDAG]: one pending node per task, and the
    description-to-id table (a later task with the same description
    overwrites the earlier entry). *)
Fixpoint createNodes (tasks : list PlannedTask) (index : nat)
    (acc : JSMap.t DAGNode * JSMap.t string) : JSMap.t DAGNode * JSMap.t string :=
  match tasks with
  | [] => acc
  | task :: rest =>
      let id := nodeId index in
      createNodes rest (S index)
        (JSMap.set id (mkNode id "" (p_satellite task) pending [] [] None) (fst acc),
         JSMap.set (p_description task) id (snd acc))
  end.

(** [task.dependencies.forEach(depDesc => ...)]: an unknown description is
    dropped; a known one is pushed on both ends of the edge. *)
Definition linkDependency (descToId : JSMap.t string) (id : string)
    (m : JSMap.t DAGNode) (depDesc : string) : JSMap.t DAGNode :=
  match JSMap.get descToId depDesc with
  | Some depNodeId =>
      if String.eqb depNodeId "" then m
      else JSMap.update depNodeId (push_dependent id)
             (JSMap.update id (push_dependency depNodeId) m)
  | None => m
  end.

Fixpoint linkNodes (descToId : JSMap.t string) (tasks : list PlannedTask)
    (index : nat) (m : JSMap.t DAGNode) : JSMap.t DAGNode :=
  match tasks with
  | [] => m
  | task :: rest =>
      linkNodes descToId rest (S index)
        (fold_left (linkDependency descToId (nodeId index)) (p_dependencies task) m)
  end.

(** Third loop: roots become [ready]; roots and leaves are collected. *)
Definition classify (acc : JSMap.t DAGNode * list string * list string) (id : string)
    : JSMap.t DAGNode * list string * list string :=
  let '(m, roots, leaves) := acc in
  match JSMap.get m id with
  | None => acc
  | Some node =>
      let '(m1, roots1) :=
        if Nat.eqb (length (n_dependencies node)) 0
        then (JSMap.update id (set_status ready) m, roots ++ [id])
        else (m, roots) in
      let leaves1 :=
        if Nat.eqb (length (n_dependents node)) 0 then leaves ++ [id] else leaves in
      (m1, roots1, leaves1)
  end.

Definition buildDAG (tasks : list PlannedTask) : TaskDAG :=
  let '(created, descToId) := createNodes tasks 0 (JSMap.empty, JSMap.empty) in
  let linked := linkNodes descToId tasks 0 created in
  let '(m, roots, leaves) :=
    fold_left classify (JSMap.keys linked) (linked, [], []) in
  mkDAG m roots leaves.

(** [node.dependencies.every(d => dag.nodes.get(d)?.status === 'completed')] *)
Definition allDepsComplete (m : JSMap.t DAGNode) (node : DAGNode) : bool :=
  forallb (fun depId =>
             match JSMap.get m depId with
             | Some depNode => NodeStatus_eqb (n_status depNode) completed
             | None => false
             end) (n_dependencies node).

(** Body of the [forEach] in [getReadyTasks]; the map is threaded because
    the promotion mutates the node that later entries read. *)
Definition readyStep (acc : list string * JSMap.t DAGNode) (id : string)
    : list string * JSMap.t DAGNode :=
  let '(rdy, m) := acc in
  match JSMap.get m id with
  | None => acc
  | Some node =>
      match n_status node with
      | ready => (rdy ++ [id], m)
      | pending =>
          if allDepsComplete m node
          then (rdy ++ [id], JSMap.update id (set_status ready) m)
          else acc
      | _ => acc
      end
  end.

Definition getReadyNodes (m : JSMap.t DAGNode) : list string * JSMap.t DAGNode :=
  fold_left readyStep (JSMap.keys m) ([], m).

Definition getReadyTasks (dag : TaskDAG) : list string * TaskDAG :=
  let '(rdy, m) := getReadyNodes (nodes dag) in
  (rdy, mkDAG m (rootNodes dag) (leafNodes dag)).

(** Promotion of one dependent inside [markTaskComplete]. *)
Definition promoteDependent (m : JSMap.t DAGNode) (depId : string) : JSMap.t DAGNode :=
  match JSMap.get m depId with
  | Some depNode =>
      match n_status depNode with
      | pending =>
          if allDepsComplete m depNode
          then JSMap.update depId (set_status ready) m
          else m
      | _ => m
      end
  | None => m
  end.

Definition markNode (m : JSMap.t DAGNode) (id : string) (result : SatelliteResult)
    : JSMap.t DAGNode :=
  match JSMap.get m id with
  | None => m
  | Some node =>
      let m1 :=
        JSMap.update id
          (fun n => set_result result
                      (set_status (if r_success result then completed else failed) n)) m in
      if r_success result
      then fold_left promoteDependent (n_dependents node) m1
      else m1
  end.

Definition markTaskComplete (dag : TaskDAG) (id : string) (result : SatelliteResult)
    : TaskDAG :=
  mkDAG (markNode (nodes dag) id result) (rootNodes dag) (leafNodes dag).

Definition nodesComplete (m : JSMap.t DAGNode) : bool :=
  forallb (fun n =>
             NodeStatus_eqb (n_status n) completed
             || NodeStatus_eqb (n_status n) failed) (JSMap.values m).

Definition isDAGComplete (dag : TaskDAG) : bool := nodesComplete (nodes dag).

(** The fallback of [analyzAndPlan] when the generator's answer does not
    parse: the whole input as one task for the inventor. *)
Definition fallbackTasks (userInput : string) : list PlannedTask :=
  [mkPlanned userInput edison [] 5].

(** [createExecutionPlan] once the generator has answered: the graph is
    built from the first answer, the task list from the reflected one;
    [uuids] supplies the fresh task ids. *)
Definition createExecutionPlan (planned reflected : list PlannedTask)
    (uuids : nat -> string) (planId userInput : string) : ExecutionPlan :=
  mkPlan planId userInput
    (imap (fun i t => mkTask (uuids i) (p_satellite t) (p_description t)
                        (p_description t) (p_dependencies t) (p_priority t))
          reflected)
    (buildDAG planned).

End Shaka.

(** How an async call settles: it returns, or it throws an error with a
    message. *)
Inductive Completion (A : Type) :=
| Return (a : A)
| Throw (e : string).
Arguments Return {A} a.
Arguments Throw {A} e.

(* ===================================================================== *)
(** ** The scheduler loop (AgentMesh.executePlan) *)
(* ===================================================================== *)

(** Taking the element at position [k] out of a list (the last one when
    [k] is out of range). *)
Fixpoint extract {A : Type} (k : nat) (l : list A) {struct l} : option (A * list A) :=
  match l with
  | [] => None
  | x :: l' =>
      match k with
      | O => Some (x, l')
      | S k' =>
          match extract k' l' with
          | Some (y, r) => Some (y, x :: r)
          | None => Some (x, l')
          end
      end
  end.

(** The arrangement of [l] obtained by taking out the listed positions one
    after the other; what is left keeps its order. *)
Fixpoint reorder {A : Type} (picks : list nat) (l : list A) : list A :=
  match picks with
  | [] => l
  | k :: picks' =>
      match extract k l with
      | None => []
      | Some (x, r) => x :: reorder picks' r
      end
  end.

Module AgentMesh.
Section Scheduler.

(** [satellite.execute(task)] for the node dispatched in a given batch:
    the satellites are external, only the returned result matters. *)
Variable execute : nat -> string -> SatelliteTask -> SatelliteResult.

(** The order in which the executions of one batch settle. Every async
    body runs up to its [await] when [map] creates it, so all dispatches
    of a batch precede all completions; the completions then happen in an
    order the scheduler does not control: [settle batch] lists, one after
    the other, the position taken among the executions still pending. *)
Variable settle : nat -> list nat.

(** [plan.tasks.find(t => t.id === node.taskId || t.description === nodeId)] *)
Definition findTask (tasks : list SatelliteTask) (node : DAGNode) (id : string)
    : option SatelliteTask :=
  List.find (fun t => String.eqb (t_id t) (n_taskId node)
                      || String.eqb (t_description t) id) tasks.

(** A dispatch: the node, the result its satellite will return, and (as
    a ghost field) the graph as it was when the node was dispatched. *)
Record Dispatch := mkDispatch {
  d_node : string;
  d_result : SatelliteResult;
  d_snapshot : JSMap.t DAGNode
}.

(** Synchronous prefix of every async body of [readyNodes.map]: look the
    task up, give up ([return null]) when there is none, otherwise mark
    the node [running] and call the satellite. (The subscribers that
    [emitEvent] calls are taken not to throw.) *)
Fixpoint startExecutions (batch : nat) (tasks : list SatelliteTask)
    (readyNodes : list string) (m : JSMap.t DAGNode)
    : list Dispatch * JSMap.t DAGNode :=
  match readyNodes with
  | [] => ([], m)
  | id :: rest =>
      match JSMap.get m id with
      | None => startExecutions batch tasks rest m
      | Some node =>
          match findTask tasks node id with
          | None => startExecutions batch tasks rest m
          | Some task =>
              let m1 := JSMap.update id (set_status running) m in
              let '(ds, m2) := startExecutions batch tasks rest m1 in
              (mkDispatch id (execute batch id task) m :: ds, m2)
          end
      end
  end.

(** The continuations after the [await]s: [markTaskComplete] per
    settled execution. *)
Definition settleExecutions (l : list (string * SatelliteResult)) (m : JSMap.t DAGNode)
    : JSMap.t DAGNode :=
  fold_left (fun m' '(id, r) => Shaka.markNode m' id r) l m.

Inductive Step :=
| Done                      (* [isDAGComplete]: the [while] test fails *)
| Deadlock (dag : TaskDAG)  (* empty ready set: [break] *)
| Batch (dispatched : list Dispatch) (dag : TaskDAG).

(** One evaluation of the loop test and body. *)
Definition iteration (batch : nat) (tasks : list SatelliteTask) (dag : TaskDAG) : Step :=
  if Shaka.isDAGComplete dag then Done
  else
    let '(readyNodes, dag1) := Shaka.getReadyTasks dag in
    match readyNodes with
    | [] => Deadlock dag1
    | _ =>
        let '(ds, m2) := startExecutions batch tasks readyNodes (nodes dag1) in
        let m3 := settleExecutions
                    (reorder (settle batch) (map (fun d => (d_node d, d_result d)) ds)) m2 in
        Batch ds (mkDAG m3 (rootNodes dag1) (leafNodes dag1))
    end.

(** The [while] loop, with a bound on the number of iterations; [None]
    means the bound was reached with the loop still running. *)
Fixpoint executeLoop (fuel batch : nat) (tasks : list SatelliteTask) (dag : TaskDAG)
    (results : list SatelliteResult) : option (list SatelliteResult * TaskDAG) :=
  match fuel with
  | 0 => None
  | S fuel' =>
      match iteration batch tasks dag with
      | Done => Some (results, dag)
      | Deadlock dag1 => Some (results, dag1)
      | Batch ds dag1 =>
          executeLoop fuel' (S batch) tasks dag1 (results ++ map d_result ds)
      end
  end.

Definition executePlan (fuel : nat) (plan : ExecutionPlan)
    : option (list SatelliteResult * TaskDAG) :=
  executeLoop fuel 0 (plan_tasks plan) (plan_dag plan) [].

(** The graph at the head of the loop after [n] completed iterations
    (it stays put once the loop has exited). *)
Fixpoint loopState (n : nat) (batch : nat) (tasks : list SatelliteTask) (dag : TaskDAG)
    : TaskDAG :=
  match n with
  | 0 => dag
  | S n' =>
      match iteration batch tasks dag with
      | Batch _ dag1 => loopState n' (S batch) tasks dag1
      | _ => dag
      end
  end.

(** The nodes dispatched in the first [n] iterations, in dispatch order
    (a ghost trace of the [satellite.execute] calls). *)
Fixpoint dispatchTrace (n : nat) (batch : nat) (tasks : list SatelliteTask) (dag : TaskDAG)
    : list string :=
  match n with
  | 0 => []
  | S n' =>
      match iteration batch tasks dag with
      | Batch ds dag1 => map d_node ds ++ dispatchTrace n' (S batch) tasks dag1
      | _ => []
      end
  end.

(** *** The plan that reaches [executePlan] *)

(** [processRequest], the only caller of [executePlan], passes
    [JSON.parse(planResult.output)], and [shaka.execute] wrote that output
    with [JSON.stringify(plan)]. A [Map] has no enumerable property of its
    own: [JSON.stringify] writes [plan.dag.nodes] as [{}], whatever its
    entries, and [JSON.parse] reads an empty plain object back; strings,
    numbers and arrays come back as they were. What [dag.nodes] can
    hold: *)
Inductive NodesValue :=
| mapValue (m : JSMap.t DAGNode)
| plainObject.

Record ParsedPlan := mkParsedPlan {
  pp_id : string;
  pp_userIntent : string;
  pp_tasks : list SatelliteTask;
  pp_nodes : NodesValue;
  pp_rootNodes : list string;
  pp_leafNodes : list string
}.

(** [JSON.parse(JSON.stringify(plan))] *)
Definition jsonRoundTrip (plan : ExecutionPlan) : ParsedPlan :=
  mkParsedPlan (plan_id plan) (userIntent plan) (plan_tasks plan) plainObject
               (rootNodes (plan_dag plan)) (leafNodes (plan_dag plan)).

(** [executePlan] on the plan it is handed. The loop test comes first,
    and [isDAGComplete] starts with [dag.nodes.forEach(...)]: on a plain
    object [forEach] is [undefined], and the call throws. *)
Definition executeParsedPlan (fuel : nat) (plan : ParsedPlan)
    : option (Completion (list SatelliteResult * TaskDAG)) :=
  match pp_nodes plan with
  | plainObject => Some (Throw "TypeError: dag.nodes.forEach is not a function")
  | mapValue m =>
      match executeLoop fuel 0 (pp_tasks plan)
              (mkDAG m (pp_rootNodes plan) (pp_leafNodes plan)) [] with
      | Some out => Some (Return out)
      | None => None
      end
  end.

(** *** processRequest *)

Record Critique := mkCritique {
  c_score : Z;
  c_approved : bool
}.

(** The state the satellites keep for themselves (York's history, the
    store, ...) is opaque to the mesh and threaded through their calls. *)
Variable World : Type.
Variable addConversationTurn : World -> string -> string -> World.
(** [shaka.execute(planTask)] catches its own errors and always returns a
    result. *)
Variable shakaExecute : World -> string -> SatelliteResult * World.
(** [JSON.parse(planResult.output)] as a plan the loop can walk; [Throw]
    stands for the [SyntaxError] of the parse, or for the [TypeError] that
    the first use of a graph raises when it did not survive the
    serialisation. *)
Variable parsePlan : string -> Completion ExecutionPlan.
Variable lilithCritique : World -> string -> Completion Critique * World.
Variable synthesizeResults : World -> TaskDAG -> string -> Completion string * World.

Record MeshState := mkMesh {
  isProcessing : bool;
  activePlan : option ExecutionPlan;
  world : World
}.

Definition qualityNote (score : Z) : string :=
  String "010" (String "010" "") +:+ "Quality Note: Some issues were detected (score: "
    +:+ pretty score +:+ "/100)".

(** [results.map(r => r.output).join('\n\n')] *)
Definition joinOutputs (results : list SatelliteResult) : string :=
  String.concat (String "010" (String "010" "")) (map r_output results).

(** The [try] block. The result carries the mesh state when the block is
    left and (ghost) the mesh states at its suspension points; [None]
    means that [executePlan] did not come back within [fuel] iterations. *)
Definition requestBody (fuel : nat) (st : MeshState) (userInput : string)
    : option (Completion string * MeshState * list MeshState) :=
  let w1 := addConversationTurn (world st) "user" userInput in
  let st1 := mkMesh (isProcessing st) (activePlan st) w1 in
  let '(planResult, w2) := shakaExecute w1 userInput in
  let st2 := mkMesh (isProcessing st) (activePlan st) w2 in
  if negb (r_success planResult)
  then Some (Throw ("Planning failed: " +:+ default "undefined" (r_error planResult)),
             st2, [st1])
  else
    match parsePlan (r_output planResult) with
    | Throw e => Some (Throw e, st2, [st1])
    | Return plan =>
        let st3 := mkMesh (isProcessing st) (Some plan) w2 in
        match executePlan fuel plan with
        | None => None
        | Some (results, dag) =>
            let '(critique, w3) := lilithCritique w2 (joinOutputs results) in
            let st4 := mkMesh (isProcessing st) (Some plan) w3 in
            match critique with
            | Throw e => Some (Throw e, st4, [st1; st3; st3])
            | Return c =>
                let '(synth, w4) := synthesizeResults w3 dag userInput in
                let st5 := mkMesh (isProcessing st) (Some plan) w4 in
                match synth with
                | Throw e => Some (Throw e, st5, [st1; st3; st3; st4])
                | Return response0 =>
                    let response :=
                      if negb (c_approved c)
                      then response0 +:+ qualityNote (c_score c)
                      else response0 in
                    let w5 := addConversationTurn w4 "assistant" response in
                    Some (Return response, mkMesh (isProcessing st) (Some plan) w5,
                          [st1; st3; st3; st4])
                end
            end
        end
    end.

(** [processRequest]: the guard, the flag, [try]/[catch] (which rethrows)
    and [finally]. *)
Definition processRequest (fuel : nat) (st : MeshState) (userInput : string)
    : option (Completion string * MeshState * list MeshState) :=
  if isProcessing st
  then Some (Throw "Already processing a request", st, [])
  else
    let st0 := mkMesh true (activePlan st) (world st) in
    match requestBody fuel st0 userInput with
    | None => None
    | Some (outcome, st1, inFlight) =>
        Some (outcome, mkMesh false None (world st1), inFlight)
    end.

End Scheduler.
End AgentMesh.

(* ===================================================================== *)
(** ** JavaScript string helpers *)
(* ===================================================================== *)

Module JS.

(** Truthiness of a string: non-empty. *)
Definition truthy (s : string) : bool := negb (String.eqb s "").

Definition len (s : string) : Z := Z.of_nat (String.length s).

(** [s.split(sep)] for a non-empty separator: scan left to right, cut at
    every occurrence and skip over it ([skip] counts the characters of
    the separator still to be skipped). *)
Fixpoint split_go (sep : string) (skip : nat) (cur : string) (s : string)
    : list string :=
  match s with
  | EmptyString => [cur]
  | String c s' =>
      match skip with
      | S k => split_go sep k cur s'
      | O =>
          if String.prefix sep s
          then cur :: split_go sep (String.length sep - 1) "" s'
          else split_go sep 0 (cur +:+ String c "") s'
      end
  end.

Fixpoint chars (s : string) : list string :=
  match s with
  | EmptyString => []
  | String c s' => String c "" :: chars s'
  end.

(** [s.split(sep)]; the empty separator splits into single characters. *)
Definition split (sep : string) (s : string) : list string :=
  if String.eqb sep "" then chars s else split_go sep 0 "" s.

(** [s.includes(pat)] *)
Fixpoint includes (s pat : string) : bool :=
  String.prefix pat s
  || match s with
     | EmptyString => false
     | String _ s' => includes s' pat
     end.

(** [s.slice(-k)] for a positive count [k]: the last [k] characters, the
    whole string when it is shorter. *)
Definition slice_last (k : nat) (s : string) : string :=
  String.substring (String.length s - k) k s.

(** [ls.join("")] *)
Definition join (ls : list string) : string := String.concat "" ls.

Fixpoint repeat (c : ascii) (n : nat) : string :=
  match n with
  | O => EmptyString
  | S n' => String c (repeat c n')
  end.

(** [Math.round(n / d)] for integers [n] and [d > 0]: the nearest
    integer, a half rounded up. *)
Definition roundDiv (n d : Z) : Z := ((2 * n + d) / (2 * d))%Z.

(** [l.slice(start)] on an array, for an integer [start]: a negative one
    counts from the end, and both ends are clamped. *)
Definition sliceFrom {A : Type} (start : Z) (l : list A) : list A :=
  let n := Z.of_nat (length l) in
  let k := if (start <? 0)%Z then Z.max (n + start) 0 else Z.min start n in
  drop (Z.to_nat k) l.

(** [l.sort((a, b) => score(b) - score(a))]: descending and stable, an
    element moves only past strictly higher scores. *)
Fixpoint insertDescBy {A : Type} (score : A -> Q) (x : A) (l : list A) : list A :=
  match l with
  | [] => [x]
  | y :: l' =>
      if Qle_bool (score y) (score x) then x :: l else y :: insertDescBy score x l'
  end.

Definition sortDescBy {A : Type} (score : A -> Q) (l : list A) : list A :=
  foldr (insertDescBy score) [] l.

End JS.

(* ===================================================================== *)
(** ** The hybrid store (PunkRecords) *)
(* ===================================================================== *)

Inductive MatchType := semantic | keyword | hybrid.

Record DocumentMetadata := mkMeta {
  md_source : string;
  md_type : string;
  md_title : option string;
  md_tags : list string
}.

Record PunkDocument := mkDoc {
  doc_id : string;
  doc_content : string;
  doc_metadata : DocumentMetadata;
  doc_embedding : option (list Q);
  doc_createdAt : Z;
  doc_updatedAt : Z
}.

Record SearchResult := mkSR {
  sr_document : PunkDocument;
  sr_score : Q;
  sr_matchType : MatchType
}.

Record ChunkConfig := mkChunkConfig {
  chunkSize : Z;
  chunkOverlap : Z;
  separator : option string
}.

Record SearchOptions := mkOptions {
  o_limit : option nat;
  o_threshold : option Q;
  o_searchMode : option MatchType;
  o_semanticWeight : option Q
}.

(** An entry handed to the vector engine ([new Voy({ embeddings })]). *)
Record VoyEntry := mkEntry {
  e_id : string;
  e_title : string;
  e_url : string;
  e_embeddings : list Q
}.

Record Neighbor := mkNeighbor {
  nb_id : string;
  nb_distance : Q
}.

Module PunkRecords.

(** *** chunkText *)

Definition pushIf (cur : string) (chunks : list string) : list string :=
  if JS.truthy cur then chunks ++ [cur] else chunks.

(** Inner loop: [for (const word of words)]. *)
Definition wordStep (size : Z) (acc : list string * string) (word : string)
    : list string * string :=
  let '(chunks, cur) := acc in
  if (JS.len (cur +:+ " " +:+ word) <=? size)%Z
  then (chunks, cur +:+ (if JS.truthy cur then " " else "") +:+ word)
  else (pushIf cur chunks, word).

(** Outer loop: [for (const segment of segments)]. *)
Definition segmentStep (size : Z) (sep : string) (acc : list string * string)
    (segment : string) : list string * string :=
  let '(chunks, cur) := acc in
  if (JS.len (cur +:+ segment) <=? size)%Z
  then (chunks, cur +:+ (if JS.truthy cur then sep else "") +:+ segment)
  else
    let chunks1 := pushIf cur chunks in
    if (JS.len segment >? size)%Z
    then fold_left (wordStep size) (JS.split " " segment) (chunks1, "")
    else (chunks1, segment).

(** The overlap pass: every chunk but the first is prefixed with the tail
    of its predecessor and a space. *)
Fixpoint addOverlap (k : nat) (prev : option string) (chunks : list string)
    : list string :=
  match chunks with
  | [] => []
  | c :: rest =>
      match prev with
      | None => c
      | Some p => JS.slice_last k p +:+ " " +:+ c
      end :: addOverlap k (Some c) rest
  end.

Definition chunkText (text : string) (config : ChunkConfig) : list string :=
  let size := chunkSize config in
  let sep := default (String "010" (String "010" "")) (separator config) in
  let '(chunks0, cur) :=
    fold_left (segmentStep size sep) (JS.split sep text) ([], "") in
  let chunks := pushIf cur chunks0 in
  if (chunkOverlap config >? 0)%Z && (1 <? length chunks)
  then addOverlap (Z.to_nat (chunkOverlap config)) None chunks
  else chunks.

(** *** The store *)

Record State := mkState {
  db : gmap string PunkDocument;       (* IndexedDB store 'documents', keyed by id *)
  flexIndex : list PunkDocument;       (* documents handed to the keyword engine *)
  voyIndex : option (list VoyEntry);   (* the embeddings the vector engine was built from *)
  initialized : bool
}.

Definition newStore (persisted : gmap string PunkDocument) : State :=
  mkState persisted [] None false.

(** [x || fallback] on an optional string. *)
Definition orElse (x : option string) (fallback : string) : string :=
  match x with
  | Some s => if JS.truthy s then s else fallback
  | None => fallback
  end.

Definition entryOf (doc : PunkDocument) (emb : list Q) : VoyEntry :=
  mkEntry (doc_id doc) (orElse (md_title (doc_metadata doc)) (doc_id doc))
          (orElse (Some (md_source (doc_metadata doc))) "") emb.

(** [getAllEmbeddings()]: "a workaround since Voy doesn't expose its
    internal embeddings". *)
Definition getAllEmbeddings (st : State) : list VoyEntry := [].

(** [initialize] with [loadExistingDocuments]. *)
Definition initialize (st : State) : State :=
  if initialized st then st
  else
    let documents := (map_to_list (db st)).*2 in
    let embeddings :=
      omap (fun doc => entryOf doc <$> doc_embedding doc) documents in
    mkState (db st) (flexIndex st ++ documents)
            (if 0 <? length embeddings then Some embeddings else Some [])
            true.

(** [getDocument] *)
Definition getDocument (st : State) (id : string) : option PunkDocument * State :=
  let st0 := initialize st in
  (db st0 !! id, st0).

(** [deleteDocument]: only the stored record goes ("FlexSearch and Voy
    would need to be rebuilt for full deletion"). *)
Definition deleteDocument (st : State) (id : string) : State :=
  let st0 := initialize st in
  mkState (delete id (db st0)) (flexIndex st0) (voyIndex st0) true.

Section Engines.

(** The embedder; [None] stands for a thrown error. *)
Variable generateEmbedding : string -> option (list Q).
(** [voyIndex.search(queryEmbedding, limit)]. *)
Variable voySearch : list VoyEntry -> list Q -> nat -> list Neighbor.
(** [flexIndex.search(query, { limit, enrich })]: per indexed field, the
    matching documents; [None] stands for a thrown error. *)
Variable flexSearch : list PunkDocument -> string -> nat -> option (list (list PunkDocument)).

Definition addDocument (st : State) (content : string) (metadata : DocumentMetadata)
    (wantEmbedding : bool) (uuid : string) (now : Z) : PunkDocument * State :=
  let st0 := initialize st in
  let emb := if wantEmbedding then generateEmbedding content else None in
  let doc := mkDoc uuid content metadata emb now now in
  let db1 := <[uuid := doc]> (db st0) in
  let flex1 := flexIndex st0 ++ [doc] in
  let voy1 :=
    match emb with
    | Some e => Some (getAllEmbeddings st0 ++ [entryOf doc e])
    | None => voyIndex st0
    end in
  (doc, mkState db1 flex1 voy1 true).

Definition semanticSearch (st : State) (query : string) (limit : nat)
    : list SearchResult * State :=
  let st0 := initialize st in
  match generateEmbedding query, voyIndex st0 with
  | Some q, Some index =>
      (omap (fun nb =>
               match db st0 !! nb_id nb with
               | Some doc => Some (mkSR doc (1 - nb_distance nb)%Q semantic)
               | None => None
               end) (voySearch index q limit), st0)
  | _, _ => ([], st0)
  end.

(** The duplicate-avoiding accumulation of [keywordSearch]. *)
Definition keywordStep (acc : list SearchResult) (doc : PunkDocument) : list SearchResult :=
  if existsb (fun r => String.eqb (doc_id (sr_document r)) (doc_id doc)) acc
  then acc
  else acc ++ [mkSR doc (1 / inject_Z (Z.of_nat (length acc + 1)))%Q keyword].

Definition keywordSearch (st : State) (query : string) (limit : nat)
    : list SearchResult * State :=
  let st0 := initialize st in
  match flexSearch (flexIndex st0) query limit with
  | Some fields => (take limit (fold_left keywordStep (concat fields) []), st0)
  | None => ([], st0)
  end.

Definition weigh (w : Q) (r : SearchResult) : SearchResult :=
  mkSR (sr_document r) (sr_score r * w)%Q hybrid.

Definition addScore (x : Q) (r : SearchResult) : SearchResult :=
  mkSR (sr_document r) (sr_score r + x)%Q (sr_matchType r).

Definition addSemantic (w : Q) (m : JSMap.t SearchResult) (r : SearchResult) :=
  JSMap.set (doc_id (sr_document r)) (weigh w r) m.

Definition addKeyword (kw : Q) (m : JSMap.t SearchResult) (r : SearchResult) :=
  let id := doc_id (sr_document r) in
  match JSMap.get m id with
  | Some _ => JSMap.update id (addScore (sr_score r * kw)%Q) m
  | None => JSMap.set id (weigh kw r) m
  end.

(** [combinedMap] after both loops. *)
Definition combine (semanticWeight : Q) (sem kws : list SearchResult)
    : JSMap.t SearchResult :=
  let m := fold_left (addSemantic semanticWeight) sem JSMap.empty in
  let keywordWeight := (1 - semanticWeight)%Q in
  fold_left (addKeyword keywordWeight) kws m.

(** [(a, b) => b.score - a.score] under the (stable) [Array.sort]: an
    element moves only past strictly higher scores. *)
Fixpoint insertDesc (x : SearchResult) (l : list SearchResult) : list SearchResult :=
  match l with
  | [] => [x]
  | y :: l' =>
      if Qle_bool (sr_score y) (sr_score x) then x :: l else y :: insertDesc x l'
  end.

Definition sortDesc (l : list SearchResult) : list SearchResult :=
  foldr insertDesc [] l.

Definition rank (threshold : Q) (limit : nat) (l : list SearchResult) : list SearchResult :=
  take limit (sortDesc (List.filter (fun r => Qle_bool threshold (sr_score r)) l)).

Definition search (st : State) (query : string) (options : SearchOptions)
    : list SearchResult * State :=
  let limit := default 10 (o_limit options) in
  let threshold := default 0%Q (o_threshold options) in
  let searchMode := default hybrid (o_searchMode options) in
  let semanticWeight := default (7 # 10)%Q (o_semanticWeight options) in
  match searchMode with
  | semantic => semanticSearch st query limit
  | keyword => keywordSearch st query limit
  | hybrid =>
      let '(semanticResults, st1) := semanticSearch st query (limit * 2) in
      let '(keywordResults, st2) := keywordSearch st1 query (limit * 2) in
      (rank threshold limit
         (JSMap.values (combine semanticWeight semanticResults keywordResults)), st2)
  end.

End Engines.
End PunkRecords.

(* ===================================================================== *)
(** ** JavaScript numbers: IEEE 754 binary64 *)
(* ===================================================================== *)

Module Number.

Definition t : Type := spec_float.

Definition prec : Z := 53.
Definition emax : Z := 1024.

(** An integer literal, or an integer value such as [array.length + 1]. *)
Definition ofZ (z : Z) : t := binary_normalize prec emax z 0 false.

Definition zero : t := S754_zero false.
Definition one : t := ofZ 1.

Definition add : t -> t -> t := SFadd prec emax.
Definition sub : t -> t -> t := SFsub prec emax.
Definition mul : t -> t -> t := SFmul prec emax.
Definition div : t -> t -> t := SFdiv prec emax.

(** [x >= y] and [x > 0]; both are false when NaN is involved. *)
Definition geb (x y : t) : bool := SFleb y x.
Definition positive (x : t) : bool := SFltb zero x.

(** [x || 0]: the zeros and NaN are falsy. *)
Definition orZero (x : t) : t :=
  match x with
  | S754_zero _ | S754_nan => zero
  | _ => x
  end.

(** The literal [0.7]: 0x3FE6666666666666. *)
Definition seven_tenths : t := S754_finite false 6305039478318694 (-53).

End Number.

(* ===================================================================== *)
(** ** The hybrid search in double precision (PunkRecords) *)
(* ===================================================================== *)

(** [PunkRecords.search] computes its scores with JavaScript numbers.
    The module [PunkRecords] above keeps a score as a rational, which is
    all that the facts about documents, ids and positions need; here are
    [semanticSearch], [keywordSearch] and [search] once more, over the
    same store, with every score the double the program computes. *)
Module HybridSearch.

Record SearchResult := mkSR {
  hr_document : PunkDocument;
  hr_score : Number.t;
  hr_matchType : MatchType
}.

Record SearchOptions := mkOptions {
  ho_limit : option nat;
  ho_threshold : option Number.t;
  ho_searchMode : option MatchType;
  ho_semanticWeight : option Number.t
}.

Record Neighbor := mkNeighbor {
  hn_id : string;
  hn_distance : Number.t
}.

Section Engines.

(** The embedder; [None] stands for a thrown error. *)
Variable generateEmbedding : string -> option (list Q).
(** [voyIndex.search(queryEmbedding, limit)]. *)
Variable voySearch : list VoyEntry -> list Q -> nat -> list Neighbor.
(** [flexIndex.search(query, { limit, enrich })]: per indexed field, the
    matching documents; [None] stands for a thrown error. *)
Variable flexSearch : list PunkDocument -> string -> nat -> option (list (list PunkDocument)).

Definition semanticSearch (st : PunkRecords.State) (query : string) (limit : nat)
    : list SearchResult * PunkRecords.State :=
  let st0 := PunkRecords.initialize st in
  match generateEmbedding query, PunkRecords.voyIndex st0 with
  | Some q, Some index =>
      (omap (fun nb =>
               match PunkRecords.db st0 !! hn_id nb with
               | Some doc =>
                   Some (mkSR doc (Number.sub Number.one (Number.orZero (hn_distance nb)))
                              semantic)
               | None => None
               end) (voySearch index q limit), st0)
  | _, _ => ([], st0)
  end.

(** The duplicate-avoiding accumulation of [keywordSearch]. *)
Definition keywordStep (acc : list SearchResult) (doc : PunkDocument) : list SearchResult :=
  if existsb (fun r => String.eqb (doc_id (hr_document r)) (doc_id doc)) acc
  then acc
  else acc ++ [mkSR doc (Number.div Number.one (Number.ofZ (Z.of_nat (length acc + 1))))
                    keyword].

Definition keywordSearch (st : PunkRecords.State) (query : string) (limit : nat)
    : list SearchResult * PunkRecords.State :=
  let st0 := PunkRecords.initialize st in
  match flexSearch (PunkRecords.flexIndex st0) query limit with
  | Some fields => (take limit (fold_left keywordStep (concat fields) []), st0)
  | None => ([], st0)
  end.

(** [{ ...result, score: result.score * weight, matchType: 'hybrid' }] *)
Definition weigh (weight : Number.t) (r : SearchResult) : SearchResult :=
  mkSR (hr_document r) (Number.mul (hr_score r) weight) hybrid.

(** [existing.score += x] *)
Definition addScore (x : Number.t) (r : SearchResult) : SearchResult :=
  mkSR (hr_document r) (Number.add (hr_score r) x) (hr_matchType r).

Definition addSemantic (semanticWeight : Number.t) (m : JSMap.t SearchResult)
    (r : SearchResult) : JSMap.t SearchResult :=
  JSMap.set (doc_id (hr_document r)) (weigh semanticWeight r) m.

Definition addKeyword (keywordWeight : Number.t) (m : JSMap.t SearchResult)
    (r : SearchResult) : JSMap.t SearchResult :=
  let id := doc_id (hr_document r) in
  match JSMap.get m id with
  | Some _ => JSMap.update id (addScore (Number.mul (hr_score r) keywordWeight)) m
  | None => JSMap.set id (weigh keywordWeight r) m
  end.

(** [combinedMap] after both loops. *)
Definition combine (semanticWeight : Number.t) (sem kws : list SearchResult)
    : JSMap.t SearchResult :=
  let m := fold_left (addSemantic semanticWeight) sem JSMap.empty in
  let keywordWeight := Number.sub Number.one semanticWeight in
  fold_left (addKeyword keywordWeight) kws m.

(** The comparator [(a, b) => b.score - a.score]. *)
Definition compareScores (a b : SearchResult) : Number.t :=
  Number.sub (hr_score b) (hr_score a).

(** The (stable) [Array.sort] under that comparator: an element moves
    only past those the comparator puts strictly before it, which is a
    positive answer; NaN counts as zero. *)
Fixpoint insertDesc (x : SearchResult) (l : list SearchResult) : list SearchResult :=
  match l with
  | [] => [x]
  | y :: l' =>
      if Number.positive (compareScores x y) then y :: insertDesc x l' else x :: l
  end.

Definition sortDesc (l : list SearchResult) : list SearchResult :=
  foldr insertDesc [] l.

(** [.filter(r => r.score >= threshold).sort(...).slice(0, limit)] *)
Definition rank (threshold : Number.t) (limit : nat) (l : list SearchResult)
    : list SearchResult :=
  take limit (sortDesc (List.filter (fun r => Number.geb (hr_score r) threshold) l)).

Definition search (st : PunkRecords.State) (query : string) (options : SearchOptions)
    : list SearchResult * PunkRecords.State :=
  let limit := default 10 (ho_limit options) in
  let threshold := default Number.zero (ho_threshold options) in
  let searchMode := default hybrid (ho_searchMode options) in
  let semanticWeight := default Number.seven_tenths (ho_semanticWeight options) in
  match searchMode with
  | semantic => semanticSearch st query limit
  | keyword => keywordSearch st query limit
  | hybrid =>
      let '(semanticResults, st1) := semanticSearch st query (limit * 2) in
      let '(keywordResults, st2) := keywordSearch st1 query (limit * 2) in
      (rank threshold limit
         (JSMap.values (combine semanticWeight semanticResults keywordResults)), st2)
  end.

End Engines.
End HybridSearch.

(* ===================================================================== *)
(** ** The tool executor's retry loop (Atlas) *)
(* ===================================================================== *)

Record MCPToolResult := mkToolResult {
  tr_success : bool;
  tr_content : option string;
  tr_error : option string
}.

(* ===================================================================== *)
(** ** The MCP client (src/services/mcp-client.ts) *)
(* ===================================================================== *)

Module MCPBrowserClient.

Inductive MCPConnectionStatus := disconnected | connecting | connected | error.

Definition status_eqb (a b : MCPConnectionStatus) : bool :=
  match a, b with
  | disconnected, disconnected | connecting, connecting
  | connected, connected | error, error => true
  | _, _ => false
  end.

(** [MCPSession]; tools, resources and prompts by name (the capability
    flags are computed from them). *)
Record MCPSession := mkSession {
  sessionId : string;
  serverUrl : string;
  session_connected : bool;
  session_tools : list string;
  session_resources : list string;
  session_prompts : list string
}.

(** The client's fields.  [transport] says whether the field is set;
    [connects] and [waits] are ghost fields: the calls of the SDK's
    [connect] made so far and the delays slept before a retry, in order. *)
Record State := mkClient {
  transport : bool;
  session : option MCPSession;
  connectionStatus : MCPConnectionStatus;
  retryCount : Z;
  connects : nat;
  waits : list Z
}.

Definition maxRetries : Z := 3.

Definition new : State := mkClient false None disconnected 0 0 [].

Definition isConnected (st : State) : bool :=
  status_eqb (connectionStatus st) connected
  && match session st with Some _ => true | None => false end.

Definition getTools (st : State) : list string :=
  match session st with Some s => session_tools s | None => [] end.

Section Connect.

(** [new URL(serverConfig.url)]: fine, or a thrown error. *)
Variable parseUrl : Completion unit.
Variable url : string.
(** The SDK's [connect] on its n-th call, then the three listings (each
    catches its own errors and answers the empty list): a thrown error of
    [connect], or the listed tools, resources and prompts. *)
Variable clientConnect : nat -> Completion (list string * list string * list string).
Variable generateSessionId : nat -> string.
(** [transport.close()] *)
Variable transportClose : Completion unit.

Definition withStatus (st : State) (status : MCPConnectionStatus) : State :=
  mkClient (transport st) (session st) status (retryCount st) (connects st) (waits st).

(** [connect]; the retry is the recursive call [return this.connect()],
    [None] when [fuel] calls were not enough. *)
Fixpoint connect (fuel : nat) (st : State) : option (Completion unit * State) :=
  match fuel with
  | O => None
  | S fuel' =>
      if status_eqb (connectionStatus st) connected then Some (Return tt, st)
      else
        let st1 := withStatus st connecting in
        let attempt :=
          match parseUrl with
          | Throw e => (Throw e, st1)
          | Return _ =>
              (clientConnect (connects st1),
               mkClient true (session st1) (connectionStatus st1) (retryCount st1)
                        (S (connects st1)) (waits st1))
          end in
        match attempt with
        | (Return (tools, resources, prompts), st2) =>
            Some (Return tt,
                  mkClient (transport st2)
                    (Some (mkSession (generateSessionId (connects st2)) url true
                                     tools resources prompts))
                    connected 0 (connects st2) (waits st2))
        | (Throw e, st2) =>
            let st3 := withStatus st2 error in
            if (retryCount st3 <? maxRetries)%Z then
              let retryCount1 := (retryCount st3 + 1)%Z in
              let delay := Z.min (1000 * 2 ^ retryCount1) 10000 in
              connect fuel'
                (mkClient (transport st3) (session st3) (connectionStatus st3)
                          retryCount1 (connects st3) (waits st3 ++ [delay]))
            else Some (Throw ("Failed to connect to MCP server: " +:+ e), st3)
        end
  end.

Definition disconnect (st : State) : State :=
  if transport st then
    match transportClose with
    | Return _ => mkClient false None disconnected (retryCount st) (connects st) (waits st)
    | Throw _ => st
    end
  else st.

End Connect.

Section Calls.

(** [Record<string, unknown>] *)
Variable Args : Type.
(** The SDK's answer to [callTool]. *)
Variable Raw : Type.
Variable clientCallTool : string -> Args -> Completion Raw.
Variable isError : Raw -> bool.
(** Reading the content off the answer (its first text entry parsed as
    JSON, the text itself when that fails, no content for an empty
    answer); a thrown error lands in the same [catch] as the call's. *)
Variable parseContent : Raw -> Completion (option string).

Definition callTool (st : State) (toolName : string) (arguments : Args)
    : Completion MCPToolResult :=
  if negb (match session st with Some s => session_connected s | None => false end)
  then Throw "Not connected to MCP server"
  else
    match clientCallTool toolName arguments with
    | Return result =>
        match parseContent result with
        | Return content => Return (mkToolResult (negb (isError result)) content None)
        | Throw e => Return (mkToolResult false None (Some e))
        end
    | Throw e => Return (mkToolResult false None (Some e))
    end.

End Calls.
End MCPBrowserClient.

Module Atlas.
Section Retry.

(** [Record<string, unknown>] *)
Variable Args : Type.

Record ToolExecutionRequest := mkRequest {
  toolName : string;
  arguments : Args;
  retryCount : Z;
  maxRetries : Z;
  timeout : Z
}.

(** The result; [x_delays] and [x_errors] are ghost fields recording the
    back-off waits and the messages of the thrown errors, in order. *)
Record ToolExecutionResult := mkExecResult {
  x_success : bool;
  x_output : option string;
  x_error : option string;
  x_attempts : Z;
  x_delays : list Z;
  x_errors : list string
}.

(** [callTool] on the given attempt: a result, or a thrown error with its
    message. *)
Variable callTool : Z -> string -> Args -> MCPToolResult + string.
(** The generator-assisted repair of the arguments: the repaired
    arguments, none ([null]), or the error the generator throws (the call
    of the generator is outside the function's [try]). *)
Variable attemptParameterFix : string -> Args -> string -> Completion (option Args).

Definition analyzeErrorForRetry (error : string) (attempt maxRetries : Z) : bool :=
  if (attempt >=? maxRetries)%Z then false
  else if JS.includes error "500" || JS.includes error "502" || JS.includes error "503"
  then true
  else if JS.includes error "timeout" || JS.includes error "ETIMEDOUT"
  then true
  else if JS.includes error "ECONNREFUSED" || JS.includes error "ENOTFOUND"
  then true
  else if JS.includes error "429" || JS.includes error "rate limit"
  then true
  else if JS.includes error "400" || JS.includes error "401" || JS.includes error "403"
  then false
  else true.

Definition lowerChar (c : ascii) : ascii :=
  let n := nat_of_ascii c in
  if (65 <=? n) && (n <=? 90) then ascii_of_nat (n + 32) else c.

Fixpoint toLowerCase (s : string) : string :=
  match s with
  | EmptyString => EmptyString
  | String c s' => String (lowerChar c) (toLowerCase s')
  end.

Definition isParameterError (error : string) : bool :=
  existsb (fun p => JS.includes (toLowerCase error) (toLowerCase p))
    ["invalid parameter"; "missing required"; "type error";
     "validation failed"; "invalid argument"].

(** [Math.min(1000 * Math.pow(2, attempt - 1), 10000)] *)
Definition backoff (attempt : Z) : Z := Z.min (1000 * 2 ^ (attempt - 1)) 10000.

Definition failure (lastError : option string) (attempt : Z)
    (delays : list Z) (errors : list string) : ToolExecutionResult :=
  mkExecResult false None
    (Some (match lastError with
           | Some e => if JS.truthy e then e else "Unknown error"
           | None => "Unknown error"
           end))
    attempt delays errors.

(** The [while (attempt <= request.maxRetries)] loop; [None] when [fuel]
    iterations were not enough. An error of [attemptParameterFix] is
    thrown inside the [catch] block and leaves the function. *)
Fixpoint retryLoop (fuel : nat) (request : ToolExecutionRequest) (attempt : Z)
    (lastError : option string) (delays : list Z) (errors : list string)
    : option (Completion ToolExecutionResult) :=
  match fuel with
  | O => None
  | S fuel' =>
      if (attempt <=? maxRetries request)%Z then
        let attempt1 := (attempt + 1)%Z in
        match callTool attempt1 (toolName request) (arguments request) with
        | inl result =>
            Some (Return (mkExecResult (tr_success result) (tr_content result)
                            (tr_error result) attempt1 delays errors))
        | inr message =>
            let errors1 := errors ++ [message] in
            if negb (analyzeErrorForRetry message attempt1 (maxRetries request))
            then Some (Return (failure (Some message) attempt1 delays errors1))
            else
              let delays1 := delays ++ [backoff attempt1] in
              if isParameterError message then
                match attemptParameterFix (toolName request) (arguments request) message with
                | Throw e => Some (Throw e)
                | Return (Some fixedArgs) =>
                    retryLoop fuel'
                      (mkRequest (toolName request) fixedArgs (retryCount request)
                                 (maxRetries request) (timeout request))
                      attempt1 (Some message) delays1 errors1
                | Return None =>
                    retryLoop fuel' request attempt1 (Some message) delays1 errors1
                end
              else retryLoop fuel' request attempt1 (Some message) delays1 errors1
        end
      else Some (Return (failure lastError attempt delays errors))
  end.

Definition executeToolWithRetry (request : ToolExecutionRequest)
    : option (Completion ToolExecutionResult) :=
  retryLoop (S (Z.to_nat (maxRetries request + 1))) request 0 None [] [].

(** The request [parseToolRequest] builds for the tool and the arguments
    the generator named; [execute] passes it on as it is, and no request
    is built anywhere else. *)
Definition toolRequest (toolName : string) (arguments : Args) : ToolExecutionRequest :=
  mkRequest toolName arguments 0 3 30000.

End Retry.

(** One entry of [executionHistory]. *)
Record Execution := mkExecution {
  e_toolName : string;
  e_success : bool;
  e_duration : Z;
  e_timestamp : Z
}.

Definition recordExecution (executionHistory : list Execution)
    (toolName : string) (success : bool) (duration now : Z) : list Execution :=
  let pushed := executionHistory ++ [mkExecution toolName success duration now] in
  if 100 <? length pushed then JS.sliceFrom (-100) pushed else pushed.

Record ExecutionStats := mkExecutionStats {
  totalExecutions : nat;
  successRate : Q;
  averageDuration : Q
}.

Definition getExecutionStats (executionHistory : list Execution) : ExecutionStats :=
  if length executionHistory =? 0 then mkExecutionStats 0 0 0
  else
    let total := length executionHistory in
    let successful := length (List.filter e_success executionHistory) in
    let totalDuration :=
      fold_left (fun sum e => (sum + e_duration e)%Z) executionHistory 0%Z in
    mkExecutionStats total
      (inject_Z (Z.of_nat successful) / inject_Z (Z.of_nat total))
      (inject_Z totalDuration / inject_Z (Z.of_nat total)).

Section Tools.

Variable Args : Type.
Variable Raw : Type.
Variable clientCallTool : string -> Args -> Completion Raw.
Variable isError : Raw -> bool.
Variable parseContent : Raw -> Completion (option string).
(** The lookup [builtInTools[toolName]] and what calling the entry found
    does: it returns its (serialised) result or throws. *)
Variable builtInTools : string -> option (Args -> Completion string).

Definition executeBuiltInTool (toolName : string) (args : Args) : MCPToolResult :=
  match builtInTools toolName with
  | None => mkToolResult false None (Some ("Unknown tool: " +:+ toolName))
  | Some tool =>
      match tool args with
      | Return result => mkToolResult true (Some result) None
      | Throw e => mkToolResult false None (Some e)
      end
  end.

(** [callTool]: through the MCP client when there is one and it says it
    is connected, the built-in tools otherwise. *)
Definition callTool (mcpClient : option MCPBrowserClient.State)
    (toolName : string) (args : Args) : Completion MCPToolResult :=
  match mcpClient with
  | Some client =>
      if negb (MCPBrowserClient.isConnected client)
      then Return (executeBuiltInTool toolName args)
      else MCPBrowserClient.callTool Args Raw clientCallTool isError parseContent
             client toolName args
  | None => Return (executeBuiltInTool toolName args)
  end.

(** [callTool] as the retry loop sees it, the client being in state
    [mcpClient attempt] when the attempt is made. *)
Definition callToolAt (mcpClient : Z -> option MCPBrowserClient.State)
    (attempt : Z) (toolName : string) (args : Args) : MCPToolResult + string :=
  match callTool (mcpClient attempt) toolName args with
  | Return result => inl result
  | Throw e => inr e
  end.

End Tools.

Section Recording.

Variable Args : Type.
Variable callTool : Z -> string -> Args -> MCPToolResult + string.
Variable attemptParameterFix : string -> Args -> string -> Completion (option Args).
(** [Date.now() - startTime] and [Date.now()] when the attempt with the
    given number is recorded. *)
Variable duration : Z -> Z.
Variable timestamp : Z -> Z.

(** The loop of [executeToolWithRetry] once more, now with the execution
    history it writes on its two ways out (it writes nothing when an
    error of [attemptParameterFix] leaves the function). *)
Fixpoint recordingLoop (fuel : nat) (executionHistory : list Execution)
    (request : ToolExecutionRequest Args) (attempt : Z)
    (lastError : option string) (delays : list Z) (errors : list string)
    : option (Completion ToolExecutionResult * list Execution) :=
  let failed :=
    fun attempt lastError errors =>
      Some (Return (failure lastError attempt delays errors),
            recordExecution executionHistory (toolName Args request) false
                            (duration attempt) (timestamp attempt)) in
  match fuel with
  | O => None
  | S fuel' =>
      if (attempt <=? maxRetries Args request)%Z then
        let attempt1 := (attempt + 1)%Z in
        match callTool attempt1 (toolName Args request) (arguments Args request) with
        | inl result =>
            Some (Return (mkExecResult (tr_success result) (tr_content result)
                            (tr_error result) attempt1 delays errors),
                  recordExecution executionHistory (toolName Args request) true
                                  (duration attempt1) (timestamp attempt1))
        | inr message =>
            let errors1 := errors ++ [message] in
            if negb (analyzeErrorForRetry message attempt1 (maxRetries Args request))
            then failed attempt1 (Some message) errors1
            else
              let delays1 := delays ++ [backoff attempt1] in
              if isParameterError message then
                match attemptParameterFix (toolName Args request)
                        (arguments Args request) message with
                | Throw e => Some (Throw e, executionHistory)
                | Return (Some fixedArgs) =>
                    recordingLoop fuel' executionHistory
                      (mkRequest Args (toolName Args request) fixedArgs
                                 (retryCount Args request) (maxRetries Args request)
                                 (timeout Args request))
                      attempt1 (Some message) delays1 errors1
                | Return None =>
                    recordingLoop fuel' executionHistory request attempt1 (Some message)
                                  delays1 errors1
                end
              else recordingLoop fuel' executionHistory request attempt1 (Some message)
                                 delays1 errors1
        end
      else failed attempt lastError errors
  end.

Definition executeToolWithRetryRecording (executionHistory : list Execution)
    (request : ToolExecutionRequest Args)
    : option (Completion ToolExecutionResult * list Execution) :=
  recordingLoop (S (Z.to_nat (maxRetries Args request + 1))) executionHistory
                request 0 None [] [].

End Recording.
End Atlas.

(* ===================================================================== *)
(** ** The critic's score (Lilith) *)
(* ===================================================================== *)

Record CritiqueIssue := mkIssue {
  i_type : string;
  i_severity : string;
  i_description : string
}.

Module Lilith.

Definition penalise (score : Z) (issue : CritiqueIssue) : Z :=
  if String.eqb (i_severity issue) "critical" then (score - 25)%Z
  else if String.eqb (i_severity issue) "major" then (score - 15)%Z
  else if String.eqb (i_severity issue) "minor" then (score - 5)%Z
  else if String.eqb (i_severity issue) "info" then (score - 1)%Z
  else score.

Definition calculateScore (issues : list CritiqueIssue) : Z :=
  Z.max 0 (fold_left penalise issues 100%Z).

Record Critique := mkCritique {
  issues : list CritiqueIssue;
  score : Z;
  approved : bool
}.

(** The verdict of [critique] once the three analyses have delivered
    their issues. *)
Definition critique (staticIssues llmIssues factCheckIssues : list CritiqueIssue)
    : Critique :=
  let issues := staticIssues ++ llmIssues ++ factCheckIssues in
  let score := calculateScore issues in
  mkCritique issues score
    ((score >=? 70)%Z
     && negb (existsb (fun i => String.eqb (i_severity i) "critical") issues)).

Definition countSeverity (sev : string) (issues : list CritiqueIssue) : Z :=
  Z.of_nat (length (List.filter (fun i => String.eqb (i_severity i) sev) issues)).

Definition generateRecommendation (issues : list CritiqueIssue) (score : Z) : string :=
  if length issues =? 0
  then "No issues found. The content passes quality checks."
  else if (score >=? 90)%Z
  then "Minor issues found. Consider addressing them but the content is acceptable."
  else if (score >=? 70)%Z
  then "Several issues found. Address the major issues before proceeding."
  else if (score >=? 50)%Z
  then "Significant issues found. The content needs revision before approval."
  else "Critical issues detected. The content should not be used as-is. Major revision required.".

(** The [recommendation] field of the critique [critique] builds: from
    the same issues and the same score as its verdict. *)
Definition recommendation (c : Critique) : string :=
  generateRecommendation (issues c) (score c).

End Lilith.

(* ===================================================================== *)
(** ** The context manager (York) *)
(* ===================================================================== *)

Record ConversationTurn := mkTurn {
  turn_id : string;
  turn_role : string;
  turn_content : string;
  turn_tokenCount : Z
}.

Record ContextSlice := mkSlice {
  s_id : string;
  s_summary : string;
  s_originalTokenCount : Z;
  s_compressedTokenCount : Z;
  s_embedding : list Q;
  s_timestamp : Z;
  s_messages : list (string * string)
}.

Record ResourceMetrics := mkMetrics {
  memoryUsage : Z;
  contextTokens : Z;
  maxContextTokens : Z;
  activeAgents : Z;
  inferenceSpeed : Z
}.

Inductive Priority := low | medium | high | critical.

Record EvictionDecision := mkDecision {
  shouldEvict : bool;
  tokensToFree : Z;
  messagesToSummarize : nat;
  priority : Priority
}.

Module York.

Definition MAX_CONTEXT_TOKENS : Z := 4096.
Definition EVICTION_THRESHOLD : Q := 8 # 10.
Definition TARGET_AFTER_EVICTION : Q := 5 # 10.

Record State := mkYork {
  conversationHistory : list ConversationTurn;
  contextSlices : list ContextSlice;
  currentMetrics : ResourceMetrics;
  storedSlices : list ContextSlice   (* the hybrid store's 'context_slices' *)
}.

(** The constructor. *)
Definition new : State :=
  mkYork [] [] (mkMetrics 0 0 MAX_CONTEXT_TOKENS 0 0) [].

Definition withTokens (m : ResourceMetrics) (tokens : Z) : ResourceMetrics :=
  mkMetrics (memoryUsage m) tokens (maxContextTokens m) (activeAgents m) (inferenceSpeed m).

(** [a < b] on rationals. *)
Definition Qltb (a b : Q) : bool := negb (Qle_bool b a).

(** The counting loop of [evaluateEviction]: oldest turns first, stop as
    soon as enough tokens are covered. *)
Fixpoint countMessages (toFree tokenCount : Z) (messageCount : nat)
    (history : list ConversationTurn) : nat :=
  match history with
  | [] => messageCount
  | turn :: rest =>
      let tokenCount1 := (tokenCount + turn_tokenCount turn)%Z in
      let messageCount1 := S messageCount in
      if (tokenCount1 >=? toFree)%Z then messageCount1
      else countMessages toFree tokenCount1 messageCount1 rest
  end.

Definition evaluateEviction (st : State) : EvictionDecision :=
  let m := currentMetrics st in
  let usage := (inject_Z (contextTokens m) / inject_Z (maxContextTokens m))%Q in
  if Qltb usage EVICTION_THRESHOLD
  then mkDecision false 0 0 low
  else
    let tokensToFree :=
      Qfloor (inject_Z (contextTokens m)
              - inject_Z (maxContextTokens m) * TARGET_AFTER_EVICTION)%Q in
    let messageCount := countMessages tokensToFree 0 0 (conversationHistory st) in
    let priority :=
      if Qle_bool (95 # 100) usage then critical
      else if Qle_bool (9 # 10) usage then high else medium in
    mkDecision true tokensToFree messageCount priority.

(** [Math.ceil(text.length / 4)] *)
Definition estimateTokens (text : string) : Z := ((JS.len text + 3) / 4)%Z.

Definition sumTokens (turns : list ConversationTurn) : Z :=
  fold_left (fun sum m => (sum + turn_tokenCount m)%Z) turns 0%Z.

(** What [performContextEviction] resolves to: one of the two fixed
    messages, or the completion report (whose text interpolates these
    three numbers). *)
Inductive Reply :=
| Text (s : string)
| CutReport (evicted : nat) (originalTokens compressedTokens : Z).

Section Eviction.

(** The text generator, the embedder, and the store's write of the slice
    ([Throw] when the [put] fails). *)
Variable generateSummary : list ConversationTurn -> Completion string.
Variable generateEmbedding : string -> Completion (list Q).
Variable putSlice : ContextSlice -> Completion unit.

(** [uuid] is the id York gives the slice, [storeUuid] the one
    [storeContextSlice] gives the stored copy. *)
Definition performContextEviction (st : State) (uuid storeUuid : string) (now : Z)
    : Completion Reply * State :=
  let decision := evaluateEviction st in
  if negb (shouldEvict decision)
  then (Return (Text "No eviction needed - context usage is within limits."), st)
  else
    let messagesToEvict := take (messagesToSummarize decision) (conversationHistory st) in
    if Nat.eqb (length messagesToEvict) 0
    then (Return (Text "No messages to evict."), st)
    else
      match generateSummary messagesToEvict with
      | Throw e => (Throw e, st)
      | Return summary =>
          match generateEmbedding summary with
          | Throw e => (Throw e, st)
          | Return embedding =>
              let originalTokenCount := sumTokens messagesToEvict in
              let compressedTokenCount := estimateTokens summary in
              let messages := map (fun m => (turn_role m, turn_content m)) messagesToEvict in
              let slice :=
                mkSlice uuid summary originalTokenCount compressedTokenCount embedding now
                        messages in
              let stored :=
                mkSlice storeUuid summary originalTokenCount compressedTokenCount embedding
                        now messages in
              match putSlice stored with
              | Throw e => (Throw e, st)
              | Return _ =>
                  (Return (CutReport (messagesToSummarize decision)
                                     originalTokenCount compressedTokenCount),
                   mkYork (drop (messagesToSummarize decision) (conversationHistory st))
                          (contextSlices st ++ [slice])
                          (withTokens (currentMetrics st)
                             (contextTokens (currentMetrics st) - originalTokenCount))
                          (storedSlices st ++ [stored]))
              end
          end
      end.

(** What a call of [performContextEviction] holds on to across its
    [await]s: the decision and the turns it read before the first one. *)
Record PendingEviction := mkPending {
  pe_decision : EvictionDecision;
  pe_messages : list ConversationTurn
}.

(** [performContextEviction] up to its first [await]: it answers at once,
    or it has read its decision and the turns to evict from the state of
    that moment. *)
Definition beginEviction (st : State) : Reply + PendingEviction :=
  let decision := evaluateEviction st in
  if negb (shouldEvict decision)
  then inl (Text "No eviction needed - context usage is within limits.")
  else
    let messagesToEvict := take (messagesToSummarize decision) (conversationHistory st) in
    if Nat.eqb (length messagesToEvict) 0
    then inl (Text "No messages to evict.")
    else inr (mkPending decision messagesToEvict).

(** ... and from there on: the summary, the embedding and the store's
    write settle, then the slice is pushed, the history cut and the
    counter lowered, in the state of the moment the call resumes, which
    other calls may have changed since [beginEviction]. (York's own
    fields are written after the last [await] only.) *)
Definition finishEviction (st : State) (pending : PendingEviction)
    (uuid storeUuid : string) (now : Z) : Completion Reply * State :=
  let decision := pe_decision pending in
  let messagesToEvict := pe_messages pending in
  match generateSummary messagesToEvict with
  | Throw e => (Throw e, st)
  | Return summary =>
      match generateEmbedding summary with
      | Throw e => (Throw e, st)
      | Return embedding =>
          let originalTokenCount := sumTokens messagesToEvict in
          let compressedTokenCount := estimateTokens summary in
          let messages := map (fun m => (turn_role m, turn_content m)) messagesToEvict in
          let slice :=
            mkSlice uuid summary originalTokenCount compressedTokenCount embedding now
                    messages in
          let stored :=
            mkSlice storeUuid summary originalTokenCount compressedTokenCount embedding
                    now messages in
          match putSlice stored with
          | Throw e => (Throw e, st)
          | Return _ =>
              (Return (CutReport (messagesToSummarize decision)
                                 originalTokenCount compressedTokenCount),
               mkYork (drop (messagesToSummarize decision) (conversationHistory st))
                      (contextSlices st ++ [slice])
                      (withTokens (currentMetrics st)
                         (contextTokens (currentMetrics st) - originalTokenCount))
                      (storedSlices st ++ [stored]))
          end
      end
  end.

End Eviction.

(** [addConversationTurn]: the bookkeeping, and whether the automatic
    eviction is fired (it then runs on its own, not awaited). *)
Definition addConversationTurn (st : State) (turn : ConversationTurn) : State * bool :=
  let st1 :=
    mkYork (conversationHistory st ++ [turn]) (contextSlices st)
           (withTokens (currentMetrics st)
              (contextTokens (currentMetrics st) + turn_tokenCount turn))
           (storedSlices st) in
  (st1, shouldEvict (evaluateEviction st1)).

Definition clearContext (st : State) : State :=
  mkYork [] [] (withTokens (currentMetrics st) 0) (storedSlices st).

(** The invariant the constructor establishes and every operation keeps:
    the running counter is the token sum of the live history, under the
    fixed ceiling. *)
Definition consistent (st : State) : Prop :=
  contextTokens (currentMetrics st) = sumTokens (conversationHistory st)
  /\ maxContextTokens (currentMetrics st) = MAX_CONTEXT_TOKENS.

(** [parseTaskType]: the first keyword group found in the lower-cased
    input decides. *)
Inductive TaskType := eviction | summarize | optimize | status.

Definition parseTaskType (input : string) : TaskType :=
  let lower := Atlas.toLowerCase input in
  if JS.includes lower "evict" || JS.includes lower "clear" || JS.includes lower "cut"
  then eviction
  else if JS.includes lower "summar" then summarize
  else if JS.includes lower "optim" then optimize
  else status.

(** [updateMemoryEstimate]: two bytes per character, four per embedding
    component, rounded to megabytes. *)
Definition updateMemoryEstimate (st : State) : State :=
  let conversationBytes :=
    fold_left (fun sum t => (sum + JS.len (turn_content t) * 2)%Z)
              (conversationHistory st) 0%Z in
  let sliceBytes :=
    fold_left (fun sum s => (sum + JS.len (s_summary s) * 2
                             + Z.of_nat (length (s_embedding s)) * 4)%Z)
              (contextSlices st) 0%Z in
  let m := currentMetrics st in
  mkYork (conversationHistory st) (contextSlices st)
         (mkMetrics (JS.roundDiv (conversationBytes + sliceBytes) (1024 * 1024))
                    (contextTokens m) (maxContextTokens m) (activeAgents m)
                    (inferenceSpeed m))
         (storedSlices st).

(** [getResourceMetrics]: a copy of the metrics, the memory estimate
    brought up to date first. *)
Definition getResourceMetrics (st : State) : ResourceMetrics * State :=
  let st1 := updateMemoryEstimate st in
  (currentMetrics st1, st1).

Definition setActiveAgents (st : State) (count : Z) : State :=
  let m := currentMetrics st in
  mkYork (conversationHistory st) (contextSlices st)
         (mkMetrics (memoryUsage m) (contextTokens m) (maxContextTokens m) count
                    (inferenceSpeed m))
         (storedSlices st).

Definition setInferenceSpeed (st : State) (tokensPerSecond : Z) : State :=
  let m := currentMetrics st in
  mkYork (conversationHistory st) (contextSlices st)
         (mkMetrics (memoryUsage m) (contextTokens m) (maxContextTokens m) (activeAgents m)
                    tokensPerSecond)
         (storedSlices st).

Definition newline : string := String "010" "".

(** [optimizeResources]: up to three pieces of advice, and the clean-up
    that keeps the ten newest context slices. *)
Definition optimizeResources (st : State) : string * State :=
  let '(metrics, st1) := getResourceMetrics st in
  let context :=
    if (10 * contextTokens metrics >? 7 * maxContextTokens metrics)%Z
    then ["Consider running Brain-Brain Cut to free context space"] else [] in
  let memory :=
    if (memoryUsage metrics >? 500)%Z
    then ["High memory usage detected - consider clearing unused data"] else [] in
  let model :=
    if (memoryUsage metrics >? 800)%Z || (inferenceSpeed metrics <? 10)%Z
    then ["Consider switching to a smaller model (e.g., Phi-3-Mini)"] else [] in
  let count := length (contextSlices st1) in
  let toRemove := count - 10 in
  let '(kept, cleanup) :=
    if 10 <? count
    then (JS.sliceFrom (Z.of_nat toRemove) (contextSlices st1),
          ["Cleaned up " +:+ pretty toRemove +:+ " old context slices"])
    else (contextSlices st1, []) in
  let recommendations := context ++ memory ++ model ++ cleanup in
  (if 0 <? length recommendations
   then "Optimization recommendations:" +:+ newline
        +:+ String.concat newline (map (fun r => "- " +:+ r) recommendations)
   else "System is running optimally. No optimizations needed.",
   mkYork (conversationHistory st1) kept (currentMetrics st1) (storedSlices st1)).

Record ChatMessage := mkMessage {
  msg_role : string;
  msg_content : string
}.

(** [getContextForLLM]: the summaries of the three newest slices as one
    system message, then the live history. *)
Definition getContextForLLM (st : State) : list ChatMessage :=
  (if 0 <? length (contextSlices st)
   then [mkMessage "system"
           ("Previous conversation context:" +:+ newline
            +:+ String.concat (newline +:+ newline +:+ "---" +:+ newline +:+ newline)
                  (map s_summary (JS.sliceFrom (-3) (contextSlices st))))]
   else [])
  ++ map (fun turn => mkMessage (turn_role turn) (turn_content turn))
         (conversationHistory st).

Inductive ModelSize := large | medium | small.

Definition getRecommendedModel (st : State) : ModelSize :=
  if (memoryUsage (currentMetrics st) >? 800)%Z then small
  else if (memoryUsage (currentMetrics st) >? 400)%Z then medium
  else large.



End York.

(* ===================================================================== *)
(** ** The hybrid store's other object stores (PunkRecords) *)
(* ===================================================================== *)

Record AgentMemoryEntry := mkMemory {
  mem_id : string;
  mem_agentId : string;
  mem_type : string;
  mem_content : string;
  mem_importance : Q;
  mem_accessCount : Z;
  mem_lastAccessed : Z;
  mem_createdAt : Z;
  mem_embedding : option (list Q)
}.

Record StoreStats := mkStats {
  stat_documents : nat;
  stat_memories : nat;
  stat_contextSlices : nat
}.

Module PunkStores.

(** The three object stores of the database: the documents with their two
    in-memory indices, the agents' memories and the context slices, each
    keyed by [id]. *)
Record Stores := mkStores {
  documents : PunkRecords.State;
  memories : gmap string AgentMemoryEntry;
  context_slices : gmap string ContextSlice
}.

Definition initialize (st : Stores) : Stores :=
  mkStores (PunkRecords.initialize (documents st)) (memories st) (context_slices st).

(** Insertion into a list ordered by [before]. *)
Fixpoint insertOrdered {A : Type} (before : A -> A -> bool) (x : A) (l : list A) : list A :=
  match l with
  | [] => [x]
  | y :: l' => if before x y then x :: l else y :: insertOrdered before x l'
  end.

(** The records of an object store in the order of their keys. *)
Definition byKey {A : Type} (m : gmap string A) : list A :=
  (foldr (insertOrdered (fun a b => String.leb (fst a) (fst b))) [] (map_to_list m)).*2.

(** [db.getAllFromIndex('context_slices', 'timestamp')]: ascending
    timestamps, equal ones in key order. *)
Definition byTimestamp (m : gmap string ContextSlice) : list ContextSlice :=
  foldr (insertOrdered (fun a b => (s_timestamp a <=? s_timestamp b)%Z)) [] (byKey m).

Section Memories.

Variable generateEmbedding : string -> option (list Q).

(** [storeMemory]: the entry gets a fresh id, and an embedding when the
    embedder does not throw. *)
Definition storeMemory (st : Stores) (entry : AgentMemoryEntry) (uuid : string)
    : AgentMemoryEntry * Stores :=
  let st0 := initialize st in
  let memory :=
    mkMemory uuid (mem_agentId entry) (mem_type entry) (mem_content entry)
             (mem_importance entry) (mem_accessCount entry) (mem_lastAccessed entry)
             (mem_createdAt entry)
             (match generateEmbedding (mem_content entry) with
              | Some e => Some e
              | None => mem_embedding entry
              end) in
  (memory, mkStores (documents st0) (<[uuid := memory]> (memories st0)) (context_slices st0)).

End Memories.

(** [getAgentMemories]: the agent's memories (the index on [agentId]
    lists them in key order), optionally of one type, most important
    first. *)
Definition getAgentMemories (st : Stores) (agentId : string) (type : option string)
    : list AgentMemoryEntry * Stores :=
  let st0 := initialize st in
  let ofAgent :=
    List.filter (fun m => String.eqb (mem_agentId m) agentId) (byKey (memories st0)) in
  let ofType :=
    match type with
    | Some t => if JS.truthy t
                then List.filter (fun m => String.eqb (mem_type m) t) ofAgent
                else ofAgent
    | None => ofAgent
    end in
  (JS.sortDescBy mem_importance ofType, st0).

(** [storeContextSlice]: the stored copy gets an id of its own. *)
Definition storeContextSlice (st : Stores) (slice : ContextSlice) (uuid : string)
    : ContextSlice * Stores :=
  let st0 := initialize st in
  let contextSlice :=
    mkSlice uuid (s_summary slice) (s_originalTokenCount slice)
            (s_compressedTokenCount slice) (s_embedding slice) (s_timestamp slice)
            (s_messages slice) in
  (contextSlice,
   mkStores (documents st0) (memories st0) (<[uuid := contextSlice]> (context_slices st0))).

(** [slices.slice(-limit).reverse()] *)
Definition recent {A : Type} (limit : Z) (slices : list A) : list A :=
  rev (JS.sliceFrom (- limit) slices).

Definition getRecentContextSlices (st : Stores) (limit : Z) : list ContextSlice * Stores :=
  let st0 := initialize st in
  (recent limit (byTimestamp (context_slices st0)), st0).

Definition getStats (st : Stores) : StoreStats * Stores :=
  let st0 := initialize st in
  (mkStats (size (PunkRecords.db (documents st0))) (size (memories st0))
           (size (context_slices st0)), st0).

(** [clear]: the three stores are emptied and both indices replaced by
    fresh ones. *)
Definition clear (st : Stores) : Stores :=
  mkStores (PunkRecords.mkState ∅ [] (Some []) true) ∅ ∅.

End PunkStores.

(* ===================================================================== *)
(** ** The researcher (Pythagoras) *)
(* ===================================================================== *)

Record SearchSource := mkSource {
  src_id : string;
  src_type : string;
  src_title : string;
  src_content : string;
  src_relevance : Q
}.

Record ResearchFinding := mkFinding {
  f_sourceId : string;
  f_excerpt : string;
  f_relevance : Q;
  f_confidence : Q
}.

(** One entry of the [findings] array in the generator's answer; an index
    that is no integer finds no source, as one out of range. *)
Record ParsedFinding := mkParsed {
  sourceIndex : Z;
  excerpt : string;
  relevance : string;
  confidence : Q
}.

Module Pythagoras.

Definition relevanceToNumber (relevance : string) : Q :=
  let lowered := Atlas.toLowerCase relevance in
  if String.eqb lowered "high" then 1
  else if String.eqb lowered "medium" then 6 # 10
  else if String.eqb lowered "low" then 3 # 10
  else 5 # 10.

Definition withRelevance (relevance : Q) (source : SearchSource) : SearchSource :=
  mkSource (src_id source) (src_type source) (src_title source) (src_content source)
           relevance.

(** The body of the inner loop of [gatherSources]. *)
Definition gatherStep (sourcesMap : JSMap.t SearchSource) (result : SearchResult)
    : JSMap.t SearchSource :=
  let id := doc_id (sr_document result) in
  match JSMap.get sourcesMap id with
  | None =>
      JSMap.set id
        (mkSource id "punk_records"
           (PunkRecords.orElse (md_title (doc_metadata (sr_document result))) "Untitled")
           (doc_content (sr_document result)) (sr_score result))
        sourcesMap
  | Some existing =>
      if negb (Qle_bool (sr_score result) (src_relevance existing))
      then JSMap.update id (withRelevance (sr_score result)) sourcesMap
      else sourcesMap
  end.

Definition batchSize : nat := 3.

(** The sources of a batch with the numbers the prompt shows them under
    ([i + idx + 1]). *)
Definition numbered (i : nat) (batch : list SearchSource) : list (nat * SearchSource) :=
  imap (fun idx s => (i + idx + 1, s)) batch.

(** [batch[f.sourceIndex - 1]] and the finding pushed when it is there. *)
Definition findingOf (batch : list SearchSource) (f : ParsedFinding)
    : option ResearchFinding :=
  let index := (sourceIndex f - 1)%Z in
  match (if (index <? 0)%Z then None else batch !! Z.to_nat index) with
  | Some source =>
      Some (mkFinding (src_id source) (excerpt f) (relevanceToNumber (relevance f))
                      (confidence f))
  | None => None
  end.

Section Research.

Variable generateEmbedding : string -> option (list Q).
Variable voySearch : list VoyEntry -> list Q -> nat -> list Neighbor.
Variable flexSearch : list PunkDocument -> string -> nat -> option (list (list PunkDocument)).
(** The generator on the prompt of a batch (the question and the numbered
    sources are what the prompt shows) and the parse of its answer: the
    generator throws, or the answer holds no findings that parse ([None]),
    or it holds these (those read before the parse or the loop gave up). *)
Variable extractFindings :
  string -> list (nat * SearchSource) -> Completion (option (list ParsedFinding)).

(** [gatherSources]: [search] catches the errors of its engines, so the
    [catch] around it has nothing to catch here. *)
Definition gatherSources (st : PunkRecords.State) (queries : list string)
    : list SearchSource * PunkRecords.State :=
  let '(sourcesMap, st') :=
    fold_left
      (fun acc query =>
         let '(results, st1) :=
           PunkRecords.search generateEmbedding voySearch flexSearch (snd acc) query
             (mkOptions (Some 5) None (Some hybrid) None) in
         (fold_left gatherStep results (fst acc), st1))
      queries (JSMap.empty, st) in
  (take 10 (JS.sortDescBy src_relevance (JSMap.values sourcesMap)), st').

(** The batch loop of [analyzeSources]; [None] when [fuel] rounds were not
    enough. *)
Fixpoint analyzeLoop (fuel : nat) (question : string) (sources : list SearchSource)
    (i : nat) (findings : list ResearchFinding)
    : option (Completion (list ResearchFinding)) :=
  match fuel with
  | O => None
  | S fuel' =>
      if i <? length sources then
        let batch := take batchSize (drop i sources) in
        match extractFindings question (numbered i batch) with
        | Throw e => Some (Throw e)
        | Return parsed =>
            analyzeLoop fuel' question sources (i + batchSize)
              (findings ++ omap (findingOf batch) (default [] parsed))
        end
      else Some (Return findings)
  end.

Definition analyzeSources (question : string) (sources : list SearchSource)
    : option (Completion (list ResearchFinding)) :=
  if length sources =? 0 then Some (Return [])
  else
    match analyzeLoop (S (length sources)) question sources 0 [] with
    | Some (Return findings) => Some (Return (JS.sortDescBy f_relevance findings))
    | other => other
    end.

End Research.
End Pythagoras.

(* ===================================================================== *)
(** ** Predicates used in the statements *)
(* ===================================================================== *)

(** Every dependency of [n] names a node of [m] that is [completed]. *)
Definition depsCompleted (m : JSMap.t DAGNode) (n : DAGNode) : Prop :=
  Forall (fun d => exists dn, JSMap.get m d = Some dn /\ n_status dn = completed)
         (n_dependencies n).

(** The scheduling invariant: whatever is [ready] has all its dependencies
    [completed]. *)
Definition readySound (m : JSMap.t DAGNode) : Prop :=
  forall id n, JSMap.get m id = Some n -> n_status n = ready -> depsCompleted m n.

(** A legal evolution of the graph: same nodes, edges and task ids, a
    [completed] node stays [completed] and a [failed] one [failed], and a
    node is [ready] afterwards only if it was before or all its dependencies
    are [completed]. *)
Definition evolves (m m' : JSMap.t DAGNode) : Prop :=
  JSMap.keys m' = JSMap.keys m
  /\ forall id n', JSMap.get m' id = Some n' ->
       exists n, JSMap.get m id = Some n
         /\ n_dependencies n' = n_dependencies n
         /\ n_dependents n' = n_dependents n
         /\ (n_status n = completed -> n_status n' = completed)
         /\ (n_status n' = ready -> n_status n = ready \/ depsCompleted m' n')
         /\ (n_status n = failed -> n_status n' = failed)
         /\ n_taskId n' = n_taskId n.

(** Every listed node is in the graph and has status [s]. *)
Definition allInStatus (s : NodeStatus) (ids : list string) (m : JSMap.t DAGNode) : Prop :=
  forall id, id ∈ ids -> exists n, JSMap.get m id = Some n /\ n_status n = s.

(** What holds of a node when it is dispatched: it is [ready] and every
    one of its dependencies is [completed] in the graph of that moment. *)
Definition dispatchedSoundly (d : AgentMesh.Dispatch) : Prop :=
  exists n, JSMap.get (AgentMesh.d_snapshot d) (AgentMesh.d_node d) = Some n
            /\ n_status n = ready
            /\ depsCompleted (AgentMesh.d_snapshot d) n.

Definition allPending (m : JSMap.t DAGNode) : Prop :=
  forall id n, JSMap.get m id = Some n -> n_status n = pending.

(** Roots are the only nodes [buildDAG] makes [ready]. *)
Definition readyAreRoots (m : JSMap.t DAGNode) : Prop :=
  forall id n, JSMap.get m id = Some n -> n_status n = ready -> n_dependencies n = [].

(** A node that is [ready] in [m'] was [ready] in [m] already, or has all
    its dependencies [completed]. *)
Definition promotesSoundly (m m' : JSMap.t DAGNode) : Prop :=
  forall id n', JSMap.get m' id = Some n' -> n_status n' = ready ->
    (exists n, JSMap.get m id = Some n /\ n_status n = ready) \/ depsCompleted m' n'.

(** The error classes of the retry policy, as the specification words
    them: messages that signal a server error, a timeout, a refused or
    unresolved connection or rate limiting, and messages that signal a
    client error. *)
Definition retrySignals (message : string) : bool :=
  existsb (JS.includes message)
    ["500"; "502"; "503"; "timeout"; "ETIMEDOUT"; "ECONNREFUSED"; "ENOTFOUND";
     "429"; "rate limit"].

Definition clientSignals (message : string) : bool :=
  existsb (JS.includes message) ["400"; "401"; "403"].

(** A string without a space character: a single word. *)
Fixpoint spaceFree (s : string) : bool :=
  match s with
  | EmptyString => true
  | String c s' => negb (Ascii.eqb c " ") && spaceFree s'
  end.

(** The input of the chunking example: a thousand times the letter a, cut
    at 100 characters without overlap and with the default separator. *)
Definition thousandAs : string := JS.repeat "a" 1000.
Definition hundredNoOverlap : ChunkConfig := mkChunkConfig 100 0 None.

Definition idOf (r : SearchResult) : string := doc_id (sr_document r).

(** A set of nodes that block each other: each is in the graph, [pending],
    and waits for a member of the set. The nodes of a dependency cycle form
    such a set. *)
Definition stuck (cycle : list string) (m : JSMap.t DAGNode) : Prop :=
  forall id, id ∈ cycle ->
    exists n, JSMap.get m id = Some n /\ n_status n = pending
              /\ exists d, d ∈ n_dependencies n /\ d ∈ cycle.

(** A node that has reached [completed] or [failed]. *)
Definition isSettled (n : DAGNode) : bool :=
  NodeStatus_eqb (n_status n) completed || NodeStatus_eqb (n_status n) failed.

(** The number of nodes still to be settled. *)
Definition unsettled (m : JSMap.t DAGNode) : nat :=
  length (List.filter (fun kv => negb (isSettled (snd kv))) m).

(** Every node of the graph finds its task in the plan. *)
Definition tasked (tasks : list SatelliteTask) (m : JSMap.t DAGNode) : Prop :=
  forall id n, JSMap.get m id = Some n -> AgentMesh.findTask tasks n id <> None.

(** The vector engine answers with entries of the index it was built
    from. *)
Definition voyAnswersFromIndex
    (voySearch : list VoyEntry -> list Q -> nat -> list Neighbor) : Prop :=
  forall index q limit nb,
    nb ∈ voySearch index q limit -> exists e, e ∈ index /\ e_id e = nb_id nb.

(** The messages of the errors thrown in a run of attempts, each attempt
    being the arguments [callTool] was given and what it answered. *)
Definition thrown {Args : Type} (calls : list (Args * (MCPToolResult + string)))
    : list string :=
  omap (fun call => match snd call with
                    | inr message => Some message
                    | inl _ => None
                    end) calls.

(** The arguments of the attempt that follows a thrown error: the repaired
    ones when the error is a parameter error and [attemptParameterFix]
    returned some, the same arguments otherwise. *)
Definition argumentsAfter {Args : Type}
    (attemptParameterFix : string -> Args -> string -> Completion (option Args))
    (toolName : string) (args : Args) (message : string) : Args :=
  if Atlas.isParameterError message then
    match attemptParameterFix toolName args message with
    | Return (Some fixedArgs) => fixedArgs
    | _ => args
    end
  else args.

(** A chunk is within the size, or it is a single word. *)
Definition sizedOrWord (size : Z) (c : string) : Prop :=
  (JS.len c <= size)%Z \/ spaceFree c = true.

(** A node that [getReadyTasks] lists: it is [ready], or it is [pending]
    and all its dependencies are [completed]. *)
Definition eligible (m : JSMap.t DAGNode) (id : string) : bool :=
  match JSMap.get m id with
  | Some n =>
      match n_status n with
      | ready => true
      | pending => Shaka.allDepsComplete m n
      | _ => false
      end
  | None => false
  end.

(** Nodes kept waiting by a failure: each is in the graph, [pending], and
    has a dependency that is [failed] or is itself kept waiting. *)
Definition starved (fs : list string) (m : JSMap.t DAGNode) : Prop :=
  forall id, id ∈ fs ->
    exists n, JSMap.get m id = Some n /\ n_status n = pending
      /\ exists d, d ∈ n_dependencies n
           /\ (d ∈ fs \/ exists dn, JSMap.get m d = Some dn /\ n_status dn = failed).

(** No node of the graph finds a task in the plan. *)
Definition untasked (tasks : list SatelliteTask) (m : JSMap.t DAGNode) : Prop :=
  forall id n, JSMap.get m id = Some n -> AgentMesh.findTask tasks n id = None.

(** The two ends of every edge agree: [b] is a dependency of [a] exactly
    when [a] is a dependent of [b]. *)
Definition mirrored (m : JSMap.t DAGNode) : Prop :=
  forall a b na nb, JSMap.get m a = Some na -> JSMap.get m b = Some nb ->
    (b ∈ n_dependencies na <-> a ∈ n_dependents nb).


(** The store is keyed by the documents' own ids (the object store's key
    path is [id]). *)
Definition keyed (st : PunkRecords.State) : Prop :=
  forall k d, PunkRecords.db st !! k = Some d -> doc_id d = k.

(** The keyword engine answers with documents it was given. *)
Definition flexAnswersFromIndex
    (flexSearch : list PunkDocument -> string -> nat -> option (list (list PunkDocument)))
    : Prop :=
  forall docs query limit fields field d,
    flexSearch docs query limit = Some fields -> field ∈ fields -> d ∈ field -> d ∈ docs.

(** Every entry of a merge map is stored under its document's id. *)
Definition selfKeyed (m : JSMap.t SearchResult) : Prop :=
  Forall (fun kv => idOf (snd kv) = fst kv) m.

(** The index of the last task with the given description, counting from
    [index]. *)
Fixpoint lastWith (desc : string) (tasks : list PlannedTask) (index : nat) : option nat :=
  match tasks with
  | [] => None
  | t :: rest =>
      match lastWith desc rest (S index) with
      | Some j => Some j
      | None => if String.eqb (p_description t) desc then Some index else None
      end
  end.

(** The node a dependency description stands for: that of the last task
    carrying the description, if any. *)
Definition resolve (tasks : list PlannedTask) (desc : string) : option string :=
  Shaka.nodeId <$> lastWith desc tasks 0.

(** The edges of the graph, as (dependent, dependency) pairs, in the order
    the planner's dependency lists give them. *)
Fixpoint edgesFrom (tasks all : list PlannedTask) (index : nat) : list (string * string) :=
  match tasks with
  | [] => []
  | t :: rest =>
      map (fun d => (Shaka.nodeId index, d)) (omap (resolve all) (p_dependencies t))
      ++ edgesFrom rest all (S index)
  end.

Definition outOf (E : list (string * string)) (x : string) : list string :=
  map snd (List.filter (fun e => String.eqb (fst e) x) E).

Definition intoOf (E : list (string * string)) (x : string) : list string :=
  map fst (List.filter (fun e => String.eqb (snd e) x) E).

(** A node with the edges of [E] that touch it added. *)
Definition addEdges (E : list (string * string)) (x : string) (n : DAGNode) : DAGNode :=
  mkNode (n_id n) (n_taskId n) (n_satelliteId n) (n_status n)
         (n_dependencies n ++ outOf E x) (n_dependents n ++ intoOf E x) (n_result n).

Definition linkedBy (E : list (string * string)) (m m' : JSMap.t DAGNode) : Prop :=
  forall x, JSMap.get m' x = addEdges E x <$> JSMap.get m x.

Definition noDeps (m : JSMap.t DAGNode) (id : string) : bool :=
  match JSMap.get m id with
  | Some n => Nat.eqb (length (n_dependencies n)) 0
  | None => false
  end.

Definition noDependents (m : JSMap.t DAGNode) (id : string) : bool :=
  match JSMap.get m id with
  | Some n => Nat.eqb (length (n_dependents n)) 0
  | None => false
  end.

(** What the table of descriptions answers. *)
Definition viaTable (descToId : JSMap.t string) (desc : string) : option string :=
  match JSMap.get descToId desc with
  | Some d => if String.eqb d "" then None else Some d
  | None => None
  end.

Definition inList (x : string) (ks : list string) : bool := existsb (String.eqb x) ks.

(** What the third loop does to the node under [x]. *)
Definition classified (ks : list string) (x : string) (n : DAGNode) : DAGNode :=
  if inList x ks && Nat.eqb (length (n_dependencies n)) 0 then set_status ready n else n.

(** Promotions only: same keys, and a node differs from its earlier self at
    most by having gone from [pending], with all dependencies [completed],
    to [ready]. *)
Definition promotedFrom (m m' : JSMap.t DAGNode) : Prop :=
  forall id,
    match JSMap.get m id, JSMap.get m' id with
    | Some n, Some n' =>
        n' = n
        \/ (n_status n = pending /\ Shaka.allDepsComplete m n = true
            /\ n' = set_status ready n)
    | None, None => True
    | _, _ => False
    end.

(** What the sources map of [gatherSources] holds once the given results
    have gone through its inner loop: one source per document found,
    under the document's id, with the best score any result gave it. *)
Definition gathered (results : list SearchResult) (m : JSMap.t SearchSource) : Prop :=
  NoDup (JSMap.keys m)
  /\ (forall r, r ∈ results -> idOf r ∈ JSMap.keys m)
  /\ (forall k s, JSMap.get m k = Some s ->
        src_id s = k
        /\ (exists r, r ∈ results /\ idOf r = k /\ sr_score r = src_relevance s)
        /\ (forall r, r ∈ results -> idOf r = k -> (sr_score r <= src_relevance s)%Q)).

(** Every parsed finding cites one of the numbers its prompt showed. *)
Definition citesShownNumbers
    (extractFindings : string -> list (nat * SearchSource)
                       -> Completion (option (list ParsedFinding))) : Prop :=
  forall question shown parsed f,
    extractFindings question shown = Return (Some parsed) -> f ∈ parsed ->
    exists n s, (n, s) ∈ shown /\ sourceIndex f = Z.of_nat n.

(** The sessions the client creates are connected ones. *)
Definition sessionOk (client : MCPBrowserClient.State) : Prop :=
  forall s, MCPBrowserClient.session client = Some s ->
            MCPBrowserClient.session_connected s = true.

(** What the client's own writes keep true. *)
Definition clientInv (st : MCPBrowserClient.State) : Prop :=
  sessionOk st /\ (0 <= MCPBrowserClient.retryCount st <= 3)%Z.

(** The states an MCP client goes through: a new one, then any sequence
    of [connect] and [disconnect] calls, whatever the server does. *)
Inductive clientReachable : MCPBrowserClient.State -> Prop :=
| client_new : clientReachable MCPBrowserClient.new
| client_connect parseUrl url clientConnect generateSessionId fuel st outcome st' :
    clientReachable st ->
    MCPBrowserClient.connect parseUrl url clientConnect generateSessionId fuel st
      = Some (outcome, st') ->
    clientReachable st'
| client_disconnect transportClose st :
    clientReachable st ->
    clientReachable (MCPBrowserClient.disconnect transportClose st).

(** The states of a client after calls that did not connect it: from
    [st], any sequence of [connect] calls that threw and of [disconnect]
    calls, whatever the server did. *)
Inductive keptDown (st : MCPBrowserClient.State) : MCPBrowserClient.State -> Prop :=
| down_here : keptDown st st
| down_connect parseUrl url clientConnect generateSessionId fuel st1 e st2 :
    keptDown st st1 ->
    MCPBrowserClient.connect parseUrl url clientConnect generateSessionId fuel st1
      = Some (Throw e, st2) ->
    keptDown st st2
| down_disconnect transportClose st1 :
    keptDown st st1 ->
    keptDown st (MCPBrowserClient.disconnect transportClose st1).

(** *** The merge, in the specification's words *)

Definition idOf64 (r : HybridSearch.SearchResult) : string :=
  doc_id (HybridSearch.hr_document r).

(** The ids of a list in the order in which they first appear. *)
Definition seeId (seen : list string) (id : string) : list string :=
  if existsb (String.eqb id) seen then seen else seen ++ [id].

Definition firstIds (ids : list string) : list string := fold_left seeId ids [].

(** The last result for a document among the semantic results, the first
    (and, [keywordSearch] avoiding duplicates, the only) one among the
    keyword results. *)
Fixpoint lastFor (id : string) (l : list HybridSearch.SearchResult)
    : option HybridSearch.SearchResult :=
  match l with
  | [] => None
  | r :: rest =>
      match lastFor id rest with
      | Some r' => Some r'
      | None => if String.eqb (idOf64 r) id then Some r else None
      end
  end.

Definition firstFor (id : string) (l : list HybridSearch.SearchResult)
    : option HybridSearch.SearchResult :=
  List.find (fun r => String.eqb (idOf64 r) id) l.

(** The semantic results the merge is left with: one per document, at
    the place of the document's first result and with its last. *)
Definition distinctLast (sem : list HybridSearch.SearchResult)
    : list HybridSearch.SearchResult :=
  omap (fun id => lastFor id sem) (firstIds (map idOf64 sem)).

(** The weighted union: every document of either list once, semantic
    ones first; a document found by both searches gets
    [semanticScore * semanticWeight + keywordScore * (1 - semanticWeight)],
    a document found by one search gets that search's weighted score
    alone; every entry is tagged [hybrid]. All arithmetic is in doubles,
    rounded at each operation. *)
Definition weightedResult (semanticWeight : Number.t)
    (sem kws : list HybridSearch.SearchResult) (id : string)
    : option HybridSearch.SearchResult :=
  let keywordWeight := Number.sub Number.one semanticWeight in
  match lastFor id sem, firstFor id kws with
  | Some s, Some k =>
      Some (HybridSearch.mkSR (HybridSearch.hr_document s)
              (Number.add (Number.mul (HybridSearch.hr_score s) semanticWeight)
                          (Number.mul (HybridSearch.hr_score k) keywordWeight))
              hybrid)
  | Some s, None =>
      Some (HybridSearch.mkSR (HybridSearch.hr_document s)
              (Number.mul (HybridSearch.hr_score s) semanticWeight) hybrid)
  | None, Some k =>
      Some (HybridSearch.mkSR (HybridSearch.hr_document k)
              (Number.mul (HybridSearch.hr_score k) keywordWeight) hybrid)
  | None, None => None
  end.

Definition weightedUnion64 (semanticWeight : Number.t)
    (sem kws : list HybridSearch.SearchResult) : list HybridSearch.SearchResult :=
  omap (weightedResult semanticWeight sem kws)
       (firstIds (map idOf64 sem ++ map idOf64 kws)).

(** Sorted as the comparator sees it: no result is directly followed by
    one that the comparator would put strictly before it. *)
Fixpoint inComparatorOrder (l : list HybridSearch.SearchResult) : Prop :=
  match l with
  | a :: (b :: _) as rest =>
      Number.positive (HybridSearch.compareScores a b) = false /\ inComparatorOrder rest
  | _ => True
  end.

(** The values of doubles, for the order the results come in. *)
Module NumberValue.

(** The least exponent of a double, [-1074]. *)
Definition emin : Z := SpecFloat.emin Number.prec Number.emax.

(** The value of a finite double counted in units of [2^emin], the
    smallest positive double: an integer. *)
Definition units (x : Number.t) : Z :=
  match x with
  | S754_finite s m e => cond_Zopp s (Z.pos m * 2 ^ (e - emin))
  | _ => 0%Z
  end.

(** [x <= y] on the values; NaN is neither below nor above anything. *)
Definition le (x y : Number.t) : Prop :=
  match x, y with
  | S754_nan, _ | _, S754_nan => False
  | S754_infinity true, _ | _, S754_infinity false => True
  | S754_infinity false, _ | _, S754_infinity true => False
  | _, _ => (units x <= units y)%Z
  end.

(** A double whose exponent is not below the least one, so that its value
    is a whole number of units: what every operation returns. *)
Definition scaled (x : Number.t) : Prop :=
  match x with
  | S754_finite _ _ e => (emin <= e)%Z
  | _ => True
  end.

End NumberValue.

(** Scores in descending order of their values. *)
Definition descendingValues (l : list HybridSearch.SearchResult) : Prop :=
  StronglySorted
    (fun a b => NumberValue.le (HybridSearch.hr_score b) (HybridSearch.hr_score a)) l.

(* ===================================================================== *)
(** ** Inputs of the examples *)
(* ===================================================================== *)

(** A plan whose task descriptions are the node ids, so that every node
    finds its task: research first, then the report that depends on it. *)
Definition matchedTasks : list PlannedTask :=
  [ mkPlanned "node_0" pythagoras [] 5; mkPlanned "node_1" edison ["node_0"] 4 ].

Definition matchedPlan : ExecutionPlan :=
  Shaka.createExecutionPlan matchedTasks matchedTasks
    (fun i => "task-" +:+ pretty i) "plan-1" "research, then report".

Definition succeed (batch : nat) (id : string) (t : SatelliteTask) : SatelliteResult :=
  mkResult (t_id t) (t_satelliteId t) true ("done " +:+ id) None.

(** The two-node cycle: A waits for B and B waits for A. *)
Definition cycleTasks : list PlannedTask :=
  [ mkPlanned "A" pythagoras ["B"] 5; mkPlanned "B" edison ["A"] 5 ].

Definition cyclePlan : ExecutionPlan :=
  Shaka.createExecutionPlan cycleTasks cycleTasks
    (fun i => "task-" +:+ pretty i) "plan-1" "do A and B".

(** A vector engine for the examples: the first [limit] entries of the
    index, each at distance one quarter. *)
Definition firstEntries (index : list VoyEntry) (q : list Q) (limit : nat) : list Neighbor :=
  take limit (map (fun e => mkNeighbor (e_id e) (1 # 4)) index).

Definition constantEmbedding (text : string) : option (list Q) := Some [1%Q; 0%Q].

Definition noteMeta : DocumentMetadata := mkMeta "notes" "text" (Some "Note") [].

(** Ten turns of 400 tokens: 4000 of 4096, above the threshold. *)
Definition fullHistory : York.State :=
  York.mkYork
    (map (fun i => mkTurn ("turn-" +:+ pretty i) "user" "..." 400) (seq 0 10))
    [] (mkMetrics 0 4000 York.MAX_CONTEXT_TOKENS 0 0) [].

Definition fixedSummary (turns : list ConversationTurn) : Completion string :=
  Return "summary of the evicted turns".

Definition fixedEmbedding (text : string) : Completion (list Q) := Return [1%Q; 0%Q].

Definition putSucceeds (slice : ContextSlice) : Completion unit := Return tt.

(** A transport that answers 503 and then times out before it succeeds. *)
Definition flakyTool (attempt : Z) (tool : string) (args : unit) : MCPToolResult + string :=
  if (attempt =? 1)%Z then inr "HTTP 503 Service Unavailable"
  else if (attempt =? 2)%Z then inr "request timeout"
  else inl (mkToolResult true (Some "42") None).

Definition noFix (tool : string) (args : unit) (message : string)
    : Completion (option unit) := Return None.

Definition defaultRequest : Atlas.ToolExecutionRequest unit :=
  Atlas.mkRequest unit "calculate" tt 0 3 30000.

(** The default separator, a blank line. *)
Definition blankLine : string := String "010" (String "010" "").

(** Collaborators of [processRequest] for the examples: the world counts
    the recorded turns, planning succeeds or fails as told. *)
Definition countTurn (w : nat) (role content : string) : nat := S w.
Definition planningGives (ok : bool) (w : nat) (input : string) : SatelliteResult * nat :=
  (mkResult "plan-task" shaka ok "plan" (if ok then None else Some "no model loaded"), w).
Definition approve (w : nat) (output : string) : Completion AgentMesh.Critique * nat :=
  (Return (AgentMesh.mkCritique 90 true), w).
Definition synthesize (w : nat) (dag : TaskDAG) (input : string) : Completion string * nat :=
  (Return "the report", w).

(** A keyword engine for the examples: every indexed document matches, in
    the content field. *)
Definition matchAll (docs : list PunkDocument) (query : string) (limit : nat)
    : option (list (list PunkDocument)) :=
  Some [take limit docs].

Definition failingEmbedding (text : string) : option (list Q) := None.

(** A store holding one document whose embedding could not be computed. *)
Definition errorCodeStore : PunkRecords.State :=
  snd (PunkRecords.addDocument failingEmbedding (PunkRecords.newStore ∅)
         "XK7-error-code-9981" noteMeta true "doc-1" 1).

(** Two notes, both embedded. *)
Definition twoNotes : PunkRecords.State :=
  snd (PunkRecords.addDocument constantEmbedding
         (snd (PunkRecords.addDocument constantEmbedding (PunkRecords.newStore ∅)
                 "first note" noteMeta true "doc-1" 1))
         "second note" noteMeta true "doc-2" 2).

(** The matched plan after its first node has failed: the report still
    waits for the research. *)
Definition researchFailed : ExecutionPlan :=
  mkPlan "plan-1" "research, then report" (plan_tasks matchedPlan)
    (Shaka.markTaskComplete (plan_dag matchedPlan) "node_0"
       (mkResult "task-0" pythagoras false "" (Some "no sources"))).

(** A satellite call that fails for the research and succeeds otherwise. *)
Definition failResearch (batch : nat) (id : string) (t : SatelliteTask) : SatelliteResult :=
  if String.eqb id "node_0"
  then mkResult (t_id t) (t_satelliteId t) false "" (Some "no sources")
  else succeed batch id t.

(** A small table of built-in tools, a server that never answers and one
    that answers the second call. *)
Definition twoTools (toolName : string) : option (unit -> Completion string) :=
  if String.eqb toolName "get_time" then Some (fun _ => Return "12:00")
  else if String.eqb toolName "calculate" then Some (fun _ => Throw "Invalid expression: x")
  else None.

Definition serverDown (n : nat) : Completion (list string * list string * list string) :=
  Throw "fetch failed".

Definition serverUpSecond (n : nat) : Completion (list string * list string * list string) :=
  if n =? 0 then Throw "fetch failed" else Return (["search"], [], []).

(** Four sources, and a generator that reports one finding per source it
    is shown, under the number shown. *)
Definition fourSources : list SearchSource :=
  map (fun i => mkSource ("doc-" +:+ pretty i) "punk_records" ("Title " +:+ pretty i)
                         "..." (1 / inject_Z (Z.of_nat (S i))))
      (seq 0 4).

Definition citeEverySource (question : string) (shown : list (nat * SearchSource))
    : Completion (option (list ParsedFinding)) :=
  Return (Some (map (fun ns => mkParsed (Z.of_nat (fst ns)) (src_title (snd ns)) "high" 1)
                    shown)).

(** An Atlas without MCP client, asked for a tool that does not exist. *)
Definition noClient (attempt : Z) : option MCPBrowserClient.State := None.

Definition noServer (toolName : string) (args : unit) : Completion unit :=
  Throw "fetch failed".

Definition launchRequest : Atlas.ToolExecutionRequest unit :=
  Atlas.mkRequest unit "launch_rocket" tt 0 3 30000.

Definition sessionName (n : nat) : string := "session-" +:+ pretty n.

(** The two-node cycle beside a task that waits for nothing. *)
Definition cycleAndRootTasks : list PlannedTask :=
  [ mkPlanned "A" pythagoras ["B"] 5; mkPlanned "B" edison ["A"] 5;
    mkPlanned "C" atlas [] 5 ].

(** A new York after a turn of 1500 and one of 2000 tokens: 3500 of 4096,
    above the threshold. *)
Definition twoLongTurns : York.State :=
  fst (York.addConversationTurn
         (fst (York.addConversationTurn York.new (mkTurn "turn-0" "user" "..." 1500)))
         (mkTurn "turn-1" "assistant" "..." 2000)).

(** A vector engine that answers the first [limit] entries of the index,
    each at distance one quarter. *)
Definition firstEntries64 (index : list VoyEntry) (q : list Q) (limit : nat)
    : list HybridSearch.Neighbor :=
  take limit (map (fun e => HybridSearch.mkNeighbor (e_id e)
                              (Number.div Number.one (Number.ofZ 4))) index).

(** The literals [0.9] and [0.1]. *)
Definition nine_tenths : Number.t := Number.div (Number.ofZ 9) (Number.ofZ 10).
Definition one_tenth : Number.t := Number.div (Number.ofZ 1) (Number.ofZ 10).

(* ===================================================================== *)
(** * Properties *)
(* ===================================================================== *)

(** ** Facts about the JavaScript [Map] model *)

Section JSMapFacts.
Context {V : Type}.
Implicit Types (m : JSMap.t V) (k : string) (v : V).

Lemma get_update_eq m k f :
  JSMap.get (JSMap.update k f m) k = f <$> JSMap.get m k.
Proof.
  induction m as [|[k' v] m IH]; simpl; [done|].
  destruct (String.eqb_spec k' k) as [->|Hne]; simpl.
  - by rewrite String.eqb_refl.
  - apply String.eqb_neq in Hne. by rewrite Hne.
Qed.

Lemma get_update_ne m k k' f :
  k <> k' -> JSMap.get (JSMap.update k f m) k' = JSMap.get m k'.
Proof.
  intros Hkk. induction m as [|[k0 v] m IH]; simpl; [done|].
  destruct (String.eqb_spec k0 k) as [->|Hne]; simpl.
  - apply String.eqb_neq in Hkk. by rewrite Hkk.
  - by rewrite IH.
Qed.

Lemma keys_update m k f : JSMap.keys (JSMap.update k f m) = JSMap.keys m.
Proof.
  induction m as [|[k0 v] m IH]; simpl; [done|].
  destruct (String.eqb k0 k); simpl; [done|]. by f_equal.
Qed.

Lemma get_None_keys m k : JSMap.get m k = None <-> k ∉ JSMap.keys m.
Proof.
  induction m as [|[k0 v] m IH]; simpl.
  - split; [intros _; apply not_elem_of_nil | done].
  - rewrite not_elem_of_cons.
    destruct (String.eqb_spec k0 k) as [->|Hne]; split; try done.
    + by intros [? _].
    + intros H. split; [congruence | by apply IH].
    + intros [_ H]. by apply IH.
Qed.

Lemma get_Some_keys m k v : JSMap.get m k = Some v -> k ∈ JSMap.keys m.
Proof.
  intros H. destruct (decide (k ∈ JSMap.keys m)) as [|Hn]; [done|].
  apply get_None_keys in Hn. congruence.
Qed.

Lemma get_Some_elem m k v : JSMap.get m k = Some v -> (k, v) ∈ m.
Proof.
  induction m as [|[k0 v0] m IH]; simpl; [done|].
  destruct (String.eqb_spec k0 k) as [->|Hne].
  - intros [= ->]. apply list_elem_of_here.
  - intros H. apply list_elem_of_further. by apply IH.
Qed.

Lemma elem_get_Some m k v :
  NoDup (JSMap.keys m) -> (k, v) ∈ m -> JSMap.get m k = Some v.
Proof.
  induction m as [|[k0 v0] m IH]; simpl; intros Hnd Hin.
  - by apply elem_of_nil in Hin.
  - apply NoDup_cons in Hnd as [Hk0 Hnd].
    apply elem_of_cons in Hin as [[= -> ->]|Hin].
    + by rewrite String.eqb_refl.
    + destruct (String.eqb_spec k0 k) as [->|Hne]; [|by apply IH].
      exfalso. apply Hk0. apply list_elem_of_fmap. by exists (k, v).
Qed.

Lemma keys_set_fresh m k v :
  k ∉ JSMap.keys m -> JSMap.set k v m = m ++ [(k, v)].
Proof.
  induction m as [|[k0 v0] m IH]; simpl; [done|].
  rewrite not_elem_of_cons. intros [Hne Hnin].
  destruct (String.eqb_spec k0 k) as [->|_]; [done|]. by rewrite IH.
Qed.

Lemma keys_set_present m k v :
  k ∈ JSMap.keys m -> JSMap.keys (JSMap.set k v m) = JSMap.keys m.
Proof.
  induction m as [|[k0 v0] m IH]; simpl; intros Hin.
  - by apply elem_of_nil in Hin.
  - destruct (String.eqb_spec k0 k) as [->|Hne]; simpl; [done|].
    f_equal. apply IH. apply elem_of_cons in Hin as [|]; [congruence|done].
Qed.

Lemma NoDup_keys_set m k v :
  NoDup (JSMap.keys m) -> NoDup (JSMap.keys (JSMap.set k v m)).
Proof.
  intros Hnd. destruct (decide (k ∈ JSMap.keys m)) as [Hin|Hnin].
  - by rewrite keys_set_present.
  - rewrite keys_set_fresh by done. unfold JSMap.keys. rewrite fmap_app. simpl.
    apply NoDup_app. split; [done|]. split; [|apply NoDup_singleton].
    intros x Hx Hx'. apply list_elem_of_singleton in Hx'. by subst.
Qed.

Lemma get_set_eq m k v : JSMap.get (JSMap.set k v m) k = Some v.
Proof.
  induction m as [|[k0 v0] m IH]; simpl.
  - by rewrite String.eqb_refl.
  - destruct (String.eqb_spec k0 k) as [->|Hne]; simpl.
    + by rewrite String.eqb_refl.
    + apply String.eqb_neq in Hne. by rewrite Hne.
Qed.

Lemma get_set_ne m k k' v :
  k <> k' -> JSMap.get (JSMap.set k v m) k' = JSMap.get m k'.
Proof.
  intros Hkk. induction m as [|[k0 v0] m IH]; simpl.
  - apply String.eqb_neq in Hkk. by rewrite Hkk.
  - destruct (String.eqb_spec k0 k) as [->|Hne]; simpl.
    + apply String.eqb_neq in Hkk. by rewrite Hkk.
    + by rewrite IH.
Qed.

End JSMapFacts.

(** ** The task graph *)

Section GraphFacts.
Implicit Types (m : JSMap.t DAGNode) (n : DAGNode) (id : string).

Lemma NodeStatus_eqb_eq a b : NodeStatus_eqb a b = true <-> a = b.
Proof. destruct a, b; simpl; split; congruence. Qed.

Lemma get_update_inv {V} (m : JSMap.t V) k k' f v' :
  JSMap.get (JSMap.update k f m) k' = Some v' ->
  (k' = k /\ exists v, JSMap.get m k = Some v /\ v' = f v)
  \/ (k' <> k /\ JSMap.get m k' = Some v').
Proof.
  destruct (decide (k' = k)) as [->|Hne].
  - rewrite get_update_eq. destruct (JSMap.get m k) as [v|]; simpl; [|done].
    intros [= <-]. left. eauto.
  - rewrite get_update_ne by done. by right.
Qed.

Lemma allDepsComplete_spec m n :
  Shaka.allDepsComplete m n = true <-> depsCompleted m n.
Proof.
  unfold Shaka.allDepsComplete, depsCompleted.
  rewrite forallb_forall, List.Forall_forall.
  split; intros H d Hd; specialize (H d Hd).
  - destruct (JSMap.get m d) as [dn|]; [|done].
    exists dn. split; [done|]. by apply NodeStatus_eqb_eq.
  - destruct H as (dn & -> & Hs). by apply NodeStatus_eqb_eq.
Qed.

Lemma evolves_refl m : evolves m m.
Proof.
  split; [done|]. intros id n Hg. exists n. repeat split; auto.
Qed.

Lemma evolves_completed m m' d dn :
  evolves m m' -> JSMap.get m d = Some dn -> n_status dn = completed ->
  exists dn', JSMap.get m' d = Some dn' /\ n_status dn' = completed.
Proof.
  intros [Hk He] Hg Hs.
  destruct (JSMap.get m' d) as [dn'|] eqn:Hg'.
  - destruct (He d dn' Hg') as (n0 & Hg0 & _ & _ & Hc & _).
    rewrite Hg in Hg0. injection Hg0 as <-. eauto.
  - apply get_None_keys in Hg'. rewrite Hk in Hg'.
    apply get_Some_keys in Hg. done.
Qed.

Lemma depsCompleted_evolves m m' n n' :
  evolves m m' -> n_dependencies n' = n_dependencies n ->
  depsCompleted m n -> depsCompleted m' n'.
Proof.
  intros Hev Hd. unfold depsCompleted. rewrite Hd.
  apply List.Forall_impl. intros d (dn & Hg & Hs).
  by eapply evolves_completed.
Qed.

Lemma evolves_trans m1 m2 m3 : evolves m1 m2 -> evolves m2 m3 -> evolves m1 m3.
Proof.
  intros H12 H23. pose proof H12 as [Hk12 He12]. pose proof H23 as [Hk23 He23].
  split; [congruence|].
  intros id n3 Hg3.
  destruct (He23 id n3 Hg3) as (n2 & Hg2 & Hd2 & Ht2 & Hc2 & Hr2 & Hf2 & Hi2).
  destruct (He12 id n2 Hg2) as (n1 & Hg1 & Hd1 & Ht1 & Hc1 & Hr1 & Hf1 & Hi1).
  exists n1. split; [done|]. split; [congruence|]. split; [congruence|].
  split; [auto|]. split; [|split; [auto|congruence]].
  intros Hr. destruct (Hr2 Hr) as [Hr'|]; [|by right].
  destruct (Hr1 Hr') as [|Hdc]; [by left|].
  right. eapply depsCompleted_evolves; eauto.
Qed.

Lemma readySound_evolves m m' : readySound m -> evolves m m' -> readySound m'.
Proof.
  intros Hs Hev id n' Hg' Hr.
  destruct Hev as [Hk He]. destruct (He id n' Hg') as (n & Hg & Hd & _ & _ & Hrr & _).
  destruct (Hrr Hr) as [Hr0|]; [|done].
  eapply depsCompleted_evolves; [by split| done | by eapply Hs].
Qed.

(** A status write that respects the discipline is a legal evolution. *)
Lemma evolves_update m id n g s :
  JSMap.get m id = Some n ->
  (forall x, n_status (g x) = s /\ n_dependencies (g x) = n_dependencies x
             /\ n_dependents (g x) = n_dependents x /\ n_taskId (g x) = n_taskId x) ->
  (n_status n = completed -> s = completed) ->
  (n_status n = failed -> s = failed) ->
  (s = ready -> n_status n = ready \/ depsCompleted m n) ->
  evolves m (JSMap.update id g m).
Proof.
  intros Hg Hgs Hc Hf Hr.
  assert (Hpres : forall d dn, JSMap.get m d = Some dn -> n_status dn = completed ->
            exists dn', JSMap.get (JSMap.update id g m) d = Some dn'
                        /\ n_status dn' = completed).
  { intros d dn Hd Hs. destruct (decide (d = id)) as [->|Hne].
    - rewrite get_update_eq, Hd. simpl. eexists. split; [done|].
      rewrite Hg in Hd. injection Hd as <-.
      destruct (Hgs n) as (-> & _). auto.
    - rewrite get_update_ne by done. eauto. }
  assert (Hdc : forall x x', n_dependencies x' = n_dependencies x ->
            depsCompleted m x -> depsCompleted (JSMap.update id g m) x').
  { intros x x' Hx. unfold depsCompleted. rewrite Hx.
    apply List.Forall_impl. intros d (dn & Hd & Hs). eauto. }
  split; [apply keys_update|].
  intros id' n' Hg'. apply get_update_inv in Hg' as [(-> & v & Hv & ->)|(Hne & Hg')].
  - rewrite Hg in Hv. injection Hv as <-. exists n.
    destruct (Hgs n) as (Hs & Hd & Ht & Hi).
    split; [done|]. split; [done|]. split; [done|]. split; [|split; [|split; [|done]]].
    + intros Hcn. rewrite Hs. auto.
    + rewrite Hs. intros Hsr. destruct (Hr Hsr) as [|Hdn]; [by left|].
      right. by apply (Hdc n).
    + intros Hfn. rewrite Hs. auto.
  - exists n'. repeat split; auto.
Qed.

Lemma set_status_fields s x :
  n_status (set_status s x) = s /\ n_dependencies (set_status s x) = n_dependencies x
  /\ n_dependents (set_status s x) = n_dependents x
  /\ n_taskId (set_status s x) = n_taskId x.
Proof. done. Qed.

End GraphFacts.

(** ** [getReadyTasks], [markTaskComplete], [isDAGComplete] *)

Section ShakaFacts.
Implicit Types (m : JSMap.t DAGNode) (n : DAGNode) (id : string).
Local Arguments Shaka.readyStep : simpl never.
Local Arguments Shaka.promoteDependent : simpl never.

Lemma readyStep_evolves rdy m id : evolves m (snd (Shaka.readyStep (rdy, m) id)).
Proof.
  unfold Shaka.readyStep.
  destruct (JSMap.get m id) as [node|] eqn:Hg; [|apply evolves_refl].
  destruct (n_status node) eqn:Hs; simpl; try apply evolves_refl.
  destruct (Shaka.allDepsComplete m node) eqn:Hall; simpl; [|apply evolves_refl].
  eapply evolves_update; [done|apply set_status_fields|congruence|congruence|].
  intros _. right. by apply allDepsComplete_spec.
Qed.

Lemma fold_readyStep_evolves ks acc :
  evolves (snd acc) (snd (fold_left Shaka.readyStep ks acc)).
Proof.
  revert acc. induction ks as [|k ks IH]; intros [rdy m]; simpl.
  - apply evolves_refl.
  - eapply evolves_trans; [apply (readyStep_evolves rdy m k)|].
    destruct (Shaka.readyStep (rdy, m) k) as [rdy1 m1] eqn:E. apply (IH (rdy1, m1)).
Qed.

Lemma getReadyNodes_evolves m : evolves m (snd (Shaka.getReadyNodes m)).
Proof. apply (fold_readyStep_evolves _ ([], m)). Qed.

Lemma allInStatus_update s ids m id g :
  id ∉ ids -> allInStatus s ids m -> allInStatus s ids (JSMap.update id g m).
Proof.
  intros Hnin H id' Hin. destruct (H id' Hin) as (n & Hg & Hs).
  exists n. split; [|done]. rewrite get_update_ne; [done|]. intros ->. done.
Qed.

Lemma fold_readyStep_ready ks rdy m :
  NoDup (rdy ++ ks) -> allInStatus ready rdy m ->
  let r := fold_left Shaka.readyStep ks (rdy, m) in
  NoDup (fst r) /\ allInStatus ready (fst r) (snd r).
Proof.
  revert rdy m. induction ks as [|k ks IH]; intros rdy m Hnd Hall; simpl.
  - rewrite app_nil_r in Hnd. done.
  - assert (Hnd1 : NoDup ((rdy ++ [k]) ++ ks)) by by rewrite <- app_assoc.
    assert (Hnd2 : NoDup (rdy ++ ks)).
    { apply NoDup_app in Hnd as (H1 & H2 & H3). apply NoDup_cons in H3 as [_ H3].
      apply NoDup_app. split; [done|]. split; [|done].
      intros x Hx Hx'. apply (H2 x Hx). by apply list_elem_of_further. }
    assert (Hk : k ∉ rdy).
    { apply NoDup_app in Hnd as (_ & H2 & _). intros Hin.
      apply (H2 k Hin). apply list_elem_of_here. }
    unfold Shaka.readyStep.
    destruct (JSMap.get m k) as [node|] eqn:Hg; [|by apply IH].
    destruct (n_status node) eqn:Hs; try by apply IH.
    + destruct (Shaka.allDepsComplete m node) eqn:Hd; [|by apply IH].
      apply IH; [done|]. intros id Hin. apply elem_of_app in Hin as [Hin|Hin].
      * by apply (allInStatus_update ready rdy).
      * apply list_elem_of_singleton in Hin as ->. rewrite get_update_eq, Hg. simpl.
        eexists. split; done.
    + apply IH; [done|]. intros id Hin. apply elem_of_app in Hin as [Hin|Hin].
      * by apply Hall.
      * apply list_elem_of_singleton in Hin as ->. eauto.
Qed.

Lemma getReadyNodes_ready m :
  NoDup (JSMap.keys m) ->
  NoDup (fst (Shaka.getReadyNodes m))
  /\ allInStatus ready (fst (Shaka.getReadyNodes m)) (snd (Shaka.getReadyNodes m)).
Proof.
  intros Hnd. apply (fold_readyStep_ready (JSMap.keys m) [] m); [done|].
  intros id Hin. by apply elem_of_nil in Hin.
Qed.

(** Nothing is promoted without being listed: an empty ready set leaves
    the graph as it was. *)
Lemma fold_readyStep_nil ks rdy m :
  fst (fold_left Shaka.readyStep ks (rdy, m)) = [] ->
  rdy = [] /\ snd (fold_left Shaka.readyStep ks (rdy, m)) = m.
Proof.
  revert rdy m. induction ks as [|k ks IH]; intros rdy m; simpl; [done|].
  unfold Shaka.readyStep.
  destruct (JSMap.get m k) as [node|] eqn:Hg; [|by apply IH].
  destruct (n_status node) eqn:Hs; try by apply IH.
  - destruct (Shaka.allDepsComplete m node) eqn:Hd; [|by apply IH].
    intros H. apply IH in H as [H _]. by destruct rdy.
  - intros H. apply IH in H as [H _]. by destruct rdy.
Qed.

Lemma promoteDependent_evolves m d : evolves m (Shaka.promoteDependent m d).
Proof.
  unfold Shaka.promoteDependent.
  destruct (JSMap.get m d) as [node|] eqn:Hg; [|apply evolves_refl].
  destruct (n_status node) eqn:Hs; try apply evolves_refl.
  destruct (Shaka.allDepsComplete m node) eqn:Hall; [|apply evolves_refl].
  eapply evolves_update; [done|apply set_status_fields|congruence|congruence|].
  intros _. right. by apply allDepsComplete_spec.
Qed.

Lemma promoteDependent_keeps m d id n :
  JSMap.get m id = Some n -> n_status n <> pending ->
  JSMap.get (Shaka.promoteDependent m d) id = Some n.
Proof.
  intros Hg Hs. unfold Shaka.promoteDependent.
  destruct (JSMap.get m d) as [node|] eqn:Hd; [|done].
  destruct (n_status node) eqn:Hsn; try done.
  destruct (Shaka.allDepsComplete m node); [|done].
  rewrite get_update_ne; [done|]. intros ->. congruence.
Qed.

Lemma fold_promote_evolves ds m : evolves m (fold_left Shaka.promoteDependent ds m).
Proof.
  revert m. induction ds as [|d ds IH]; intros m; simpl; [apply evolves_refl|].
  eapply evolves_trans; [apply promoteDependent_evolves | apply IH].
Qed.

Lemma fold_promote_keeps ds m id n :
  JSMap.get m id = Some n -> n_status n <> pending ->
  JSMap.get (fold_left Shaka.promoteDependent ds m) id = Some n.
Proof.
  revert m. induction ds as [|d ds IH]; intros m Hg Hs; simpl; [done|].
  apply IH; [|done]. by apply promoteDependent_keeps.
Qed.

Lemma markNode_evolves m id r n :
  JSMap.get m id = Some n -> n_status n <> completed -> n_status n <> failed ->
  evolves m (Shaka.markNode m id r).
Proof.
  intros Hg Hs Hnf. unfold Shaka.markNode. rewrite Hg.
  set (g := fun x => set_result r (set_status (if r_success r then completed else failed) x)).
  assert (Hup : evolves m (JSMap.update id g m)).
  { eapply evolves_update with (s := if r_success r then completed else failed);
      [done| |done|done|].
    - intros x. done.
    - destruct (r_success r); discriminate. }
  destruct (r_success r); [|done].
  eapply evolves_trans; [done | apply fold_promote_evolves].
Qed.

Lemma markNode_keeps m id r id' n' :
  id' <> id -> JSMap.get m id' = Some n' -> n_status n' <> pending ->
  JSMap.get (Shaka.markNode m id r) id' = Some n'.
Proof.
  intros Hne Hg Hs. unfold Shaka.markNode.
  destruct (JSMap.get m id) as [node|]; [|done].
  assert (JSMap.get (JSMap.update id
    (fun x => set_result r (set_status (if r_success r then completed else failed) x)) m)
    id' = Some n') as Hg1 by by rewrite get_update_ne.
  destruct (r_success r); [|done]. by apply fold_promote_keeps.
Qed.

Lemma nodesComplete_spec m :
  Shaka.nodesComplete m = true <->
  forall id n, (id, n) ∈ m -> n_status n = completed \/ n_status n = failed.
Proof.
  unfold Shaka.nodesComplete, JSMap.values. rewrite forallb_forall. split.
  - intros H id n Hin.
    assert (Hn : In n (map snd m)).
    { apply list_elem_of_In, list_elem_of_fmap. by exists (id, n). }
    apply H, orb_true_iff in Hn. by rewrite !NodeStatus_eqb_eq in Hn.
  - intros H n Hin. apply list_elem_of_In, list_elem_of_fmap in Hin as ([id n'] & -> & Hin).
    simpl. apply orb_true_iff. rewrite !NodeStatus_eqb_eq. by eapply H.
Qed.

End ShakaFacts.

(** ** The scheduler loop *)

Lemma extract_Permutation {A} (k : nat) (l : list A) x r :
  extract k l = Some (x, r) -> l ≡ₚ x :: r.
Proof.
  revert k x r. induction l as [|y l IH]; intros k x r; simpl; [done|].
  destruct k as [|k]; [by intros [= -> ->]|].
  destruct (extract k l) as [[z r']|] eqn:E.
  - intros [= -> <-]. rewrite (IH _ _ _ E). apply Permutation_swap.
  - by intros [= -> ->].
Qed.

Lemma extract_None {A} (k : nat) (l : list A) : extract k l = None -> l = [].
Proof.
  destruct l as [|y l]; [done|]. simpl. destruct k; [done|].
  by destruct (extract k l) as [[? ?]|].
Qed.

Lemma reorder_Permutation {A} (picks : list nat) (l : list A) : reorder picks l ≡ₚ l.
Proof.
  revert l. induction picks as [|k picks IH]; intros l; simpl; [done|].
  destruct (extract k l) as [[x r]|] eqn:E.
  - rewrite IH. symmetry. by eapply extract_Permutation.
  - by rewrite (extract_None _ _ E).
Qed.

Lemma reorder_nil {A} (picks : list nat) : reorder picks (@nil A) = [].
Proof. by destruct picks. Qed.

Ltac split5 := split; [|split; [|split; [|split]]].

Section SchedulerFacts.
Variable execute : nat -> string -> SatelliteTask -> SatelliteResult.
Variable settle : nat -> list nat.
Implicit Types (m : JSMap.t DAGNode) (n : DAGNode) (id : string).

Abbreviation startExecutions := (AgentMesh.startExecutions execute).
Abbreviation iteration := (AgentMesh.iteration execute settle).

Lemma startExecutions_spec batch tasks rs m :
  NoDup rs -> allInStatus ready rs m ->
  let r := startExecutions batch tasks rs m in
  evolves m (snd r)
  /\ (forall id, id ∉ rs -> JSMap.get (snd r) id = JSMap.get m id)
  /\ map AgentMesh.d_node (fst r) `sublist_of` rs
  /\ allInStatus running (map AgentMesh.d_node (fst r)) (snd r)
  /\ (readySound m -> Forall dispatchedSoundly (fst r)).
Proof.
  revert m. induction rs as [|id rest IH]; intros m Hnd Hall; simpl.
  - split5; [apply evolves_refl|done|done| |constructor].
    intros id Hin. by apply elem_of_nil in Hin.
  - apply NoDup_cons in Hnd as [Hid Hnd].
    destruct (Hall id) as (node & Hg & Hs); [apply list_elem_of_here|].
    assert (Hall' : allInStatus ready rest m).
    { intros x Hx. apply Hall. by apply list_elem_of_further. }
    rewrite Hg.
    destruct (AgentMesh.findTask tasks node id) as [task|].
    + set (m1 := JSMap.update id (set_status running) m).
      assert (Hev1 : evolves m m1).
      { eapply evolves_update;
          [done|apply set_status_fields|congruence|congruence|discriminate]. }
      specialize (IH m1 Hnd (allInStatus_update ready rest m id _ Hid Hall')).
      destruct (startExecutions batch tasks rest m1) as [ds m2]. simpl in *.
      destruct IH as (Hev & Hout & Hsub & Hrun & Hdisp).
      split5.
      * by eapply evolves_trans.
      * intros x Hx. apply not_elem_of_cons in Hx as [Hne Hx].
        rewrite Hout by done. unfold m1. by rewrite get_update_ne.
      * by apply sublist_skip.
      * intros x Hx. apply elem_of_cons in Hx as [->|Hx]; [|by apply Hrun].
        rewrite Hout by done. unfold m1. rewrite get_update_eq, Hg. simpl.
        eexists. split; done.
      * intros Hsound. constructor; [|by eapply Hdisp, readySound_evolves].
        exists node. simpl. split; [done|]. split; [done|]. by eapply Hsound.
    + specialize (IH m Hnd Hall').
      destruct (startExecutions batch tasks rest m) as [ds m2]. simpl in *.
      destruct IH as (Hev & Hout & Hsub & Hrun & Hdisp).
      split5; [done| |by apply sublist_cons|done|done].
      intros x Hx. apply not_elem_of_cons in Hx as [Hne Hx]. by apply Hout.
Qed.

Lemma settleExecutions_evolves (l : list (string * SatelliteResult)) m :
  NoDup l.*1 -> allInStatus running l.*1 m ->
  evolves m (AgentMesh.settleExecutions l m).
Proof.
  revert m. induction l as [|[id r] l IH]; intros m Hnd Hrun; simpl.
  - apply evolves_refl.
  - apply NoDup_cons in Hnd as [Hid Hnd].
    destruct (Hrun id) as (n & Hg & Hs); [apply list_elem_of_here|].
    eapply evolves_trans.
    + apply (markNode_evolves m id r n); [done|congruence|congruence].
    + apply IH; [done|]. intros x Hx.
      destruct (Hrun x) as (nx & Hgx & Hsx); [by apply list_elem_of_further|].
      exists nx. split; [|done].
      apply markNode_keeps; [|done|congruence]. intros ->. done.
Qed.

(** One full batch is a legal evolution of the graph, and, when the graph
    was sound, every dispatch in it is sound. *)
Lemma iteration_Batch batch tasks dag ds dag1 :
  NoDup (JSMap.keys (nodes dag)) ->
  iteration batch tasks dag = AgentMesh.Batch ds dag1 ->
  evolves (nodes dag) (nodes dag1)
  /\ (readySound (nodes dag) -> Forall dispatchedSoundly ds).
Proof.
  intros Hnd. unfold AgentMesh.iteration.
  destruct (Shaka.isDAGComplete dag); [done|].
  unfold Shaka.getReadyTasks.
  pose proof (getReadyNodes_evolves (nodes dag)) as Hev0.
  pose proof (getReadyNodes_ready (nodes dag) Hnd) as [Hnd0 Hrdy0].
  destruct (Shaka.getReadyNodes (nodes dag)) as [rdy m1]. simpl in *.
  destruct rdy as [|r0 rdy]; [done|].
  pose proof (startExecutions_spec batch tasks (r0 :: rdy) m1 Hnd0 Hrdy0) as Hst.
  destruct (startExecutions batch tasks (r0 :: rdy) m1) as [ds' m2]. simpl in Hst.
  destruct Hst as (Hev1 & _ & Hsub & Hrun & Hdisp).
  intros [= <- <-]. simpl. split; [|intros Hsound; by eapply Hdisp, readySound_evolves].
  eapply evolves_trans; [done|]. eapply evolves_trans; [done|].
  set (l := map (fun d => (AgentMesh.d_node d, AgentMesh.d_result d)) ds').
  assert (Hfst : l.*1 = map AgentMesh.d_node ds').
  { unfold l. rewrite <- list_fmap_compose. done. }
  apply settleExecutions_evolves.
  - rewrite (reorder_Permutation (settle batch) l), Hfst.
    exact (sublist_NoDup _ _ Hnd0 Hsub).
  - intros x Hx. apply Hrun. rewrite <- Hfst.
    by rewrite (reorder_Permutation (settle batch) l) in Hx.
Qed.

Lemma iteration_keys batch tasks dag ds dag1 :
  NoDup (JSMap.keys (nodes dag)) ->
  iteration batch tasks dag = AgentMesh.Batch ds dag1 ->
  NoDup (JSMap.keys (nodes dag1))
  /\ (readySound (nodes dag) -> readySound (nodes dag1)).
Proof.
  intros Hnd Hit.
  destruct (iteration_Batch _ _ _ _ _ Hnd Hit) as [Hev _].
  split; [|intros Hsound; by eapply readySound_evolves].
  destruct Hev as [-> _]. done.
Qed.

Lemma loopState_invariant k batch tasks dag :
  NoDup (JSMap.keys (nodes dag)) ->
  NoDup (JSMap.keys (nodes (AgentMesh.loopState execute settle k batch tasks dag)))
  /\ (readySound (nodes dag) ->
      readySound (nodes (AgentMesh.loopState execute settle k batch tasks dag))).
Proof.
  revert batch dag. induction k as [|k IH]; intros batch dag Hnd; simpl; [done|].
  destruct (iteration batch tasks dag) as [|dag1|ds dag1] eqn:Hit; [done|done|].
  destruct (iteration_keys _ _ _ _ _ Hnd Hit) as [Hnd1 Hs1].
  destruct (IH (S batch) dag1 Hnd1) as [Hnd2 Hs2]. split; [done|auto].
Qed.

End SchedulerFacts.

(** ** [buildDAG] *)

Section BuildFacts.
Implicit Types (m : JSMap.t DAGNode) (n : DAGNode) (id : string).
Local Arguments Shaka.classify : simpl never.
Local Arguments Shaka.linkDependency : simpl never.

Lemma createNodes_spec tasks index acc :
  NoDup (JSMap.keys (fst acc)) -> allPending (fst acc) ->
  NoDup (JSMap.keys (fst (Shaka.createNodes tasks index acc)))
  /\ allPending (fst (Shaka.createNodes tasks index acc)).
Proof.
  revert index acc. induction tasks as [|t tasks IH]; intros index [m d] Hnd Hp; simpl.
  - done.
  - apply IH; simpl.
    + by apply NoDup_keys_set.
    + intros id n. destruct (decide (id = Shaka.nodeId index)) as [->|Hne].
      * rewrite get_set_eq. by intros [= <-].
      * rewrite get_set_ne by done. apply Hp.
Qed.

Lemma allPending_update m id g :
  (forall x, n_status (g x) = n_status x) ->
  allPending m -> allPending (JSMap.update id g m).
Proof.
  intros Hg Hp id' n' Hget.
  apply get_update_inv in Hget as [(-> & v & Hv & ->)|(_ & Hget)].
  - rewrite Hg. by eapply Hp.
  - by eapply Hp.
Qed.

Lemma linkDependency_spec descToId id m dep :
  JSMap.keys (Shaka.linkDependency descToId id m dep) = JSMap.keys m
  /\ (allPending m -> allPending (Shaka.linkDependency descToId id m dep)).
Proof.
  unfold Shaka.linkDependency.
  destruct (JSMap.get descToId dep) as [depNodeId|]; [|done].
  destruct (String.eqb depNodeId ""); [done|].
  split; [by rewrite !keys_update|].
  intros Hp. by repeat apply allPending_update.
Qed.

Lemma fold_linkDependency_spec descToId id deps m :
  JSMap.keys (fold_left (Shaka.linkDependency descToId id) deps m) = JSMap.keys m
  /\ (allPending m -> allPending (fold_left (Shaka.linkDependency descToId id) deps m)).
Proof.
  revert m. induction deps as [|d deps IH]; intros m; simpl; [done|].
  destruct (IH (Shaka.linkDependency descToId id m d)) as [Hk Hp].
  destruct (linkDependency_spec descToId id m d) as [Hk1 Hp1].
  split; [congruence|auto].
Qed.

Lemma linkNodes_spec descToId tasks index m :
  JSMap.keys (Shaka.linkNodes descToId tasks index m) = JSMap.keys m
  /\ (allPending m -> allPending (Shaka.linkNodes descToId tasks index m)).
Proof.
  revert index m. induction tasks as [|t tasks IH]; intros index m; simpl; [done|].
  destruct (IH (S index) (fold_left (Shaka.linkDependency descToId (Shaka.nodeId index))
                            (p_dependencies t) m)) as [Hk Hp].
  destruct (fold_linkDependency_spec descToId (Shaka.nodeId index) (p_dependencies t) m)
    as [Hk1 Hp1].
  split; [congruence|auto].
Qed.

Lemma classify_spec acc id :
  JSMap.keys (fst (fst (Shaka.classify acc id))) = JSMap.keys (fst (fst acc))
  /\ (readyAreRoots (fst (fst acc)) -> readyAreRoots (fst (fst (Shaka.classify acc id)))).
Proof.
  destruct acc as [[m roots] leaves]. unfold Shaka.classify. simpl.
  destruct (JSMap.get m id) as [node|] eqn:Hg; [|done].
  destruct (Nat.eqb_spec (length (n_dependencies node)) 0) as [Hlen|_]; simpl; [|done].
  split; [apply keys_update|].
  intros Hr id' n' Hget Hs.
  apply get_update_inv in Hget as [(-> & v & Hv & ->)|(_ & Hget)]; [|by eapply Hr].
  rewrite Hg in Hv. injection Hv as <-. simpl. by apply nil_length_inv.
Qed.

Lemma fold_classify_spec ks acc :
  JSMap.keys (fst (fst (fold_left Shaka.classify ks acc))) = JSMap.keys (fst (fst acc))
  /\ (readyAreRoots (fst (fst acc)) ->
      readyAreRoots (fst (fst (fold_left Shaka.classify ks acc)))).
Proof.
  revert acc. induction ks as [|k ks IH]; intros acc; simpl; [done|].
  destruct (IH (Shaka.classify acc k)) as [Hk Hp].
  destruct (classify_spec acc k) as [Hk1 Hp1].
  split; [congruence|auto].
Qed.

Lemma buildDAG_spec tasks :
  NoDup (JSMap.keys (nodes (Shaka.buildDAG tasks)))
  /\ readyAreRoots (nodes (Shaka.buildDAG tasks)).
Proof.
  unfold Shaka.buildDAG.
  pose proof (createNodes_spec tasks 0 (JSMap.empty, JSMap.empty)) as Hc.
  destruct (Shaka.createNodes tasks 0 (JSMap.empty, JSMap.empty)) as [created descToId].
  simpl in Hc. destruct Hc as [Hnd Hp]; [apply NoDup_nil_2|done|].
  destruct (linkNodes_spec descToId tasks 0 created) as [Hk1 Hp1].
  set (linked := Shaka.linkNodes descToId tasks 0 created) in *.
  destruct (fold_classify_spec (JSMap.keys linked) (linked, [], [])) as [Hk2 Hp2].
  destruct (fold_left Shaka.classify (JSMap.keys linked) (linked, [], []))
    as [[m roots] leaves]. simpl in *.
  split; [congruence|].
  apply Hp2. intros id n Hg Hs. specialize (Hp1 Hp id n Hg). congruence.
Qed.

Lemma readyAreRoots_sound m : readyAreRoots m -> readySound m.
Proof.
  intros Hr id n Hg Hs. unfold depsCompleted. rewrite (Hr id n Hg Hs). constructor.
Qed.

End BuildFacts.

(** ** Promotion to [ready] *)

Lemma evolves_promotesSoundly m m' : evolves m m' -> promotesSoundly m m'.
Proof.
  intros [_ He] id n' Hg Hs. destruct (He id n' Hg) as (n & Hgn & _ & _ & _ & Hr & _).
  destruct (Hr Hs); [left; eauto | by right].
Qed.

Lemma getReadyTasks_promotesSoundly dag :
  promotesSoundly (nodes dag) (nodes (snd (Shaka.getReadyTasks dag))).
Proof.
  unfold Shaka.getReadyTasks.
  pose proof (getReadyNodes_evolves (nodes dag)) as Hev.
  destruct (Shaka.getReadyNodes (nodes dag)) as [rdy m]. by apply evolves_promotesSoundly.
Qed.

Lemma markTaskComplete_promotesSoundly dag id r :
  promotesSoundly (nodes dag) (nodes (Shaka.markTaskComplete dag id r)).
Proof.
  unfold Shaka.markTaskComplete, Shaka.markNode. simpl.
  destruct (JSMap.get (nodes dag) id) as [node|] eqn:Hnode.
  2:{ intros i n' Hg Hs. left. eauto. }
  set (g := fun n => set_result r (set_status (if r_success r then completed else failed) n)).
  assert (Hm1 : forall i n1, JSMap.get (JSMap.update id g (nodes dag)) i = Some n1 ->
                 n_status n1 = ready ->
                 exists n, JSMap.get (nodes dag) i = Some n /\ n_status n = ready).
  { intros i n1 Hg Hs. apply get_update_inv in Hg as [(-> & v & _ & ->)|(_ & Hg)]; [|eauto].
    simpl in Hs. destruct (r_success r); discriminate. }
  destruct (r_success r) eqn:Hok; [|intros i n' Hg Hs; left; eauto].
  intros i n' Hg Hs.
  destruct (evolves_promotesSoundly _ _
              (fold_promote_evolves (n_dependents node) (JSMap.update id g (nodes dag)))
              i n' Hg Hs) as [(n1 & Hg1 & Hs1)|Hd]; [|by right].
  left. eauto.
Qed.

(** C2: in every state the scheduler loop reaches from a graph built by
    [buildDAG], a node is dispatched only while it is [ready] and every node
    in its dependency list is [completed] at that moment. A node is [ready]
    at construction only if it has no dependencies; [getReadyTasks] and
    [markTaskComplete] make a node [ready] only when all its dependencies
    are [completed]; and [isDAGComplete] answers true only when every node
    is [completed] or [failed]. *)
Theorem dispatch_only_after_dependencies_completed
    (execute : nat -> string -> SatelliteTask -> SatelliteResult)
    (settle : nat -> list nat)
    (planned : list PlannedTask) (tasks : list SatelliteTask) (k : nat) :
  let dag0 := Shaka.buildDAG planned in
  let dag := AgentMesh.loopState execute settle k 0 tasks dag0 in
  readyAreRoots (nodes dag0)
  /\ (forall d, promotesSoundly (nodes d) (nodes (snd (Shaka.getReadyTasks d))))
  /\ (forall d id r, promotesSoundly (nodes d) (nodes (Shaka.markTaskComplete d id r)))
  /\ readySound (nodes dag)
  /\ (forall batch ds dag',
        AgentMesh.iteration execute settle batch tasks dag = AgentMesh.Batch ds dag' ->
        Forall dispatchedSoundly ds)
  /\ (forall d, Shaka.isDAGComplete d = true ->
        forall id n, (id, n) ∈ nodes d -> n_status n = completed \/ n_status n = failed).
Proof.
  intros dag0 dag.
  destruct (buildDAG_spec planned) as [Hnd Hroots].
  destruct (loopState_invariant execute settle k 0 tasks dag0 Hnd) as [Hnd' Hsound'].
  specialize (Hsound' (readyAreRoots_sound _ Hroots)).
  split; [done|]. split; [apply getReadyTasks_promotesSoundly|].
  split; [apply markTaskComplete_promotesSoundly|]. split; [done|]. split.
  - intros batch ds dag' Hit.
    destruct (iteration_Batch execute settle batch tasks dag ds dag' Hnd' Hit) as [_ H].
    by apply H.
  - intros d Hc. by apply nodesComplete_spec.
Qed.

Example matched_plan_runs_in_dependency_order :
  exists dag,
    AgentMesh.executePlan succeed (fun _ => []) 3 matchedPlan
    = Some ([mkResult "task-0" pythagoras true "done node_0" None;
             mkResult "task-1" edison true "done node_1" None], dag)
    /\ Shaka.isDAGComplete dag = true.
Proof. eexists. split; [by vm_compute|by vm_compute]. Qed.

Example matched_plan_first_batch :
  exists d dag,
    AgentMesh.iteration succeed (fun _ => []) 0 (plan_tasks matchedPlan) (plan_dag matchedPlan)
    = AgentMesh.Batch [d] dag
    /\ AgentMesh.d_node d = "node_0".
Proof. eexists _, _. split; [by vm_compute|done]. Qed.

(** ** Termination when every node finds its task *)

Section TerminationFacts.
Variable execute : nat -> string -> SatelliteTask -> SatelliteResult.
Variable settle : nat -> list nat.
Implicit Types (m : JSMap.t DAGNode) (n : DAGNode) (id : string).

Lemma tasked_evolves tasks m m' : tasked tasks m -> evolves m m' -> tasked tasks m'.
Proof.
  intros Ht [_ He] id n' Hg'.
  destruct (He id n' Hg') as (n & Hg & _ & _ & _ & _ & _ & Hid).
  unfold AgentMesh.findTask. rewrite Hid. by apply (Ht id n).
Qed.

Lemma evolves_settled m m' id n :
  evolves m m' -> JSMap.get m id = Some n -> isSettled n = true ->
  exists n', JSMap.get m' id = Some n' /\ isSettled n' = true.
Proof.
  intros [Hk He] Hg Hs.
  destruct (JSMap.get m' id) as [n'|] eqn:Hg'.
  - destruct (He id n' Hg') as (n0 & Hg0 & _ & _ & Hc & _ & Hf & _).
    rewrite Hg in Hg0. injection Hg0 as <-. exists n'. split; [done|].
    unfold isSettled in *. apply orb_true_iff in Hs as [Hs|Hs];
      apply NodeStatus_eqb_eq in Hs; [rewrite (Hc Hs)|rewrite (Hf Hs)]; done.
  - apply get_None_keys in Hg'. rewrite Hk in Hg'. by apply get_Some_keys in Hg.
Qed.

(** Settled nodes stay settled, so the count of unsettled nodes cannot
    grow, and it drops when some node becomes settled. *)
Lemma unsettled_monotone m m' :
  NoDup (JSMap.keys m) -> JSMap.keys m' = JSMap.keys m ->
  (forall id n n', JSMap.get m id = Some n -> JSMap.get m' id = Some n' ->
                   isSettled n = true -> isSettled n' = true) ->
  unsettled m' <= unsettled m
  /\ ((exists id n n', JSMap.get m id = Some n /\ JSMap.get m' id = Some n'
                       /\ isSettled n = false /\ isSettled n' = true) ->
      unsettled m' < unsettled m).
Proof.
  revert m'. induction m as [|[k v] t IH]; intros m' Hnd Hk Hmono.
  - destruct m'; [|done]. split; [done|]. by intros (id & n & n' & H & _).
  - destruct m' as [|[k' v'] t']; [done|]. simpl in Hk. injection Hk as -> Hk.
    apply NoDup_cons in Hnd as [Hfresh Hnd]. simpl in Hfresh.
    assert (Htail : forall id x, JSMap.get t id = Some x -> String.eqb k id = false).
    { intros id x Hx. apply String.eqb_neq. intros ->. by apply get_Some_keys in Hx. }
    assert (Htail' : forall id x, JSMap.get t' id = Some x -> String.eqb k id = false).
    { intros id x Hx. apply String.eqb_neq. intros ->. apply get_Some_keys in Hx.
      by rewrite Hk in Hx. }
    destruct (IH t' Hnd Hk) as [Hle Hlt].
    { intros id n n' Hg Hg'. apply (Hmono id); simpl.
      - by rewrite (Htail id n Hg).
      - by rewrite (Htail' id n' Hg'). }
    assert (Hhead : isSettled v = true -> isSettled v' = true).
    { apply (Hmono k); simpl; by rewrite String.eqb_refl. }
    unfold unsettled in *. simpl.
    destruct (isSettled v) eqn:Hv; destruct (isSettled v') eqn:Hv'; simpl;
      try (specialize (Hhead eq_refl); discriminate).
    + split; [done|]. intros (id & n & n' & Hg & Hg' & Hs & Hs'). apply Hlt.
      simpl in Hg, Hg'. destruct (String.eqb_spec k id) as [->|Hne]; [congruence|].
      exists id, n, n'. done.
    + split; [lia|]. intros _. lia.
    + split; [lia|]. intros (id & n & n' & Hg & Hg' & Hs & Hs').
      simpl in Hg, Hg'. destruct (String.eqb_spec k id) as [->|Hne]; [congruence|].
      assert (length (List.filter (fun kv => negb (isSettled kv.2)) t')
              < length (List.filter (fun kv => negb (isSettled kv.2)) t)).
      { apply Hlt. exists id, n, n'. done. }
      lia.
Qed.

Lemma unsettled_evolves m m' :
  NoDup (JSMap.keys m) -> evolves m m' ->
  unsettled m' <= unsettled m
  /\ ((exists id n n', JSMap.get m id = Some n /\ JSMap.get m' id = Some n'
                       /\ isSettled n = false /\ isSettled n' = true) ->
      unsettled m' < unsettled m).
Proof.
  intros Hnd Hev. apply unsettled_monotone; [done|by destruct Hev|].
  intros id n n' Hg Hg' Hs.
  destruct (evolves_settled m m' id n Hev Hg Hs) as (n0 & Hg0 & Hs0). congruence.
Qed.

Lemma unsettled_size m : unsettled m <= JSMap.size m.
Proof. unfold unsettled, JSMap.size. apply filter_length_le. Qed.

(** With a task for every node, every ready node is dispatched. *)
Lemma startExecutions_all batch tasks rs m :
  NoDup rs -> allInStatus ready rs m -> tasked tasks m ->
  map AgentMesh.d_node (fst (AgentMesh.startExecutions execute batch tasks rs m)) = rs.
Proof.
  revert m. induction rs as [|id rest IH]; intros m Hnd Hall Htask; simpl; [done|].
  apply NoDup_cons in Hnd as [Hid Hnd].
  destruct (Hall id) as (node & Hg & Hs); [apply list_elem_of_here|].
  assert (Hall' : allInStatus ready rest m).
  { intros x Hx. apply Hall. by apply list_elem_of_further. }
  rewrite Hg.
  destruct (AgentMesh.findTask tasks node id) as [task|] eqn:Hfind;
    [|by destruct (Htask id node Hg)].
  set (m1 := JSMap.update id (set_status running) m).
  assert (Hev1 : evolves m m1).
  { eapply evolves_update;
      [done|apply set_status_fields|congruence|congruence|discriminate]. }
  specialize (IH m1 Hnd (allInStatus_update ready rest m id _ Hid Hall')
                (tasked_evolves _ _ _ Htask Hev1)).
  destruct (AgentMesh.startExecutions execute batch tasks rest m1) as [ds m2].
  simpl in *. by rewrite IH.
Qed.

Lemma markNode_settles m id r n :
  JSMap.get m id = Some n ->
  exists n', JSMap.get (Shaka.markNode m id r) id = Some n' /\ isSettled n' = true.
Proof.
  intros Hg. unfold Shaka.markNode. rewrite Hg.
  set (g := fun x => set_result r (set_status (if r_success r then completed else failed) x)).
  assert (Hup : JSMap.get (JSMap.update id g m) id = Some (g n))
    by by rewrite get_update_eq, Hg.
  assert (Hs : isSettled (g n) = true) by (unfold g, isSettled; simpl; by destruct (r_success r)).
  exists (g n). split; [|done].
  destruct (r_success r) eqn:Hok; [|done].
  apply fold_promote_keeps; [done|]. unfold g. simpl. discriminate.
Qed.

Lemma settleExecutions_settles (l : list (string * SatelliteResult)) m :
  NoDup l.*1 -> allInStatus running l.*1 m ->
  forall id, id ∈ l.*1 ->
    exists n', JSMap.get (AgentMesh.settleExecutions l m) id = Some n'
               /\ isSettled n' = true.
Proof.
  revert m. induction l as [|[i r] l IH]; intros m Hnd Hrun id Hin; simpl in *.
  - by apply elem_of_nil in Hin.
  - apply NoDup_cons in Hnd as [Hi Hnd].
    destruct (Hrun i) as (n & Hg & Hs); [apply list_elem_of_here|].
    assert (Hrun' : allInStatus running l.*1 (Shaka.markNode m i r)).
    { intros x Hx. destruct (Hrun x) as (nx & Hgx & Hsx); [by apply list_elem_of_further|].
      exists nx. split; [|done].
      apply markNode_keeps; [|done|congruence]. intros ->. done. }
    apply elem_of_cons in Hin as [->|Hin]; [|by apply IH].
    destruct (markNode_settles m i r n Hg) as (n1 & Hg1 & Hs1).
    eapply evolves_settled; [|exact Hg1|exact Hs1].
    by apply settleExecutions_evolves.
Qed.

(** A batch settles at least one node. *)
Lemma iteration_decreases batch tasks dag ds dag1 :
  NoDup (JSMap.keys (nodes dag)) -> tasked tasks (nodes dag) ->
  AgentMesh.iteration execute settle batch tasks dag = AgentMesh.Batch ds dag1 ->
  unsettled (nodes dag1) < unsettled (nodes dag).
Proof.
  intros Hnd Htask Hit.
  destruct (iteration_Batch execute settle _ _ _ _ _ Hnd Hit) as [Hev _].
  apply (unsettled_evolves _ _ Hnd Hev).
  revert Hit. unfold AgentMesh.iteration.
  destruct (Shaka.isDAGComplete dag); [done|].
  unfold Shaka.getReadyTasks.
  pose proof (getReadyNodes_evolves (nodes dag)) as Hev0.
  pose proof (getReadyNodes_ready (nodes dag) Hnd) as [Hnd0 Hrdy0].
  destruct (Shaka.getReadyNodes (nodes dag)) as [rdy m1]. simpl in *.
  destruct rdy as [|r0 rdy]; [done|].
  pose proof (startExecutions_spec execute batch tasks (r0 :: rdy) m1 Hnd0 Hrdy0) as Hst.
  pose proof (startExecutions_all batch tasks (r0 :: rdy) m1 Hnd0 Hrdy0
                (tasked_evolves _ _ _ Htask Hev0)) as Hall.
  destruct (AgentMesh.startExecutions execute batch tasks (r0 :: rdy) m1) as [ds' m2].
  simpl in Hst, Hall. destruct Hst as (Hev1 & _ & _ & Hrun & _).
  intros [= <- <-]. simpl.
  set (l := map (fun d => (AgentMesh.d_node d, AgentMesh.d_result d)) ds').
  assert (Hfst : l.*1 = r0 :: rdy).
  { unfold l. rewrite <- list_fmap_compose. exact Hall. }
  destruct (settleExecutions_settles (reorder (settle batch) l) m2) with (id := r0)
    as (n' & Hg' & Hs').
  - by rewrite (reorder_Permutation (settle batch) l), Hfst.
  - intros x Hx. apply Hrun. rewrite Hall, <- Hfst.
    by rewrite (reorder_Permutation (settle batch) l) in Hx.
  - rewrite (reorder_Permutation (settle batch) l), Hfst. apply list_elem_of_here.
  - destruct (Hrdy0 r0) as (n1 & Hg1 & Hs1); [apply list_elem_of_here|].
    destruct Hev0 as [_ He0].
    destruct (He0 r0 n1 Hg1) as (n & Hg & _ & _ & Hc & _ & Hf & _).
    exists r0, n, n'. split; [done|]. split; [done|]. split; [|done].
    unfold isSettled. apply orb_false_iff. split.
    + destruct (NodeStatus_eqb (n_status n) completed) eqn:E; [|done].
      apply NodeStatus_eqb_eq in E. specialize (Hc E). congruence.
    + destruct (NodeStatus_eqb (n_status n) failed) eqn:E; [|done].
      apply NodeStatus_eqb_eq in E. specialize (Hf E). congruence.
Qed.

(** The loop returns within one iteration per unsettled node, plus one. *)
Lemma executeLoop_returns fuel batch tasks dag results :
  NoDup (JSMap.keys (nodes dag)) -> tasked tasks (nodes dag) ->
  unsettled (nodes dag) < fuel ->
  exists r, AgentMesh.executeLoop execute settle fuel batch tasks dag results = Some r.
Proof.
  revert batch dag results.
  induction fuel as [|fuel IH]; intros batch dag results Hnd Htask Hfuel; [lia|].
  simpl.
  destruct (AgentMesh.iteration execute settle batch tasks dag) as [|dag1|ds dag1] eqn:Hit;
    [eauto|eauto|].
  destruct (iteration_Batch execute settle _ _ _ _ _ Hnd Hit) as [Hev _].
  destruct (iteration_keys execute settle _ _ _ _ _ Hnd Hit) as [Hnd1 _].
  pose proof (iteration_decreases _ _ _ _ _ Hnd Htask Hit) as Hdec.
  apply IH; [done|by eapply tasked_evolves|lia].
Qed.

Lemma executePlan_returns_when_every_node_has_a_task (plan : ExecutionPlan) :
  NoDup (JSMap.keys (nodes (plan_dag plan))) ->
  tasked (plan_tasks plan) (nodes (plan_dag plan)) ->
  exists r,
    AgentMesh.executePlan execute settle (S (JSMap.size (nodes (plan_dag plan)))) plan
    = Some r.
Proof.
  intros Hnd Htask. apply executeLoop_returns; [done|done|].
  pose proof (unsettled_size (nodes (plan_dag plan))). lia.
Qed.

End TerminationFacts.

(** ** Nodes on a dependency cycle *)

Section CycleFacts.
Variable execute : nat -> string -> SatelliteTask -> SatelliteResult.
Variable settle : nat -> list nat.
Variable cycle : list string.
Implicit Types (m : JSMap.t DAGNode) (n : DAGNode) (id : string).
Local Arguments Shaka.readyStep : simpl never.
Local Arguments Shaka.promoteDependent : simpl never.

Lemma stuck_blocked m id n :
  stuck cycle m -> id ∈ cycle -> JSMap.get m id = Some n ->
  n_status n = pending /\ Shaka.allDepsComplete m n = false.
Proof.
  intros Hst Hin Hg. destruct (Hst id Hin) as (n' & Hg' & Hs & d & Hd & Hdc).
  rewrite Hg in Hg'. injection Hg' as <-. split; [done|].
  destruct (Shaka.allDepsComplete m n) eqn:Hall; [|done].
  apply allDepsComplete_spec in Hall. unfold depsCompleted in Hall.
  rewrite List.Forall_forall in Hall.
  destruct (Hall d) as (dn & Hgd & Hsd); [by apply list_elem_of_In|].
  destruct (Hst d Hdc) as (dn' & Hgd' & Hsd' & _). congruence.
Qed.

Lemma stuck_update m id g :
  id ∉ cycle -> stuck cycle m -> stuck cycle (JSMap.update id g m).
Proof.
  intros Hnin Hst i Hi. destruct (Hst i Hi) as (n & Hg & H).
  exists n. split; [|done]. rewrite get_update_ne; [done|]. intros ->. done.
Qed.

Lemma stuck_not_status m id n :
  stuck cycle m -> JSMap.get m id = Some n -> n_status n <> pending -> id ∉ cycle.
Proof.
  intros Hst Hg Hs Hin. by destruct (stuck_blocked m id n Hst Hin Hg).
Qed.

Lemma stuck_not_promotable m id n :
  stuck cycle m -> JSMap.get m id = Some n -> Shaka.allDepsComplete m n = true ->
  id ∉ cycle.
Proof.
  intros Hst Hg Hall Hin. destruct (stuck_blocked m id n Hst Hin Hg). congruence.
Qed.

Lemma readyStep_stuck rdy m id :
  stuck cycle m -> stuck cycle (snd (Shaka.readyStep (rdy, m) id)).
Proof.
  intros Hst. unfold Shaka.readyStep.
  destruct (JSMap.get m id) as [node|] eqn:Hg; [|done].
  destruct (n_status node) eqn:Hs; try done.
  destruct (Shaka.allDepsComplete m node) eqn:Hall; [|done].
  simpl. apply stuck_update; [|done]. by eapply stuck_not_promotable.
Qed.

Lemma fold_readyStep_stuck ks acc :
  stuck cycle (snd acc) -> stuck cycle (snd (fold_left Shaka.readyStep ks acc)).
Proof.
  revert acc. induction ks as [|k ks IH]; intros [rdy m] Hst; simpl; [done|].
  apply IH. by apply readyStep_stuck.
Qed.

Lemma promoteDependent_stuck m d :
  stuck cycle m -> stuck cycle (Shaka.promoteDependent m d).
Proof.
  intros Hst. unfold Shaka.promoteDependent.
  destruct (JSMap.get m d) as [node|] eqn:Hg; [|done].
  destruct (n_status node) eqn:Hs; try done.
  destruct (Shaka.allDepsComplete m node) eqn:Hall; [|done].
  apply stuck_update; [|done]. by eapply stuck_not_promotable.
Qed.

Lemma fold_promote_stuck ds m :
  stuck cycle m -> stuck cycle (fold_left Shaka.promoteDependent ds m).
Proof.
  revert m. induction ds as [|d ds IH]; intros m Hst; simpl; [done|].
  apply IH. by apply promoteDependent_stuck.
Qed.

Lemma markNode_stuck m id r n :
  JSMap.get m id = Some n -> n_status n <> pending ->
  stuck cycle m -> stuck cycle (Shaka.markNode m id r).
Proof.
  intros Hg Hs Hst. unfold Shaka.markNode. rewrite Hg.
  assert (Hup : stuck cycle (JSMap.update id
            (fun x => set_result r (set_status (if r_success r then completed else failed) x))
            m)).
  { apply stuck_update; [|done]. by eapply stuck_not_status. }
  destruct (r_success r); [|done]. by apply fold_promote_stuck.
Qed.

Lemma settleExecutions_stuck (l : list (string * SatelliteResult)) m :
  NoDup l.*1 -> allInStatus running l.*1 m ->
  stuck cycle m -> stuck cycle (AgentMesh.settleExecutions l m).
Proof.
  revert m. induction l as [|[id r] l IH]; intros m Hnd Hrun Hst; simpl; [done|].
  apply NoDup_cons in Hnd as [Hid Hnd].
  destruct (Hrun id) as (n & Hg & Hs); [apply list_elem_of_here|].
  apply IH; [done| |].
  - intros x Hx. destruct (Hrun x) as (nx & Hgx & Hsx); [by apply list_elem_of_further|].
    exists nx. split; [|done].
    apply markNode_keeps; [|done|congruence]. intros ->. done.
  - eapply markNode_stuck; [done|congruence|done].
Qed.

(** A batch leaves the cycle as it was and dispatches none of its nodes. *)
Lemma iteration_stuck batch tasks dag ds dag1 :
  NoDup (JSMap.keys (nodes dag)) -> stuck cycle (nodes dag) ->
  AgentMesh.iteration execute settle batch tasks dag = AgentMesh.Batch ds dag1 ->
  stuck cycle (nodes dag1)
  /\ Forall (fun d => AgentMesh.d_node d ∉ cycle) ds.
Proof.
  intros Hnd Hst. unfold AgentMesh.iteration.
  destruct (Shaka.isDAGComplete dag); [done|].
  unfold Shaka.getReadyTasks.
  pose proof (getReadyNodes_evolves (nodes dag)) as Hev0.
  pose proof (getReadyNodes_ready (nodes dag) Hnd) as [Hnd0 Hrdy0].
  pose proof (fold_readyStep_stuck (JSMap.keys (nodes dag)) ([], nodes dag) Hst) as Hst1.
  fold (Shaka.getReadyNodes (nodes dag)) in Hst1.
  destruct (Shaka.getReadyNodes (nodes dag)) as [rdy m1]. simpl in *.
  destruct rdy as [|r0 rdy]; [done|].
  pose proof (startExecutions_spec execute batch tasks (r0 :: rdy) m1 Hnd0 Hrdy0) as Hstart.
  destruct (AgentMesh.startExecutions execute batch tasks (r0 :: rdy) m1) as [ds' m2].
  simpl in Hstart. destruct Hstart as (Hev1 & Hout & Hsub & Hrun & Hdisp).
  intros [= <- <-]. simpl.
  assert (Hready : forall x, x ∈ r0 :: rdy -> x ∉ cycle).
  { intros x Hx. destruct (Hrdy0 x Hx) as (n & Hg & Hs).
    eapply stuck_not_status; [exact Hst1|exact Hg|congruence]. }
  assert (Hst2 : stuck cycle m2).
  { intros i Hi. destruct (Hst1 i Hi) as (n & Hg & H). exists n. split; [|done].
    rewrite Hout; [done|]. intros Hin. by apply (Hready i). }
  set (l := map (fun d => (AgentMesh.d_node d, AgentMesh.d_result d)) ds').
  assert (Hfst : l.*1 = map AgentMesh.d_node ds').
  { unfold l. rewrite <- list_fmap_compose. done. }
  split.
  - apply settleExecutions_stuck; [| |done].
    + rewrite (reorder_Permutation (settle batch) l), Hfst.
      exact (sublist_NoDup _ _ Hnd0 Hsub).
    + intros x Hx. apply Hrun. rewrite <- Hfst.
      by rewrite (reorder_Permutation (settle batch) l) in Hx.
  - apply List.Forall_forall. intros d Hd. apply Hready.
    eapply elem_of_sublist; [|exact Hsub].
    apply list_elem_of_fmap. exists d. split; [done|by apply list_elem_of_In].
Qed.

Lemma stuck_incomplete dag :
  cycle <> [] -> stuck cycle (nodes dag) -> Shaka.isDAGComplete dag = false.
Proof.
  intros Hne Hst. destruct cycle as [|c cs] eqn:Hc; [done|].
  destruct (Hst c) as (n & Hg & Hs & _); [apply list_elem_of_here|].
  destruct (Shaka.isDAGComplete dag) eqn:Hcomp; [|done].
  unfold Shaka.isDAGComplete in Hcomp.
  destruct (proj1 (nodesComplete_spec (nodes dag)) Hcomp c n (get_Some_elem _ _ _ Hg));
    congruence.
Qed.

(** With a cycle in the graph the loop can only leave through the
    empty-ready-set exit: what it returns is an incomplete graph with
    nothing ready and the cycle untouched. *)
Lemma executeLoop_stuck_exit fuel batch tasks dag results results' dag' :
  cycle <> [] ->
  NoDup (JSMap.keys (nodes dag)) -> stuck cycle (nodes dag) ->
  AgentMesh.executeLoop execute settle fuel batch tasks dag results = Some (results', dag') ->
  Shaka.isDAGComplete dag' = false
  /\ fst (Shaka.getReadyTasks dag') = []
  /\ stuck cycle (nodes dag').
Proof.
  intros Hne. revert batch dag results.
  induction fuel as [|fuel IH]; intros batch dag results Hnd Hst; simpl; [done|].
  destruct (AgentMesh.iteration execute settle batch tasks dag) as [|dag1|ds dag1] eqn:Hit.
  - unfold AgentMesh.iteration in Hit. rewrite (stuck_incomplete dag Hne Hst) in Hit.
    destruct (Shaka.getReadyTasks dag) as [rdy d1]. destruct rdy; [done|].
    by destruct (AgentMesh.startExecutions _ _ _ _ _).
  - intros [= <- <-]. unfold AgentMesh.iteration in Hit.
    rewrite (stuck_incomplete dag Hne Hst) in Hit.
    unfold Shaka.getReadyTasks in Hit |- *.
    destruct (Shaka.getReadyNodes (nodes dag)) as [rdy m1] eqn:Hrdy.
    destruct rdy as [|r0 rdy]; [|by destruct (AgentMesh.startExecutions _ _ _ _ _)].
    injection Hit as <-.
    destruct (fold_readyStep_nil (JSMap.keys (nodes dag)) [] (nodes dag)) as [_ Hsame].
    { fold (Shaka.getReadyNodes (nodes dag)). by rewrite Hrdy. }
    fold (Shaka.getReadyNodes (nodes dag)) in Hsame. rewrite Hrdy in Hsame. simpl in Hsame.
    subst m1. simpl. rewrite Hrdy. simpl.
    split; [|done]. by apply (stuck_incomplete (mkDAG _ _ _)).
  - destruct (iteration_keys execute settle _ _ _ _ _ Hnd Hit) as [Hnd1 _].
    destruct (iteration_stuck _ _ _ _ _ Hnd Hst Hit) as [Hst1 _].
    by apply IH.
Qed.

Lemma loopState_stuck k batch tasks dag :
  NoDup (JSMap.keys (nodes dag)) -> stuck cycle (nodes dag) ->
  NoDup (JSMap.keys (nodes (AgentMesh.loopState execute settle k batch tasks dag)))
  /\ stuck cycle (nodes (AgentMesh.loopState execute settle k batch tasks dag)).
Proof.
  revert batch dag. induction k as [|k IH]; intros batch dag Hnd Hst; simpl; [done|].
  destruct (AgentMesh.iteration execute settle batch tasks dag) as [|dag1|ds dag1] eqn:Hit;
    [done|done|].
  destruct (iteration_keys execute settle _ _ _ _ _ Hnd Hit) as [Hnd1 _].
  destruct (iteration_stuck _ _ _ _ _ Hnd Hst Hit) as [Hst1 _].
  by apply IH.
Qed.

End CycleFacts.

(** ** Graphs without a root *)

Lemma fold_left_fixed {A B} (f : A -> B -> A) (l : list B) (a : A) :
  (forall x, x ∈ l -> f a x = a) -> fold_left f l a = a.
Proof.
  induction l as [|y l IH]; intros H; simpl; [done|].
  rewrite (H y) by apply list_elem_of_here. apply IH.
  intros x Hx. apply H. by apply list_elem_of_further.
Qed.

Lemma allDepsComplete_blocked (m : JSMap.t DAGNode) (n : DAGNode) :
  allPending m -> n_dependencies n <> [] -> Shaka.allDepsComplete m n = false.
Proof.
  intros Hp Hd. unfold Shaka.allDepsComplete.
  destruct (n_dependencies n) as [|d ds]; [done|]. simpl.
  destruct (JSMap.get m d) as [dn|] eqn:Hg; [|done].
  by rewrite (Hp d dn Hg).
Qed.

Lemma getReadyNodes_blocked (m : JSMap.t DAGNode) :
  (forall id n, (id, n) ∈ m -> n_status n = pending /\ n_dependencies n <> []) ->
  Shaka.getReadyNodes m = ([], m).
Proof.
  intros H. apply fold_left_fixed. intros id _. unfold Shaka.readyStep.
  destruct (JSMap.get m id) as [n|] eqn:Hg; [|done].
  destruct (H id n (get_Some_elem _ _ _ Hg)) as [-> Hd].
  rewrite allDepsComplete_blocked; [done| |done].
  intros i x Hx. by destruct (H i x (get_Some_elem _ _ _ Hx)).
Qed.

Section CycleMore.
Variable execute : nat -> string -> SatelliteTask -> SatelliteResult.
Variable settle : nat -> list nat.

(** The ready set holds no node of a cycle. *)
Lemma getReadyTasks_off_cycle (cycle : list string) (dag : TaskDAG) id :
  NoDup (JSMap.keys (nodes dag)) -> stuck cycle (nodes dag) ->
  id ∈ fst (Shaka.getReadyTasks dag) -> id ∉ cycle.
Proof.
  intros Hnd Hst Hin Hc. unfold Shaka.getReadyTasks in Hin.
  pose proof (getReadyNodes_ready (nodes dag) Hnd) as [_ Hrdy].
  pose proof (fold_readyStep_stuck cycle (JSMap.keys (nodes dag)) ([], nodes dag) Hst) as Hst1.
  fold (Shaka.getReadyNodes (nodes dag)) in Hst1.
  destruct (Shaka.getReadyNodes (nodes dag)) as [rdy m1]. simpl in *.
  destruct (Hrdy id Hin) as (n & Hg & Hs).
  destruct (Hst1 id Hc) as (n' & Hg' & Hs' & _). congruence.
Qed.

End CycleMore.

Lemma two_node_cycle_stuck (tasks : list PlannedTask) :
  JSMap.get (nodes (Shaka.buildDAG tasks)) "node_0"
  = Some (mkNode "node_0" "" pythagoras pending ["node_1"] ["node_1"] None) ->
  JSMap.get (nodes (Shaka.buildDAG tasks)) "node_1"
  = Some (mkNode "node_1" "" edison pending ["node_0"] ["node_0"] None) ->
  stuck ["node_0"; "node_1"] (nodes (Shaka.buildDAG tasks)).
Proof.
  intros H0 H1 id Hin.
  apply elem_of_cons in Hin as [->|Hin];
    [|apply elem_of_cons in Hin as [->|Hin]; [|by apply elem_of_nil in Hin]];
    eexists; (split; [eassumption|]); (split; [done|]); eexists; split;
    [apply list_elem_of_here | | apply list_elem_of_here | ]; set_solver.
Qed.

(** C5 as the claim has it fails: beside the two nodes that wait for each
    other the graph has a third node that waits for nothing, and
    [getReadyTasks] answers that node, not the empty list. *)
Lemma cycle_beside_a_root_leaves_a_node_ready :
  let dag := Shaka.buildDAG cycleAndRootTasks in
  stuck ["node_0"; "node_1"] (nodes dag)
  /\ fst (Shaka.getReadyTasks dag) = ["node_2"]
  /\ fst (Shaka.getReadyTasks dag) <> []
  /\ Shaka.isDAGComplete dag = false.
Proof.
  intros dag. split; [|by vm_compute].
  by apply two_node_cycle_stuck.
Qed.

(** C5, amended: in a graph that contains a dependency cycle (nodes that
    are [pending] and wait for each other, as the two nodes that list each
    other do) [isDAGComplete] answers false and [getReadyTasks] answers no
    node of the cycle, before the loop and in every state the loop's
    iterations lead to; no iteration dispatches a node of the cycle; and
    if the loop returns, it has left through the empty-ready-set exit.
    When every node is on the cycle, [getReadyTasks] answers the empty
    list at once, leaves the graph as it is, and the first iteration takes
    the empty-ready-set exit. *)
Theorem cycle_nodes_are_never_ready
    (execute : nat -> string -> SatelliteTask -> SatelliteResult)
    (settle : nat -> list nat) (plan : ExecutionPlan) (cycle : list string) :
  cycle <> [] ->
  NoDup (JSMap.keys (nodes (plan_dag plan))) ->
  stuck cycle (nodes (plan_dag plan)) ->
  Shaka.isDAGComplete (plan_dag plan) = false
  /\ (forall id, id ∈ fst (Shaka.getReadyTasks (plan_dag plan)) -> id ∉ cycle)
  /\ stuck cycle (nodes (snd (Shaka.getReadyTasks (plan_dag plan))))
  /\ (forall k,
        let dag := AgentMesh.loopState execute settle k 0 (plan_tasks plan) (plan_dag plan) in
        stuck cycle (nodes dag)
        /\ Shaka.isDAGComplete dag = false
        /\ (forall id, id ∈ fst (Shaka.getReadyTasks dag) -> id ∉ cycle)
        /\ forall batch ds dag',
             AgentMesh.iteration execute settle batch (plan_tasks plan) dag
             = AgentMesh.Batch ds dag' ->
             Forall (fun d => AgentMesh.d_node d ∉ cycle) ds)
  /\ (forall fuel results dag',
        AgentMesh.executePlan execute settle fuel plan = Some (results, dag') ->
        Shaka.isDAGComplete dag' = false /\ fst (Shaka.getReadyTasks dag') = [])
  /\ ((forall id, id ∈ JSMap.keys (nodes (plan_dag plan)) -> id ∈ cycle) ->
      Shaka.getReadyTasks (plan_dag plan) = ([], plan_dag plan)
      /\ AgentMesh.iteration execute settle 0 (plan_tasks plan) (plan_dag plan)
         = AgentMesh.Deadlock (plan_dag plan)).
Proof.
  intros Hne Hnd Hst.
  split; [by apply (stuck_incomplete cycle)|].
  split; [intros id; by apply getReadyTasks_off_cycle|].
  split.
  { unfold Shaka.getReadyTasks.
    pose proof (fold_readyStep_stuck cycle (JSMap.keys (nodes (plan_dag plan)))
                  ([], nodes (plan_dag plan)) Hst) as Hst1.
    fold (Shaka.getReadyNodes (nodes (plan_dag plan))) in Hst1.
    by destruct (Shaka.getReadyNodes (nodes (plan_dag plan))). }
  split; [|split].
  - intros k dag.
    destruct (loopState_stuck execute settle cycle k 0 (plan_tasks plan) (plan_dag plan)
                Hnd Hst) as [Hndk Hstk].
    fold dag in Hndk, Hstk. split; [done|]. split; [by apply (stuck_incomplete cycle)|].
    split; [intros id; by apply getReadyTasks_off_cycle|].
    intros batch ds dag' Hit.
    by destruct (iteration_stuck execute settle cycle _ _ _ _ _ Hndk Hstk Hit).
  - intros fuel results dag' Hrun.
    destruct (executeLoop_stuck_exit execute settle cycle _ _ _ _ _ _ _ Hne Hnd Hst Hrun)
      as (H1 & H2 & _).
    done.
  - intros Hall. destruct plan as [pid intent tasks [m roots leaves]]. simpl in *.
    assert (Hblocked : forall id n, (id, n) ∈ m ->
              n_status n = pending /\ n_dependencies n <> []).
    { intros id n Hin.
      assert (Hid : id ∈ JSMap.keys m).
      { apply list_elem_of_fmap. by exists (id, n). }
      destruct (Hst id (Hall id Hid)) as (n' & Hg & Hs & d & Hd & _).
      rewrite (elem_get_Some m id n Hnd Hin) in Hg. injection Hg as <-.
      split; [done|]. intros Hnil. rewrite Hnil in Hd. by apply elem_of_nil in Hd. }
    assert (Hready : Shaka.getReadyTasks (mkDAG m roots leaves)
                     = ([], mkDAG m roots leaves)).
    { unfold Shaka.getReadyTasks. simpl. by rewrite getReadyNodes_blocked. }
    split; [done|]. unfold AgentMesh.iteration.
    by rewrite (stuck_incomplete cycle (mkDAG m roots leaves) Hne Hst), Hready.
Qed.

Lemma cycle_nodes_are_never_ready_witness :
  let plan := Shaka.createExecutionPlan cycleAndRootTasks cycleAndRootTasks
                (fun i => "task-" +:+ pretty i) "plan-1" "do A, B and C" in
  stuck ["node_0"; "node_1"] (nodes (plan_dag plan))
  /\ Shaka.isDAGComplete (plan_dag plan) = false
  /\ (forall id, id ∈ fst (Shaka.getReadyTasks (plan_dag plan)) ->
                 id ∉ ["node_0"; "node_1"])
  /\ Shaka.getReadyTasks (plan_dag cyclePlan) = ([], plan_dag cyclePlan)
  /\ AgentMesh.iteration succeed (fun _ => []) 0 (plan_tasks cyclePlan) (plan_dag cyclePlan)
     = AgentMesh.Deadlock (plan_dag cyclePlan).
Proof.
  intros plan.
  assert (Hst : stuck ["node_0"; "node_1"] (nodes (plan_dag plan))).
  { by apply (two_node_cycle_stuck cycleAndRootTasks). }
  assert (Hst' : stuck ["node_0"; "node_1"] (nodes (plan_dag cyclePlan))).
  { by apply (two_node_cycle_stuck cycleTasks). }
  assert (Hnd : NoDup (JSMap.keys (nodes (plan_dag plan)))).
  { apply (proj1 (buildDAG_spec cycleAndRootTasks)). }
  assert (Hnd' : NoDup (JSMap.keys (nodes (plan_dag cyclePlan)))).
  { apply (proj1 (buildDAG_spec cycleTasks)). }
  destruct (cycle_nodes_are_never_ready succeed (fun _ => []) plan
              ["node_0"; "node_1"] ltac:(done) Hnd Hst) as (Hinc & Hoff & _).
  destruct (cycle_nodes_are_never_ready succeed (fun _ => []) cyclePlan
              ["node_0"; "node_1"] ltac:(done) Hnd' Hst') as (_ & _ & _ & _ & _ & Hall).
  destruct Hall as (H1 & H2).
  { intros id Hid. vm_compute in Hid. exact Hid. }
  split; [exact Hst|]. split; [exact Hinc|]. split; [exact Hoff|]. split; [exact H1|exact H2].
Defined.

(** ** The plan that reaches [executePlan] *)

(** C1 (the code against the claim): [executePlan] never gets to walk a
    graph. Whatever plan [shaka.execute] serialised, the plan that
    [processRequest] parses back and hands over has an empty plain object
    where the [Map] of nodes was, and the very first loop test throws
    a [TypeError]: no ready set is computed, nothing is dispatched, and
    neither the completion exit nor the empty-ready-set exit is taken. *)
Theorem executePlan_throws_on_the_plan_it_is_handed
    (execute : nat -> string -> SatelliteTask -> SatelliteResult)
    (settle : nat -> list nat) (plan : ExecutionPlan) (fuel : nat) :
  AgentMesh.pp_nodes (AgentMesh.jsonRoundTrip plan) = AgentMesh.plainObject
  /\ AgentMesh.pp_tasks (AgentMesh.jsonRoundTrip plan) = plan_tasks plan
  /\ AgentMesh.executeParsedPlan execute settle fuel (AgentMesh.jsonRoundTrip plan)
     = Some (Throw "TypeError: dag.nodes.forEach is not a function")
  /\ (forall results dag,
        AgentMesh.executeParsedPlan execute settle fuel (AgentMesh.jsonRoundTrip plan)
        <> Some (Return (results, dag))).
Proof. split; [done|]. split; [done|]. split; [done|]. intros results dag H. discriminate H. Qed.

(** The request 'Write a haiku': the planner's one-task fallback, one
    [ready] node in the graph Shaka built, and a [TypeError] from
    [executePlan]. *)
Example haiku_plan_is_not_executed :
  let plan := Shaka.createExecutionPlan (Shaka.fallbackTasks "Write a haiku")
                (Shaka.fallbackTasks "Write a haiku")
                (fun i => "task-" +:+ pretty i) "plan-1" "Write a haiku" in
  rootNodes (plan_dag plan) = ["node_0"]
  /\ AgentMesh.executeParsedPlan succeed (fun _ => []) 1000 (AgentMesh.jsonRoundTrip plan)
     = Some (Throw "TypeError: dag.nodes.forEach is not a function").
Proof. split; reflexivity. Qed.

(** ** The critic's score *)

Lemma countSeverity_cons (sev : string) (i : CritiqueIssue) (issues : list CritiqueIssue) :
  Lilith.countSeverity sev (i :: issues)
  = ((if String.eqb (i_severity i) sev then 1 else 0) + Lilith.countSeverity sev issues)%Z.
Proof.
  unfold Lilith.countSeverity. simpl.
  destruct (String.eqb (i_severity i) sev); simpl length; lia.
Qed.

Lemma fold_penalise (issues : list CritiqueIssue) (s : Z) :
  fold_left Lilith.penalise issues s
  = (s - 25 * Lilith.countSeverity "critical" issues
       - 15 * Lilith.countSeverity "major" issues
       - 5 * Lilith.countSeverity "minor" issues
       - Lilith.countSeverity "info" issues)%Z.
Proof.
  revert s. induction issues as [|i issues IH]; intros s.
  - unfold Lilith.countSeverity. simpl. lia.
  - simpl fold_left. rewrite IH, !countSeverity_cons. unfold Lilith.penalise.
    destruct (String.eqb_spec (i_severity i) "critical") as [E|_]; [rewrite E; simpl; lia|].
    destruct (String.eqb_spec (i_severity i) "major") as [E|_]; [rewrite E; simpl; lia|].
    destruct (String.eqb_spec (i_severity i) "minor") as [E|_]; [rewrite E; simpl; lia|].
    destruct (String.eqb_spec (i_severity i) "info") as [E|_]; lia.
Qed.

Lemma existsb_countSeverity (sev : string) (issues : list CritiqueIssue) :
  existsb (fun i => String.eqb (i_severity i) sev) issues
  = negb (Lilith.countSeverity sev issues =? 0)%Z.
Proof.
  unfold Lilith.countSeverity. induction issues as [|i issues IH]; simpl; [done|].
  by destruct (String.eqb (i_severity i) sev).
Qed.

(** C7: for every list of issues the score is
    [max 0 (100 - 25*critical - 15*major - 5*minor - info)], a critique is
    approved exactly when the score is at least 70 and no issue is
    critical, and one critical plus one minor issue (in either order) score
    70 and are not approved. *)
Theorem lilith_score_and_approval :
  (forall issues,
      Lilith.calculateScore issues
      = Z.max 0 (100 - 25 * Lilith.countSeverity "critical" issues
                     - 15 * Lilith.countSeverity "major" issues
                     - 5 * Lilith.countSeverity "minor" issues
                     - 1 * Lilith.countSeverity "info" issues)%Z)
  /\ (forall st llm fc,
        let c := Lilith.critique st llm fc in
        Lilith.score c = Lilith.calculateScore (Lilith.issues c)
        /\ Lilith.approved c
           = (70 <=? Lilith.score c)%Z
             && (Lilith.countSeverity "critical" (Lilith.issues c) =? 0)%Z)
  /\ (forall t1 d1 t2 d2,
        let c1 := Lilith.critique [] [mkIssue t1 "critical" d1; mkIssue t2 "minor" d2] [] in
        let c2 := Lilith.critique [] [mkIssue t2 "minor" d2; mkIssue t1 "critical" d1] [] in
        Lilith.score c1 = 70%Z /\ Lilith.approved c1 = false
        /\ Lilith.score c2 = 70%Z /\ Lilith.approved c2 = false).
Proof.
  split; [|split].
  - intros issues. unfold Lilith.calculateScore. rewrite fold_penalise. f_equal. lia.
  - intros st llm fc. simpl. split; [done|].
    rewrite existsb_countSeverity, negb_involutive. f_equal.
    by rewrite Z.geb_leb.
  - intros. by vm_compute.
Qed.

(** ** The processing flag *)

Section RequestFacts.
Variable execute : nat -> string -> SatelliteTask -> SatelliteResult.
Variable settle : nat -> list nat.
Variable World : Type.
Variable addConversationTurn : World -> string -> string -> World.
Variable shakaExecute : World -> string -> SatelliteResult * World.
Variable parsePlan : string -> Completion ExecutionPlan.
Variable lilithCritique : World -> string -> Completion AgentMesh.Critique * World.
Variable synthesizeResults : World -> TaskDAG -> string -> Completion string * World.

Abbreviation MeshState := (AgentMesh.MeshState World).
Abbreviation isProcessing := (AgentMesh.isProcessing World).
Abbreviation activePlan := (AgentMesh.activePlan World).
Abbreviation requestBody :=
  (AgentMesh.requestBody execute settle World addConversationTurn shakaExecute
     parsePlan lilithCritique synthesizeResults).
Abbreviation processRequest :=
  (AgentMesh.processRequest execute settle World addConversationTurn shakaExecute
     parsePlan lilithCritique synthesizeResults).

(** The [try] block never writes the flag. *)
Lemma requestBody_flag fuel (st : MeshState) input outcome st' inFlight :
  requestBody fuel st input = Some (outcome, st', inFlight) ->
  isProcessing st' = isProcessing st
  /\ Forall (fun s => isProcessing s = isProcessing st) inFlight.
Proof.
  unfold AgentMesh.requestBody.
  destruct (shakaExecute _ _) as [planResult w2].
  destruct (negb (r_success planResult)).
  { intros [= <- <- <-]. split; [done|]. by repeat constructor. }
  destruct (parsePlan _) as [plan|e].
  2:{ intros [= <- <- <-]. split; [done|]. by repeat constructor. }
  destruct (AgentMesh.executePlan _ _ _ _) as [[results dag]|]; [|done].
  destruct (lilithCritique _ _) as [[c|e] w3].
  2:{ intros [= <- <- <-]. split; [done|]. by repeat constructor. }
  destruct (synthesizeResults _ _ _) as [[r|e] w4];
    intros [= <- <- <-]; (split; [done|]); by repeat constructor.
Qed.

Lemma processRequest_rejects fuel (st : MeshState) input :
  isProcessing st = true ->
  processRequest fuel st input = Some (Throw "Already processing a request", st, []).
Proof. intros H. unfold AgentMesh.processRequest. by rewrite H. Qed.

(** C9: a call that finds the flag set throws 'Already processing a
    request' and leaves the mesh untouched; an accepted run holds the flag
    at every suspension point (so a call arriving there is rejected), and
    on every path on which it completes, by returning or by throwing,
    which includes the planning failure, the flag is cleared and the next
    call enters the [try] block again. *)
Theorem processing_flag_guards_and_is_released fuel (st : MeshState) (input : string) :
  (isProcessing st = true ->
     processRequest fuel st input = Some (Throw "Already processing a request", st, []))
  /\ (isProcessing st = false ->
      forall outcome st' inFlight,
        processRequest fuel st input = Some (outcome, st', inFlight) ->
        Forall (fun s => isProcessing s = true
                         /\ forall fuel' input',
                              processRequest fuel' s input'
                              = Some (Throw "Already processing a request", s, []))
               inFlight
        /\ isProcessing st' = false
        /\ activePlan st' = None
        /\ forall fuel' input',
             processRequest fuel' st' input'
             = match requestBody fuel'
                       (AgentMesh.mkMesh World true None (AgentMesh.world World st')) input'
               with
               | None => None
               | Some (o, s1, tr) =>
                   Some (o, AgentMesh.mkMesh World false None (AgentMesh.world World s1), tr)
               end)
  /\ (isProcessing st = false ->
      r_success (fst (shakaExecute
                        (addConversationTurn (AgentMesh.world World st) "user" input)
                        input)) = false ->
      exists e st' inFlight,
        processRequest fuel st input = Some (Throw e, st', inFlight)
        /\ isProcessing st' = false).
Proof.
  split; [apply processRequest_rejects|]. split.
  - intros Hfree outcome st' inFlight. unfold AgentMesh.processRequest at 1. rewrite Hfree.
    destruct (requestBody fuel _ input) as [[[o s1] tr]|] eqn:Hbody; [|done].
    intros [= <- <- <-].
    destruct (requestBody_flag _ _ _ _ _ _ Hbody) as [_ Htr]. simpl in Htr.
    split; [|done].
    eapply List.Forall_impl; [|exact Htr]. intros s Hs. split; [done|].
    intros fuel' input'. by apply processRequest_rejects.
  - intros Hfree Hfail. unfold AgentMesh.processRequest, AgentMesh.requestBody.
    rewrite Hfree. simpl.
    destruct (shakaExecute _ input) as [planResult w2]. simpl in Hfail.
    rewrite Hfail. simpl. eauto.
Qed.

End RequestFacts.

Example request_runs_and_releases_the_flag :
  exists inFlight,
    AgentMesh.processRequest succeed (fun _ => []) nat countTurn (planningGives true)
      (fun _ => Return matchedPlan) approve synthesize 3
      (AgentMesh.mkMesh nat false None 0) "research, then report"
    = Some (Return "the report", AgentMesh.mkMesh nat false None 2, inFlight).
Proof. eexists. by vm_compute. Qed.

Example planning_failure_releases_the_flag :
  exists inFlight,
    AgentMesh.processRequest succeed (fun _ => []) nat countTurn (planningGives false)
      (fun _ => Return matchedPlan) approve synthesize 3
      (AgentMesh.mkMesh nat false None 0) "research, then report"
    = Some (Throw "Planning failed: no model loaded", AgentMesh.mkMesh nat false None 1,
            inFlight).
Proof. eexists. by vm_compute. Qed.

(** ** The vector index after [addDocument] *)

Section VectorIndexFacts.
Variable generateEmbedding : string -> option (list Q).
Variable voySearch : list VoyEntry -> list Q -> nat -> list Neighbor.
Variable flexSearch : list PunkDocument -> string -> nat -> option (list (list PunkDocument)).

Abbreviation addDocument := (PunkRecords.addDocument generateEmbedding).
Abbreviation semanticSearch := (PunkRecords.semanticSearch generateEmbedding voySearch).

Lemma initialize_initialized st :
  PunkRecords.initialized st = true -> PunkRecords.initialize st = st.
Proof. intros H. unfold PunkRecords.initialize. by rewrite H. Qed.

Lemma addDocument_index st content metadata uuid now emb :
  generateEmbedding content = Some emb ->
  let r := addDocument st content metadata true uuid now in
  fst r = mkDoc uuid content metadata (Some emb) now now
  /\ PunkRecords.voyIndex (snd r) = Some [PunkRecords.entryOf (fst r) emb]
  /\ PunkRecords.initialized (snd r) = true
  /\ PunkRecords.db (snd r) !! uuid = Some (fst r).
Proof.
  intros He. unfold PunkRecords.addDocument. rewrite He. simpl.
  repeat split. apply lookup_insert_eq.
Qed.

(** C10: an [addDocument] whose embedding succeeds rebuilds the vector
    index from [getAllEmbeddings()], which is always empty, plus the new
    document: afterwards the index holds exactly the new document's
    embedding, whatever it held before (a second such call leaves only the
    second document), and [semanticSearch] can only return the newest
    document. *)
Theorem addDocument_leaves_only_newest_embedding
    (st : PunkRecords.State) (content : string) (metadata : DocumentMetadata)
    (uuid : string) (now : Z) (emb : list Q) :
  voyAnswersFromIndex voySearch ->
  generateEmbedding content = Some emb ->
  let doc := fst (addDocument st content metadata true uuid now) in
  let st' := snd (addDocument st content metadata true uuid now) in
  PunkRecords.getAllEmbeddings st = []
  /\ PunkRecords.voyIndex st' = Some [mkEntry uuid
                                        (PunkRecords.orElse (md_title metadata) uuid)
                                        (PunkRecords.orElse (Some (md_source metadata)) "")
                                        emb]
  /\ (forall query limit r,
        r ∈ fst (semanticSearch st' query limit) ->
        sr_document r = doc /\ doc_id doc = uuid)
  /\ (forall content2 metadata2 uuid2 now2 emb2,
        generateEmbedding content2 = Some emb2 ->
        let st2 := snd (addDocument st' content2 metadata2 true uuid2 now2) in
        exists e2, PunkRecords.voyIndex st2 = Some [e2] /\ e_id e2 = uuid2).
Proof.
  intros Hvoy He doc st'.
  destruct (addDocument_index st content metadata uuid now emb He)
    as (Hdoc & Hidx & Hinit & Hdb).
  fold doc in Hdoc, Hidx, Hdb. fold st' in Hidx, Hinit, Hdb.
  split; [done|]. split; [by rewrite Hidx, Hdoc|]. split.
  - intros query limit r. unfold PunkRecords.semanticSearch.
    rewrite (initialize_initialized st' Hinit), Hidx.
    destruct (generateEmbedding query) as [q|]; simpl; [|by intros ?%elem_of_nil].
    intros Hr. apply list_elem_of_omap in Hr as (nb & Hnb & Hres).
    destruct (Hvoy _ _ _ _ Hnb) as (e & He1 & Hid).
    apply list_elem_of_singleton in He1. subst e.
    assert (Hnbid : nb_id nb = uuid) by (rewrite <- Hid, Hdoc; done).
    rewrite Hnbid, lookup_insert_eq, He in Hres. injection Hres as <-. simpl.
    by rewrite Hdoc.
  - intros content2 metadata2 uuid2 now2 emb2 He2 st2.
    destruct (addDocument_index st' content2 metadata2 uuid2 now2 emb2 He2)
      as (Hdoc2 & Hidx2 & _ & _).
    eexists. split; [exact Hidx2|]. by rewrite Hdoc2.
Qed.

End VectorIndexFacts.

Lemma addDocument_leaves_only_newest_embedding_witness :
  let st := snd (PunkRecords.addDocument constantEmbedding (PunkRecords.newStore ∅)
                   "first note" noteMeta true "doc-1" 1) in
  let doc := fst (PunkRecords.addDocument constantEmbedding st "second note" noteMeta
                    true "doc-2" 2) in
  let st' := snd (PunkRecords.addDocument constantEmbedding st "second note" noteMeta
                    true "doc-2" 2) in
  PunkRecords.getAllEmbeddings st = []
  /\ PunkRecords.voyIndex st' = Some [mkEntry "doc-2" "Note" "notes" [1%Q; 0%Q]]
  /\ (forall query limit r,
        r ∈ fst (PunkRecords.semanticSearch constantEmbedding firstEntries st' query limit) ->
        sr_document r = doc /\ doc_id doc = "doc-2")
  /\ (forall content2 metadata2 uuid2 now2 emb2,
        constantEmbedding content2 = Some emb2 ->
        let st2 := snd (PunkRecords.addDocument constantEmbedding st' content2 metadata2
                          true uuid2 now2) in
        exists e2, PunkRecords.voyIndex st2 = Some [e2] /\ e_id e2 = uuid2).
Proof.
  apply (addDocument_leaves_only_newest_embedding constantEmbedding firstEntries).
  - intros index q limit nb Hnb. unfold firstEntries in Hnb.
    apply elem_of_take in Hnb as (i & Hi & _).
    apply list_lookup_fmap_Some in Hi as (e & -> & Hi).
    exists e. split; [|done]. by eapply list_elem_of_lookup_2.
  - reflexivity.
Defined.

(** ** Context eviction *)

Section EvictionFacts.
Variable generateSummary : list ConversationTurn -> Completion string.
Variable generateEmbedding : string -> Completion (list Q).
Variable putSlice : ContextSlice -> Completion unit.

Abbreviation performContextEviction :=
  (York.performContextEviction generateSummary generateEmbedding putSlice).

Lemma fold_tokens_shift (turns : list ConversationTurn) (a b : Z) :
  fold_left (fun sum m => (sum + turn_tokenCount m)%Z) turns (a + b)%Z
  = (a + fold_left (fun sum m => (sum + turn_tokenCount m)%Z) turns b)%Z.
Proof.
  revert b. induction turns as [|t turns IH]; intros b; simpl; [done|].
  by rewrite <- Z.add_assoc, IH.
Qed.

Lemma fold_tokens (turns : list ConversationTurn) (a : Z) :
  fold_left (fun sum m => (sum + turn_tokenCount m)%Z) turns a
  = (a + York.sumTokens turns)%Z.
Proof.
  unfold York.sumTokens. rewrite <- fold_tokens_shift. by rewrite Z.add_0_r.
Qed.

Lemma sumTokens_cons t turns :
  York.sumTokens (t :: turns) = (turn_tokenCount t + York.sumTokens turns)%Z.
Proof. unfold York.sumTokens at 1. simpl. by rewrite fold_tokens. Qed.

Lemma sumTokens_app xs ys :
  York.sumTokens (xs ++ ys) = (York.sumTokens xs + York.sumTokens ys)%Z.
Proof.
  induction xs as [|x xs IH]; simpl; [done|]. rewrite !sumTokens_cons, IH. lia.
Qed.

Lemma sumTokens_take_drop k turns :
  (York.sumTokens (take k turns) + York.sumTokens (drop k turns))%Z
  = York.sumTokens turns.
Proof. by rewrite <- sumTokens_app, take_drop. Qed.

(** The counting loop stops at the first prefix that covers [toFree], or
    takes the whole history. *)
Lemma countMessages_spec toFree acc cnt history :
  let k := York.countMessages toFree acc cnt history in
  cnt <= k /\ k - cnt <= length history
  /\ ((toFree <= acc + York.sumTokens (take (k - cnt) history))%Z
      \/ k - cnt = length history).
Proof.
  revert acc cnt. induction history as [|t history IH]; intros acc cnt; simpl.
  - split; [lia|]. split; [lia|]. right. lia.
  - destruct (Z.geb_spec (acc + turn_tokenCount t) toFree) as [Hge|Hlt].
    + split; [lia|]. split; [lia|]. left.
      replace (S cnt - cnt) with 1 by lia. simpl. rewrite sumTokens_cons.
      unfold York.sumTokens. simpl. lia.
    + destruct (IH (acc + turn_tokenCount t)%Z (S cnt)) as (H1 & H2 & H3).
      set (k := York.countMessages toFree (acc + turn_tokenCount t) (S cnt) history) in *.
      split; [lia|]. split; [lia|].
      replace (k - cnt) with (S (k - S cnt)) by lia. simpl. rewrite sumTokens_cons.
      destruct H3 as [H3|H3]; [left; lia | right; lia].
Qed.



Lemma new_consistent : York.consistent York.new.
Proof. by split. Qed.

Lemma addConversationTurn_consistent st turn :
  York.consistent st -> York.consistent (fst (York.addConversationTurn st turn)).
Proof.
  intros [Ht Hm]. split; simpl; [|done].
  rewrite Ht, sumTokens_app, sumTokens_cons. unfold York.sumTokens at 3. simpl. lia.
Qed.

Lemma clearContext_consistent st :
  York.consistent st -> York.consistent (York.clearContext st).
Proof. intros [Ht Hm]. by split. Qed.

Example evaluateEviction_at_4000_tokens :
  York.evaluateEviction fullHistory = mkDecision true 1952 5 critical.
Proof. reflexivity. Qed.


End EvictionFacts.


(** ** The retry loop *)

Section RetryFacts.
Variable Args : Type.
Variable callTool : Z -> string -> Args -> MCPToolResult + string.
Variable attemptParameterFix : string -> Args -> string -> Completion (option Args).

Abbreviation Request := (Atlas.ToolExecutionRequest Args).
Abbreviation maxRetries := (Atlas.maxRetries Args).
Abbreviation retryLoop := (Atlas.retryLoop Args callTool attemptParameterFix).
Abbreviation executeToolWithRetry :=
  (Atlas.executeToolWithRetry Args callTool attemptParameterFix).
Abbreviation Call := (Args * (MCPToolResult + string))%type.

Lemma analyze_true_below message attempt max :
  Atlas.analyzeErrorForRetry message attempt max = true -> (attempt < max)%Z.
Proof.
  unfold Atlas.analyzeErrorForRetry. destruct (Z.geb_spec attempt max); [done|lia].
Qed.

Lemma analyze_classes message attempt max :
  Atlas.analyzeErrorForRetry message attempt max
  = if (attempt >=? max)%Z then false
    else retrySignals message || negb (clientSignals message).
Proof.
  unfold Atlas.analyzeErrorForRetry, retrySignals, clientSignals. simpl.
  destruct (attempt >=? max)%Z; [done|].
  repeat (match goal with
          | |- context [JS.includes message ?p] => destruct (JS.includes message p)
          end; simpl; try done).
Qed.

(** What the loop does from attempt count [a] on: the calls it makes, in
    order, and how it ends. *)
Lemma retryLoop_calls fuel (request : Request) (a : nat) lastError delays errors :
  let max := maxRetries request in
  let tool := Atlas.toolName Args request in
  (max - Z.of_nat a < Z.of_nat fuel)%Z -> 0 < fuel ->
  a = 0 \/ (Z.of_nat a < max)%Z ->
  exists (rest : list Call) outcome,
    retryLoop fuel request (Z.of_nat a) lastError delays errors = Some outcome
    /\ (Z.of_nat (a + length rest) <= Z.max (Z.of_nat a) (Z.max 1 max))%Z
    /\ (rest = [] <-> (max < Z.of_nat a)%Z)
    /\ (forall k args answer, rest !! k = Some (args, answer) ->
          callTool (Z.of_nat (a + k) + 1) tool args = answer)
    /\ (forall args answer, rest !! 0 = Some (args, answer) ->
          args = Atlas.arguments Args request)
    /\ (forall k args answer next,
          rest !! k = Some (args, answer) -> rest !! S k = Some next ->
          exists message,
            answer = inr message
            /\ Atlas.analyzeErrorForRetry message (Z.of_nat (a + k) + 1) max = true
            /\ fst next = argumentsAfter attemptParameterFix tool args message)
    /\ match last rest with
       | None => outcome = Return (Atlas.failure lastError (Z.of_nat a) delays errors)
       | Some (args, inl result) =>
           outcome
           = Return (Atlas.mkExecResult (tr_success result) (tr_content result)
                       (tr_error result) (Z.of_nat (a + length rest))
                       (delays ++ map (fun k => Atlas.backoff (Z.of_nat k))
                                      (seq (S a) (length rest - 1)))
                       (errors ++ thrown rest))
       | Some (args, inr message) =>
           if Atlas.analyzeErrorForRetry message (Z.of_nat (a + length rest)) max
           then Atlas.isParameterError message = true
                /\ exists e, attemptParameterFix tool args message = Throw e
                             /\ outcome = Throw e
           else outcome
                = Return (Atlas.failure (Some message) (Z.of_nat (a + length rest))
                            (delays ++ map (fun k => Atlas.backoff (Z.of_nat k))
                                           (seq (S a) (length rest - 1)))
                            (errors ++ thrown rest))
       end.
Proof.
  revert request a lastError delays errors.
  induction fuel as [|fuel IH]; intros request a lastError delays errors;
    [cbv zeta; lia|].
  destruct request as [tool args rc max to]. cbv zeta.
  cbn [Atlas.retryLoop Atlas.maxRetries Atlas.toolName Atlas.arguments Atlas.retryCount
       Atlas.timeout].
  intros Hfuel Hpos Hinv.
  destruct (Z.leb_spec (Z.of_nat a) max) as [Hle|Hgt]; cycle 1.
  { exists [], (Return (Atlas.failure lastError (Z.of_nat a) delays errors)).
    split; [done|]. split; [simpl; lia|]. split; [done|].
    split; [by intros k args' answer Hk|]. split; [by intros args' answer Hk|].
    split; [by intros k args' answer next Hk|]. done. }
  assert (Hone : forall (answer : MCPToolResult + string) k args' answer',
            [(args, answer)] !! k = Some (args', answer') ->
            k = 0 /\ args' = args /\ answer' = answer).
  { intros answer [|k] args' answer' Hk; [|done]. by injection Hk as <- <-. }
  assert (Hstop : forall (answer : MCPToolResult + string) outcome,
            callTool (Z.of_nat a + 1) tool args = answer ->
            match answer with
            | inl result =>
                outcome
                = Return (Atlas.mkExecResult (tr_success result) (tr_content result)
                            (tr_error result) (Z.of_nat a + 1) delays errors)
            | inr message =>
                if Atlas.analyzeErrorForRetry message (Z.of_nat a + 1) max
                then Atlas.isParameterError message = true
                     /\ exists e, attemptParameterFix tool args message = Throw e
                                  /\ outcome = Throw e
                else outcome
                     = Return (Atlas.failure (Some message) (Z.of_nat a + 1) delays
                                             (errors ++ [message]))
            end ->
            exists (rest : list Call),
              (Z.of_nat (a + length rest) <= Z.max (Z.of_nat a) (Z.max 1 max))%Z
              /\ (rest = [] <-> (max < Z.of_nat a)%Z)
              /\ (forall k args' answer', rest !! k = Some (args', answer') ->
                    callTool (Z.of_nat (a + k) + 1) tool args' = answer')
              /\ (forall args' answer', rest !! 0 = Some (args', answer') -> args' = args)
              /\ (forall k args' answer' next,
                    rest !! k = Some (args', answer') -> rest !! S k = Some next ->
                    exists message,
                      answer' = inr message
                      /\ Atlas.analyzeErrorForRetry message (Z.of_nat (a + k) + 1) max = true
                      /\ fst next = argumentsAfter attemptParameterFix tool args' message)
              /\ match last rest with
                 | None => outcome = Return (Atlas.failure lastError (Z.of_nat a) delays errors)
                 | Some (args', inl result) =>
                     outcome
                     = Return (Atlas.mkExecResult (tr_success result) (tr_content result)
                                 (tr_error result) (Z.of_nat (a + length rest))
                                 (delays ++ map (fun k => Atlas.backoff (Z.of_nat k))
                                                (seq (S a) (length rest - 1)))
                                 (errors ++ thrown rest))
                 | Some (args', inr message) =>
                     if Atlas.analyzeErrorForRetry message (Z.of_nat (a + length rest)) max
                     then Atlas.isParameterError message = true
                          /\ exists e, attemptParameterFix tool args' message = Throw e
                                       /\ outcome = Throw e
                     else outcome
                          = Return (Atlas.failure (Some message) (Z.of_nat (a + length rest))
                                      (delays ++ map (fun k => Atlas.backoff (Z.of_nat k))
                                                     (seq (S a) (length rest - 1)))
                                      (errors ++ thrown rest))
                 end).
  { intros answer outcome Hcall Hout. exists [(args, answer)].
    split; [simpl; lia|]. split; [split; [done|lia]|].
    split.
    { intros k args' answer' Hk. destruct (Hone _ _ _ _ Hk) as (-> & -> & ->).
      by rewrite Nat.add_0_r. }
    split; [intros args' answer' Hk; by destruct (Hone _ _ _ _ Hk) as (_ & -> & _)|].
    split; [by intros k args' answer' next _ Hk|].
    cbn [last length]. replace (Z.of_nat (a + 1)) with (Z.of_nat a + 1)%Z by lia.
    cbn [Nat.sub seq map thrown omap snd]. rewrite !app_nil_r.
    destruct answer as [result|message]; unfold thrown; simpl; rewrite ?app_nil_r;
      exact Hout. }
  assert (Hgo : forall message,
            callTool (Z.of_nat a + 1) tool args = inr message ->
            Atlas.analyzeErrorForRetry message (Z.of_nat a + 1) max = true ->
            exists (rest : list Call) outcome,
              retryLoop fuel
                (Atlas.mkRequest Args tool
                   (argumentsAfter attemptParameterFix tool args message) rc max to)
                (Z.of_nat a + 1) (Some message)
                (delays ++ [Atlas.backoff (Z.of_nat a + 1)]) (errors ++ [message])
              = Some outcome
              /\ (Z.of_nat (a + length rest) <= Z.max (Z.of_nat a) (Z.max 1 max))%Z
              /\ (rest = [] <-> (max < Z.of_nat a)%Z)
              /\ (forall k args' answer', rest !! k = Some (args', answer') ->
                    callTool (Z.of_nat (a + k) + 1) tool args' = answer')
              /\ (forall args' answer', rest !! 0 = Some (args', answer') -> args' = args)
              /\ (forall k args' answer' next,
                    rest !! k = Some (args', answer') -> rest !! S k = Some next ->
                    exists message,
                      answer' = inr message
                      /\ Atlas.analyzeErrorForRetry message (Z.of_nat (a + k) + 1) max = true
                      /\ fst next = argumentsAfter attemptParameterFix tool args' message)
              /\ match last rest with
                 | None => outcome = Return (Atlas.failure lastError (Z.of_nat a) delays errors)
                 | Some (args', inl result) =>
                     outcome
                     = Return (Atlas.mkExecResult (tr_success result) (tr_content result)
                                 (tr_error result) (Z.of_nat (a + length rest))
                                 (delays ++ map (fun k => Atlas.backoff (Z.of_nat k))
                                                (seq (S a) (length rest - 1)))
                                 (errors ++ thrown rest))
                 | Some (args', inr message) =>
                     if Atlas.analyzeErrorForRetry message (Z.of_nat (a + length rest)) max
                     then Atlas.isParameterError message = true
                          /\ exists e, attemptParameterFix tool args' message = Throw e
                                       /\ outcome = Throw e
                     else outcome
                          = Return (Atlas.failure (Some message) (Z.of_nat (a + length rest))
                                      (delays ++ map (fun k => Atlas.backoff (Z.of_nat k))
                                                     (seq (S a) (length rest - 1)))
                                      (errors ++ thrown rest))
                 end).
  { intros message Hcall Han.
    pose proof (analyze_true_below _ _ _ Han) as Hbelow.
    destruct (IH (Atlas.mkRequest Args tool
                    (argumentsAfter attemptParameterFix tool args message) rc max to)
                 (S a) (Some message)
                 (delays ++ [Atlas.backoff (Z.of_nat a + 1)]) (errors ++ [message]))
      as (rest & outcome & Hrun & Hbound & Hnil & Hcalls & Hfirst & Hnext & Hlast).
    { simpl. lia. }
    { lia. }
    { right. simpl. lia. }
    cbn [Atlas.maxRetries Atlas.toolName Atlas.arguments] in *.
    replace (Z.of_nat (S a)) with (Z.of_nat a + 1)%Z in * by lia.
    assert (Hne : rest <> []) by (intros H; apply Hnil in H; lia).
    exists ((args, inr message) :: rest), outcome.
    split; [exact Hrun|].
    split; [cbn [length]; lia|]. split; [split; [done|lia]|].
    split.
    { intros [|k] args' answer' Hk.
      - injection Hk as <- <-. by rewrite Nat.add_0_r.
      - replace (a + S k) with (S a + k) by lia. by apply Hcalls. }
    split; [intros args' answer' Hk; by injection Hk as <- _|].
    split.
    { intros [|k] args' answer' next Hk Hk'.
      - injection Hk as <- <-. exists message. rewrite Nat.add_0_r.
        split; [done|]. split; [done|].
        destruct next as [args1 answer1]. by rewrite (Hfirst _ _ Hk').
      - replace (a + S k) with (S a + k) by lia. by eapply Hnext. }
    destruct rest as [|call rest']; [done|].
    change (last ((args, inr message) :: call :: rest')) with (last (call :: rest')).
    assert (Hlen : a + length ((args, @inr MCPToolResult string message) :: call :: rest')
                   = S a + length (call :: rest')) by (simpl; lia).
    assert (Hdel : (delays ++ [Atlas.backoff (Z.of_nat a + 1)])
                   ++ map (fun k => Atlas.backoff (Z.of_nat k))
                          (seq (S (S a)) (length (call :: rest') - 1))
                   = delays ++ map (fun k => Atlas.backoff (Z.of_nat k))
                       (seq (S a)
                          (length ((args, @inr MCPToolResult string message) :: call :: rest')
                           - 1))).
    { cbn [length Nat.sub]. rewrite Nat.sub_0_r. cbn [seq map]. rewrite <- app_assoc.
      cbn [app]. do 3 f_equal. lia. }
    assert (Herr : (errors ++ [message]) ++ thrown (call :: rest')
                   = errors ++ thrown ((args, @inr MCPToolResult string message)
                                       :: call :: rest')).
    { by rewrite <- app_assoc. }
    rewrite Hlen, <- Hdel, <- Herr.
    destruct (last (call :: rest')) as [[args' [result|message0]]|] eqn:Hl;
      [exact Hlast|exact Hlast|].
    by apply last_None in Hl. }
  destruct (callTool (Z.of_nat a + 1) tool args) as [result|message] eqn:Hcall.
  - destruct (Hstop (inl result) _ eq_refl eq_refl) as (rest & H).
    by exists rest; eexists.
  - destruct (Atlas.analyzeErrorForRetry message (Z.of_nat a + 1) max) eqn:Han;
      cbn [negb]; cycle 1.
    { edestruct (Hstop (inr message)) as (rest & H); [done| |by exists rest; eexists].
      by rewrite Han. }
    destruct (Hgo message eq_refl Han) as (rest & outcome & Hrun & H).
    unfold argumentsAfter in Hrun.
    destruct (Atlas.isParameterError message) eqn:Hpar.
    + destruct (attemptParameterFix tool args message) as [[fixedArgs|]|e] eqn:Hfix.
      * by exists rest, outcome.
      * by exists rest, outcome.
      * edestruct (Hstop (inr message)) as (rest' & H'); [done| |by exists rest'; eexists].
        rewrite Han. split; [done|]. by exists e.
    + by exists rest, outcome.
Qed.

(** C6: [executeToolWithRetry] returns after at most [maxRetries]
    attempts whenever [maxRetries] is at least 1, as it is in the request
    [parseToolRequest] builds, which has 3 (it returns after exactly one
    attempt when [maxRetries] is 0, and without any when it is negative).
    The attempts are calls of [callTool], numbered from 1, the first with
    the request's arguments. After an attempt that threw there is a
    further attempt exactly when [analyzeErrorForRetry] answers true for
    the message, which below the attempt limit means: a message with a
    retry signal (500/502/503, timeout/ETIMEDOUT, ECONNREFUSED/ENOTFOUND,
    429/rate limit) is retried, one with only a client signal
    (400/401/403) is not, one with neither is retried; the further
    attempt is made with the repaired arguments when the error was a
    parameter error and the repair returned some, and only an error
    thrown by the repair itself ends the call in between. The answer of
    the last attempt decides the result: its result with the attempt
    count, or the failure with the last message. Between attempt [k]
    and attempt [k + 1] the wait is [min (1000 * 2^(k-1)) 10000]
    milliseconds, and there is no other wait. *)
Theorem executeToolWithRetry_attempts_and_backoff (request : Request) :
  let max := maxRetries request in
  let tool := Atlas.toolName Args request in
  exists (calls : list Call) (outcome : Completion Atlas.ToolExecutionResult),
    let n := length calls in
    let delays :=
      map (fun k => Z.min (1000 * 2 ^ (Z.of_nat k - 1)) 10000) (seq 1 (n - 1)) in
    executeToolWithRetry request = Some outcome
    /\ (Z.of_nat n <= Z.max 1 max)%Z
    /\ (1 <= max -> Z.of_nat n <= max)%Z
    /\ (n = 0 <-> (max < 0)%Z)
    /\ (forall k args answer, calls !! k = Some (args, answer) ->
          callTool (Z.of_nat k + 1) tool args = answer)
    /\ (forall args answer, calls !! 0 = Some (args, answer) ->
          args = Atlas.arguments Args request)
    /\ (forall k args answer next,
          calls !! k = Some (args, answer) -> calls !! S k = Some next ->
          exists message,
            answer = inr message
            /\ Atlas.analyzeErrorForRetry message (Z.of_nat k + 1) max = true
            /\ fst next = argumentsAfter attemptParameterFix tool args message)
    /\ match last calls with
       | None => outcome = Return (Atlas.failure None 0 [] [])
       | Some (args, inl result) =>
           outcome
           = Return (Atlas.mkExecResult (tr_success result) (tr_content result)
                       (tr_error result) (Z.of_nat n) delays (thrown calls))
       | Some (args, inr message) =>
           if Atlas.analyzeErrorForRetry message (Z.of_nat n) max
           then Atlas.isParameterError message = true
                /\ exists e, attemptParameterFix tool args message = Throw e
                             /\ outcome = Throw e
           else outcome
                = Return (Atlas.failure (Some message) (Z.of_nat n) delays (thrown calls))
       end
    /\ (forall message attempt,
          (attempt < max)%Z ->
          Atlas.analyzeErrorForRetry message attempt max
          = retrySignals message || negb (clientSignals message))
    /\ (forall message attempt,
          (max <= attempt)%Z -> Atlas.analyzeErrorForRetry message attempt max = false).
Proof.
  intros max tool. unfold Atlas.executeToolWithRetry.
  destruct (retryLoop_calls (S (Z.to_nat (maxRetries request + 1))) request 0 None [] [])
    as (calls & outcome & Hrun & Hbound & Hnil & Hcalls & Hfirst & Hnext & Hlast);
    [lia|lia|by left|].
  fold max in Hbound, Hnil, Hnext, Hlast. fold tool in Hcalls, Hnext, Hlast.
  exists calls, outcome. cbv zeta.
  split; [exact Hrun|]. split; [simpl in Hbound; lia|]. split; [simpl in Hbound; lia|].
  split.
  { rewrite <- Hnil. split; [by intros ?%length_zero_iff_nil|by intros ->]. }
  split; [exact Hcalls|]. split; [exact Hfirst|]. split; [exact Hnext|].
  split; [exact Hlast|]. split.
  - intros message attempt Hlt. rewrite analyze_classes.
    destruct (Z.geb_spec attempt max); [lia|done].
  - intros message attempt Hge. rewrite analyze_classes.
    destruct (Z.geb_spec attempt max); [done|lia].
Qed.

(** The request [parseToolRequest] builds, the only one there is: one,
    two or three calls of [callTool]. *)
Lemma parsed_request_attempts (toolName : string) (arguments : Args) :
  exists (calls : list Call) outcome,
    executeToolWithRetry (Atlas.toolRequest Args toolName arguments) = Some outcome
    /\ 1 <= length calls <= 3
    /\ (forall k args answer, calls !! k = Some (args, answer) ->
          callTool (Z.of_nat k + 1) toolName args = answer).
Proof.
  unfold Atlas.executeToolWithRetry.
  destruct (retryLoop_calls (S (Z.to_nat (3 + 1))) (Atlas.toolRequest Args toolName arguments)
              0 None [] [])
    as (calls & outcome & Hrun & Hbound & Hnil & Hcalls & _); [simpl; lia|lia|by left|].
  exists calls, outcome. split; [exact Hrun|]. simpl in Hbound, Hnil, Hcalls. split.
  - destruct calls; [destruct Hnil as [Hnil _]; specialize (Hnil eq_refl); lia|].
    simpl in *. lia.
  - exact Hcalls.
Qed.

End RetryFacts.

Example flaky_run :
  Atlas.executeToolWithRetry unit flakyTool noFix defaultRequest
  = Some (Return (Atlas.mkExecResult true (Some "42") None 3 [1000; 2000]%Z
                    ["HTTP 503 Service Unavailable"; "request timeout"])).
Proof. reflexivity. Qed.

Example client_error_is_not_retried :
  Atlas.executeToolWithRetry unit (fun _ _ _ => inr "HTTP 401 Unauthorized") noFix
    defaultRequest
  = Some (Return (Atlas.mkExecResult false None (Some "HTTP 401 Unauthorized") 1 []
                    ["HTTP 401 Unauthorized"])).
Proof. reflexivity. Qed.

Example unclassified_error_exhausts_the_attempts :
  Atlas.executeToolWithRetry unit (fun _ _ _ => inr "boom") noFix defaultRequest
  = Some (Return (Atlas.mkExecResult false None (Some "boom") 3 [1000; 2000]%Z
                    ["boom"; "boom"; "boom"])).
Proof. reflexivity. Qed.

(** A parameter error whose repair throws: the wait is over, no second
    attempt is made, and the call ends with the repair's error. *)
Example failed_repair_ends_the_call :
  Atlas.executeToolWithRetry unit (fun _ _ _ => inr "validation failed: expression")
    (fun _ _ _ => Throw "Engine not initialized") defaultRequest
  = Some (Throw "Engine not initialized").
Proof. reflexivity. Qed.

(** ** Chunking *)

Lemma length_append (a b : string) :
  String.length (a +:+ b) = String.length a + String.length b.
Proof. induction a as [|c a IH]; simpl; [done|]. by rewrite IH. Qed.

Lemma spaceFree_append (a b : string) :
  spaceFree (a +:+ b) = spaceFree a && spaceFree b.
Proof.
  induction a as [|c a IH]; simpl; [done|]. rewrite IH. by rewrite andb_assoc.
Qed.

Lemma prefix_space (c : ascii) (s : string) :
  String.prefix " " (String c s) = Ascii.eqb " " c.
Proof.
  destruct (Ascii.eqb_spec " " c) as [<-|Hne].
  - by destruct s.
  - cbn [String.prefix]. by destruct (ascii_dec " " c).
Qed.

(** Splitting at spaces yields words. *)
Lemma split_go_spaceFree (s cur : string) :
  spaceFree cur = true ->
  Forall (fun w => spaceFree w = true) (JS.split_go " " 0 cur s).
Proof.
  revert cur. induction s as [|c s IH]; intros cur Hcur; cbn [JS.split_go].
  - by constructor.
  - rewrite prefix_space. destruct (Ascii.eqb_spec " " c) as [<-|Hne].
    + constructor; [done|]. by apply IH.
    + apply IH. rewrite spaceFree_append, Hcur. simpl.
      rewrite andb_true_r. apply negb_true_iff. apply Ascii.eqb_neq. congruence.
Qed.

Lemma split_space_spaceFree (s : string) :
  Forall (fun w => spaceFree w = true) (JS.split " " s).
Proof. unfold JS.split. simpl. by apply split_go_spaceFree. Qed.

Lemma pushIf_sized size cur chunks :
  sizedOrWord size cur -> Forall (sizedOrWord size) chunks ->
  Forall (sizedOrWord size) (PunkRecords.pushIf cur chunks).
Proof.
  intros Hc Hs. unfold PunkRecords.pushIf. destruct (JS.truthy cur); [|done].
  apply Forall_app. split; [done|]. by constructor.
Qed.

Lemma wordStep_sized size acc word :
  spaceFree word = true ->
  Forall (sizedOrWord size) (fst acc) -> sizedOrWord size (snd acc) ->
  Forall (sizedOrWord size) (fst (PunkRecords.wordStep size acc word))
  /\ sizedOrWord size (snd (PunkRecords.wordStep size acc word)).
Proof.
  destruct acc as [chunks cur]. intros Hw Hchunks Hcur. unfold PunkRecords.wordStep.
  destruct (Z.leb_spec (JS.len (cur +:+ " " +:+ word)) size) as [Hle|Hgt]; simpl.
  - split; [done|]. left. unfold JS.len in *. rewrite !length_append in *.
    destruct (JS.truthy cur); simpl in *; lia.
  - split; [by apply pushIf_sized | by right].
Qed.

Lemma fold_wordStep_sized size words acc :
  Forall (fun w => spaceFree w = true) words ->
  Forall (sizedOrWord size) (fst acc) -> sizedOrWord size (snd acc) ->
  Forall (sizedOrWord size) (fst (fold_left (PunkRecords.wordStep size) words acc))
  /\ sizedOrWord size (snd (fold_left (PunkRecords.wordStep size) words acc)).
Proof.
  revert acc. induction words as [|w words IH]; intros acc Hw Hchunks Hcur; simpl; [done|].
  apply Forall_cons in Hw as [Hw Hws].
  destruct (wordStep_sized size acc w Hw Hchunks Hcur). by apply IH.
Qed.

Lemma chunk_example : PunkRecords.chunkText thousandAs hundredNoOverlap = [thousandAs].
Proof. by vm_compute. Qed.

Example chunk_by_words :
  PunkRecords.chunkText "hello world foo" (mkChunkConfig 11 0 None) = ["hello world"; "foo"].
Proof. reflexivity. Qed.

Example chunk_by_segments :
  PunkRecords.chunkText ("ab" +:+ blankLine +:+ "cd" +:+ blankLine +:+ "efgh")
    (mkChunkConfig 6 0 None)
  = ["ab" +:+ blankLine +:+ "cd"; "efgh"].
Proof. reflexivity. Qed.

Example chunk_with_overlap :
  PunkRecords.chunkText "hello world foo" (mkChunkConfig 11 3 None)
  = ["hello world"; "rld foo"].
Proof. reflexivity. Qed.

(** The test that joins two segments leaves the separator out of the
    length. *)
Example chunk_join_overlooks_separator :
  PunkRecords.chunkText ("ab" +:+ blankLine +:+ "cd") (mkChunkConfig 5 0 None)
  = ["ab" +:+ blankLine +:+ "cd"]
  /\ JS.len ("ab" +:+ blankLine +:+ "cd") = 6%Z.
Proof. split; reflexivity. Qed.

(** C4 as the claim has it fails: the thousand letters contain neither
    separator nor space, so they come back as one chunk of 1000 characters. *)
Lemma chunk_example_exceeds_chunkSize :
  exists c, c ∈ PunkRecords.chunkText thousandAs hundredNoOverlap /\ (100 < JS.len c)%Z.
Proof.
  exists thousandAs. split; [|by vm_compute].
  rewrite chunk_example. apply list_elem_of_here.
Qed.

(** C4, amended: [chunkText] of a thousand letters a at size 100 without
    overlap is the one unsplit 1000-character chunk, and concatenating the
    chunks gives the content back; in general, a text of one segment, cut
    without overlap, yields chunks that are each at most [chunkSize] long or
    a single word (word-level splitting never cuts inside a word). *)
Theorem chunkText_words_stay_whole :
  PunkRecords.chunkText thousandAs hundredNoOverlap = [thousandAs]
  /\ JS.join (PunkRecords.chunkText thousandAs hundredNoOverlap) = thousandAs
  /\ JS.len thousandAs = 1000%Z
  /\ (forall text config,
        (chunkOverlap config <= 0)%Z ->
        JS.split (default (String "010" (String "010" "")) (separator config)) text = [text] ->
        Forall (sizedOrWord (chunkSize config)) (PunkRecords.chunkText text config)).
Proof.
  split; [apply chunk_example|]. split; [by rewrite chunk_example; vm_compute|].
  split; [by vm_compute|].
  intros text config Hov Hone. unfold PunkRecords.chunkText. rewrite Hone.
  assert (Hnov : (chunkOverlap config >? 0)%Z = false).
  { rewrite Z.gtb_ltb. apply Z.ltb_ge. lia. }
  cbn [fold_left]. unfold PunkRecords.segmentStep.
  change ("" +:+ "" +:+ text) with text. change ("" +:+ text) with text.
  change (PunkRecords.pushIf "" []) with (@nil string).
  destruct (Z.leb_spec (JS.len text) (chunkSize config)) as [Hle|Hgt].
  - rewrite Hnov. cbn [andb]. apply pushIf_sized; [by left|constructor].
  - destruct (Z.gtb_spec (JS.len text) (chunkSize config)) as [_|Hno]; [|lia].
    destruct (fold_wordStep_sized (chunkSize config) (JS.split " " text) ([], ""))
      as [Hchunks Hcur]; [apply split_space_spaceFree|constructor|by right|].
    destruct (fold_left _ (JS.split " " text) ([], "")) as [chunks cur].
    rewrite Hnov. cbn [andb]. by apply pushIf_sized.
Qed.

(** ** Search results: membership of ids *)

Section MergeFacts.
Implicit Types (m : JSMap.t SearchResult) (r : SearchResult).

Lemma existsb_eqb_elem (id : string) (l : list string) :
  existsb (String.eqb id) l = true <-> id ∈ l.
Proof.
  rewrite existsb_exists. split.
  - intros (x & Hx & He). apply String.eqb_eq in He as ->. by apply list_elem_of_In.
  - intros H. exists id. split; [by apply list_elem_of_In | apply String.eqb_refl].
Qed.

Lemma existsb_eqb_not_elem (id : string) (l : list string) :
  existsb (String.eqb id) l = false <-> id ∉ l.
Proof.
  rewrite <- existsb_eqb_elem. by destruct (existsb _ l).
Qed.

End MergeFacts.

(** ** Search results: sorting, and the keyword scores *)

Lemma take_elem {A} (x : A) (k : nat) (l : list A) : x ∈ take k l -> x ∈ l.
Proof. intros (i & Hi & _)%elem_of_take. by eapply list_elem_of_lookup_2. Qed.

Section RankFacts.
Implicit Types (r : SearchResult) (l : list SearchResult).

Lemma insertDesc_Permutation x l : PunkRecords.insertDesc x l ≡ₚ x :: l.
Proof.
  induction l as [|y l IH]; simpl; [done|].
  destruct (Qle_bool (sr_score y) (sr_score x)); [done|].
  rewrite IH. apply Permutation_swap.
Qed.

Lemma sortDesc_Permutation l : PunkRecords.sortDesc l ≡ₚ l.
Proof.
  induction l as [|x l IH]; simpl; [done|].
  rewrite insertDesc_Permutation. by rewrite IH.
Qed.

Lemma keywordStep_spec (acc : list SearchResult) (doc : PunkDocument) :
  NoDup (map idOf acc) /\ Forall (fun k => (0 < sr_score k)%Q) acc ->
  NoDup (map idOf (PunkRecords.keywordStep acc doc))
  /\ Forall (fun k => (0 < sr_score k)%Q) (PunkRecords.keywordStep acc doc).
Proof.
  intros [Hnd Hpos]. unfold PunkRecords.keywordStep.
  destruct (existsb _ acc) eqn:Hex; [done|]. split.
  - rewrite map_app. simpl. apply NoDup_app. split; [done|].
    split; [|apply NoDup_singleton].
    intros id Hid Hid'. apply list_elem_of_singleton in Hid'. subst id.
    apply list_elem_of_fmap in Hid as (r & Hr & Hin).
    assert (Htrue : existsb (fun r => String.eqb (doc_id (sr_document r)) (doc_id doc)) acc
                    = true).
    { apply existsb_exists. exists r. split; [by apply list_elem_of_In|].
      unfold idOf in Hr. simpl in Hr. rewrite <- Hr. apply String.eqb_refl. }
    congruence.
  - apply Forall_app. split; [done|]. constructor; [|constructor]. simpl.
    unfold Qlt, Qdiv, Qmult, Qinv, inject_Z. simpl.
    destruct (Z.of_nat (length acc + 1)) eqn:Hz; simpl; lia.
Qed.

Lemma fold_keywordStep_spec docs (acc : list SearchResult) :
  NoDup (map idOf acc) /\ Forall (fun k => (0 < sr_score k)%Q) acc ->
  NoDup (map idOf (fold_left PunkRecords.keywordStep docs acc))
  /\ Forall (fun k => (0 < sr_score k)%Q) (fold_left PunkRecords.keywordStep docs acc).
Proof.
  revert acc. induction docs as [|d docs IH]; intros acc H; simpl; [done|].
  apply IH. by apply keywordStep_spec.
Qed.

End RankFacts.

(** ** Keyword search: distinct documents *)

Section SearchFacts.
Variable generateEmbedding : string -> option (list Q).
Variable voySearch : list VoyEntry -> list Q -> nat -> list Neighbor.
Variable flexSearch : list PunkDocument -> string -> nat -> option (list (list PunkDocument)).

Abbreviation semSearch := (PunkRecords.semanticSearch generateEmbedding voySearch).
Abbreviation kwSearch := (PunkRecords.keywordSearch flexSearch).
Abbreviation search := (PunkRecords.search generateEmbedding voySearch flexSearch).

Lemma keywordSearch_spec st query limit :
  NoDup (map idOf (fst (kwSearch st query limit)))
  /\ Forall (fun k => (0 < sr_score k)%Q) (fst (kwSearch st query limit)).
Proof.
  unfold PunkRecords.keywordSearch.
  destruct (flexSearch _ query limit) as [fields|]; simpl.
  - destruct (fold_keywordStep_spec (concat fields) []) as [Hnd Hpos].
    { split; [apply NoDup_nil_2 | constructor]. }
    split; [|by apply Forall_take].
    change (map idOf) with (fmap (M:=list) idOf). rewrite fmap_take.
    exact (sublist_NoDup _ _ Hnd (sublist_take _ _)).
  - split; [apply NoDup_nil_2 | constructor].
Qed.

End SearchFacts.

(** ** Hybrid search in double precision: the comparator *)

Section NumberFacts.

Lemma binary_round_sign (s : bool) (m : positive) (e : Z) :
  match binary_round Number.prec Number.emax s m e with
  | S754_zero s' | S754_infinity s' | S754_finite s' _ _ => s' = s
  | S754_nan => True
  end.
Proof.
  unfold binary_round, binary_round_aux.
  destruct (shl_align m e _) as [mz ez].
  destruct (shr_fexp Number.prec Number.emax (Z.pos mz) ez loc_Exact) as [mrs e'].
  destruct (shr_fexp Number.prec Number.emax _ e' loc_Exact) as [mrs' e''].
  destruct (shr_m mrs'); [done| |done]. by destruct (Z.leb _ _).
Qed.

(** A rounded integer multiple of a power of two is positive only if the
    integer is. *)
Lemma binary_normalize_positive (m e : Z) (szero : bool) :
  Number.positive (binary_normalize Number.prec Number.emax m e szero) = true -> (0 < m)%Z.
Proof.
  destruct m as [|p|p]; simpl; [done|lia|].
  pose proof (binary_round_sign true p e) as Hs.
  destruct (binary_round Number.prec Number.emax true p e) as [s|s| |s m' e'];
    try subst s; done.
Qed.

(** The comparator never ranks two results both ways. *)
Lemma sub_positive_antisym (x y : Number.t) :
  Number.positive (Number.sub x y) = true -> Number.positive (Number.sub y x) = false.
Proof.
  intros H. destruct (Number.positive (Number.sub y x)) eqn:H'; [|done]. exfalso.
  destruct x as [sx|sx| |sx mx ex], y as [sy|sy| |sy my ey];
    try (by repeat match goal with b : bool |- _ => destruct b end).
  unfold Number.sub, SFsub in H, H'.
  apply binary_normalize_positive in H, H'. rewrite (Z.min_comm ey ex) in H'. lia.
Qed.

End NumberFacts.

(** ** Hybrid search in double precision: the merge *)

Section MergeFacts64.
Implicit Types (m : JSMap.t HybridSearch.SearchResult) (r : HybridSearch.SearchResult).

Lemma omap_ext_elem {A B} (f g : A -> option B) (l : list A) :
  (forall x, x ∈ l -> f x = g x) -> omap f l = omap g l.
Proof.
  induction l as [|x l IH]; intros H; [done|].
  change (omap f (x :: l)) with (match f x with Some y => y :: omap f l | None => omap f l end).
  change (omap g (x :: l)) with (match g x with Some y => y :: omap g l | None => omap g l end).
  rewrite (H x) by apply list_elem_of_here.
  rewrite IH; [done|]. intros y Hy. apply H. by apply list_elem_of_further.
Qed.

(** A [Map] lists the values of its keys in the order of its keys. *)
Lemma values_keys_get {V} (m : JSMap.t V) :
  NoDup (JSMap.keys m) -> JSMap.values m = omap (JSMap.get m) (JSMap.keys m).
Proof.
  induction m as [|[k v] m IH]; intros Hnd; [done|].
  apply NoDup_cons in Hnd as [Hk Hnd]. simpl. rewrite String.eqb_refl. f_equal.
  fold (JSMap.values m). rewrite IH by done. apply omap_ext_elem. intros k' Hk'.
  destruct (String.eqb_spec k k') as [->|_]; [done|done].
Qed.

Lemma seeId_NoDup seen id : NoDup seen -> NoDup (seeId seen id).
Proof.
  intros Hnd. unfold seeId. destruct (existsb _ seen) eqn:Hex; [done|].
  apply existsb_eqb_not_elem in Hex. apply NoDup_app. split; [done|].
  split; [|apply NoDup_singleton].
  intros x Hx Hx'. apply list_elem_of_singleton in Hx'. by subst.
Qed.

Lemma fold_seeId_NoDup ids seen : NoDup seen -> NoDup (fold_left seeId ids seen).
Proof.
  revert seen. induction ids as [|id ids IH]; intros seen Hnd; simpl; [done|].
  by apply IH, seeId_NoDup.
Qed.

Lemma keys_set {V} (m : JSMap.t V) k (v : V) :
  JSMap.keys (JSMap.set k v m) = seeId (JSMap.keys m) k.
Proof.
  unfold seeId. destruct (existsb _ (JSMap.keys m)) eqn:Hex.
  - apply existsb_eqb_elem in Hex. by apply keys_set_present.
  - apply existsb_eqb_not_elem in Hex. rewrite keys_set_fresh by done.
    unfold JSMap.keys. by rewrite fmap_app.
Qed.

Lemma keys_addSemantic w sem m :
  JSMap.keys (fold_left (HybridSearch.addSemantic w) sem m)
  = fold_left seeId (map idOf64 sem) (JSMap.keys m).
Proof.
  revert m. induction sem as [|s sem IH]; intros m; simpl; [done|].
  rewrite IH. unfold HybridSearch.addSemantic at 1. by rewrite keys_set.
Qed.

Lemma keys_addKeyword kw kws m :
  JSMap.keys (fold_left (HybridSearch.addKeyword kw) kws m)
  = fold_left seeId (map idOf64 kws) (JSMap.keys m).
Proof.
  revert m. induction kws as [|k kws IH]; intros m; simpl; [done|].
  rewrite IH. f_equal. unfold HybridSearch.addKeyword. fold (idOf64 k).
  destruct (JSMap.get m (idOf64 k)) as [v|] eqn:Hg.
  - rewrite keys_update. unfold seeId.
    apply get_Some_keys, existsb_eqb_elem in Hg. by rewrite Hg.
  - by rewrite keys_set.
Qed.

Lemma get_addSemantic w sem m id :
  JSMap.get (fold_left (HybridSearch.addSemantic w) sem m) id
  = match lastFor id sem with
    | Some s => Some (HybridSearch.weigh w s)
    | None => JSMap.get m id
    end.
Proof.
  revert m. induction sem as [|s sem IH]; intros m; simpl; [done|].
  rewrite IH. destruct (lastFor id sem) as [s'|]; [done|].
  unfold HybridSearch.addSemantic. fold (idOf64 s).
  destruct (String.eqb_spec (idOf64 s) id) as [<-|Hne].
  - by rewrite get_set_eq.
  - by rewrite get_set_ne.
Qed.

Lemma firstFor_None id kws : id ∉ map idOf64 kws -> firstFor id kws = None.
Proof.
  intros H. unfold firstFor. induction kws as [|k kws IH]; simpl; [done|].
  simpl in H. apply not_elem_of_cons in H as [Hne H].
  destruct (String.eqb_spec (idOf64 k) id); [congruence|]. by apply IH.
Qed.

Lemma get_addKeyword kw kws m id :
  NoDup (map idOf64 kws) ->
  JSMap.get (fold_left (HybridSearch.addKeyword kw) kws m) id
  = match firstFor id kws with
    | Some k =>
        Some (match JSMap.get m id with
              | Some existing =>
                  HybridSearch.addScore (Number.mul (HybridSearch.hr_score k) kw) existing
              | None => HybridSearch.weigh kw k
              end)
    | None => JSMap.get m id
    end.
Proof.
  revert m. induction kws as [|k kws IH]; intros m Hnd; simpl; [done|].
  apply NoDup_cons in Hnd as [Hfresh Hnd]. rewrite IH by done.
  unfold firstFor. simpl. fold (firstFor id kws).
  unfold HybridSearch.addKeyword. fold (idOf64 k).
  destruct (String.eqb_spec (idOf64 k) id) as [<-|Hne].
  - rewrite (firstFor_None _ _ Hfresh).
    destruct (JSMap.get m (idOf64 k)) as [v|] eqn:Hg.
    + by rewrite get_update_eq, Hg.
    + by rewrite get_set_eq.
  - destruct (JSMap.get m (idOf64 k)) as [v|] eqn:Hg.
    + by rewrite get_update_ne.
    + by rewrite get_set_ne.
Qed.

(** The map the two loops of [search] build is the weighted union. *)
Lemma combine_weightedUnion64 w sem kws :
  NoDup (map idOf64 kws) ->
  JSMap.values (HybridSearch.combine w sem kws) = weightedUnion64 w sem kws.
Proof.
  intros Hk. unfold HybridSearch.combine, weightedUnion64.
  rewrite values_keys_get.
  - rewrite keys_addKeyword, keys_addSemantic. unfold firstIds.
    rewrite fold_left_app. apply omap_ext_elem. intros id _.
    rewrite get_addKeyword by done. rewrite get_addSemantic. unfold weightedResult.
    destruct (lastFor id sem) as [s|], (firstFor id kws) as [k|]; done.
  - rewrite keys_addKeyword, keys_addSemantic.
    apply fold_seeId_NoDup, fold_seeId_NoDup, NoDup_nil_2.
Qed.

Lemma weightedUnion64_hybrid w sem kws r :
  r ∈ weightedUnion64 w sem kws -> HybridSearch.hr_matchType r = hybrid.
Proof.
  unfold weightedUnion64. intros (id & _ & H)%list_elem_of_omap.
  unfold weightedResult in H.
  destruct (lastFor id sem) as [s|], (firstFor id kws) as [k|]; [| | |done];
    by injection H as <-.
Qed.

Lemma fold_seeId_fresh ids seen :
  NoDup (seen ++ ids) -> fold_left seeId ids seen = seen ++ ids.
Proof.
  revert seen. induction ids as [|id ids IH]; intros seen Hnd; simpl.
  - by rewrite app_nil_r.
  - assert (Hfresh : existsb (String.eqb id) seen = false).
    { apply existsb_eqb_not_elem. apply NoDup_app in Hnd as (_ & H & _). intros Hin.
      apply (H _ Hin). apply list_elem_of_here. }
    unfold seeId at 2. rewrite Hfresh. rewrite IH; rewrite <- app_assoc; done.
Qed.

Lemma firstIds_NoDup ids : NoDup ids -> firstIds ids = ids.
Proof. intros H. unfold firstIds. by rewrite fold_seeId_fresh. Qed.

Lemma lastFor_None id l : id ∉ map idOf64 l -> lastFor id l = None.
Proof.
  induction l as [|x l IH]; simpl; [done|]. intros H.
  apply not_elem_of_cons in H as [Hne H]. rewrite IH by done.
  destruct (String.eqb_spec (idOf64 x) id); [congruence|done].
Qed.

Lemma for_NoDup l r :
  NoDup (map idOf64 l) -> r ∈ l ->
  firstFor (idOf64 r) l = Some r /\ lastFor (idOf64 r) l = Some r.
Proof.
  induction l as [|x l IH]; intros Hnd Hin; [by apply elem_of_nil in Hin|].
  simpl in Hnd. apply NoDup_cons in Hnd as [Hx Hnd].
  unfold firstFor. simpl. fold (firstFor (idOf64 r) l).
  apply elem_of_cons in Hin as [->|Hin].
  - rewrite String.eqb_refl. by rewrite (lastFor_None _ _ Hx).
  - destruct (IH Hnd Hin) as [-> ->]. split; [|done].
    destruct (String.eqb_spec (idOf64 x) (idOf64 r)) as [Heq|_]; [|done].
    exfalso. apply Hx. rewrite Heq. apply list_elem_of_fmap. by exists r.
Qed.

Lemma omap_map_Some {A B C} (g : B -> option C) (h : A -> B) (f : A -> C) (l : list A) :
  (forall x, x ∈ l -> g (h x) = Some (f x)) -> omap g (map h l) = map f l.
Proof.
  induction l as [|x l IH]; intros H; [done|].
  change (omap g (map h (x :: l)))
    with (match g (h x) with Some y => y :: omap g (map h l) | None => omap g (map h l) end).
  rewrite (H x) by apply list_elem_of_here. simpl. f_equal.
  apply IH. intros y Hy. apply H. by apply list_elem_of_further.
Qed.

Lemma distinctLast_NoDup sem : NoDup (map idOf64 sem) -> distinctLast sem = sem.
Proof.
  intros Hnd. unfold distinctLast. rewrite firstIds_NoDup by done.
  rewrite (omap_map_Some _ _ (fun s => s)); [by rewrite map_id|].
  intros s Hs. by destruct (for_NoDup sem s Hnd Hs).
Qed.

Lemma weightedUnion64_no_semantic w kws :
  NoDup (map idOf64 kws) ->
  weightedUnion64 w [] kws = map (HybridSearch.weigh (Number.sub Number.one w)) kws.
Proof.
  intros Hnd. unfold weightedUnion64. simpl. rewrite firstIds_NoDup by done.
  apply omap_map_Some. intros k Hk. unfold weightedResult. simpl.
  by destruct (for_NoDup kws k Hnd Hk) as [-> _].
Qed.

Lemma weightedUnion64_no_keyword w sem :
  weightedUnion64 w sem [] = map (HybridSearch.weigh w) (distinctLast sem).
Proof.
  unfold weightedUnion64, distinctLast. rewrite app_nil_r.
  induction (firstIds (map idOf64 sem)) as [|id ids IH]; [done|].
  change (omap ?f (id :: ids)) with (match f id with Some y => y :: omap f ids
                                                | None => omap f ids end).
  unfold weightedResult at 1. simpl. destruct (lastFor id sem) as [s|]; simpl;
    by rewrite IH.
Qed.

End MergeFacts64.

(** ** Hybrid search in double precision: ranking *)

Section RankFacts64.
Implicit Types (r : HybridSearch.SearchResult) (l : list HybridSearch.SearchResult).

Lemma insertDesc64_Permutation x l : HybridSearch.insertDesc x l ≡ₚ x :: l.
Proof.
  induction l as [|y l IH]; simpl; [done|].
  destruct (Number.positive _); [|done].
  rewrite IH. apply Permutation_swap.
Qed.

Lemma sortDesc64_Permutation l : HybridSearch.sortDesc l ≡ₚ l.
Proof.
  induction l as [|x l IH]; simpl; [done|].
  rewrite insertDesc64_Permutation. by rewrite IH.
Qed.

Lemma insertDesc64_order x l :
  inComparatorOrder l -> inComparatorOrder (HybridSearch.insertDesc x l).
Proof.
  induction l as [|y l IH]; intros Hs; [done|].
  cbn [HybridSearch.insertDesc].
  destruct (Number.positive (HybridSearch.compareScores x y)) eqn:Hp.
  - assert (Htail : inComparatorOrder l) by (destruct l; [done|by destruct Hs]).
    specialize (IH Htail).
    destruct l as [|z l']; cbn [HybridSearch.insertDesc] in *.
    + split; [|done]. by apply sub_positive_antisym.
    + destruct Hs as [Hyz _].
      destruct (Number.positive (HybridSearch.compareScores x z)) eqn:Hp'.
      * split; [exact Hyz|exact IH].
      * split; [by apply sub_positive_antisym|exact IH].
  - split; [exact Hp|exact Hs].
Qed.

Lemma sortDesc64_order l : inComparatorOrder (HybridSearch.sortDesc l).
Proof.
  induction l as [|x l IH]; simpl; [done|]. by apply insertDesc64_order.
Qed.

Lemma inComparatorOrder_take k l : inComparatorOrder l -> inComparatorOrder (take k l).
Proof.
  revert k. induction l as [|x l IH]; intros k Hs; [by destruct k|].
  destruct k as [|k]; [done|]. cbn [take].
  destruct l as [|y l']; [by destruct k|].
  destruct Hs as [Hxy Hs]. specialize (IH k Hs).
  destruct k as [|k]; [done|]. split; [exact Hxy|exact IH].
Qed.

(** Whatever holds of every merged result that passes the threshold holds
    of every ranked one. *)
Lemma rank64_Forall (P : HybridSearch.SearchResult -> Prop) threshold limit l :
  (forall r, r ∈ l -> Number.geb (HybridSearch.hr_score r) threshold = true -> P r) ->
  Forall P (HybridSearch.rank threshold limit l).
Proof.
  intros H. unfold HybridSearch.rank. apply List.Forall_forall. intros r Hr.
  apply list_elem_of_In in Hr. apply take_elem in Hr.
  rewrite sortDesc64_Permutation in Hr. apply list_elem_of_In in Hr.
  apply filter_In in Hr as [Hin Hth]. apply H; [by apply list_elem_of_In|done].
Qed.

Lemma keywordStep64_NoDup (acc : list HybridSearch.SearchResult) (doc : PunkDocument) :
  NoDup (map idOf64 acc) -> NoDup (map idOf64 (HybridSearch.keywordStep acc doc)).
Proof.
  intros Hnd. unfold HybridSearch.keywordStep.
  destruct (existsb _ acc) eqn:Hex; [done|].
  rewrite map_app. simpl. apply NoDup_app. split; [done|].
  split; [|apply NoDup_singleton].
  intros id Hid Hid'. apply list_elem_of_singleton in Hid'. subst id.
  apply list_elem_of_fmap in Hid as (r & Hr & Hin).
  assert (Htrue : existsb (fun r => String.eqb (doc_id (HybridSearch.hr_document r))
                                               (doc_id doc)) acc = true).
  { apply existsb_exists. exists r. split; [by apply list_elem_of_In|].
    unfold idOf64 in Hr. simpl in Hr. rewrite <- Hr. apply String.eqb_refl. }
  congruence.
Qed.

Lemma fold_keywordStep64_NoDup docs (acc : list HybridSearch.SearchResult) :
  NoDup (map idOf64 acc) ->
  NoDup (map idOf64 (fold_left HybridSearch.keywordStep docs acc)).
Proof.
  revert acc. induction docs as [|d docs IH]; intros acc H; simpl; [done|].
  by apply IH, keywordStep64_NoDup.
Qed.

End RankFacts64.

(** ** Hybrid search in double precision: the order of the values *)

Section ValueFacts.
Import NumberValue.
Local Open Scope Z_scope.

Lemma emin_value : emin = -1074.
Proof. reflexivity. Qed.

Lemma fexp_ge_emin k : emin <= fexp Number.prec Number.emax k.
Proof. unfold fexp. fold emin. lia. Qed.

Lemma shr_1_m mrs : 0 <= shr_m mrs -> shr_m (shr_1 mrs) = Z.div2 (shr_m mrs).
Proof.
  destruct mrs as [m r s]. simpl. intros Hm.
  destruct m as [|[p|p|]|p]; try done; lia.
Qed.

Lemma iter_shr_1_m p mrs :
  0 <= shr_m mrs -> shr_m (SpecFloat.iter_pos shr_1 p mrs) = Z.shiftr (shr_m mrs) (Z.pos p).
Proof.
  revert mrs. induction p as [p IH|p IH|]; intros mrs Hm; simpl.
  - assert (H1 : 0 <= shr_m (shr_1 mrs)).
    { rewrite shr_1_m by done. rewrite Z.div2_spec. by apply Z.shiftr_nonneg. }
    assert (H2 : 0 <= shr_m (SpecFloat.iter_pos shr_1 p (shr_1 mrs))).
    { rewrite IH by done. by apply Z.shiftr_nonneg. }
    rewrite IH by done. rewrite IH by done. rewrite shr_1_m by done.
    rewrite Z.div2_spec. rewrite !Z.shiftr_shiftr by lia. f_equal. lia.
  - assert (H2 : 0 <= shr_m (SpecFloat.iter_pos shr_1 p mrs)).
    { rewrite IH by done. by apply Z.shiftr_nonneg. }
    rewrite IH by done. rewrite IH by done. rewrite !Z.shiftr_shiftr by lia. f_equal. lia.
  - rewrite shr_1_m by done. by rewrite Z.div2_spec.
Qed.

Lemma digits2_size p : digits2_pos p = Pos.size p.
Proof. induction p as [p IH|p IH|]; simpl; by rewrite ?IH. Qed.

Lemma digits2_le p : 2 ^ (Z.pos (digits2_pos p) - 1) <= Z.pos p.
Proof.
  rewrite digits2_size. pose proof (Pos.size_le p) as H.
  assert (Hp : (2 ^ Pos.size p <= p~0)%positive) by exact H.
  apply Pos2Z.pos_le_pos in Hp. rewrite Pos2Z.inj_pow in Hp.
  replace (Z.pos (Pos.size p)) with (Z.pos (Pos.size p) - 1 + 1) in Hp by lia.
  rewrite Z.pow_add_r in Hp by lia. lia.
Qed.

(** Shifting to the exponent the format asks for never loses a positive
    mantissa whose exponent is not below the least one. *)
Lemma shr_fexp_positive m e l :
  0 < m -> emin <= e ->
  0 < shr_m (fst (shr_fexp Number.prec Number.emax m e l))
  /\ emin <= snd (shr_fexp Number.prec Number.emax m e l).
Proof.
  intros Hm He. unfold shr_fexp, shr.
  destruct m as [|p|p]; [lia| |lia]. simpl Zdigits2.
  set (f := fexp Number.prec Number.emax (Z.pos (digits2_pos p) + e)).
  pose proof (fexp_ge_emin (Z.pos (digits2_pos p) + e)) as Hf. fold f in Hf.
  assert (Hrec : shr_m (shr_record_of_loc (Z.pos p) l) = Z.pos p).
  { by destruct l as [|[]]. }
  destruct (f - e) as [|n|n] eqn:Hn; simpl; rewrite ?Hrec; [lia| |lia].
  split; [|lia].
  rewrite iter_shr_1_m by (rewrite Hrec; lia). rewrite Hrec.
  assert (Hnd : Z.pos n <= Z.pos (digits2_pos p) - 1).
  { unfold f, fexp in Hn. fold emin in Hn. unfold Number.prec in Hn. lia. }
  rewrite Z.shiftr_div_pow2 by lia.
  apply Z.div_str_pos. split; [apply Z.pow_pos_nonneg; lia|].
  pose proof (digits2_le p).
  assert (2 ^ Z.pos n <= 2 ^ (Z.pos (digits2_pos p) - 1)) by (apply Z.pow_le_mono_r; lia).
  lia.
Qed.

Lemma shr_fexp_scaled m e l : emin <= snd (shr_fexp Number.prec Number.emax m e l).
Proof.
  unfold shr_fexp, shr.
  pose proof (fexp_ge_emin (Zdigits2 m + e)) as Hf.
  destruct (fexp Number.prec Number.emax (Zdigits2 m + e) - e) as [|n|n] eqn:Hn; simpl; lia.
Qed.

Lemma round_nearest_even_positive m l : 0 < m -> 0 < round_nearest_even m l.
Proof.
  intros Hm. destruct l as [|[]]; simpl; try lia. destruct (Z.even m); lia.
Qed.

(** Rounding returns a multiple of the unit. *)
Lemma binary_round_aux_scaled s m e l :
  scaled (binary_round_aux Number.prec Number.emax s m e l).
Proof.
  unfold binary_round_aux.
  destruct (shr_fexp Number.prec Number.emax m e l) as [mrs' e'].
  pose proof (shr_fexp_scaled (round_nearest_even (shr_m mrs') (loc_of_shr_record mrs'))
                e' loc_Exact) as H.
  destruct (shr_fexp Number.prec Number.emax _ e' loc_Exact) as [mrs'' e'']. simpl in H.
  destruct (shr_m mrs''); [done| |done]. by destruct (Z.leb _ _).
Qed.

(** Rounding a positive mantissa at an exponent not below the least one
    gives a positive double. *)
Lemma binary_round_aux_positive m e l :
  0 < m -> emin <= e ->
  Number.positive (binary_round_aux Number.prec Number.emax false m e l) = true.
Proof.
  intros Hm He. unfold binary_round_aux.
  destruct (shr_fexp_positive m e l Hm He) as [H1 H1'].
  destruct (shr_fexp Number.prec Number.emax m e l) as [mrs' e']. simpl in H1, H1'.
  pose proof (round_nearest_even_positive _ (loc_of_shr_record mrs') H1) as H2.
  destruct (shr_fexp_positive _ e' loc_Exact H2 H1') as [H3 _].
  destruct (shr_fexp Number.prec Number.emax _ e' loc_Exact) as [mrs'' e'']. simpl in H3.
  destruct (shr_m mrs''); [lia| |lia]. by destruct (Z.leb _ _).
Qed.

Lemma iter_xO m d : Z.pos (Pos.iter xO m d) = Z.pos m * 2 ^ Z.pos d.
Proof.
  induction d as [|d IH] using Pos.peano_ind.
  - simpl. lia.
  - rewrite Pos.iter_succ, Pos2Z.inj_xO, IH, Pos2Z.inj_succ, Z.pow_succ_r by lia. lia.
Qed.

Lemma shl_align_fst m e e' :
  e' <= e -> Z.pos (fst (shl_align m e e')) = Z.pos m * 2 ^ (e - e').
Proof.
  intros He. unfold shl_align.
  destruct (e' - e) as [|d|d] eqn:Hd; simpl.
  - replace (e - e') with 0 by lia. lia.
  - lia.
  - rewrite iter_xO. f_equal. f_equal. lia.
Qed.

Lemma shl_align_snd m e e' : emin <= e -> emin <= e' -> emin <= snd (shl_align m e e').
Proof. intros He He'. unfold shl_align. by destruct (e' - e). Qed.

Lemma binary_round_scaled s m e : scaled (binary_round Number.prec Number.emax s m e).
Proof.
  unfold binary_round. destruct (shl_align m e _) as [mz ez].
  apply binary_round_aux_scaled.
Qed.

Lemma binary_normalize_scaled m e szero :
  scaled (binary_normalize Number.prec Number.emax m e szero).
Proof. destruct m; simpl; [done|apply binary_round_scaled|apply binary_round_scaled]. Qed.

Lemma binary_round_positive m e :
  emin <= e -> Number.positive (binary_round Number.prec Number.emax false m e) = true.
Proof.
  intros He. unfold binary_round.
  pose proof (shl_align_snd m e (fexp Number.prec Number.emax (Z.pos (digits2_pos m) + e))
                He (fexp_ge_emin _)) as Hs.
  destruct (shl_align m e _) as [mz ez]. simpl in Hs.
  apply binary_round_aux_positive; [lia|done].
Qed.

(** The sign of a rounded multiple of a power of two not below the unit
    is the sign of the multiple. *)
Lemma binary_normalize_positive_iff m e szero :
  emin <= e ->
  Number.positive (binary_normalize Number.prec Number.emax m e szero) = true <-> 0 < m.
Proof.
  intros He. split; [apply binary_normalize_positive|].
  destruct m as [|p|p]; [lia| |lia]. intros _. simpl. by apply binary_round_positive.
Qed.

Lemma units_aligned s m e ez :
  emin <= ez -> ez <= e ->
  cond_Zopp s (Z.pos (fst (shl_align m e ez))) * 2 ^ (ez - emin)
  = units (S754_finite s m e).
Proof.
  intros H1 H2. rewrite shl_align_fst by done. simpl.
  replace (e - emin) with ((e - ez) + (ez - emin)) by lia.
  rewrite Z.pow_add_r by lia. destruct s; simpl; lia.
Qed.

Lemma units_sign s m e :
  emin <= e ->
  (s = true -> units (S754_finite s m e) < 0)
  /\ (s = false -> 0 < units (S754_finite s m e)).
Proof.
  intros He. simpl. assert (0 < 2 ^ (e - emin)) by (apply Z.pow_pos_nonneg; lia).
  split; intros ->; simpl; lia.
Qed.

(** On doubles that are multiples of the unit, the comparator's answer is
    positive exactly when the value it subtracts is the smaller one. *)
Lemma sub_positive_units x y :
  scaled x -> scaled y ->
  match x, y with
  | (S754_zero _ | S754_finite _ _ _), (S754_zero _ | S754_finite _ _ _) =>
      Number.positive (Number.sub y x) = true <-> units x < units y
  | _, _ => True
  end.
Proof.
  intros Hx Hy.
  destruct x as [sx|sx| |sx mx ex], y as [sy|sy| |sy my ey]; try done.
  - split; [by destruct sx, sy|simpl; lia].
  - simpl in Hy. destruct (units_sign sy my ey Hy) as [Hneg Hpos].
    change (units (S754_zero sx)) with 0.
    destruct sy; [split; [done|specialize (Hneg eq_refl); lia]|].
    split; [intros _; by apply Hpos|done].
  - simpl in Hx. destruct (units_sign sx mx ex Hx) as [Hneg Hpos].
    change (units (S754_zero sy)) with 0.
    destruct sx; [split; [intros _; by apply Hneg|done]|].
    split; [done|specialize (Hpos eq_refl); lia].
  - simpl in Hx, Hy. unfold Number.sub, SFsub.
    assert (Hez : emin <= Z.min ey ex) by lia.
    rewrite (binary_normalize_positive_iff _ _ _ Hez).
    rewrite <- (units_aligned sx mx ex (Z.min ey ex)) by lia.
    rewrite <- (units_aligned sy my ey (Z.min ey ex)) by lia.
    assert (0 < 2 ^ (Z.min ey ex - emin)) by (apply Z.pow_pos_nonneg; lia).
    nia.
Qed.

(** What the comparator does not rank strictly before is not above. *)
Lemma comparator_le x y :
  scaled x -> scaled y -> x <> S754_nan -> y <> S754_nan ->
  Number.positive (Number.sub y x) = false -> le y x.
Proof.
  intros Hx Hy Hnx Hny Hp. pose proof (sub_positive_units x y Hx Hy) as H.
  assert (Hfin : (Number.positive (Number.sub y x) = true <-> units x < units y) ->
                 units y <= units x).
  { intros [_ Hlt]. destruct (Z.le_gt_cases (units y) (units x)) as [|Hgt]; [done|].
    rewrite (Hlt Hgt) in Hp. done. }
  destruct x as [sx|sx| |sx mx ex], y as [sy|sy| |sy my ey]; try done;
    try (by apply Hfin);
    try (by destruct sx); try (by destruct sy); by destruct sx, sy.
Qed.

Lemma value_le_trans x y z : le x y -> le y z -> le x z.
Proof.
  unfold le.
  destruct x as [sx|[]| |sx mx ex], y as [sy|[]| |sy my ey], z as [sz|[]| |sz mz ez];
    try done; lia.
Qed.

Lemma geb_not_nan x y : Number.geb x y = true -> x <> S754_nan.
Proof. intros H ->. by destruct y. Qed.

Lemma mul_scaled x y : scaled (Number.mul x y).
Proof.
  destruct x as [sx|sx| |sx mx ex], y as [sy|sy| |sy my ey]; try done.
  apply binary_round_aux_scaled.
Qed.

Lemma add_scaled x y : scaled x -> scaled y -> scaled (Number.add x y).
Proof.
  intros Hx Hy.
  destruct x as [sx|sx| |sx mx ex], y as [sy|sy| |sy my ey]; try done;
    try (by destruct sx, sy).
  apply binary_normalize_scaled.
Qed.

End ValueFacts.

Section OrderFacts64.
Import NumberValue.
Implicit Types (r : HybridSearch.SearchResult) (l : list HybridSearch.SearchResult).

Lemma inComparatorOrder_descending l :
  Forall (fun r => scaled (HybridSearch.hr_score r)
                   /\ HybridSearch.hr_score r <> S754_nan) l ->
  inComparatorOrder l -> descendingValues l.
Proof.
  unfold descendingValues. induction l as [|a l IH]; intros Hall Hord; [constructor|].
  apply Forall_cons in Hall as [[Ha Hna] Hall].
  assert (Htail : inComparatorOrder l) by (destruct l; [done|by destruct Hord]).
  specialize (IH Hall Htail). constructor; [exact IH|].
  destruct l as [|b l']; [constructor|].
  destruct Hord as [Hab _].
  pose proof Hall as Hall'. apply Forall_cons in Hall' as [[Hb Hnb] _].
  assert (Hba : le (HybridSearch.hr_score b) (HybridSearch.hr_score a))
    by by apply comparator_le.
  constructor; [exact Hba|].
  apply StronglySorted_inv in IH as [_ Hrest].
  eapply List.Forall_impl; [|exact Hrest]. intros c Hc. simpl in Hc.
  by eapply value_le_trans.
Qed.

Lemma weightedUnion64_scaled w sem kws r :
  r ∈ weightedUnion64 w sem kws -> scaled (HybridSearch.hr_score r).
Proof.
  unfold weightedUnion64. intros (id & _ & H)%list_elem_of_omap.
  unfold weightedResult in H.
  destruct (lastFor id sem) as [s|], (firstFor id kws) as [k|]; [| | |done];
    injection H as <-; simpl.
  - apply add_scaled; apply mul_scaled.
  - apply mul_scaled.
  - apply mul_scaled.
Qed.

Lemma descendingValues_take k l : descendingValues l -> descendingValues (take k l).
Proof.
  unfold descendingValues. revert k. induction l as [|x l IH]; intros k Hs.
  - by destruct k.
  - destruct k as [|k]; simpl; [constructor|].
    apply StronglySorted_inv in Hs as [Hs Hx]. constructor; [by apply IH|].
    apply List.Forall_forall. intros z Hz. rewrite List.Forall_forall in Hx.
    apply Hx. apply list_elem_of_In. apply list_elem_of_In in Hz.
    by eapply take_elem.
Qed.

End OrderFacts64.

(** ** Hybrid search in double precision *)

Section SearchFacts64.
Variable generateEmbedding : string -> option (list Q).
Variable voySearch : list VoyEntry -> list Q -> nat -> list HybridSearch.Neighbor.
Variable flexSearch : list PunkDocument -> string -> nat -> option (list (list PunkDocument)).

Abbreviation semSearch64 := (HybridSearch.semanticSearch generateEmbedding voySearch).
Abbreviation kwSearch64 := (HybridSearch.keywordSearch flexSearch).
Abbreviation search64 := (HybridSearch.search generateEmbedding voySearch flexSearch).

Lemma keywordSearch64_NoDup st query limit :
  NoDup (map idOf64 (fst (kwSearch64 st query limit))).
Proof.
  unfold HybridSearch.keywordSearch.
  destruct (flexSearch _ query limit) as [fields|]; simpl; [|apply NoDup_nil_2].
  pose proof (fold_keywordStep64_NoDup (concat fields) [] (NoDup_nil_2)) as Hnd.
  change (map idOf64) with (fmap (M:=list) idOf64). rewrite fmap_take.
  exact (sublist_NoDup _ _ Hnd (sublist_take _ _)).
Qed.

(** C3, amended: in hybrid mode (the default) [search] returns the
    weighted union of [semanticSearch (query, 2*limit)] and
    [keywordSearch (query, 2*limit)] by document id: a document found by
    both gets [semanticScore * semanticWeight + keywordScore *
    (1 - semanticWeight)], one found by a single search gets that
    search's weighted score, all of it computed in doubles; every entry
    is tagged [hybrid]; the entries whose score is not at least the
    threshold are removed; the others, all of them, are sorted by the
    comparator [b.score - a.score], which puts their scores in descending
    order of value, and the first [limit] of them are returned. When one
    sub-search returns nothing, the other's documents go through with
    their single weighted score, whatever that score is. *)
Theorem hybrid_search_is_ranked_weighted_union
    (st : PunkRecords.State) (query : string)
    (limit0 : option nat) (threshold0 weight0 : option Number.t) (explicitMode : bool) :
  let options :=
    HybridSearch.mkOptions limit0 threshold0 (if explicitMode then Some hybrid else None)
                           weight0 in
  let limit := default 10 limit0 in
  let threshold := default Number.zero threshold0 in
  let w := default Number.seven_tenths weight0 in
  let sem := fst (semSearch64 st query (limit * 2)) in
  let st1 := snd (semSearch64 st query (limit * 2)) in
  let kws := fst (kwSearch64 st1 query (limit * 2)) in
  let results := fst (search64 st query options) in
  let passing :=
    List.filter (fun r => Number.geb (HybridSearch.hr_score r) threshold)
                (weightedUnion64 w sem kws) in
  let sorted := HybridSearch.sortDesc passing in
  results = take limit sorted
  /\ sorted ≡ₚ passing
  /\ descendingValues sorted
  /\ inComparatorOrder sorted
  /\ Forall (fun r => HybridSearch.hr_matchType r = hybrid) results
  /\ Forall (fun r => Number.geb (HybridSearch.hr_score r) threshold = true) results
  /\ descendingValues results
  /\ length results <= limit
  /\ NoDup (map idOf64 kws)
  /\ (NoDup (map idOf64 sem) -> distinctLast sem = sem)
  /\ (sem = [] ->
      results = HybridSearch.rank threshold limit
                  (map (HybridSearch.weigh (Number.sub Number.one w)) kws))
  /\ (kws = [] ->
      results = HybridSearch.rank threshold limit
                  (map (HybridSearch.weigh w) (distinctLast sem))).
Proof.
  intros options limit threshold w sem st1 kws results passing sorted.
  pose proof (keywordSearch64_NoDup st1 query (limit * 2)) as Hkw. fold kws in Hkw.
  assert (Hres : results = HybridSearch.rank threshold limit (weightedUnion64 w sem kws)).
  { subst results sem st1 kws options. unfold HybridSearch.search.
    cbn [HybridSearch.ho_limit HybridSearch.ho_threshold HybridSearch.ho_searchMode
         HybridSearch.ho_semanticWeight].
    assert (Hmode : default hybrid (if explicitMode then Some hybrid else None) = hybrid)
      by by destruct explicitMode.
    rewrite Hmode. fold limit threshold w.
    destruct (semSearch64 st query (limit * 2)) as [sem' st1']. cbn [fst snd] in *.
    destruct (kwSearch64 st1' query (limit * 2)) as [kws' st2']. cbn [fst snd] in *.
    by rewrite combine_weightedUnion64. }
  assert (Hperm : sorted ≡ₚ passing) by apply sortDesc64_Permutation.
  assert (Hord : inComparatorOrder sorted) by apply sortDesc64_order.
  assert (Hdesc : descendingValues sorted).
  { apply inComparatorOrder_descending; [|exact Hord].
    apply List.Forall_forall. intros r Hr. apply list_elem_of_In in Hr.
    rewrite Hperm in Hr. apply list_elem_of_In, filter_In in Hr as [Hin Hth].
    split; [eapply weightedUnion64_scaled; by apply list_elem_of_In|].
    by eapply geb_not_nan. }
  split; [exact Hres|]. split; [exact Hperm|]. split; [exact Hdesc|]. split; [exact Hord|].
  rewrite Hres.
  split. { apply rank64_Forall. intros r Hr _. by eapply weightedUnion64_hybrid. }
  split. { by apply rank64_Forall. }
  split. { by apply descendingValues_take. }
  split. { unfold HybridSearch.rank. rewrite length_take. lia. }
  split; [exact Hkw|].
  split; [apply distinctLast_NoDup|].
  split.
  - intros ->. by rewrite weightedUnion64_no_semantic.
  - intros ->. by rewrite weightedUnion64_no_keyword.
Qed.

End SearchFacts64.

(** C3 as the claim has it fails: with [semanticWeight = 1] and a semantic
    search that returns nothing, the keyword match is returned, tagged
    [hybrid], with the weighted score zero. *)
Lemma keyword_only_hit_can_score_zero :
  exists r,
    fst (HybridSearch.semanticSearch failingEmbedding firstEntries64 errorCodeStore
           "XK7-error-code-9981" 20) = []
    /\ fst (HybridSearch.search failingEmbedding firstEntries64 matchAll errorCodeStore
              "XK7-error-code-9981"
              (HybridSearch.mkOptions None None None (Some Number.one))) = [r]
    /\ idOf64 r = "doc-1"
    /\ HybridSearch.hr_matchType r = hybrid
    /\ HybridSearch.hr_score r = Number.zero.
Proof.
  eexists. split; [reflexivity|]. split; [by vm_compute|]. by vm_compute.
Qed.

(** The default weight is the double nearest to seven tenths. *)
Example seven_tenths_is_the_literal :
  Number.seven_tenths = Number.div (Number.ofZ 7) (Number.ofZ 10).
Proof. by vm_compute. Qed.

(** Two notes, the second one in the vector index: it scores
    [0.75 * 0.7 + 0.5 * (1 - 0.7)], the first [1 * (1 - 0.7)], both as
    doubles. *)
Example two_notes_ranked :
  map (fun r => (idOf64 r, HybridSearch.hr_score r))
      (fst (HybridSearch.search constantEmbedding firstEntries64 matchAll twoNotes "note"
              (HybridSearch.mkOptions None None None None)))
  = [("doc-2", S754_finite false 6079859496950169 (-53));
     ("doc-1", S754_finite false 5404319552844596 (-54))].
Proof. by vm_compute. Qed.

(** The two notes: the scores come out in descending order of value. *)
Example two_notes_descending :
  descendingValues
    (fst (HybridSearch.search constantEmbedding firstEntries64 matchAll twoNotes "note"
            (HybridSearch.mkOptions None None None None))).
Proof.
  unfold descendingValues.
  set (l := fst _). vm_compute in l. subst l.
  constructor; [constructor; [constructor|constructor]|].
  constructor; [|constructor]. cbv [HybridSearch.hr_score NumberValue.le].
  vm_compute. discriminate.
Qed.

(** Rounding decides at the threshold: at weight 0.9 the single keyword
    hit scores [1 * (1 - 0.9)], which as a double is below [0.1], and is
    removed by the threshold [0.1]. *)
Example rounding_decides_at_the_threshold :
  Number.geb (Number.mul Number.one (Number.sub Number.one nine_tenths)) one_tenth = false
  /\ fst (HybridSearch.search failingEmbedding firstEntries64 matchAll errorCodeStore
            "XK7-error-code-9981"
            (HybridSearch.mkOptions None (Some one_tenth) None (Some nine_tenths))) = [].
Proof. by vm_compute. Qed.

(* ===================================================================== *)
(** * Further properties *)
(* ===================================================================== *)

(** ** [getReadyTasks] once more *)

Section ReadyAgain.
Implicit Types (m : JSMap.t DAGNode) (n : DAGNode) (id : string).
Local Arguments Shaka.readyStep : simpl never.

Lemma promotedFrom_refl m : promotedFrom m m.
Proof. intros id. destruct (JSMap.get m id); auto. Qed.

Lemma forallb_pointwise {A} (f g : A -> bool) (l : list A) :
  (forall x, f x = g x) -> forallb f l = forallb g l.
Proof. intros H. induction l as [|x l IH]; simpl; [done|]. by rewrite H, IH. Qed.

Lemma promotedFrom_allDeps m m' n :
  promotedFrom m m' -> Shaka.allDepsComplete m' n = Shaka.allDepsComplete m n.
Proof.
  intros H. unfold Shaka.allDepsComplete. apply forallb_pointwise. intros d.
  specialize (H d).
  destruct (JSMap.get m d) as [x|], (JSMap.get m' d) as [x'|]; try done.
  destruct H as [->|(Hs & _ & ->)]; [done|]. simpl. by rewrite Hs.
Qed.

Lemma promotedFrom_step m id n :
  JSMap.get m id = Some n -> n_status n = pending -> Shaka.allDepsComplete m n = true ->
  promotedFrom m (JSMap.update id (set_status ready) m).
Proof.
  intros Hg Hs Hall i. destruct (decide (i = id)) as [->|Hne].
  - rewrite get_update_eq, Hg. simpl. by right.
  - rewrite get_update_ne by done. destruct (JSMap.get m i); auto.
Qed.

Lemma promotedFrom_trans m1 m2 m3 :
  promotedFrom m1 m2 -> promotedFrom m2 m3 -> promotedFrom m1 m3.
Proof.
  intros H12 H23 id. pose proof (H12 id) as H1. pose proof (H23 id) as H2.
  destruct (JSMap.get m1 id) as [n1|], (JSMap.get m2 id) as [n2|],
    (JSMap.get m3 id) as [n3|]; try done.
  destruct H1 as [->|(Hs & Hall & ->)].
  - destruct H2 as [->|(Hs' & Hall' & ->)]; [by left|]. right.
    by rewrite <- (promotedFrom_allDeps m1 m2).
  - destruct H2 as [->|(Hs' & _)]; [by right|]. simpl in Hs'. done.
Qed.

Lemma eligible_promotedFrom m m' id :
  promotedFrom m m' -> eligible m' id = eligible m id.
Proof.
  intros H. unfold eligible. pose proof (H id) as Hid.
  destruct (JSMap.get m id) as [n|], (JSMap.get m' id) as [n'|]; try done.
  destruct Hid as [->|(Hs & Hall & ->)].
  - destruct (n_status n); try done. by apply promotedFrom_allDeps.
  - simpl. by rewrite Hs, Hall.
Qed.

Lemma readyStep_char rdy m k :
  exists m1,
    Shaka.readyStep (rdy, m) k = (if eligible m k then rdy ++ [k] else rdy, m1)
    /\ promotedFrom m m1
    /\ (forall n1, JSMap.get m1 k = Some n1 -> n_status n1 = pending ->
          Shaka.allDepsComplete m n1 = false).
Proof.
  unfold Shaka.readyStep, eligible.
  destruct (JSMap.get m k) as [node|] eqn:Hg.
  2:{ exists m. split; [done|]. split; [apply promotedFrom_refl|]. by rewrite Hg. }
  destruct (n_status node) eqn:Hs;
    try (exists m; split; [done|]; split; [apply promotedFrom_refl|];
         intros n1; rewrite Hg; intros [= <-]; congruence).
  destruct (Shaka.allDepsComplete m node) eqn:Hall.
  - eexists. split; [done|]. split; [by eapply promotedFrom_step|].
    intros n1. rewrite get_update_eq, Hg. simpl. by intros [= <-].
  - exists m. split; [done|]. split; [apply promotedFrom_refl|].
    intros n1. rewrite Hg. by intros [= <-].
Qed.

(** What one pass of the [forEach] does. *)
Lemma fold_readyStep_char ks rdy m :
  let r := fold_left Shaka.readyStep ks (rdy, m) in
  fst r = rdy ++ List.filter (eligible m) ks
  /\ promotedFrom m (snd r)
  /\ (forall id n', id ∈ ks -> JSMap.get (snd r) id = Some n' ->
        n_status n' = pending -> Shaka.allDepsComplete (snd r) n' = false).
Proof.
  revert rdy m. induction ks as [|k ks IH]; intros rdy m; simpl.
  - rewrite app_nil_r. split; [done|]. split; [apply promotedFrom_refl|].
    intros id n' Hin. by apply elem_of_nil in Hin.
  - destruct (readyStep_char rdy m k) as (m1 & -> & Hp1 & Hk).
    destruct (IH (if eligible m k then rdy ++ [k] else rdy) m1) as (Hfst & Hp & Hblocked).
    set (r := fold_left Shaka.readyStep ks _) in *.
    assert (Hpr : promotedFrom m (snd r)) by by eapply promotedFrom_trans.
    split; [|split; [done|]].
    + rewrite Hfst.
      rewrite (filter_ext (eligible m1) (eligible m))
        by (intros id; by apply eligible_promotedFrom).
      destruct (eligible m k); [by rewrite <- app_assoc|done].
    + intros id n' Hin Hg Hs. apply elem_of_cons in Hin as [->|Hin]; [|by eapply Hblocked].
      pose proof (Hp k) as Hkk. rewrite Hg in Hkk.
      destruct (JSMap.get m1 k) as [n1|] eqn:Hg1; [|done].
      destruct Hkk as [->|(_ & _ & ->)]; [|done].
      rewrite (promotedFrom_allDeps m (snd r)) by done. by apply Hk.
Qed.

Lemma fold_readyStep_again ks rdy m :
  (forall id n', id ∈ ks -> JSMap.get m id = Some n' ->
        n_status n' = pending -> Shaka.allDepsComplete m n' = false) ->
  snd (fold_left Shaka.readyStep ks (rdy, m)) = m.
Proof.
  revert rdy. induction ks as [|k ks IH]; intros rdy H; simpl; [done|].
  assert (Hstep : snd (Shaka.readyStep (rdy, m) k) = m).
  { unfold Shaka.readyStep. destruct (JSMap.get m k) as [node|] eqn:Hg; [|done].
    destruct (n_status node) eqn:Hs; try done.
    rewrite (H k node); [done|apply list_elem_of_here|done|done]. }
  destruct (Shaka.readyStep (rdy, m) k) as [rdy1 m1]. simpl in Hstep. subst m1.
  apply IH. intros id n' Hin. apply H. by apply list_elem_of_further.
Qed.

Lemma keys_promotedFrom m m' : promotedFrom m m' -> forall id, id ∈ JSMap.keys m' <-> id ∈ JSMap.keys m.
Proof.
  intros H id. specialize (H id).
  destruct (JSMap.get m id) as [n|] eqn:Hg, (JSMap.get m' id) as [n'|] eqn:Hg'; try done.
  - split; intros _; by eapply get_Some_keys.
  - apply get_None_keys in Hg, Hg'. done.
Qed.

(** X1: [getReadyTasks] answers the nodes that are [ready] or are
    [pending] with every dependency [completed], in key order, and leaves
    each of them [ready] in the graph; asking again at once gives the
    same answer and changes nothing more. *)
Theorem getReadyTasks_twice (dag : TaskDAG) :
  let '(rdy, dag1) := Shaka.getReadyTasks dag in
  rdy = List.filter (eligible (nodes dag)) (JSMap.keys (nodes dag))
  /\ Shaka.getReadyTasks dag1 = (rdy, dag1)
  /\ Forall (fun id => exists n, JSMap.get (nodes dag1) id = Some n /\ n_status n = ready) rdy.
Proof.
  unfold Shaka.getReadyTasks, Shaka.getReadyNodes.
  destruct (fold_readyStep_char (JSMap.keys (nodes dag)) [] (nodes dag)) as (Hfst & Hp & Hb).
  destruct (getReadyNodes_evolves (nodes dag)) as [Hkeys _].
  unfold Shaka.getReadyNodes in Hkeys.
  destruct (fold_left Shaka.readyStep (JSMap.keys (nodes dag)) ([], nodes dag))
    as [rdy m1] eqn:E. simpl in *.
  split; [done|]. split.
  - rewrite Hkeys.
    destruct (fold_readyStep_char (JSMap.keys (nodes dag)) [] m1) as (Hfst2 & _ & _).
    pose proof (fold_readyStep_again (JSMap.keys (nodes dag)) [] m1 Hb) as Hsnd2.
    destruct (fold_left Shaka.readyStep (JSMap.keys (nodes dag)) ([], m1)) as [rdy2 m2].
    simpl in *. subst m2. f_equal. rewrite Hfst2, Hfst. simpl.
    apply filter_ext. intros id. by apply eligible_promotedFrom.
  - apply List.Forall_forall. intros id Hin. apply list_elem_of_In in Hin.
    rewrite Hfst in Hin. simpl in Hin. apply list_elem_of_In, filter_In in Hin as [Hin He].
    apply list_elem_of_In in Hin.
    rewrite <- (eligible_promotedFrom (nodes dag) m1) in He by done.
    unfold eligible in He. destruct (JSMap.get m1 id) as [n|] eqn:Hg; [|done].
    exists n. split; [done|]. destruct (n_status n) eqn:Hs; try done.
    by rewrite (Hb id n Hin Hg Hs) in He.
Qed.
End ReadyAgain.

(** ** No node runs twice *)

Section OnceFacts.
Variable execute : nat -> string -> SatelliteTask -> SatelliteResult.
Variable settle : nat -> list nat.
Implicit Types (m : JSMap.t DAGNode) (n : DAGNode) (id : string).

Lemma evolves_unsettled m m' id n' :
  evolves m m' -> JSMap.get m' id = Some n' -> isSettled n' = false ->
  exists n, JSMap.get m id = Some n /\ isSettled n = false.
Proof.
  intros Hev Hg' Hs'. pose proof Hev as [_ He].
  destruct (He id n' Hg') as (n & Hg & _). exists n. split; [done|].
  destruct (isSettled n) eqn:Hs; [|done].
  destruct (evolves_settled m m' id n Hev Hg Hs) as (n0 & Hg0 & Hs0). congruence.
Qed.

(** What a batch dispatches was not settled before and is settled after. *)
Lemma iteration_dispatches batch tasks dag ds dag1 :
  NoDup (JSMap.keys (nodes dag)) ->
  AgentMesh.iteration execute settle batch tasks dag = AgentMesh.Batch ds dag1 ->
  NoDup (map AgentMesh.d_node ds)
  /\ (forall id, id ∈ map AgentMesh.d_node ds ->
        (exists n, JSMap.get (nodes dag) id = Some n /\ isSettled n = false)
        /\ (exists n1, JSMap.get (nodes dag1) id = Some n1 /\ isSettled n1 = true)).
Proof.
  intros Hnd. unfold AgentMesh.iteration.
  destruct (Shaka.isDAGComplete dag); [done|].
  unfold Shaka.getReadyTasks.
  pose proof (getReadyNodes_evolves (nodes dag)) as Hev0.
  pose proof (getReadyNodes_ready (nodes dag) Hnd) as [Hnd0 Hrdy0].
  destruct (Shaka.getReadyNodes (nodes dag)) as [rdy m1]. simpl in *.
  destruct rdy as [|r0 rdy]; [done|].
  pose proof (startExecutions_spec execute batch tasks (r0 :: rdy) m1 Hnd0 Hrdy0) as Hst.
  destruct (AgentMesh.startExecutions execute batch tasks (r0 :: rdy) m1) as [ds' m2].
  simpl in Hst. destruct Hst as (Hev1 & _ & Hsub & Hrun & _).
  intros [= <- <-]. simpl.
  set (l := map (fun d => (AgentMesh.d_node d, AgentMesh.d_result d)) ds').
  assert (Hfst : l.*1 = map AgentMesh.d_node ds').
  { unfold l. rewrite <- list_fmap_compose. done. }
  assert (Hndl : NoDup (map AgentMesh.d_node ds')) by exact (sublist_NoDup _ _ Hnd0 Hsub).
  split; [done|]. intros id Hin. split.
  - destruct (Hrdy0 id) as (n1 & Hg1 & Hs1); [by eapply elem_of_sublist|].
    apply (evolves_unsettled _ _ _ _ Hev0 Hg1). unfold isSettled. by rewrite Hs1.
  - apply settleExecutions_settles.
    + by rewrite (reorder_Permutation (settle batch) l), Hfst.
    + intros x Hx. apply Hrun. rewrite <- Hfst.
      by rewrite (reorder_Permutation (settle batch) l) in Hx.
    + by rewrite (reorder_Permutation (settle batch) l), Hfst.
Qed.

Lemma dispatchTrace_unsettled k batch tasks dag :
  NoDup (JSMap.keys (nodes dag)) ->
  NoDup (AgentMesh.dispatchTrace execute settle k batch tasks dag)
  /\ forall id, id ∈ AgentMesh.dispatchTrace execute settle k batch tasks dag ->
       exists n, JSMap.get (nodes dag) id = Some n /\ isSettled n = false.
Proof.
  revert batch dag. induction k as [|k IH]; intros batch dag Hnd; simpl.
  - split; [apply NoDup_nil_2|]. intros id Hin. by apply elem_of_nil in Hin.
  - destruct (AgentMesh.iteration execute settle batch tasks dag) as [|dag1|ds dag1] eqn:Hit.
    1,2: split; [apply NoDup_nil_2|]; intros id Hin; by apply elem_of_nil in Hin.
    destruct (iteration_Batch execute settle _ _ _ _ _ Hnd Hit) as [Hev _].
    destruct (iteration_keys execute settle _ _ _ _ _ Hnd Hit) as [Hnd1 _].
    destruct (iteration_dispatches _ _ _ _ _ Hnd Hit) as [Hndds Hds].
    destruct (IH (S batch) dag1 Hnd1) as [Hndk Hk].
    split.
    + apply NoDup_app. split; [done|]. split; [|done].
      intros id Hin Hin'. destruct (Hds id Hin) as [_ (n1 & Hg1 & Hs1)].
      destruct (Hk id Hin') as (n1' & Hg1' & Hs1'). congruence.
    + intros id Hin. apply elem_of_app in Hin as [Hin|Hin].
      * by destruct (Hds id Hin).
      * destruct (Hk id Hin) as (n1 & Hg1 & Hs1). by eapply evolves_unsettled.
Qed.

(** The results of the loop are those of the trace. *)
Lemma executeLoop_trace fuel batch tasks dag results results' dag' :
  AgentMesh.executeLoop execute settle fuel batch tasks dag results = Some (results', dag') ->
  length results' = length results
                    + length (AgentMesh.dispatchTrace execute settle fuel batch tasks dag).
Proof.
  revert batch dag results. induction fuel as [|fuel IH]; intros batch dag results; simpl;
    [done|].
  destruct (AgentMesh.iteration execute settle batch tasks dag) as [|dag1|ds dag1] eqn:Hit.
  - intros [= <- <-]. simpl. lia.
  - intros [= <- <-]. simpl. lia.
  - intros H. apply IH in H. rewrite H, !length_app, !length_map. lia.
Qed.

End OnceFacts.

Lemma NoDup_incl_length_keys (l : list string) (m : JSMap.t DAGNode) :
  NoDup l -> (forall id, id ∈ l -> exists n, JSMap.get m id = Some n) ->
  length l <= JSMap.size m.
Proof.
  intros Hnd Hin. unfold JSMap.size. rewrite <- (length_map fst m).
  apply submseteq_length, NoDup_submseteq; [done|].
  intros id Hid. destruct (Hin id Hid) as (n & Hg). by eapply get_Some_keys.
Qed.


(** ** The graph [buildDAG] returns *)

Section BuildMore.
Implicit Types (m : JSMap.t DAGNode) (n : DAGNode) (id : string).
Local Arguments Shaka.classify : simpl never.
Local Arguments Shaka.linkDependency : simpl never.
Local Arguments Shaka.nodeId : simpl never.

Lemma nodeId_inj i j : Shaka.nodeId i = Shaka.nodeId j -> i = j.
Proof. unfold Shaka.nodeId. intros H. apply (inj _) in H. by apply (inj pretty). Qed.

Lemma nodeId_nonempty i : Shaka.nodeId i <> "".
Proof. done. Qed.

Lemma get_update_if {V} (m : JSMap.t V) k f x :
  JSMap.get (JSMap.update k f m) x
  = (fun v => if String.eqb k x then f v else v) <$> JSMap.get m x.
Proof.
  destruct (String.eqb_spec k x) as [->|Hne].
  - apply get_update_eq.
  - rewrite get_update_ne by done. by destruct (JSMap.get m x).
Qed.

Lemma get_snoc_fresh {V} (m : JSMap.t V) k v x :
  k ∉ JSMap.keys m ->
  JSMap.get (m ++ [(k, v)]) x = if String.eqb k x then Some v else JSMap.get m x.
Proof.
  intros Hk. rewrite <- (keys_set_fresh m k v Hk).
  destruct (String.eqb_spec k x) as [->|Hne]; [apply get_set_eq | by apply get_set_ne].
Qed.

(** The first loop: node [index + j] for the [j]-th task. *)
Lemma createNodes_char tasks index m d :
  JSMap.keys m = map Shaka.nodeId (seq 0 index) ->
  let r := Shaka.createNodes tasks index (m, d) in
  fst r = m ++ imap (fun j t => (Shaka.nodeId (index + j),
                                 mkNode (Shaka.nodeId (index + j)) "" (p_satellite t)
                                        pending [] [] None)) tasks
  /\ forall desc, JSMap.get (snd r) desc
                  = match lastWith desc tasks index with
                    | Some j => Some (Shaka.nodeId j)
                    | None => JSMap.get d desc
                    end.
Proof.
  revert index m d. induction tasks as [|t tasks IH]; intros index m d Hk; simpl.
  - by rewrite app_nil_r.
  - assert (Hfresh : Shaka.nodeId index ∉ JSMap.keys m).
    { rewrite Hk. intros Hin. apply list_elem_of_fmap in Hin as (j & Hj & Hin).
      apply nodeId_inj in Hj. subst j. apply elem_of_seq in Hin. lia. }
    rewrite keys_set_fresh by done.
    destruct (IH (S index) (m ++ [(Shaka.nodeId index,
                 mkNode (Shaka.nodeId index) "" (p_satellite t) pending [] [] None)])
                (JSMap.set (p_description t) (Shaka.nodeId index) d)) as [Hfst Hsnd].
    { unfold JSMap.keys in *. by rewrite seq_S, !map_app, Hk. }
    split.
    + rewrite Hfst, <- app_assoc. simpl. rewrite Nat.add_0_r. f_equal. f_equal.
      apply imap_ext. intros j x _. simpl. by rewrite Nat.add_succ_r.
    + intros desc. rewrite Hsnd. destruct (lastWith desc tasks (S index)); [done|].
      destruct (String.eqb_spec (p_description t) desc) as [->|Hne].
      * apply get_set_eq.
      * by apply get_set_ne.
Qed.

Lemma addEdges_nil x n : addEdges [] x n = n.
Proof. destruct n. unfold addEdges, outOf, intoOf. simpl. by rewrite !app_nil_r. Qed.

Lemma addEdges_app E1 E2 x n : addEdges E2 x (addEdges E1 x n) = addEdges (E1 ++ E2) x n.
Proof.
  unfold addEdges, outOf, intoOf. simpl.
  by rewrite !List.filter_app, !map_app, !app_assoc.
Qed.

Lemma linkedBy_refl m : linkedBy [] m m.
Proof. intros x. destruct (JSMap.get m x); simpl; [|done]. by rewrite addEdges_nil. Qed.

Lemma linkedBy_trans E1 E2 m1 m2 m3 :
  linkedBy E1 m1 m2 -> linkedBy E2 m2 m3 -> linkedBy (E1 ++ E2) m1 m3.
Proof.
  intros H1 H2 x. rewrite H2, H1. destruct (JSMap.get m1 x); simpl; [|done].
  by rewrite addEdges_app.
Qed.

Lemma linkDependency_linkedBy descToId id m dep :
  linkedBy (match JSMap.get descToId dep with
            | Some d => if String.eqb d "" then [] else [(id, d)]
            | None => []
            end) m (Shaka.linkDependency descToId id m dep).
Proof.
  unfold Shaka.linkDependency.
  destruct (JSMap.get descToId dep) as [d|]; [|apply linkedBy_refl].
  destruct (String.eqb d ""); [apply linkedBy_refl|].
  intros x. rewrite !get_update_if. destruct (JSMap.get m x) as [n|]; simpl; [|done].
  f_equal. unfold addEdges, outOf, intoOf. simpl.
  destruct (String.eqb id x), (String.eqb d x); destruct n; simpl;
    by rewrite ?app_nil_r.
Qed.

Lemma fold_linkDependency_linkedBy descToId id deps m :
  linkedBy (map (fun d => (id, d)) (omap (viaTable descToId) deps)) m
           (fold_left (Shaka.linkDependency descToId id) deps m).
Proof.
  revert m. induction deps as [|dep deps IH]; intros m; simpl; [apply linkedBy_refl|].
  pose proof (linkDependency_linkedBy descToId id m dep) as H1.
  pose proof (IH (Shaka.linkDependency descToId id m dep)) as H2.
  pose proof (linkedBy_trans _ _ _ _ _ H1 H2) as H.
  unfold viaTable at 1.
  destruct (JSMap.get descToId dep) as [d|]; [|exact H].
  destruct (String.eqb d ""); exact H.
Qed.

Lemma omap_pointwise {A B} (f g : A -> option B) (l : list A) :
  (forall x, f x = g x) -> omap f l = omap g l.
Proof. intros H. induction l as [|x l IH]; csimpl; [done|]. by rewrite H, IH. Qed.

Lemma linkNodes_linkedBy descToId all tasks index m :
  (forall desc, viaTable descToId desc = resolve all desc) ->
  linkedBy (edgesFrom tasks all index) m (Shaka.linkNodes descToId tasks index m).
Proof.
  intros Hres. revert index m.
  induction tasks as [|t tasks IH]; intros index m; simpl; [apply linkedBy_refl|].
  eapply linkedBy_trans; [|apply IH].
  rewrite <- (omap_pointwise (viaTable descToId) (resolve all)) by done.
  apply fold_linkDependency_linkedBy.
Qed.

Lemma noDeps_update m id s x :
  noDeps (JSMap.update id (set_status s) m) x = noDeps m x.
Proof. unfold noDeps. rewrite get_update_if. destruct (JSMap.get m x); simpl; [|done].
  by destruct (String.eqb id x). Qed.

Lemma noDependents_update m id s x :
  noDependents (JSMap.update id (set_status s) m) x = noDependents m x.
Proof. unfold noDependents. rewrite get_update_if. destruct (JSMap.get m x); simpl; [|done].
  by destruct (String.eqb id x). Qed.

Lemma fold_classify_char ks m roots leaves :
  let r := fold_left Shaka.classify ks (m, roots, leaves) in
  (forall x, JSMap.get (fst (fst r)) x = classified ks x <$> JSMap.get m x)
  /\ snd (fst r) = roots ++ List.filter (noDeps m) ks
  /\ snd r = leaves ++ List.filter (noDependents m) ks.
Proof.
  revert m roots leaves. induction ks as [|k ks IH]; intros m roots leaves; simpl.
  - rewrite !app_nil_r. split; [|done]. intros x. by destruct (JSMap.get m x).
  - assert (Hstep : exists m1,
              Shaka.classify (m, roots, leaves) k
              = (m1, if noDeps m k then roots ++ [k] else roots,
                     if noDependents m k then leaves ++ [k] else leaves)
              /\ (forall x, JSMap.get m1 x = classified [k] x <$> JSMap.get m x)
              /\ (forall x, noDeps m1 x = noDeps m x)
              /\ (forall x, noDependents m1 x = noDependents m x)).
    { unfold Shaka.classify, noDeps, noDependents.
      destruct (JSMap.get m k) as [node|] eqn:Hg.
      - destruct (Nat.eqb (length (n_dependencies node)) 0) eqn:Hd.
        + eexists. split; [done|]. split; [|split].
          * intros x. rewrite get_update_if. destruct (JSMap.get m x) as [n|] eqn:Hx; [|done].
            simpl. unfold classified, inList. simpl. rewrite String.eqb_sym.
            destruct (String.eqb_spec x k) as [->|Hne]; simpl; [|done].
            rewrite Hg in Hx. injection Hx as <-. by rewrite Hd.
          * intros x. apply noDeps_update.
          * intros x. apply noDependents_update.
        + exists m. split; [done|]. split; [|done].
          intros x. destruct (JSMap.get m x) as [n|] eqn:Hx; [|done].
          simpl. unfold classified, inList. simpl.
          destruct (String.eqb_spec x k) as [->|Hne]; simpl; [|done].
          rewrite Hg in Hx. injection Hx as <-. by rewrite Hd.
      - exists m. split; [done|]. split; [|done].
        intros x. destruct (JSMap.get m x) as [n|] eqn:Hx; [|done].
        simpl. unfold classified, inList. simpl.
        destruct (String.eqb_spec x k) as [->|Hne]; simpl; [congruence|done]. }
    destruct Hstep as (m1 & -> & Hget & Hnd & Hnt).
    destruct (IH m1 (if noDeps m k then roots ++ [k] else roots)
                 (if noDependents m k then leaves ++ [k] else leaves)) as (H1 & H2 & H3).
    split; [|split].
    + intros x. rewrite H1, Hget. destruct (JSMap.get m x) as [n|]; [|done]. simpl.
      f_equal. unfold classified, inList. simpl.
      destruct (String.eqb x k), (existsb (String.eqb x) ks); simpl; try done;
        destruct (Nat.eqb (length (n_dependencies n)) 0) eqn:Hd; simpl; try done;
        by rewrite ?Hd.
    + rewrite H2. rewrite (filter_ext (noDeps m1) (noDeps m)) by done.
      destruct (noDeps m k); [by rewrite <- app_assoc|done].
    + rewrite H3. rewrite (filter_ext (noDependents m1) (noDependents m)) by done.
      destruct (noDependents m k); [by rewrite <- app_assoc|done].
Qed.

Lemma keys_imap_nodeId {V} (f : nat -> PlannedTask -> V) (tasks : list PlannedTask) :
  JSMap.keys (imap (fun j t => (Shaka.nodeId j, f j t)) tasks)
  = map Shaka.nodeId (seq 0 (length tasks)).
Proof.
  unfold JSMap.keys. apply list_eq. intros i.
  rewrite !list_lookup_fmap, list_lookup_imap.
  destruct (tasks !! i) as [t|] eqn:Ht; simpl.
  - rewrite lookup_seq_lt; [done|]. by eapply lookup_lt_Some.
  - rewrite lookup_seq_ge; [done|]. by apply lookup_ge_None.
Qed.

Lemma NoDup_nodeIds k : NoDup (map Shaka.nodeId (seq 0 k)).
Proof.
  apply (NoDup_fmap_2_strong Shaka.nodeId); [|apply NoDup_seq].
  intros i j _ _ H. by apply nodeId_inj.
Qed.

Lemma get_imap_nodeId {V} (f : nat -> PlannedTask -> V) (tasks : list PlannedTask) i :
  JSMap.get (imap (fun j t => (Shaka.nodeId j, f j t)) tasks) (Shaka.nodeId i)
  = f i <$> tasks !! i.
Proof.
  destruct (tasks !! i) as [t|] eqn:Ht; simpl.
  - apply elem_get_Some; [rewrite keys_imap_nodeId; apply NoDup_nodeIds|].
    apply list_elem_of_lookup. exists i. by rewrite list_lookup_imap, Ht.
  - apply get_None_keys. rewrite keys_imap_nodeId. intros Hin.
    apply list_elem_of_fmap in Hin as (j & Hj & Hin). apply nodeId_inj in Hj. subst j.
    apply elem_of_seq in Hin. apply lookup_ge_None in Ht. lia.
Qed.

Lemma outOf_app E1 E2 x : outOf (E1 ++ E2) x = outOf E1 x ++ outOf E2 x.
Proof. unfold outOf. by rewrite List.filter_app, map_app. Qed.

Lemma outOf_star j ds i :
  outOf (map (fun d => (Shaka.nodeId j, d)) ds) (Shaka.nodeId i)
  = if Nat.eqb j i then ds else [].
Proof.
  unfold outOf. induction ds as [|d ds IH]; [by destruct (Nat.eqb j i)|].
  cbn [map List.filter fst].
  destruct (String.eqb_spec (Shaka.nodeId j) (Shaka.nodeId i)) as [He|Hne].
  - apply nodeId_inj in He. subst j. rewrite Nat.eqb_refl in *.
    cbn [map snd]. f_equal. exact IH.
  - destruct (Nat.eqb_spec j i) as [->|_]; [done|]. exact IH.
Qed.

Lemma out_edgesFrom tasks all index i :
  outOf (edgesFrom tasks all index) (Shaka.nodeId i)
  = if index <=? i
    then match tasks !! (i - index) with
         | Some t => omap (resolve all) (p_dependencies t)
         | None => []
         end
    else [].
Proof.
  revert index. induction tasks as [|t tasks IH]; intros index.
  - simpl. by destruct (index <=? i).
  - cbn [edgesFrom]. rewrite outOf_app, outOf_star, IH.
    destruct (Nat.eqb_spec index i) as [->|Hne].
    + rewrite Nat.leb_refl, Nat.sub_diag.
      destruct (Nat.leb_spec (S i) i); [lia|]. by rewrite app_nil_r.
    + destruct (Nat.leb_spec index i) as [Hle|Hgt].
      * destruct (Nat.leb_spec (S index) i); [|lia].
        replace (i - index) with (S (i - S index)) by lia. done.
      * destruct (Nat.leb_spec (S index) i); [lia|]. done.
Qed.

Lemma intoOf_outOf E a b : a ∈ intoOf E b <-> b ∈ outOf E a.
Proof.
  unfold intoOf, outOf. rewrite !list_elem_of_fmap. split.
  - intros ([x y] & -> & Hin). apply list_elem_of_In, filter_In in Hin as [Hin He].
    simpl in He. apply String.eqb_eq in He. subst y.
    exists (x, b). split; [done|]. apply list_elem_of_In, filter_In.
    split; [done|]. simpl. apply String.eqb_refl.
  - intros ([x y] & -> & Hin). apply list_elem_of_In, filter_In in Hin as [Hin He].
    simpl in He. apply String.eqb_eq in He. subst x.
    exists (a, y). split; [done|]. apply list_elem_of_In, filter_In.
    split; [done|]. simpl. apply String.eqb_refl.
Qed.

(** The graph [buildDAG] returns, node by node. *)
Lemma buildDAG_char tasks :
  let dag := Shaka.buildDAG tasks in
  let E := edgesFrom tasks tasks 0 in
  JSMap.keys (nodes dag) = map Shaka.nodeId (seq 0 (length tasks))
  /\ (forall i, JSMap.get (nodes dag) (Shaka.nodeId i)
                = (fun t => classified (map Shaka.nodeId (seq 0 (length tasks)))
                              (Shaka.nodeId i)
                              (addEdges E (Shaka.nodeId i)
                                 (mkNode (Shaka.nodeId i) "" (p_satellite t) pending [] []
                                         None))) <$> tasks !! i)
  /\ rootNodes dag = List.filter (noDeps (nodes dag)) (JSMap.keys (nodes dag))
  /\ leafNodes dag = List.filter (noDependents (nodes dag)) (JSMap.keys (nodes dag)).
Proof.
  intros dag E. unfold dag, Shaka.buildDAG.
  destruct (createNodes_char tasks 0 JSMap.empty JSMap.empty) as [Hcreated Htable];
    [done|].
  destruct (Shaka.createNodes tasks 0 (JSMap.empty, JSMap.empty)) as [created descToId].
  simpl in Hcreated, Htable.
  assert (Hres : forall desc, viaTable descToId desc = resolve tasks desc).
  { intros desc. unfold viaTable, resolve. rewrite Htable.
    destruct (lastWith desc tasks 0); [|done]. done. }
  pose proof (linkNodes_linkedBy descToId tasks tasks 0 created Hres) as Hlink. fold E in Hlink.
  destruct (linkNodes_spec descToId tasks 0 created) as [Hk1 _].
  set (linked := Shaka.linkNodes descToId tasks 0 created) in *.
  destruct (fold_classify_spec (JSMap.keys linked) (linked, [], [])) as [Hk2 _].
  destruct (fold_classify_char (JSMap.keys linked) linked [] []) as (Hget & Hroots & Hleaves).
  destruct (fold_left Shaka.classify (JSMap.keys linked) (linked, [], []))
    as [[m roots] leaves]. simpl in *.
  assert (Hkeys : JSMap.keys linked = map Shaka.nodeId (seq 0 (length tasks))).
  { rewrite Hk1, Hcreated. apply (keys_imap_nodeId (fun j t => _)). }
  split; [congruence|]. split; [|split].
  - intros i. rewrite Hget, Hlink, Hcreated, Hkeys.
    rewrite (get_imap_nodeId (fun j t => mkNode (Shaka.nodeId j) "" (p_satellite t)
                                           pending [] [] None)).
    by destruct (tasks !! i).
  - rewrite Hroots, Hk2. apply filter_ext. intros x. unfold noDeps.
    rewrite Hget. destruct (JSMap.get linked x) as [n|]; [|done]. simpl.
    unfold classified. by destruct (_ && _).
  - rewrite Hleaves, Hk2. apply filter_ext. intros x. unfold noDependents.
    rewrite Hget. destruct (JSMap.get linked x) as [n|]; [|done]. simpl.
    unfold classified. by destruct (_ && _).
Qed.

End BuildMore.

(** ** No node runs twice *)

(** X2: over a graph built by [buildDAG], whatever the task list, the
    satellites' answers and the order in which the executions settle, no
    node is dispatched twice: the trace of dispatches has no repetition and
    names nodes of the graph only, so [executePlan] returns at most one
    result per planned task. *)
Theorem no_node_runs_twice
    (execute : nat -> string -> SatelliteTask -> SatelliteResult)
    (settle : nat -> list nat)
    (planned : list PlannedTask) (tasks : list SatelliteTask) (fuel : nat) :
  let dag := Shaka.buildDAG planned in
  NoDup (AgentMesh.dispatchTrace execute settle fuel 0 tasks dag)
  /\ (forall id, id ∈ AgentMesh.dispatchTrace execute settle fuel 0 tasks dag ->
        id ∈ JSMap.keys (nodes dag))
  /\ (forall results dag',
        AgentMesh.executeLoop execute settle fuel 0 tasks dag [] = Some (results, dag') ->
        length results = length (AgentMesh.dispatchTrace execute settle fuel 0 tasks dag)
        /\ length results <= length planned).
Proof.
  intros dag. destruct (buildDAG_spec planned) as [Hnd _]. fold dag in Hnd.
  destruct (dispatchTrace_unsettled execute settle fuel 0 tasks dag Hnd) as [Hndt Hin].
  split; [done|]. split.
  - intros id Hid. destruct (Hin id Hid) as (n & Hg & _). by eapply get_Some_keys.
  - intros results dag' Hrun. apply executeLoop_trace in Hrun. simpl in Hrun.
    split; [done|]. rewrite Hrun.
    etransitivity; [apply (NoDup_incl_length_keys _ (nodes dag) Hndt)|].
    + intros id Hid. destruct (Hin id Hid) as (n & Hg & _). eauto.
    + unfold JSMap.size. rewrite <- (length_map fst (nodes dag)).
      destruct (buildDAG_char planned) as (Hkeys & _). fold dag in Hkeys.
      unfold JSMap.keys in Hkeys. by rewrite Hkeys, length_map, length_seq.
Qed.

Lemma inList_elem (x : string) (ks : list string) : inList x ks = true <-> x ∈ ks.
Proof. apply existsb_eqb_elem. Qed.

(** Every node of the graph is the node of a task. *)
Lemma buildDAG_node (tasks : list PlannedTask) (id : string) (n : DAGNode) :
  JSMap.get (nodes (Shaka.buildDAG tasks)) id = Some n ->
  exists i t,
    id = Shaka.nodeId i /\ tasks !! i = Some t
    /\ n_id n = id /\ n_taskId n = "" /\ n_satelliteId n = p_satellite t
    /\ n_dependencies n = outOf (edgesFrom tasks tasks 0) id
    /\ n_dependents n = intoOf (edgesFrom tasks tasks 0) id
    /\ n_status n = (if Nat.eqb (length (n_dependencies n)) 0 then ready else pending)
    /\ n_result n = None.
Proof.
  intros Hg. destruct (buildDAG_char tasks) as (Hkeys & Hget & _).
  pose proof (get_Some_keys _ _ _ Hg) as Hin. rewrite Hkeys in Hin.
  apply list_elem_of_fmap in Hin as (i & -> & Hi).
  rewrite Hget in Hg. destruct (tasks !! i) as [t|] eqn:Ht; [|done].
  simpl in Hg. injection Hg as <-. exists i, t. split; [done|]. split; [done|].
  unfold classified.
  assert (Hin : inList (Shaka.nodeId i) (map Shaka.nodeId (seq 0 (length tasks))) = true).
  { apply inList_elem, list_elem_of_fmap. by exists i. }
  rewrite Hin. simpl.
  destruct (Nat.eqb (length (outOf (edgesFrom tasks tasks 0) (Shaka.nodeId i))) 0) eqn:Hd;
    simpl; rewrite ?Hd; done.
Qed.

(** X3: the graph [buildDAG] returns has one node per task, keyed
    [node_0], [node_1], ... in task order; the node of a task carries the
    task's satellite, an empty task id and no result; its dependencies are
    the nodes its dependency descriptions stand for (a description shared by
    several tasks stands for the last of them, an unknown one is dropped);
    it is [ready] when it has none and [pending] otherwise; the two ends of
    every edge agree; and the root and leaf lists are the nodes without
    dependencies and without dependents, in key order. *)
Theorem buildDAG_structure (tasks : list PlannedTask) :
  let dag := Shaka.buildDAG tasks in
  JSMap.keys (nodes dag) = map Shaka.nodeId (seq 0 (length tasks))
  /\ (forall i t, tasks !! i = Some t ->
        exists n, JSMap.get (nodes dag) (Shaka.nodeId i) = Some n
          /\ n_id n = Shaka.nodeId i /\ n_taskId n = ""
          /\ n_satelliteId n = p_satellite t
          /\ n_dependencies n = omap (resolve tasks) (p_dependencies t)
          /\ n_status n = (if Nat.eqb (length (n_dependencies n)) 0 then ready else pending)
          /\ n_result n = None)
  /\ mirrored (nodes dag)
  /\ rootNodes dag = List.filter (noDeps (nodes dag)) (JSMap.keys (nodes dag))
  /\ leafNodes dag = List.filter (noDependents (nodes dag)) (JSMap.keys (nodes dag)).
Proof.
  intros dag. destruct (buildDAG_char tasks) as (Hkeys & Hget & Hroots & Hleaves).
  fold dag in Hkeys, Hget, Hroots, Hleaves.
  split; [done|]. split; [|split; [|done]].
  - intros i t Ht.
    destruct (JSMap.get (nodes dag) (Shaka.nodeId i)) as [n|] eqn:Hg.
    2:{ rewrite Hget, Ht in Hg. done. }
    destruct (buildDAG_node tasks _ n Hg) as (j & t' & Hj & Ht' & H1 & H2 & H3 & H4 & _ & H6 & H7).
    apply nodeId_inj in Hj. subst j. rewrite Ht in Ht'. injection Ht' as <-.
    exists n. split; [done|]. split; [done|]. split; [done|]. split; [done|].
    split; [|done]. rewrite H4, out_edgesFrom. simpl. by rewrite Nat.sub_0_r, Ht.
  - intros a b na nb Ha Hb.
    destruct (buildDAG_node tasks _ _ Ha) as (_ & _ & _ & _ & _ & _ & _ & -> & _).
    destruct (buildDAG_node tasks _ _ Hb) as (_ & _ & _ & _ & _ & _ & _ & _ & -> & _).
    symmetry. apply intoOf_outOf.
Qed.

(** ** Plans whose nodes find no task *)

Section UnmatchedFacts.
Variable execute : nat -> string -> SatelliteTask -> SatelliteResult.
Variable settle : nat -> list nat.
Implicit Types (m : JSMap.t DAGNode) (n : DAGNode) (id : string).

Lemma untasked_evolves tasks m m' : untasked tasks m -> evolves m m' -> untasked tasks m'.
Proof.
  intros Ht [_ He] id n' Hg'.
  destruct (He id n' Hg') as (n & Hg & _ & _ & _ & _ & _ & Hid).
  unfold AgentMesh.findTask. rewrite Hid. by apply (Ht id n).
Qed.

Lemma startExecutions_untasked batch tasks rs m :
  untasked tasks m -> AgentMesh.startExecutions execute batch tasks rs m = ([], m).
Proof.
  intros Hu. induction rs as [|id rest IH]; simpl; [done|].
  destruct (JSMap.get m id) as [node|] eqn:Hg; [|done].
  by rewrite (Hu id node Hg).
Qed.

(** Without tasks a batch dispatches nothing. *)
Lemma iteration_untasked batch tasks dag ds dag1 :
  untasked tasks (nodes dag) ->
  AgentMesh.iteration execute settle batch tasks dag = AgentMesh.Batch ds dag1 ->
  ds = [] /\ dag1 = snd (Shaka.getReadyTasks dag).
Proof.
  intros Hu. unfold AgentMesh.iteration.
  destruct (Shaka.isDAGComplete dag); [done|].
  unfold Shaka.getReadyTasks.
  pose proof (getReadyNodes_evolves (nodes dag)) as Hev0.
  destruct (Shaka.getReadyNodes (nodes dag)) as [rdy m1]. simpl in *.
  destruct rdy as [|r0 rdy]; [done|].
  rewrite (startExecutions_untasked batch tasks (r0 :: rdy) m1)
    by by eapply untasked_evolves.
  simpl. rewrite reorder_nil. simpl. by intros [= <- <-].
Qed.

Lemma dispatchTrace_untasked k batch tasks dag :
  NoDup (JSMap.keys (nodes dag)) -> untasked tasks (nodes dag) ->
  AgentMesh.dispatchTrace execute settle k batch tasks dag = [].
Proof.
  revert batch dag. induction k as [|k IH]; intros batch dag Hnd Hu; simpl; [done|].
  destruct (AgentMesh.iteration execute settle batch tasks dag) as [|dag1|ds dag1] eqn:Hit;
    [done|done|].
  destruct (iteration_untasked _ _ _ _ _ Hu Hit) as [-> _].
  destruct (iteration_Batch execute settle _ _ _ _ _ Hnd Hit) as [Hev _].
  destruct (iteration_keys execute settle _ _ _ _ _ Hnd Hit) as [Hnd1 _].
  simpl. apply IH; [done|by eapply untasked_evolves].
Qed.

End UnmatchedFacts.

(** In a graph fresh from [buildDAG] nothing can be promoted: a [pending]
    node has a dependency, and no node is [completed] yet. *)
Lemma buildDAG_eligible (tasks : list PlannedTask) (id : string) (n : DAGNode) :
  JSMap.get (nodes (Shaka.buildDAG tasks)) id = Some n ->
  n_status n = pending -> Shaka.allDepsComplete (nodes (Shaka.buildDAG tasks)) n = false.
Proof.
  intros Hg Hs.
  destruct (buildDAG_node tasks id n Hg) as (_ & _ & _ & _ & _ & _ & _ & _ & _ & Hst & _).
  rewrite Hs in Hst. unfold Shaka.allDepsComplete.
  destruct (n_dependencies n) as [|d ds]; [done|]. simpl.
  destruct (JSMap.get (nodes (Shaka.buildDAG tasks)) d) as [dn|] eqn:Hd; [|done].
  destruct (buildDAG_node tasks d dn Hd) as (_ & _ & _ & _ & _ & _ & _ & _ & _ & Hsd & _).
  rewrite Hsd. destruct (Nat.eqb (length (n_dependencies dn)) 0); reflexivity.
Qed.

Lemma find_None_all {A} (f : A -> bool) (l : list A) :
  (forall x, x ∈ l -> f x = false) -> List.find f l = None.
Proof.
  induction l as [|x l IH]; intros H; simpl; [done|].
  rewrite (H x) by apply list_elem_of_here. apply IH.
  intros y Hy. apply H. by apply list_elem_of_further.
Qed.

Lemma buildDAG_untasked (planned reflected : list PlannedTask) (uuids : nat -> string)
    (planId userInput : string) :
  (forall i, uuids i <> "") ->
  (forall t i, t ∈ reflected -> p_description t <> Shaka.nodeId i) ->
  let plan := Shaka.createExecutionPlan planned reflected uuids planId userInput in
  untasked (plan_tasks plan) (nodes (plan_dag plan)).
Proof.
  intros Huuid Hdesc plan id n Hg. simpl in Hg.
  destruct (buildDAG_node planned id n Hg) as (i & _ & -> & _ & _ & Htid & _).
  unfold AgentMesh.findTask. rewrite Htid. simpl.
  apply find_None_all. intros t Hin.
  apply elem_of_lookup_imap in Hin as (j & p & -> & Hp). simpl.
  apply orb_false_iff. split; apply String.eqb_neq; [apply Huuid|].
  apply Hdesc. by eapply list_elem_of_lookup_2.
Qed.

(** X4: a plan made by [createExecutionPlan] pairs no node with a task.
    Every node of its graph has the empty string as [taskId], while the
    tasks carry the fresh uuids as ids and the planner's descriptions; so
    when no uuid is empty and no description is literally a node id, the
    lookup [plan.tasks.find(t => t.id === node.taskId || t.description
    === nodeId)] finds no task for any node of the graph, and no
    iteration of the scheduler loop over that graph dispatches a node. *)
Theorem created_plans_pair_no_node_with_a_task
    (execute : nat -> string -> SatelliteTask -> SatelliteResult)
    (settle : nat -> list nat)
    (planned reflected : list PlannedTask) (uuids : nat -> string)
    (planId userInput : string) :
  (forall i, uuids i <> "") ->
  (forall t i, t ∈ reflected -> p_description t <> Shaka.nodeId i) ->
  let plan := Shaka.createExecutionPlan planned reflected uuids planId userInput in
  (forall id n, JSMap.get (nodes (plan_dag plan)) id = Some n ->
      n_taskId n = "" /\ AgentMesh.findTask (plan_tasks plan) n id = None)
  /\ (forall i t, plan_tasks plan !! i = Some t ->
        t_id t = uuids i
        /\ exists p, reflected !! i = Some p /\ t_description t = p_description p)
  /\ (forall k,
        AgentMesh.dispatchTrace execute settle k 0 (plan_tasks plan) (plan_dag plan) = []).
Proof.
  intros Huuid Hdesc plan.
  assert (Hu : untasked (plan_tasks plan) (nodes (Shaka.buildDAG planned)))
    by exact (buildDAG_untasked planned reflected uuids planId userInput Huuid Hdesc).
  destruct (buildDAG_spec planned) as [Hnd _].
  change (plan_dag plan) with (Shaka.buildDAG planned).
  split; [|split].
  - intros id n Hg. split; [|by apply Hu].
    by destruct (buildDAG_node planned id n Hg) as (i & t & _ & _ & _ & Htid & _).
  - intros i t Hi. simpl in Hi. apply list_lookup_imap_Some in Hi as (p & Hp & ->).
    split; [done|]. by exists p.
  - intros k. by apply dispatchTrace_untasked.
Qed.

(** ** Nodes kept waiting by a failure *)

Section FailureFacts.
Variable execute : nat -> string -> SatelliteTask -> SatelliteResult.
Variable settle : nat -> list nat.
Variable fs : list string.
Implicit Types (m : JSMap.t DAGNode) (n : DAGNode) (id : string).
Local Arguments Shaka.readyStep : simpl never.
Local Arguments Shaka.promoteDependent : simpl never.

Lemma starved_blocked m id n :
  starved fs m -> id ∈ fs -> JSMap.get m id = Some n ->
  n_status n = pending /\ Shaka.allDepsComplete m n = false.
Proof.
  intros Hst Hin Hg. destruct (Hst id Hin) as (n' & Hg' & Hs & d & Hd & Hdc).
  rewrite Hg in Hg'. injection Hg' as <-. split; [done|].
  destruct (Shaka.allDepsComplete m n) eqn:Hall; [|done].
  apply allDepsComplete_spec in Hall. unfold depsCompleted in Hall.
  rewrite List.Forall_forall in Hall.
  destruct (Hall d) as (dn & Hgd & Hsd); [by apply list_elem_of_In|].
  destruct Hdc as [Hdc|(dn' & Hgd' & Hsd')].
  - destruct (Hst d Hdc) as (dn' & Hgd' & Hsd' & _). congruence.
  - congruence.
Qed.

(** A write to a node that is neither kept waiting nor [failed] leaves
    the waiting nodes waiting. *)
Lemma starved_update m id g :
  id ∉ fs -> (forall n, JSMap.get m id = Some n -> n_status n <> failed) ->
  starved fs m -> starved fs (JSMap.update id g m).
Proof.
  intros Hnin Hnf Hst i Hi. destruct (Hst i Hi) as (n & Hg & Hs & d & Hd & Hdc).
  exists n. split; [|split; [done|]].
  - rewrite get_update_ne; [done|]. intros ->. done.
  - exists d. split; [done|]. destruct Hdc as [Hdc|(dn & Hgd & Hsd)]; [by left|].
    right. exists dn. split; [|done]. rewrite get_update_ne; [done|].
    intros ->. by apply (Hnf dn).
Qed.

Lemma readyStep_starved rdy m id :
  starved fs m -> starved fs (snd (Shaka.readyStep (rdy, m) id)).
Proof.
  intros Hst. unfold Shaka.readyStep.
  destruct (JSMap.get m id) as [node|] eqn:Hg; [|done].
  destruct (n_status node) eqn:Hs; try done.
  destruct (Shaka.allDepsComplete m node) eqn:Hall; [|done].
  simpl. apply starved_update; [| |done].
  - intros Hin. destruct (starved_blocked m id node Hst Hin Hg). congruence.
  - intros n Hn. rewrite Hg in Hn. injection Hn as <-. congruence.
Qed.

Lemma fold_readyStep_starved ks acc :
  starved fs (snd acc) -> starved fs (snd (fold_left Shaka.readyStep ks acc)).
Proof.
  revert acc. induction ks as [|k ks IH]; intros [rdy m] Hst; simpl; [done|].
  apply IH. by apply readyStep_starved.
Qed.

Lemma promoteDependent_starved m d :
  starved fs m -> starved fs (Shaka.promoteDependent m d).
Proof.
  intros Hst. unfold Shaka.promoteDependent.
  destruct (JSMap.get m d) as [node|] eqn:Hg; [|done].
  destruct (n_status node) eqn:Hs; try done.
  destruct (Shaka.allDepsComplete m node) eqn:Hall; [|done].
  apply starved_update; [| |done].
  - intros Hin. destruct (starved_blocked m d node Hst Hin Hg). congruence.
  - intros n Hn. rewrite Hg in Hn. injection Hn as <-. congruence.
Qed.

Lemma fold_promote_starved ds m :
  starved fs m -> starved fs (fold_left Shaka.promoteDependent ds m).
Proof.
  revert m. induction ds as [|d ds IH]; intros m Hst; simpl; [done|].
  apply IH. by apply promoteDependent_starved.
Qed.

Lemma markNode_starved m id r n :
  JSMap.get m id = Some n -> n_status n = running ->
  starved fs m -> starved fs (Shaka.markNode m id r).
Proof.
  intros Hg Hs Hst. unfold Shaka.markNode. rewrite Hg.
  assert (Hup : starved fs (JSMap.update id
            (fun x => set_result r (set_status (if r_success r then completed else failed) x))
            m)).
  { apply starved_update; [| |done].
    - intros Hin. destruct (starved_blocked m id n Hst Hin Hg). congruence.
    - intros n0 Hn. rewrite Hg in Hn. injection Hn as <-. congruence. }
  destruct (r_success r); [|done]. by apply fold_promote_starved.
Qed.

Lemma settleExecutions_starved (l : list (string * SatelliteResult)) m :
  NoDup l.*1 -> allInStatus running l.*1 m ->
  starved fs m -> starved fs (AgentMesh.settleExecutions l m).
Proof.
  revert m. induction l as [|[id r] l IH]; intros m Hnd Hrun Hst; simpl; [done|].
  apply NoDup_cons in Hnd as [Hid Hnd].
  destruct (Hrun id) as (n & Hg & Hs); [apply list_elem_of_here|].
  apply IH; [done| |].
  - intros x Hx. destruct (Hrun x) as (nx & Hgx & Hsx); [by apply list_elem_of_further|].
    exists nx. split; [|done].
    apply markNode_keeps; [|done|congruence]. intros ->. done.
  - by eapply markNode_starved.
Qed.

Lemma startExecutions_starved batch tasks rs m :
  allInStatus ready rs m -> NoDup rs ->
  starved fs m -> starved fs (snd (AgentMesh.startExecutions execute batch tasks rs m)).
Proof.
  revert m. induction rs as [|id rest IH]; intros m Hall Hnd Hst; simpl; [done|].
  apply NoDup_cons in Hnd as [Hid Hnd].
  destruct (Hall id) as (node & Hg & Hs); [apply list_elem_of_here|].
  assert (Hall' : allInStatus ready rest m).
  { intros x Hx. apply Hall. by apply list_elem_of_further. }
  rewrite Hg. destruct (AgentMesh.findTask tasks node id) as [task|]; [|by apply IH].
  set (m1 := JSMap.update id (set_status running) m).
  assert (Hst1 : starved fs m1).
  { apply starved_update; [| |done].
    - intros Hin. destruct (starved_blocked m id node Hst Hin Hg). congruence.
    - intros n0 Hn. rewrite Hg in Hn. injection Hn as <-. congruence. }
  specialize (IH m1 (allInStatus_update ready rest m id _ Hid Hall') Hnd Hst1).
  by destruct (AgentMesh.startExecutions execute batch tasks rest m1).
Qed.

(** A batch leaves the waiting nodes waiting and dispatches none of them. *)
Lemma iteration_starved batch tasks dag ds dag1 :
  NoDup (JSMap.keys (nodes dag)) -> starved fs (nodes dag) ->
  AgentMesh.iteration execute settle batch tasks dag = AgentMesh.Batch ds dag1 ->
  starved fs (nodes dag1)
  /\ Forall (fun d => AgentMesh.d_node d ∉ fs) ds.
Proof.
  intros Hnd Hst. unfold AgentMesh.iteration.
  destruct (Shaka.isDAGComplete dag); [done|].
  unfold Shaka.getReadyTasks.
  pose proof (getReadyNodes_ready (nodes dag) Hnd) as [Hnd0 Hrdy0].
  pose proof (fold_readyStep_starved (JSMap.keys (nodes dag)) ([], nodes dag) Hst) as Hst1.
  fold (Shaka.getReadyNodes (nodes dag)) in Hst1.
  destruct (Shaka.getReadyNodes (nodes dag)) as [rdy m1]. simpl in *.
  destruct rdy as [|r0 rdy]; [done|].
  pose proof (startExecutions_spec execute batch tasks (r0 :: rdy) m1 Hnd0 Hrdy0) as Hstart.
  pose proof (startExecutions_starved batch tasks (r0 :: rdy) m1 Hrdy0 Hnd0 Hst1) as Hst2.
  destruct (AgentMesh.startExecutions execute batch tasks (r0 :: rdy) m1) as [ds' m2].
  simpl in Hstart, Hst2. destruct Hstart as (Hev1 & Hout & Hsub & Hrun & Hdisp).
  intros [= <- <-]. simpl.
  set (l := map (fun d => (AgentMesh.d_node d, AgentMesh.d_result d)) ds').
  assert (Hfst : l.*1 = map AgentMesh.d_node ds').
  { unfold l. rewrite <- list_fmap_compose. done. }
  split.
  - apply settleExecutions_starved; [| |done].
    + rewrite (reorder_Permutation (settle batch) l), Hfst.
      exact (sublist_NoDup _ _ Hnd0 Hsub).
    + intros x Hx. apply Hrun. rewrite <- Hfst.
      by rewrite (reorder_Permutation (settle batch) l) in Hx.
  - apply List.Forall_forall. intros d Hd Hin.
    assert (Hx : AgentMesh.d_node d ∈ r0 :: rdy).
    { eapply elem_of_sublist; [|exact Hsub].
      apply list_elem_of_fmap. exists d. split; [done|by apply list_elem_of_In]. }
    destruct (Hrdy0 _ Hx) as (n & Hg & Hs).
    destruct (starved_blocked m1 _ n Hst1 Hin Hg). congruence.
Qed.

Lemma loopState_starved k batch tasks dag :
  NoDup (JSMap.keys (nodes dag)) -> starved fs (nodes dag) ->
  NoDup (JSMap.keys (nodes (AgentMesh.loopState execute settle k batch tasks dag)))
  /\ starved fs (nodes (AgentMesh.loopState execute settle k batch tasks dag)).
Proof.
  revert batch dag. induction k as [|k IH]; intros batch dag Hnd Hst; simpl; [done|].
  destruct (AgentMesh.iteration execute settle batch tasks dag) as [|dag1|ds dag1] eqn:Hit;
    [done|done|].
  destruct (iteration_keys execute settle _ _ _ _ _ Hnd Hit) as [Hnd1 _].
  destruct (iteration_starved _ _ _ _ _ Hnd Hst Hit) as [Hst1 _].
  by apply IH.
Qed.

Lemma starved_incomplete dag :
  fs <> [] -> starved fs (nodes dag) -> Shaka.isDAGComplete dag = false.
Proof.
  intros Hne Hst. destruct fs as [|c cs] eqn:Hc; [done|].
  destruct (Hst c) as (n & Hg & Hs & _); [apply list_elem_of_here|].
  destruct (Shaka.isDAGComplete dag) eqn:Hcomp; [|done].
  unfold Shaka.isDAGComplete in Hcomp.
  destruct (proj1 (nodesComplete_spec (nodes dag)) Hcomp c n (get_Some_elem _ _ _ Hg));
    congruence.
Qed.

Lemma executeLoop_starved_exit fuel batch tasks dag results results' dag' :
  fs <> [] ->
  NoDup (JSMap.keys (nodes dag)) -> starved fs (nodes dag) ->
  AgentMesh.executeLoop execute settle fuel batch tasks dag results = Some (results', dag') ->
  Shaka.isDAGComplete dag' = false /\ starved fs (nodes dag').
Proof.
  intros Hne. revert batch dag results.
  induction fuel as [|fuel IH]; intros batch dag results Hnd Hst; simpl; [done|].
  destruct (AgentMesh.iteration execute settle batch tasks dag) as [|dag1|ds dag1] eqn:Hit.
  - unfold AgentMesh.iteration in Hit. rewrite (starved_incomplete dag Hne Hst) in Hit.
    destruct (Shaka.getReadyTasks dag) as [rdy d1]. destruct rdy; [done|].
    by destruct (AgentMesh.startExecutions _ _ _ _ _).
  - intros [= <- <-]. unfold AgentMesh.iteration in Hit.
    rewrite (starved_incomplete dag Hne Hst) in Hit.
    unfold Shaka.getReadyTasks in Hit.
    pose proof (fold_readyStep_starved (JSMap.keys (nodes dag)) ([], nodes dag) Hst) as Hst1.
    fold (Shaka.getReadyNodes (nodes dag)) in Hst1.
    destruct (Shaka.getReadyNodes (nodes dag)) as [rdy m1] eqn:Hrdy.
    destruct rdy as [|r0 rdy]; [|by destruct (AgentMesh.startExecutions _ _ _ _ _)].
    injection Hit as <-. simpl in *. split; [|done].
    by apply (starved_incomplete (mkDAG _ _ _)).
  - destruct (iteration_keys execute settle _ _ _ _ _ Hnd Hit) as [Hnd1 _].
    destruct (iteration_starved _ _ _ _ _ Hnd Hst Hit) as [Hst1 _].
    by apply IH.
Qed.

End FailureFacts.

(** X5: nodes kept waiting by a failed dependency stay [pending] for good:
    in every state of the loop they are still waiting and the graph is not
    complete, no batch dispatches any of them, and whatever [executePlan]
    returns is an incomplete graph in which they still wait. A failed
    result is what starts it: once [markTaskComplete] has recorded a
    failure, every [pending] node that lists the failed node among its
    dependencies is kept waiting. *)
Theorem failed_dependency_keeps_dependents_waiting
    (execute : nat -> string -> SatelliteTask -> SatelliteResult)
    (settle : nat -> list nat) (plan : ExecutionPlan) (fs : list string) (fuel : nat) :
  fs <> [] ->
  NoDup (JSMap.keys (nodes (plan_dag plan))) ->
  starved fs (nodes (plan_dag plan)) ->
  (forall k,
      let dag := AgentMesh.loopState execute settle k 0 (plan_tasks plan) (plan_dag plan) in
      starved fs (nodes dag)
      /\ Shaka.isDAGComplete dag = false
      /\ forall batch ds dag',
           AgentMesh.iteration execute settle batch (plan_tasks plan) dag
           = AgentMesh.Batch ds dag' ->
           Forall (fun d => AgentMesh.d_node d ∉ fs) ds)
  /\ (forall results dag',
        AgentMesh.executePlan execute settle fuel plan = Some (results, dag') ->
        Shaka.isDAGComplete dag' = false /\ starved fs (nodes dag'))
  /\ (forall dag id r x n nx,
        JSMap.get (nodes dag) id = Some n -> r_success r = false ->
        x <> id -> JSMap.get (nodes dag) x = Some nx ->
        n_status nx = pending -> id ∈ n_dependencies nx ->
        starved [x] (nodes (Shaka.markTaskComplete dag id r))).
Proof.
  intros Hne Hnd Hst. split; [|split].
  - intros k dag.
    destruct (loopState_starved execute settle fs k 0 (plan_tasks plan) (plan_dag plan)
                Hnd Hst) as [Hndk Hstk].
    fold dag in Hndk, Hstk. split; [done|]. split; [by apply (starved_incomplete fs)|].
    intros batch ds dag' Hit.
    by destruct (iteration_starved execute settle fs _ _ _ _ _ Hndk Hstk Hit).
  - intros results dag' Hrun.
    by apply (executeLoop_starved_exit execute settle fs _ _ _ _ _ _ _ Hne Hnd Hst Hrun).
  - intros dag id r x n nx Hg Hfail Hne' Hgx Hs Hdep i Hi.
    apply list_elem_of_singleton in Hi as ->.
    unfold Shaka.markTaskComplete, Shaka.markNode. simpl. rewrite Hg, Hfail.
    exists nx. split; [by rewrite get_update_ne|]. split; [done|].
    exists id. split; [done|]. right. rewrite get_update_eq, Hg. simpl.
    eexists. split; [done|]. done.
Qed.

Example failed_research_leaves_the_report_waiting :
  exists dag n,
    AgentMesh.executePlan failResearch (fun _ => []) 3 matchedPlan
    = Some ([mkResult "task-0" pythagoras false "" (Some "no sources")], dag)
    /\ Shaka.isDAGComplete dag = false
    /\ JSMap.get (nodes dag) "node_1" = Some n /\ n_status n = pending.
Proof. eexists _, _. split; [by vm_compute|]. split; [by vm_compute|]. by vm_compute. Qed.

Lemma failed_dependency_keeps_dependents_waiting_witness :
  exists dag',
    AgentMesh.executePlan succeed (fun _ => []) 2 researchFailed = Some ([], dag')
    /\ Shaka.isDAGComplete dag' = false
    /\ starved ["node_1"] (nodes dag').
Proof.
  assert (Hst : starved ["node_1"] (nodes (plan_dag researchFailed))).
  { intros id Hin. apply list_elem_of_singleton in Hin as ->.
    eexists. split; [by vm_compute|]. split; [done|].
    exists "node_0". split; [apply list_elem_of_here|]. right.
    eexists. split; [by vm_compute|done]. }
  assert (Hnd : NoDup (JSMap.keys (nodes (plan_dag researchFailed)))).
  { vm_compute. apply NoDup_cons. split; [|apply NoDup_singleton].
    intros Hin. by apply list_elem_of_singleton in Hin. }
  destruct (failed_dependency_keeps_dependents_waiting succeed (fun _ => []) researchFailed
              ["node_1"] 2 ltac:(done) Hnd Hst) as (_ & Hexit & _).
  eexists. split; [by vm_compute|]. by eapply Hexit; vm_compute.
Defined.

Lemma created_plans_pair_no_node_with_a_task_witness :
  let plan := Shaka.createExecutionPlan cycleAndRootTasks cycleAndRootTasks
                (fun i => "task-" +:+ pretty i) "plan-1" "do A, B and C" in
  fst (Shaka.getReadyTasks (plan_dag plan)) = ["node_2"]
  /\ (forall id n, JSMap.get (nodes (plan_dag plan)) id = Some n ->
        n_taskId n = "" /\ AgentMesh.findTask (plan_tasks plan) n id = None)
  /\ (forall k,
        AgentMesh.dispatchTrace succeed (fun _ => []) k 0 (plan_tasks plan) (plan_dag plan)
        = []).
Proof.
  intros plan.
  destruct (created_plans_pair_no_node_with_a_task succeed (fun _ => [])
              cycleAndRootTasks cycleAndRootTasks
              (fun i => "task-" +:+ pretty i) "plan-1" "do A, B and C")
    as (Hnode & _ & Htrace).
  - intros i. done.
  - intros t i Hin. unfold cycleAndRootTasks in Hin.
    apply elem_of_cons in Hin as [->|Hin];
      [|apply elem_of_cons in Hin as [->|Hin];
        [|apply list_elem_of_singleton in Hin as ->]]; done.
  - split; [by vm_compute|]. split; [exact Hnode|exact Htrace].
Defined.

(** ** Hybrid search: no document twice *)

Section DistinctFacts.
Implicit Types (m : JSMap.t SearchResult) (r : SearchResult).

Lemma selfKeyed_set m r' k :
  idOf r' = k -> selfKeyed m -> selfKeyed (JSMap.set k r' m).
Proof.
  intros Hk. unfold selfKeyed. induction m as [|[k0 v0] m IH]; intros H; simpl.
  - by repeat constructor.
  - apply Forall_cons in H as [H0 H].
    destruct (String.eqb k0 k); constructor; auto.
Qed.

Lemma selfKeyed_update m k f :
  (forall r, idOf (f r) = idOf r) -> selfKeyed m -> selfKeyed (JSMap.update k f m).
Proof.
  intros Hf. unfold selfKeyed. induction m as [|[k0 v0] m IH]; intros H; simpl; [done|].
  apply Forall_cons in H as [H0 H].
  destruct (String.eqb k0 k); constructor; auto. simpl in *. by rewrite Hf.
Qed.

Lemma selfKeyed_values m : selfKeyed m -> map idOf (JSMap.values m) = JSMap.keys m.
Proof.
  unfold selfKeyed, JSMap.values, JSMap.keys. induction m as [|[k v] m IH]; intros H; [done|].
  apply Forall_cons in H as [H0 H]. simpl in *. by rewrite H0, IH.
Qed.

Lemma fold_addSemantic_inv w sem m :
  NoDup (JSMap.keys m) -> selfKeyed m ->
  NoDup (JSMap.keys (fold_left (PunkRecords.addSemantic w) sem m))
  /\ selfKeyed (fold_left (PunkRecords.addSemantic w) sem m).
Proof.
  revert m. induction sem as [|s sem IH]; intros m Hnd Hk; simpl; [done|].
  apply IH; unfold PunkRecords.addSemantic.
  - by apply NoDup_keys_set.
  - by apply selfKeyed_set.
Qed.

Lemma fold_addKeyword_inv kw kws m :
  NoDup (JSMap.keys m) -> selfKeyed m ->
  NoDup (JSMap.keys (fold_left (PunkRecords.addKeyword kw) kws m))
  /\ selfKeyed (fold_left (PunkRecords.addKeyword kw) kws m).
Proof.
  revert m. induction kws as [|k kws IH]; intros m Hnd Hk; simpl; [done|].
  apply IH; unfold PunkRecords.addKeyword; destruct (JSMap.get m _).
  - by rewrite keys_update.
  - by apply NoDup_keys_set.
  - by apply selfKeyed_update.
  - by apply selfKeyed_set.
Qed.

Lemma combine_distinct w sem kws :
  NoDup (map idOf (JSMap.values (PunkRecords.combine w sem kws))).
Proof.
  unfold PunkRecords.combine.
  destruct (fold_addSemantic_inv w sem JSMap.empty) as [H1 H2];
    [apply NoDup_nil_2|constructor|].
  destruct (fold_addKeyword_inv (1 - w)%Q kws _ H1 H2) as [H3 H4].
  by rewrite selfKeyed_values.
Qed.

Lemma NoDup_map_filter {A B} (f : A -> B) (p : A -> bool) (l : list A) :
  NoDup (map f l) -> NoDup (map f (List.filter p l)).
Proof.
  induction l as [|x l IH]; simpl; [done|]. intros Hnd.
  apply NoDup_cons in Hnd as [Hx Hnd]. destruct (p x); simpl; [|by apply IH].
  apply NoDup_cons. split; [|by apply IH].
  intros Hin. apply Hx. apply list_elem_of_fmap in Hin as (y & -> & Hy).
  apply list_elem_of_fmap. exists y. split; [done|].
  apply list_elem_of_In, filter_In in Hy as [Hy _]. by apply list_elem_of_In.
Qed.

Lemma rank_distinct threshold limit (l : list SearchResult) :
  NoDup (map idOf l) -> NoDup (map idOf (PunkRecords.rank threshold limit l)).
Proof.
  intros Hnd. unfold PunkRecords.rank.
  change (map idOf) with (fmap (M:=list) idOf). rewrite fmap_take.
  eapply sublist_NoDup; [|apply sublist_take].
  rewrite (sortDesc_Permutation _). by apply NoDup_map_filter.
Qed.
End DistinctFacts.

Section SearchMore.
Variable generateEmbedding : string -> option (list Q).
Variable voySearch : list VoyEntry -> list Q -> nat -> list Neighbor.
Variable flexSearch : list PunkDocument -> string -> nat -> option (list (list PunkDocument)).

(** X6: in hybrid mode (the default) and in keyword mode [search] never
    returns the same document twice, whatever the engines answer: the merge
    map is keyed by document id, and the keyword search skips an id it has
    listed already. *)
Theorem search_never_repeats_a_document
    (st : PunkRecords.State) (query : string)
    (limit0 : option nat) (threshold0 weight0 : option Q) (mode : option bool) :
  let options :=
    mkOptions limit0 threshold0
      (match mode with
       | None => None
       | Some true => Some hybrid
       | Some false => Some keyword
       end) weight0 in
  NoDup (map idOf (fst (PunkRecords.search generateEmbedding voySearch flexSearch
                          st query options))).
Proof.
  intros options. unfold PunkRecords.search. subst options.
  cbn [o_limit o_threshold o_searchMode o_semanticWeight].
  destruct mode as [[|]|]; cbn [default from_option id].
  - destruct (PunkRecords.semanticSearch generateEmbedding voySearch st query _) as [sem st1].
    destruct (PunkRecords.keywordSearch flexSearch st1 query _) as [kws st2]. simpl.
    apply rank_distinct, combine_distinct.
  - by destruct (keywordSearch_spec flexSearch st query (default 10 limit0)).
  - destruct (PunkRecords.semanticSearch generateEmbedding voySearch st query _) as [sem st1].
    destruct (PunkRecords.keywordSearch flexSearch st1 query _) as [kws st2]. simpl.
    apply rank_distinct, combine_distinct.
Qed.

Lemma fold_keywordStep_ranks docs (acc : list SearchResult) :
  (forall k r, acc !! k = Some r ->
     sr_score r = (1 / inject_Z (Z.of_nat (k + 1)))%Q /\ sr_matchType r = keyword) ->
  forall k r, fold_left PunkRecords.keywordStep docs acc !! k = Some r ->
     sr_score r = (1 / inject_Z (Z.of_nat (k + 1)))%Q /\ sr_matchType r = keyword.
Proof.
  revert acc. induction docs as [|d docs IH]; intros acc H; simpl; [done|].
  apply IH. unfold PunkRecords.keywordStep. destruct (existsb _ acc); [done|].
  intros k r Hk. apply lookup_app_Some in Hk as [Hk|[Hlen Hk]]; [by apply H|].
  destruct (k - length acc) as [|?] eqn:Hd; [|done]. injection Hk as <-. simpl.
  by replace k with (length acc) by lia.
Qed.

(** X7: [keywordSearch] returns at most [limit] results, with distinct
    document ids and tagged [keyword]; the score is a matter of position
    only: the result at position [k] (from 0) scores [1 / (k + 1)]. When
    the keyword engine throws, the result is empty. *)
Theorem keywordSearch_scores_by_position (st : PunkRecords.State) (query : string)
    (limit : nat) :
  let results := fst (PunkRecords.keywordSearch flexSearch st query limit) in
  length results <= limit
  /\ NoDup (map idOf results)
  /\ (forall k r, results !! k = Some r ->
        sr_score r = (1 / inject_Z (Z.of_nat (k + 1)))%Q /\ sr_matchType r = keyword)
  /\ (flexSearch (PunkRecords.flexIndex (PunkRecords.initialize st)) query limit = None ->
      results = []).
Proof.
  intros results. destruct (keywordSearch_spec flexSearch st query limit) as [Hnd _].
  fold results in Hnd. subst results. unfold PunkRecords.keywordSearch in *.
  destruct (flexSearch _ query limit) as [fields|]; simpl in *.
  - split; [rewrite length_take; lia|]. split; [done|]. split; [|done].
    intros k r Hk. apply lookup_take_Some in Hk as [Hk _].
    by apply (fold_keywordStep_ranks (concat fields) []).
  - split; [lia|]. split; [done|]. split; [|done]. intros k r Hk. done.
Qed.

End SearchMore.

(** ** Documents: adding, reading, deleting *)

Section DocumentFacts.
Variable generateEmbedding : string -> option (list Q).
Variable voySearch : list VoyEntry -> list Q -> nat -> list Neighbor.
Variable flexSearch : list PunkDocument -> string -> nat -> option (list (list PunkDocument)).

Lemma initialize_db st : PunkRecords.db (PunkRecords.initialize st) = PunkRecords.db st.
Proof. unfold PunkRecords.initialize. by destruct (PunkRecords.initialized st). Qed.

Lemma initialize_idem st :
  PunkRecords.initialize (PunkRecords.initialize st) = PunkRecords.initialize st.
Proof. unfold PunkRecords.initialize. by destruct (PunkRecords.initialized st) eqn:E; simpl; rewrite ?E. Qed.

Lemma initialize_done st :
  PunkRecords.initialized st = true -> PunkRecords.initialize st = st.
Proof. unfold PunkRecords.initialize. by intros ->. Qed.

Lemma keyed_initialize st : keyed st -> keyed (PunkRecords.initialize st).
Proof. unfold keyed. by rewrite initialize_db. Qed.

(** Every semantic hit is a document the store holds at that moment. *)
Lemma semanticSearch_stored st query limit r :
  r ∈ fst (PunkRecords.semanticSearch generateEmbedding voySearch st query limit) ->
  exists k, PunkRecords.db st !! k = Some (sr_document r).
Proof.
  unfold PunkRecords.semanticSearch. rewrite <- (initialize_db st).
  destruct (generateEmbedding query) as [q|]; [|by intros ?%elem_of_nil].
  destruct (PunkRecords.voyIndex (PunkRecords.initialize st)) as [index|];
    [|by intros ?%elem_of_nil].
  simpl. intros Hin. apply list_elem_of_omap in Hin as (nb & _ & Hr).
  destruct (PunkRecords.db (PunkRecords.initialize st) !! nb_id nb) as [doc|] eqn:Hd; [|done].
  injection Hr as <-. eauto.
Qed.

(** X8: [addDocument] stores the document under its fresh id, so that
    [getDocument] returns it at once, and leaves every other id as it was;
    the document is handed to the keyword engine in any case; when no
    embedding was asked for or the embedder throws, the document is stored
    all the same, without embedding, and the vector index stays as it was.
    The store stays keyed by the documents' own ids. *)
Theorem addDocument_then_getDocument
    (st : PunkRecords.State) (content : string) (metadata : DocumentMetadata)
    (wantEmbedding : bool) (uuid : string) (now : Z) :
  let doc := fst (PunkRecords.addDocument generateEmbedding st content metadata
                    wantEmbedding uuid now) in
  let st' := snd (PunkRecords.addDocument generateEmbedding st content metadata
                    wantEmbedding uuid now) in
  fst (PunkRecords.getDocument st' uuid) = Some doc
  /\ doc_id doc = uuid /\ doc_content doc = content /\ doc_metadata doc = metadata
  /\ (forall id, id <> uuid ->
        fst (PunkRecords.getDocument st' id) = fst (PunkRecords.getDocument st id))
  /\ doc ∈ PunkRecords.flexIndex st'
  /\ (wantEmbedding = false \/ generateEmbedding content = None ->
      doc_embedding doc = None
      /\ PunkRecords.voyIndex st' = PunkRecords.voyIndex (PunkRecords.initialize st))
  /\ (keyed st -> keyed st').
Proof.
  intros doc st'. unfold PunkRecords.getDocument.
  assert (Hinit : PunkRecords.initialize st' = st') by by apply initialize_done.
  rewrite Hinit. subst doc st'. unfold PunkRecords.addDocument. simpl.
  rewrite lookup_insert_eq. split; [done|]. split; [done|]. split; [done|]. split; [done|].
  split; [|split; [|split]].
  - intros id Hne. by rewrite lookup_insert_ne.
  - apply elem_of_app. right. apply list_elem_of_here.
  - intros [->|Hnone]; [done|]. rewrite Hnone. by destruct wantEmbedding.
  - intros Hk k d. cbn [PunkRecords.db]. destruct (decide (k = uuid)) as [->|Hne].
    + rewrite lookup_insert_eq. by intros [= <-].
    + rewrite lookup_insert_ne by done. apply (keyed_initialize st Hk).
Qed.

(** X9: [deleteDocument] removes the stored record only: [getDocument]
    no longer finds the id (other ids are unaffected), but both in-memory
    indices are left as they were, so a keyword search answers exactly as
    before the deletion, deleted document included; a semantic search,
    which reads each hit back from the store, never returns the deleted
    id. *)
Theorem deleteDocument_leaves_the_indices (st : PunkRecords.State) (id : string) :
  let st' := PunkRecords.deleteDocument st id in
  fst (PunkRecords.getDocument st' id) = None
  /\ (forall id', id' <> id ->
        fst (PunkRecords.getDocument st' id') = fst (PunkRecords.getDocument st id'))
  /\ PunkRecords.flexIndex st' = PunkRecords.flexIndex (PunkRecords.initialize st)
  /\ PunkRecords.voyIndex st' = PunkRecords.voyIndex (PunkRecords.initialize st)
  /\ (forall query limit,
        fst (PunkRecords.keywordSearch flexSearch st' query limit)
        = fst (PunkRecords.keywordSearch flexSearch st query limit))
  /\ (keyed st ->
      keyed st'
      /\ forall query limit r,
           r ∈ fst (PunkRecords.semanticSearch generateEmbedding voySearch st' query limit) ->
           idOf r <> id).
Proof.
  intros st'. unfold PunkRecords.getDocument.
  assert (Hinit : PunkRecords.initialize st' = st') by by apply initialize_done.
  rewrite Hinit. subst st'. unfold PunkRecords.deleteDocument. simpl.
  rewrite lookup_delete_eq. split; [done|]. split; [|split; [done|split; [done|split]]].
  - intros id' Hne. by rewrite lookup_delete_ne.
  - intros query limit. unfold PunkRecords.keywordSearch.
    rewrite initialize_done by done. simpl.
    by destruct (flexSearch _ query limit).
  - intros Hk.
    assert (Hk' : keyed (PunkRecords.mkState (delete id (PunkRecords.db (PunkRecords.initialize st)))
                          (PunkRecords.flexIndex (PunkRecords.initialize st))
                          (PunkRecords.voyIndex (PunkRecords.initialize st)) true)).
    { intros k d. cbn [PunkRecords.db]. destruct (decide (k = id)) as [->|Hne].
      - by rewrite lookup_delete_eq.
      - rewrite lookup_delete_ne by done. apply (keyed_initialize st Hk). }
    split; [done|]. intros query limit r Hin.
    apply semanticSearch_stored in Hin as (k & Hk1). pose proof (Hk' k _ Hk1) as Hid.
    simpl in Hk1. unfold idOf. rewrite Hid. intros ->. by rewrite lookup_delete_eq in Hk1.
Qed.

End DocumentFacts.

(** ** Sorting *)

Section SortFacts.
Context {A : Type}.

Lemma insertOrdered_Permutation (before : A -> A -> bool) x (l : list A) :
  PunkStores.insertOrdered before x l ≡ₚ x :: l.
Proof.
  induction l as [|y l IH]; simpl; [done|].
  destruct (before x y); [done|]. rewrite IH. apply Permutation_swap.
Qed.

Lemma foldr_insertOrdered_Permutation (before : A -> A -> bool) (l : list A) :
  foldr (PunkStores.insertOrdered before) [] l ≡ₚ l.
Proof.
  induction l as [|x l IH]; simpl; [done|].
  rewrite insertOrdered_Permutation. by rewrite IH.
Qed.

Lemma insertOrdered_sorted (key : A -> Z) x (l : list A) :
  StronglySorted (fun a b => (key a <= key b)%Z) l ->
  StronglySorted (fun a b => (key a <= key b)%Z)
    (PunkStores.insertOrdered (fun a b => (key a <=? key b)%Z) x l).
Proof.
  induction l as [|y l IH]; intros Hs; simpl.
  - repeat constructor.
  - apply StronglySorted_inv in Hs as [Hs Hy].
    destruct (Z.leb_spec (key x) (key y)) as [Hle|Hgt].
    + constructor; [by constructor|]. constructor; [done|].
      eapply List.Forall_impl; [|exact Hy]. intros z Hz. simpl in Hz. lia.
    + constructor; [by apply IH|].
      apply List.Forall_forall. intros z Hz.
      apply list_elem_of_In in Hz. rewrite insertOrdered_Permutation in Hz.
      apply elem_of_cons in Hz as [->|Hz]; [lia|].
      rewrite List.Forall_forall in Hy. apply Hy. by apply list_elem_of_In.
Qed.

Lemma insertDescBy_Permutation (score : A -> Q) x (l : list A) :
  JS.insertDescBy score x l ≡ₚ x :: l.
Proof.
  induction l as [|y l IH]; simpl; [done|].
  destruct (Qle_bool (score y) (score x)); [done|]. rewrite IH. apply Permutation_swap.
Qed.

Lemma sortDescBy_Permutation (score : A -> Q) (l : list A) : JS.sortDescBy score l ≡ₚ l.
Proof.
  induction l as [|x l IH]; simpl; [done|].
  rewrite insertDescBy_Permutation. by rewrite IH.
Qed.

Lemma insertDescBy_sorted (score : A -> Q) x (l : list A) :
  StronglySorted (fun a b => (score b <= score a)%Q) l ->
  StronglySorted (fun a b => (score b <= score a)%Q) (JS.insertDescBy score x l).
Proof.
  induction l as [|y l IH]; intros Hs; simpl.
  - repeat constructor.
  - apply StronglySorted_inv in Hs as [Hs Hy].
    destruct (Qle_bool (score y) (score x)) eqn:Hle.
    + apply Qle_bool_iff in Hle. constructor; [by constructor|].
      constructor; [done|].
      eapply List.Forall_impl; [|exact Hy]. intros z Hz. simpl in Hz.
      by eapply Qle_trans.
    + constructor; [by apply IH|].
      assert (Hxy : (score x <= score y)%Q).
      { destruct (Qlt_le_dec (score x) (score y)) as [Hlt|Hge].
        - by apply Qlt_le_weak.
        - apply Qle_bool_iff in Hge. congruence. }
      apply List.Forall_forall. intros z Hz.
      apply list_elem_of_In in Hz. rewrite insertDescBy_Permutation in Hz.
      apply elem_of_cons in Hz as [->|Hz]; [done|].
      rewrite List.Forall_forall in Hy. apply Hy. by apply list_elem_of_In.
Qed.

Lemma sortDescBy_sorted (score : A -> Q) (l : list A) :
  StronglySorted (fun a b => (score b <= score a)%Q) (JS.sortDescBy score l).
Proof.
  induction l as [|x l IH]; simpl; [constructor|]. by apply insertDescBy_sorted.
Qed.

Lemma StronglySorted_sublist (R : A -> A -> Prop) (l k : list A) :
  l `sublist_of` k -> StronglySorted R k -> StronglySorted R l.
Proof.
  induction 1 as [|x l k Hsub IH|x l k Hsub IH]; intros Hs.
  - constructor.
  - apply StronglySorted_inv in Hs as [Hs Hx]. constructor; [by apply IH|].
    apply List.Forall_forall. intros z Hz. rewrite List.Forall_forall in Hx.
    apply Hx. apply list_elem_of_In. eapply elem_of_sublist; [|exact Hsub].
    by apply list_elem_of_In.
  - apply StronglySorted_inv in Hs as [Hs _]. by apply IH.
Qed.

Lemma StronglySorted_snoc (R : A -> A -> Prop) (l : list A) x :
  StronglySorted R l -> Forall (fun z => R z x) l -> StronglySorted R (l ++ [x]).
Proof.
  induction l as [|y l IH]; intros Hs Hx; simpl.
  - repeat constructor.
  - apply StronglySorted_inv in Hs as [Hs Hy]. apply Forall_cons in Hx as [Hyx Hx].
    constructor; [by apply IH|]. apply Forall_app. split; [done|]. by repeat constructor.
Qed.

Lemma StronglySorted_rev (R : A -> A -> Prop) (l : list A) :
  StronglySorted R l -> StronglySorted (fun a b => R b a) (rev l).
Proof.
  induction l as [|x l IH]; intros Hs; simpl; [constructor|].
  apply StronglySorted_inv in Hs as [Hs Hx].
  apply StronglySorted_snoc; [by apply IH|].
  apply List.Forall_forall. intros z Hz. rewrite List.Forall_forall in Hx.
  apply Hx. by apply in_rev.
Qed.

End SortFacts.

(** ** The other object stores *)

Lemma byKey_Permutation {A} (m : gmap string A) : PunkStores.byKey m ≡ₚ (map_to_list m).*2.
Proof. unfold PunkStores.byKey. by rewrite foldr_insertOrdered_Permutation. Qed.

Lemma byTimestamp_Permutation (m : gmap string ContextSlice) :
  PunkStores.byTimestamp m ≡ₚ (map_to_list m).*2.
Proof.
  unfold PunkStores.byTimestamp. rewrite foldr_insertOrdered_Permutation.
  apply byKey_Permutation.
Qed.

Lemma byTimestamp_sorted (m : gmap string ContextSlice) :
  StronglySorted (fun a b => (s_timestamp a <= s_timestamp b)%Z) (PunkStores.byTimestamp m).
Proof.
  unfold PunkStores.byTimestamp. induction (PunkStores.byKey m) as [|x l IH]; simpl.
  - constructor.
  - by apply (insertOrdered_sorted s_timestamp).
Qed.

Lemma sliceFrom_sublist {A} (start : Z) (l : list A) : JS.sliceFrom start l `sublist_of` l.
Proof. unfold JS.sliceFrom. apply sublist_drop. Qed.

Lemma rev_drop_take {A} (k : nat) (l : list A) :
  rev (drop k l) = take (length l - k) (rev l).
Proof.
  destruct (Nat.le_gt_cases k (length l)) as [Hle|Hgt].
  - rewrite firstn_rev. by replace (length l - (length l - k)) with k by lia.
  - rewrite drop_ge by lia. by replace (length l - k) with 0 by lia.
Qed.

(** What [slices.slice(-limit).reverse()] returns. *)
Lemma recent_spec {A} (limit : Z) (l : list A) :
  ((0 < limit)%Z -> PunkStores.recent limit l = take (Z.to_nat limit) (rev l))
  /\ (limit = 0%Z -> PunkStores.recent limit l = rev l)
  /\ ((limit < 0)%Z -> PunkStores.recent limit l = rev (drop (Z.to_nat (- limit)) l)).
Proof.
  unfold PunkStores.recent, JS.sliceFrom. split; [|split].
  - intros Hpos. destruct (Z.ltb_spec (- limit) 0) as [_|Hge]; [|lia].
    rewrite rev_drop_take.
    destruct (Z.le_gt_cases limit (Z.of_nat (length l))) as [Hle|Hgt].
    + f_equal. lia.
    + replace (Z.to_nat (Z.max (Z.of_nat (length l) + - limit) 0)) with 0 by lia.
      rewrite Nat.sub_0_r. rewrite <- (length_rev l).
      rewrite firstn_all. rewrite take_ge; [done|]. rewrite length_rev. lia.
  - intros ->. simpl. by destruct l.
  - intros Hneg. destruct (Z.ltb_spec (- limit) 0) as [Hlt|_]; [lia|].
    destruct (Z.le_gt_cases (- limit) (Z.of_nat (length l))) as [Hle|Hgt].
    + by rewrite Z.min_l by lia.
    + rewrite Z.min_r by lia. rewrite Nat2Z.id. by rewrite !drop_ge by lia.
Qed.

(** X10: [getRecentContextSlices] reads the slices in ascending
    timestamp order and returns them newest first; for a positive [limit]
    these are the [limit] newest, but for [limit = 0] they are all the
    slices ([slice(-0)] is [slice(0)]), and a negative [limit] drops the
    oldest instead. *)
Theorem getRecentContextSlices_newest_first (st : PunkStores.Stores) (limit : Z) :
  let all := PunkStores.byTimestamp (PunkStores.context_slices st) in
  let result := fst (PunkStores.getRecentContextSlices st limit) in
  all ≡ₚ (map_to_list (PunkStores.context_slices st)).*2
  /\ StronglySorted (fun a b => (s_timestamp a <= s_timestamp b)%Z) all
  /\ StronglySorted (fun a b => (s_timestamp b <= s_timestamp a)%Z) result
  /\ ((0 < limit)%Z -> result = take (Z.to_nat limit) (rev all))
  /\ (limit = 0%Z -> result = rev all)
  /\ ((limit < 0)%Z -> result = rev (drop (Z.to_nat (- limit)) all)).
Proof.
  intros all result. subst result. unfold PunkStores.getRecentContextSlices. simpl.
  fold all. split; [apply byTimestamp_Permutation|]. split; [apply byTimestamp_sorted|].
  split; [|apply recent_spec].
  unfold PunkStores.recent.
  apply (StronglySorted_rev (fun a b => (s_timestamp a <= s_timestamp b)%Z)).
  eapply StronglySorted_sublist; [apply sliceFrom_sublist|apply byTimestamp_sorted].
Qed.

Section ClearFacts.
Variable generateEmbedding : string -> option (list Q).
Variable voySearch : list VoyEntry -> list Q -> nat -> list Neighbor.
Variable flexSearch : list PunkDocument -> string -> nat -> option (list (list PunkDocument)).

Lemma concat_nil_all {A} (ls : list (list A)) :
  (forall l x, l ∈ ls -> x ∈ l -> False) -> concat ls = [].
Proof.
  induction ls as [|l ls IH]; intros H; simpl; [done|].
  rewrite IH by (intros l' x Hl; apply (H l' x); by apply list_elem_of_further).
  rewrite app_nil_r. destruct l as [|x l]; [done|].
  exfalso. apply (H (x :: l) x); apply list_elem_of_here.
Qed.

(** X11: after [clear] the three stores are empty: [getStats] counts
    zero everywhere, [getDocument] finds nothing, there are no recent
    context slices and no agent memories, and a semantic search returns
    nothing whatever the engines answer; with a keyword engine that only
    answers with documents it was given, [search] returns nothing in every
    mode. *)
Theorem clear_empties_everything (st : PunkStores.Stores) :
  let st' := PunkStores.clear st in
  fst (PunkStores.getStats st') = mkStats 0 0 0
  /\ (forall id, fst (PunkRecords.getDocument (PunkStores.documents st') id) = None)
  /\ (forall limit, fst (PunkStores.getRecentContextSlices st' limit) = [])
  /\ (forall agentId type, fst (PunkStores.getAgentMemories st' agentId type) = [])
  /\ (forall query limit,
        fst (PunkRecords.semanticSearch generateEmbedding voySearch
               (PunkStores.documents st') query limit) = [])
  /\ (flexAnswersFromIndex flexSearch ->
      forall query options,
        fst (PunkRecords.search generateEmbedding voySearch flexSearch
               (PunkStores.documents st') query options) = []).
Proof.
  intros st'. subst st'. unfold PunkStores.clear.
  assert (Hsem : forall query limit,
            fst (PunkRecords.semanticSearch generateEmbedding voySearch
                   (PunkRecords.mkState ∅ [] (Some []) true) query limit) = []).
  { intros query limit. unfold PunkRecords.semanticSearch. simpl.
    destruct (generateEmbedding query) as [q|]; [|done]. simpl.
    induction (voySearch [] q limit) as [|nb nbs IH]; [done|]. csimpl.
    by rewrite lookup_empty. }
  split; [done|]. split; [done|]. split.
  { intros limit. unfold PunkStores.getRecentContextSlices, PunkStores.recent. simpl.
    unfold PunkStores.byTimestamp, PunkStores.byKey. rewrite map_to_list_empty. simpl.
    unfold JS.sliceFrom. by rewrite drop_nil. }
  split.
  { intros agentId type. unfold PunkStores.getAgentMemories. simpl.
    unfold PunkStores.byKey. rewrite map_to_list_empty. simpl.
    destruct type as [t|]; [|done]. by destruct (JS.truthy t). }
  split; [exact Hsem|].
  intros Hflex query options.
  assert (Hkw : forall limit,
            fst (PunkRecords.keywordSearch flexSearch
                   (PunkRecords.mkState ∅ [] (Some []) true) query limit) = []).
  { intros limit. unfold PunkRecords.keywordSearch. simpl.
    destruct (flexSearch [] query limit) as [fields|] eqn:Hf; [|done]. simpl.
    rewrite concat_nil_all; [by destruct limit|].
    intros l x Hl Hx. pose proof (Hflex _ _ _ _ _ _ Hf Hl Hx) as Hin.
    by apply elem_of_nil in Hin. }
  unfold PunkRecords.search. simpl PunkStores.documents.
  destruct (default hybrid (o_searchMode options)); [apply Hsem|apply Hkw|].
  pose proof (Hsem query (default 10 (o_limit options) * 2)) as H1.
  destruct (PunkRecords.semanticSearch generateEmbedding voySearch _ query _) as [sem st1]
    eqn:E1.
  assert (Hst1 : st1 = PunkRecords.mkState ∅ [] (Some []) true).
  { unfold PunkRecords.semanticSearch in E1. simpl in E1.
    destruct (generateEmbedding query); by injection E1 as _ <-. }
  subst st1. pose proof (Hkw (default 10 (o_limit options) * 2)) as H2.
  destruct (PunkRecords.keywordSearch flexSearch _ query _) as [kws st2].
  simpl in H1, H2. subst sem kws. simpl. unfold PunkRecords.rank. simpl.
  by destruct (default 10 (o_limit options)).
Qed.

End ClearFacts.

Lemma filter_Permutation {A} (f : A -> bool) (l k : list A) :
  l ≡ₚ k -> List.filter f l ≡ₚ List.filter f k.
Proof.
  induction 1 as [|x l k H IH|x y l|l1 l2 l3 H1 IH1 H2 IH2]; simpl.
  - done.
  - destruct (f x); [by rewrite IH|done].
  - destruct (f x), (f y); try done. apply Permutation_swap.
  - by rewrite IH1.
Qed.

Lemma filter_filter {A} (f g : A -> bool) (l : list A) :
  List.filter f (List.filter g l) = List.filter (fun x => g x && f x) l.
Proof.
  induction l as [|x l IH]; simpl; [done|].
  destruct (g x); simpl; [|done]. destruct (f x); by rewrite IH.
Qed.

(** X12: [getAgentMemories] returns exactly the stored memories of the
    agent (of the given type, when a non-empty one is given), most
    important first. *)
Theorem getAgentMemories_ranked (st : PunkStores.Stores) (agentId : string)
    (type : option string) :
  let wanted := fun m : AgentMemoryEntry =>
    String.eqb (mem_agentId m) agentId
    && match type with
       | Some t => negb (JS.truthy t) || String.eqb (mem_type m) t
       | None => true
       end in
  let result := fst (PunkStores.getAgentMemories st agentId type) in
  result ≡ₚ List.filter wanted (map_to_list (PunkStores.memories st)).*2
  /\ StronglySorted (fun a b => (mem_importance b <= mem_importance a)%Q) result.
Proof.
  intros wanted result. subst result. unfold PunkStores.getAgentMemories. simpl.
  split; [|apply sortDescBy_sorted].
  rewrite sortDescBy_Permutation.
  rewrite <- (filter_Permutation wanted _ _ (byKey_Permutation (PunkStores.memories st))).
  set (l := PunkStores.byKey (PunkStores.memories st)).
  unfold wanted. destruct type as [t|].
  - destruct (JS.truthy t); simpl.
    + by rewrite filter_filter.
    + erewrite filter_ext; [done|]. intros x. simpl. by rewrite andb_true_r.
  - erewrite filter_ext; [done|]. intros x. simpl. by rewrite andb_true_r.
Qed.

(** ** Chunking: edge cases and the overlap pass *)

Lemma truthy_nonempty (s : string) : JS.truthy s = true <-> s <> "".
Proof.
  unfold JS.truthy. destruct (String.eqb_spec s ""); simpl; split; congruence.
Qed.

Lemma pushIf_nonempty cur chunks :
  Forall (fun c => c <> "") chunks -> Forall (fun c => c <> "") (PunkRecords.pushIf cur chunks).
Proof.
  intros H. unfold PunkRecords.pushIf. destruct (JS.truthy cur) eqn:Ht; [|done].
  apply Forall_app. split; [done|]. constructor; [|constructor]. by apply truthy_nonempty.
Qed.

Lemma fold_wordStep_nonempty size words acc :
  Forall (fun c => c <> "") (fst acc) ->
  Forall (fun c => c <> "") (fst (fold_left (PunkRecords.wordStep size) words acc)).
Proof.
  revert acc. induction words as [|w words IH]; intros [chunks cur] H; simpl; [done|].
  apply IH. destruct (_ <=? size)%Z; simpl; [done|]. by apply pushIf_nonempty.
Qed.

Lemma fold_segmentStep_nonempty size sep segments acc :
  Forall (fun c => c <> "") (fst acc) ->
  Forall (fun c => c <> "") (fst (fold_left (PunkRecords.segmentStep size sep) segments acc)).
Proof.
  revert acc. induction segments as [|s segments IH]; intros [chunks cur] H; simpl; [done|].
  apply IH. destruct (_ <=? size)%Z; simpl; [done|].
  destruct (_ >? size)%Z; simpl.
  - apply fold_wordStep_nonempty. simpl. by apply pushIf_nonempty.
  - by apply pushIf_nonempty.
Qed.

Lemma append_nonempty_r (a b : string) : b <> "" -> a +:+ b <> "".
Proof. destruct a; simpl; [done|]. discriminate. Qed.

Lemma addOverlap_nonempty k prev chunks :
  Forall (fun c => c <> "") chunks ->
  Forall (fun c => c <> "") (PunkRecords.addOverlap k prev chunks).
Proof.
  revert prev. induction chunks as [|c chunks IH]; intros prev H; simpl; [done|].
  apply Forall_cons in H as [Hc H]. constructor; [|by apply IH].
  destruct prev as [p|]; [|done]. apply append_nonempty_r. discriminate.
Qed.

Lemma addOverlap_length k prev chunks :
  length (PunkRecords.addOverlap k prev chunks) = length chunks.
Proof.
  revert prev. induction chunks as [|c chunks IH]; intros prev; simpl; [done|].
  by rewrite IH.
Qed.

Lemma addOverlap_lookup k prev chunks i c :
  chunks !! i = Some c ->
  PunkRecords.addOverlap k prev chunks !! i
  = Some (match (match i with 0 => prev | S j => chunks !! j end) with
          | Some p => JS.slice_last k p +:+ " " +:+ c
          | None => c
          end).
Proof.
  revert prev i. induction chunks as [|x chunks IH]; intros prev i Hi; [done|].
  destruct i as [|i]; simpl in *.
  - by injection Hi as ->.
  - rewrite (IH (Some x) i Hi). destruct i; simpl; [done|]. done.
Qed.

Lemma substring_length (n m : nat) (s : string) :
  String.length (String.substring n m s) = Nat.min m (String.length s - n).
Proof.
  revert n m. induction s as [|c s IH]; intros n m; simpl.
  - destruct n, m; simpl; lia.
  - destruct n as [|n]; simpl.
    + destruct m as [|m]; simpl; [done|]. rewrite IH. lia.
    + apply IH.
Qed.

Lemma slice_last_length (k : nat) (s : string) :
  String.length (JS.slice_last k s) = Nat.min k (String.length s).
Proof. unfold JS.slice_last. rewrite substring_length. lia. Qed.

(** X13: [chunkText] never returns an empty chunk; the empty text gives
    no chunk at all; and a non-empty text that holds no separator and fits
    the chunk size comes back as the one chunk it is, with or without
    overlap. *)
Theorem chunkText_edge_cases :
  (forall config, PunkRecords.chunkText "" config = [])
  /\ (forall text config, Forall (fun c => c <> "") (PunkRecords.chunkText text config))
  /\ (forall text config,
        text <> "" ->
        JS.split (default (String "010" (String "010" "")) (separator config)) text = [text] ->
        (JS.len text <= chunkSize config)%Z ->
        PunkRecords.chunkText text config = [text]).
Proof.
  split; [|split].
  - intros config. unfold PunkRecords.chunkText.
    set (sep := default _ (separator config)).
    assert (Hsplit : JS.split sep "" = [] \/ JS.split sep "" = [""]).
    { unfold JS.split. destruct (String.eqb sep ""); [by left|by right]. }
    destruct Hsplit as [-> | ->]; simpl.
    + destruct (chunkOverlap config >? 0)%Z; reflexivity.
    + unfold PunkRecords.segmentStep, PunkRecords.wordStep. cbn [fold_left].
      repeat match goal with
             | |- context [if ?b then _ else _] =>
                 match b with
                 | (_ <=? _)%Z => destruct b
                 | (_ >? _)%Z => destruct b
                 end
             end; destruct (chunkOverlap config >? 0)%Z; reflexivity.
  - intros text config. unfold PunkRecords.chunkText.
    pose proof (fold_segmentStep_nonempty (chunkSize config)
                  (default (String "010" (String "010" "")) (separator config))
                  (JS.split (default (String "010" (String "010" "")) (separator config)) text)
                  ([], "")) as H.
    destruct (fold_left _ _ ([], "")) as [chunks0 cur]. simpl in H.
    specialize (H ltac:(constructor)).
    destruct (_ && _); [apply addOverlap_nonempty|]; by apply pushIf_nonempty.
  - intros text config Hne Hone Hfit. unfold PunkRecords.chunkText. rewrite Hone.
    cbn [fold_left]. unfold PunkRecords.segmentStep.
    change ("" +:+ text) with text.
    destruct (Z.leb_spec (JS.len text) (chunkSize config)) as [_|Hgt]; [|lia].
    cbn [fst snd].
    change ("" +:+ (if JS.truthy "" then _ else "") +:+ text) with text.
    unfold PunkRecords.pushIf.
    rewrite (proj2 (truthy_nonempty text) Hne). simpl. by rewrite andb_false_r.
Qed.

(** X14: with a positive overlap, [chunkText] returns the chunks it
    returns without overlap, the first one as it is and every later one
    prefixed with the last [chunkOverlap] characters of its predecessor and
    a space: a later chunk is [min (chunkOverlap, |predecessor|) + 1]
    characters longer than without overlap, the chunk size notwithstanding. *)
Theorem chunkText_overlap_lengthens (text : string) (config : ChunkConfig) :
  (0 < chunkOverlap config)%Z ->
  let base := PunkRecords.chunkText text
                (mkChunkConfig (chunkSize config) 0 (separator config)) in
  let chunks := PunkRecords.chunkText text config in
  length chunks = length base
  /\ chunks !! 0 = base !! 0
  /\ forall i p c, base !! i = Some p -> base !! S i = Some c ->
       chunks !! S i = Some (JS.slice_last (Z.to_nat (chunkOverlap config)) p +:+ " " +:+ c)
       /\ forall x, chunks !! S i = Some x ->
            JS.len x = (Z.min (chunkOverlap config) (JS.len p) + 1 + JS.len c)%Z.
Proof.
  intros Hov base chunks.
  assert (Hchunks : chunks = PunkRecords.addOverlap (Z.to_nat (chunkOverlap config)) None base).
  { subst chunks base. unfold PunkRecords.chunkText. simpl.
    destruct (fold_left _ _ ([], "")) as [chunks0 cur].
    destruct (Z.gtb_spec (chunkOverlap config) 0) as [_|Hno]; [|lia]. simpl.
    destruct (Nat.ltb_spec 1 (length (PunkRecords.pushIf cur chunks0))) as [_|Hshort]; [done|].
    destruct (PunkRecords.pushIf cur chunks0) as [|c0 [|c1 rest]]; simpl in *; [done|done|lia]. }
  rewrite Hchunks. split; [apply addOverlap_length|]. split.
  - destruct base as [|c0 rest]; [done|]. done.
  - intros i p c Hp Hc.
    rewrite (addOverlap_lookup _ None base (S i) c Hc), Hp.
    split; [done|]. intros x [= <-]. unfold JS.len.
    rewrite !length_append, slice_last_length. simpl. lia.
Qed.

Lemma chunkText_overlap_lengthens_witness :
  PunkRecords.chunkText "hello world foo" (mkChunkConfig 11 3 None) !! 1 = Some "rld foo"
  /\ (forall x, PunkRecords.chunkText "hello world foo" (mkChunkConfig 11 3 None) !! 1 = Some x ->
        JS.len x = 7%Z).
Proof.
  destruct (chunkText_overlap_lengthens "hello world foo" (mkChunkConfig 11 3 None)
              ltac:(simpl; lia)) as (_ & _ & Hi).
  exact (Hi 0 "hello world" "foo" eq_refl eq_refl).
Defined.


(** ** The context manager: bookkeeping *)

Section YorkFacts.
Variable generateSummary : list ConversationTurn -> Completion string.
Variable generateEmbedding : string -> Completion (list Q).
Variable putSlice : ContextSlice -> Completion unit.

Abbreviation evict := (York.performContextEviction generateSummary generateEmbedding putSlice).

(** What an eviction that ran to completion did. *)
Lemma performContextEviction_done st uuid storeUuid now k orig comp st' :
  evict st uuid storeUuid now = (Return (York.CutReport k orig comp), st') ->
  exists summary embedding,
    York.evaluateEviction st
    = mkDecision true (tokensToFree (York.evaluateEviction st)) k
        (priority (York.evaluateEviction st))
    /\ 0 < k <= length (York.conversationHistory st)
    /\ orig = York.sumTokens (take k (York.conversationHistory st))
    /\ comp = York.estimateTokens summary
    /\ st' = York.mkYork (drop k (York.conversationHistory st))
               (York.contextSlices st
                ++ [mkSlice uuid summary orig comp embedding now
                      (map (fun m => (turn_role m, turn_content m))
                           (take k (York.conversationHistory st)))])
               (York.withTokens (York.currentMetrics st)
                  (contextTokens (York.currentMetrics st) - orig))
               (York.storedSlices st
                ++ [mkSlice storeUuid summary orig comp embedding now
                      (map (fun m => (turn_role m, turn_content m))
                           (take k (York.conversationHistory st)))]).
Proof.
  unfold York.performContextEviction.
  destruct (York.evaluateEviction st) as [should toFree count prio] eqn:Hdec. simpl.
  destruct should; simpl; [|done].
  destruct (length (take count (York.conversationHistory st)) =? 0) eqn:Hlen; [done|].
  destruct (generateSummary _) as [summary|e]; [|done].
  destruct (generateEmbedding summary) as [embedding|e]; [|done].
  destruct (putSlice _) as [[]|e]; [|done].
  intros H. injection H as H. subst k orig comp st'. exists summary, embedding.
  split; [done|]. split; [|done].
  apply Nat.eqb_neq in Hlen. rewrite length_take in Hlen.
  assert (Hk : count <= length (York.conversationHistory st)).
  { unfold York.evaluateEviction in Hdec.
    destruct (York.Qltb _ _); [by injection Hdec|]. injection Hdec as _ <- _.
    pose proof (countMessages_spec (Qfloor (inject_Z (contextTokens (York.currentMetrics st))
        - inject_Z (maxContextTokens (York.currentMetrics st)) * York.TARGET_AFTER_EVICTION))
        0 0 (York.conversationHistory st)) as Hc.
    simpl in Hc. lia. }
  lia.
Qed.

Lemma performContextEviction_other st uuid storeUuid now outcome st' :
  evict st uuid storeUuid now = (outcome, st') ->
  (forall k orig comp, outcome <> Return (York.CutReport k orig comp)) ->
  st' = st.
Proof.
  unfold York.performContextEviction.
  destruct (shouldEvict (York.evaluateEviction st)); simpl; [|by intros [= _ <-]].
  destruct (length _ =? 0); [by intros [= _ <-]|].
  destruct (generateSummary _) as [summary|e]; [|by intros [= _ <-]].
  destruct (generateEmbedding summary) as [embedding|e]; [|by intros [= _ <-]].
  destruct (putSlice _) as [[]|e]; [|by intros [= _ <-]].
  intros [= <- _] H. exfalso. by eapply H.
Qed.

Lemma fold_evicted_shift (l : list ContextSlice) (a b : Z) :
  fold_left (fun sum s => (sum + s_originalTokenCount s)%Z) l (a + b)%Z
  = (a + fold_left (fun sum s => (sum + s_originalTokenCount s)%Z) l b)%Z.
Proof.
  revert b. induction l as [|s l IH]; intros b; simpl; [done|].
  by rewrite <- IH, Z.add_assoc.
Qed.


Lemma performContextEviction_consistent st uuid storeUuid now :
  York.consistent st -> York.consistent (snd (evict st uuid storeUuid now)).
Proof.
  destruct (evict st uuid storeUuid now) as [outcome st'] eqn:Hrun. simpl.
  assert (Hcases : (exists k orig comp, outcome = Return (York.CutReport k orig comp))
                   \/ (forall k orig comp, outcome <> Return (York.CutReport k orig comp))).
  { destruct outcome as [[s|k orig comp]|e]; [right; congruence|left; eauto|right; congruence]. }
  destruct Hcases as [(k & orig & comp & ->)|Hother].
  - destruct (performContextEviction_done _ _ _ _ _ _ _ _ Hrun)
      as (summary & embedding & _ & Hk & Horig & _ & ->).
    intros [Htok Hmax]. split; [|done]. simpl. rewrite Horig.
    pose proof (sumTokens_take_drop k (York.conversationHistory st)). lia.
  - by rewrite (performContextEviction_other _ _ _ _ _ _ Hrun Hother).
Qed.




End YorkFacts.

Lemma consistent_metrics st m' :
  York.consistent st -> contextTokens m' = contextTokens (York.currentMetrics st) ->
  maxContextTokens m' = maxContextTokens (York.currentMetrics st) ->
  forall slices stored,
    York.consistent (York.mkYork (York.conversationHistory st) slices m' stored).
Proof. intros [H1 H2] Ht Hm slices stored. split; simpl; congruence. Qed.

Lemma getResourceMetrics_consistent st :
  York.consistent st -> York.consistent (snd (York.getResourceMetrics st)).
Proof. intros H. by apply consistent_metrics. Qed.

Lemma optimizeResources_state st :
  snd (York.optimizeResources st)
  = York.mkYork (York.conversationHistory st)
      (if 10 <? length (York.contextSlices st)
       then drop (length (York.contextSlices st) - 10) (York.contextSlices st)
       else York.contextSlices st)
      (York.currentMetrics (York.updateMemoryEstimate st)) (York.storedSlices st).
Proof.
  unfold York.optimizeResources. simpl.
  destruct (10 <? length (York.contextSlices st)) eqn:Hn; simpl; [|done].
  f_equal. unfold JS.sliceFrom.
  destruct (Z.ltb_spec (Z.of_nat (length (York.contextSlices st) - 10)) 0); [lia|].
  f_equal. lia.
Qed.


(** X18: [optimizeResources] keeps the ten newest context slices and
    nothing else changes but the memory estimate: the slices that remain
    are the last [min 10 n] of the [n] there were, in order; history,
    token counter and stored slices are untouched; a second call removes
    no further slice; and the answer is never the empty string. *)
Theorem optimizeResources_keeps_ten_slices (st : York.State) :
  let st' := snd (York.optimizeResources st) in
  length (York.contextSlices st') = Nat.min 10 (length (York.contextSlices st))
  /\ York.contextSlices st'
     = drop (length (York.contextSlices st) - 10) (York.contextSlices st)
  /\ York.conversationHistory st' = York.conversationHistory st
  /\ contextTokens (York.currentMetrics st') = contextTokens (York.currentMetrics st)
  /\ York.storedSlices st' = York.storedSlices st
  /\ York.contextSlices (snd (York.optimizeResources st')) = York.contextSlices st'
  /\ fst (York.optimizeResources st) <> "".
Proof.
  intros st'. subst st'. rewrite !optimizeResources_state.
  cbn [York.contextSlices York.conversationHistory York.currentMetrics York.storedSlices].
  assert (Hdrop : (if 10 <? length (York.contextSlices st)
                   then drop (length (York.contextSlices st) - 10) (York.contextSlices st)
                   else York.contextSlices st)
                  = drop (length (York.contextSlices st) - 10) (York.contextSlices st)).
  { destruct (Nat.ltb_spec 10 (length (York.contextSlices st))); [done|].
    by replace (length (York.contextSlices st) - 10) with 0 by lia. }
  rewrite Hdrop. split; [rewrite length_drop; lia|]. split; [done|]. split; [done|].
  split; [done|]. split; [done|]. split.
  - destruct (Nat.ltb_spec 10 (length (drop (length (York.contextSlices st) - 10)
                                            (York.contextSlices st)))) as [Hlt|_]; [|done].
    rewrite length_drop in Hlt. lia.
  - unfold York.optimizeResources. simpl.
    destruct (10 <? _); destruct (0 <? _); simpl; discriminate.
Qed.


(** ** The context manager: evictions that overlap *)

Section OverlapFacts.
Variable generateSummary : list ConversationTurn -> Completion string.
Variable generateEmbedding : string -> Completion (list Q).
Variable putSlice : ContextSlice -> Completion unit.

Abbreviation finishEviction := (York.finishEviction generateSummary generateEmbedding putSlice).

(** A call nothing interleaves with is the two halves in a row. *)
Lemma performContextEviction_halves st uuid storeUuid now :
  York.performContextEviction generateSummary generateEmbedding putSlice st uuid storeUuid now
  = match York.beginEviction st with
    | inl reply => (Return reply, st)
    | inr held => finishEviction st held uuid storeUuid now
    end.
Proof.
  unfold York.performContextEviction, York.beginEviction.
  destruct (negb (shouldEvict (York.evaluateEviction st))); [done|].
  by destruct (length _ =? 0).
Qed.

Lemma beginEviction_held st held :
  York.beginEviction st = inr held ->
  shouldEvict (York.evaluateEviction st) = true
  /\ York.pe_decision held = York.evaluateEviction st
  /\ York.pe_messages held
     = take (messagesToSummarize (York.pe_decision held)) (York.conversationHistory st)
  /\ 0 < messagesToSummarize (York.pe_decision held)
     <= length (York.conversationHistory st).
Proof.
  unfold York.beginEviction.
  destruct (shouldEvict (York.evaluateEviction st)) eqn:Hs; simpl; [|done].
  destruct (length _ =? 0) eqn:Hlen; [done|]. intros [= <-]. simpl.
  split; [done|]. split; [done|]. split; [done|].
  apply Nat.eqb_neq in Hlen. rewrite length_take in Hlen.
  split; [lia|].
  unfold York.evaluateEviction in *. destruct (York.Qltb _ _); [done|]. simpl.
  pose proof (countMessages_spec
                (Qfloor (inject_Z (contextTokens (York.currentMetrics st))
                         - inject_Z (maxContextTokens (York.currentMetrics st))
                           * York.TARGET_AFTER_EVICTION)) 0 0
                (York.conversationHistory st)) as Hc.
  simpl in Hc. lia.
Qed.

Lemma finishEviction_done st held uuid storeUuid now reply st' :
  finishEviction st held uuid storeUuid now = (Return reply, st') ->
  exists summary embedding,
    York.conversationHistory st'
    = drop (messagesToSummarize (York.pe_decision held)) (York.conversationHistory st)
    /\ York.contextSlices st'
       = York.contextSlices st
         ++ [mkSlice uuid summary (York.sumTokens (York.pe_messages held))
               (York.estimateTokens summary) embedding now
               (map (fun m => (turn_role m, turn_content m)) (York.pe_messages held))]
    /\ contextTokens (York.currentMetrics st')
       = (contextTokens (York.currentMetrics st)
          - York.sumTokens (York.pe_messages held))%Z.
Proof.
  unfold York.finishEviction.
  destruct (generateSummary _) as [summary|e]; [|done].
  destruct (generateEmbedding summary) as [embedding|e]; [|done].
  destruct (putSlice _) as [[]|e]; [|done].
  intros [= _ <-]. exists summary, embedding. done.
Qed.

(** X17: two evictions that overlap cut the history twice, and the token
    counter no longer matches it.  An eviction reads its decision and the
    turns to evict before its first [await] and writes York's fields
    after its last; [addConversationTurn] fires it without awaiting it.
    So when a turn is added while an eviction begun in state [st] is still
    waiting, the eviction fired by that turn begins as well, and then
    both run to their end (the first, then the second), then: the turn
    did fire an eviction; both evictions have read a non-empty prefix of
    the same history, its [k1] respectively [k2] oldest turns; the
    history is cut by [k1] and then by [k2] turns, so it loses its
    [k1 + k2] oldest turns (as far as there are that many), more than
    either eviction has read; the two new slices hold the messages of the
    two prefixes; the counter is lowered by the token sums of the two
    prefixes; and if the counter was the token sum of the history in
    [st], it now differs from the token sum of the remaining history by
    the tokens of the turns cut minus the tokens subtracted. *)
Theorem overlapping_evictions_evict_twice
    (st : York.State) (turn : ConversationTurn) (first second : York.PendingEviction)
    (uuid1 storeUuid1 uuid2 storeUuid2 : string) (now1 now2 : Z)
    (reply1 reply2 : York.Reply) (st2 st3 : York.State) :
  let st1 := fst (York.addConversationTurn st turn) in
  let history := York.conversationHistory st1 in
  let k1 := messagesToSummarize (York.pe_decision first) in
  let k2 := messagesToSummarize (York.pe_decision second) in
  York.beginEviction st = inr first ->
  York.beginEviction st1 = inr second ->
  finishEviction st1 first uuid1 storeUuid1 now1 = (Return reply1, st2) ->
  finishEviction st2 second uuid2 storeUuid2 now2 = (Return reply2, st3) ->
  snd (York.addConversationTurn st turn) = true
  /\ 0 < k1 /\ 0 < k2
  /\ York.pe_messages first = take k1 history
  /\ York.pe_messages second = take k2 history
  /\ York.conversationHistory st3 = drop (k1 + k2) history
  /\ (exists slice1 slice2,
        York.contextSlices st3 = York.contextSlices st ++ [slice1; slice2]
        /\ s_messages slice1 = map (fun m => (turn_role m, turn_content m)) (take k1 history)
        /\ s_messages slice2 = map (fun m => (turn_role m, turn_content m)) (take k2 history))
  /\ contextTokens (York.currentMetrics st3)
     = (contextTokens (York.currentMetrics st1)
        - York.sumTokens (take k1 history) - York.sumTokens (take k2 history))%Z
  /\ (York.consistent st ->
      (contextTokens (York.currentMetrics st3)
       - York.sumTokens (York.conversationHistory st3))%Z
      = (York.sumTokens (take (k1 + k2) history)
         - York.sumTokens (take k1 history) - York.sumTokens (take k2 history))%Z).
Proof.
  intros st1 history k1 k2 Hb1 Hb2 Hf1 Hf2.
  destruct (beginEviction_held _ _ Hb1) as (_ & _ & Hm1 & Hk1).
  destruct (beginEviction_held _ _ Hb2) as (Hfired & _ & Hm2 & Hk2).
  fold k1 in Hm1, Hk1. fold k2 in Hm2, Hk2.
  destruct (finishEviction_done _ _ _ _ _ _ _ Hf1) as (sum1 & emb1 & Hh2 & Hs2 & Ht2).
  destruct (finishEviction_done _ _ _ _ _ _ _ Hf2) as (sum2 & emb2 & Hh3 & Hs3 & Ht3).
  fold k1 in Hh2. fold k2 in Hh3.
  assert (Hfirst : York.pe_messages first = take k1 history).
  { rewrite Hm1. unfold history, st1. simpl. rewrite take_app_le by lia. done. }
  split; [exact Hfired|]. split; [lia|]. split; [lia|].
  split; [exact Hfirst|]. split; [exact Hm2|]. split.
  { rewrite Hh3, Hh2, drop_drop. done. }
  split.
  { eexists _, _. split.
    - rewrite Hs3, Hs2, <- app_assoc. reflexivity.
    - simpl. by rewrite Hfirst, Hm2. }
  assert (Htok : contextTokens (York.currentMetrics st3)
                 = (contextTokens (York.currentMetrics st1)
                    - York.sumTokens (take k1 history)
                    - York.sumTokens (take k2 history))%Z).
  { rewrite Ht3, Ht2, Hfirst, Hm2. done. }
  split; [exact Htok|].
  intros Hc.
  pose proof (addConversationTurn_consistent st turn Hc) as [Hc1 _]. fold st1 in Hc1.
  rewrite Htok, Hc1, Hh3, Hh2, drop_drop. fold history.
  pose proof (sumTokens_take_drop (k1 + k2) history). lia.
Qed.

End OverlapFacts.

Lemma overlapping_evictions_evict_twice_witness :
  let turn := mkTurn "turn-2" "user" "ok" 10 in
  let st1 := fst (York.addConversationTurn twoLongTurns turn) in
  exists first second reply1 st2 reply2 st3,
    York.beginEviction twoLongTurns = inr first
    /\ York.beginEviction st1 = inr second
    /\ York.finishEviction fixedSummary fixedEmbedding putSucceeds st1 first
         "slice-1" "stored-1" 100 = (Return reply1, st2)
    /\ York.finishEviction fixedSummary fixedEmbedding putSucceeds st2 second
         "slice-2" "stored-2" 200 = (Return reply2, st3)
    /\ York.consistent twoLongTurns
    /\ York.pe_messages first = [mkTurn "turn-0" "user" "..." 1500]
    /\ York.pe_messages second = [mkTurn "turn-0" "user" "..." 1500]
    /\ York.conversationHistory st3 = [turn]
    /\ contextTokens (York.currentMetrics st3) = 510%Z
    /\ York.sumTokens (York.conversationHistory st3) = 10%Z.
Proof.
  intros turn st1.
  destruct (York.beginEviction twoLongTurns) as [|first] eqn:H1; [by vm_compute in H1|].
  destruct (York.beginEviction st1) as [|second] eqn:H2; [by vm_compute in H2|].
  destruct (York.finishEviction fixedSummary fixedEmbedding putSucceeds st1 first
              "slice-1" "stored-1" 100) as [[reply1|] st2] eqn:H3;
    [|by vm_compute in H3].
  destruct (York.finishEviction fixedSummary fixedEmbedding putSucceeds st2 second
              "slice-2" "stored-2" 200) as [[reply2|] st3] eqn:H4;
    [|by vm_compute in H4].
  exists first, second, reply1, st2, reply2, st3.
  destruct (overlapping_evictions_evict_twice fixedSummary fixedEmbedding putSucceeds
              twoLongTurns turn first second "slice-1" "stored-1" "slice-2" "stored-2"
              100 200 reply1 reply2 st2 st3 H1 H2 H3 H4)
    as (_ & _ & _ & Hm1 & Hm2 & Hh & _ & Ht & _).
  vm_compute in H1, H2. injection H1 as <-. injection H2 as <-.
  split; [done|]. split; [done|]. split; [done|]. split; [done|].
  split; [by vm_compute|]. split; [exact Hm1|]. split; [exact Hm2|].
  rewrite Ht, Hh. by vm_compute.
Defined.

(** The same run with the second eviction awaited before the turn is
    added: one turn is evicted, and the counter is the token sum of what
    is left. *)
Example evictions_in_turn_keep_the_counter :
  let st2 := snd (York.performContextEviction fixedSummary fixedEmbedding putSucceeds
                    twoLongTurns "slice-1" "stored-1" 100) in
  let st3 := fst (York.addConversationTurn st2 (mkTurn "turn-2" "user" "ok" 10)) in
  snd (York.addConversationTurn st2 (mkTurn "turn-2" "user" "ok" 10)) = false
  /\ contextTokens (York.currentMetrics st3) = 2010%Z
  /\ York.sumTokens (York.conversationHistory st3) = 2010%Z.
Proof. by vm_compute. Qed.


(** ** The MCP client and the tool runner *)

Section ClientFacts.
Variable parseUrl : Completion unit.
Variable url : string.
Variable clientConnect : nat -> Completion (list string * list string * list string).
Variable generateSessionId : nat -> string.

Abbreviation connect :=
  (MCPBrowserClient.connect parseUrl url clientConnect generateSessionId).

Lemma connect_inv fuel st outcome st' :
  clientInv st -> connect fuel st = Some (outcome, st') -> clientInv st'.
Proof.
  revert st. induction fuel as [|fuel IH]; intros st [Hs Hr]; simpl; [done|].
  destruct (MCPBrowserClient.status_eqb _ _); [by intros [= _ <-]|].
  destruct parseUrl as [[]|e].
  - destruct (clientConnect _) as [[[tools resources] prompts]|e].
    + intros [= _ <-]. split; [|simpl; lia].
      intros s. simpl. by intros [= <-].
    + simpl. unfold MCPBrowserClient.maxRetries.
      destruct (Z.ltb_spec (MCPBrowserClient.retryCount st) 3).
      * apply IH. split; [exact Hs|simpl; lia].
      * intros [= _ <-]. split; [exact Hs|simpl; lia].
  - simpl. unfold MCPBrowserClient.maxRetries.
    destruct (Z.ltb_spec (MCPBrowserClient.retryCount st) 3).
    + apply IH. split; [exact Hs|simpl; lia].
    + intros [= _ <-]. split; [exact Hs|simpl; lia].
Qed.

Lemma connect_spec fuel st :
  MCPBrowserClient.connectionStatus st <> MCPBrowserClient.connected ->
  (0 <= MCPBrowserClient.retryCount st <= 3)%Z ->
  Z.to_nat (3 - MCPBrowserClient.retryCount st) < fuel ->
  exists outcome st' k,
    connect fuel st = Some (outcome, st')
    /\ k <= Z.to_nat (3 - MCPBrowserClient.retryCount st)
    /\ MCPBrowserClient.waits st'
       = MCPBrowserClient.waits st
         ++ take k (drop (Z.to_nat (MCPBrowserClient.retryCount st)) [2000; 4000; 8000]%Z)
    /\ MCPBrowserClient.connects st <= MCPBrowserClient.connects st'
       <= MCPBrowserClient.connects st + S k
    /\ match outcome with
       | Return _ =>
           MCPBrowserClient.isConnected st' = true
           /\ MCPBrowserClient.retryCount st' = 0%Z
       | Throw _ =>
           k = Z.to_nat (3 - MCPBrowserClient.retryCount st)
           /\ MCPBrowserClient.connectionStatus st' = MCPBrowserClient.error
           /\ MCPBrowserClient.retryCount st' = 3%Z
           /\ MCPBrowserClient.session st' = MCPBrowserClient.session st
       end.
Proof.
  revert st. induction fuel as [|fuel IH]; intros st Hst Hr Hfuel; [lia|].
  simpl.
  destruct (MCPBrowserClient.status_eqb (MCPBrowserClient.connectionStatus st)
              MCPBrowserClient.connected) eqn:Hc.
  { by destruct (MCPBrowserClient.connectionStatus st). }
  assert (Hretry : forall c t,
    c <= S (MCPBrowserClient.connects st) -> MCPBrowserClient.connects st <= c ->
    forall e, exists outcome st' k,
      (let st3 := MCPBrowserClient.withStatus
                    (MCPBrowserClient.mkClient t (MCPBrowserClient.session st)
                       MCPBrowserClient.connecting (MCPBrowserClient.retryCount st) c
                       (MCPBrowserClient.waits st)) MCPBrowserClient.error in
       if (MCPBrowserClient.retryCount st3 <? MCPBrowserClient.maxRetries)%Z
       then connect fuel
              (MCPBrowserClient.mkClient (MCPBrowserClient.transport st3)
                 (MCPBrowserClient.session st3) (MCPBrowserClient.connectionStatus st3)
                 (MCPBrowserClient.retryCount st3 + 1) (MCPBrowserClient.connects st3)
                 (MCPBrowserClient.waits st3
                  ++ [Z.min (1000 * 2 ^ (MCPBrowserClient.retryCount st3 + 1)) 10000]))
       else Some (Throw ("Failed to connect to MCP server: " +:+ e), st3))
      = Some (outcome, st')
      /\ k <= Z.to_nat (3 - MCPBrowserClient.retryCount st)
      /\ MCPBrowserClient.waits st'
         = MCPBrowserClient.waits st
           ++ take k (drop (Z.to_nat (MCPBrowserClient.retryCount st)) [2000; 4000; 8000]%Z)
      /\ MCPBrowserClient.connects st <= MCPBrowserClient.connects st'
         <= MCPBrowserClient.connects st + S k
      /\ match outcome with
         | Return _ =>
             MCPBrowserClient.isConnected st' = true
             /\ MCPBrowserClient.retryCount st' = 0%Z
         | Throw _ =>
             k = Z.to_nat (3 - MCPBrowserClient.retryCount st)
             /\ MCPBrowserClient.connectionStatus st' = MCPBrowserClient.error
             /\ MCPBrowserClient.retryCount st' = 3%Z
             /\ MCPBrowserClient.session st' = MCPBrowserClient.session st
         end).
  { intros c t Hc1 Hc2 e. cbn [MCPBrowserClient.withStatus MCPBrowserClient.retryCount
      MCPBrowserClient.transport MCPBrowserClient.session MCPBrowserClient.connectionStatus
      MCPBrowserClient.connects MCPBrowserClient.waits].
    unfold MCPBrowserClient.maxRetries.
    destruct (Z.ltb_spec (MCPBrowserClient.retryCount st) 3) as [Hlt|Hge].
    - edestruct (IH (MCPBrowserClient.mkClient t (MCPBrowserClient.session st)
                       MCPBrowserClient.error (MCPBrowserClient.retryCount st + 1) c
                       (MCPBrowserClient.waits st
                        ++ [Z.min (1000 * 2 ^ (MCPBrowserClient.retryCount st + 1)) 10000])))
        as (outcome & st' & k & Hrun & Hk & Hw & Hn & Hout);
        [done|simpl; lia|simpl; lia|].
      simpl in Hk, Hw, Hn, Hout.
      exists outcome, st', (S k). split; [exact Hrun|]. split; [lia|].
      split.
      { rewrite Hw, <- app_assoc. f_equal.
        assert (Hcases : (MCPBrowserClient.retryCount st = 0
                          \/ MCPBrowserClient.retryCount st = 1
                          \/ MCPBrowserClient.retryCount st = 2)%Z) by lia.
        destruct Hcases as [->|[->| ->]]; reflexivity. }
      split; [lia|].
      destruct outcome as [[]|e']; [done|].
      destruct Hout as (-> & H1 & H2 & H3). split; [lia|]. done.
    - exists (Throw ("Failed to connect to MCP server: " +:+ e)), 
        (MCPBrowserClient.mkClient t (MCPBrowserClient.session st)
           MCPBrowserClient.error (MCPBrowserClient.retryCount st) c (MCPBrowserClient.waits st)), 0.
      split; [done|]. split; [lia|]. simpl. rewrite take_0, app_nil_r.
      split; [done|]. split; [lia|]. split; [lia|]. split; [done|]. split; [lia|]. done. }
  destruct parseUrl as [[]|e].
  - cbn [MCPBrowserClient.withStatus MCPBrowserClient.connects MCPBrowserClient.session
         MCPBrowserClient.connectionStatus MCPBrowserClient.retryCount MCPBrowserClient.waits].
    destruct (clientConnect _) as [[[tools resources] prompts]|e].
    + eexists _, _, 0. split; [reflexivity|]. split; [lia|]. simpl.
      rewrite take_0, app_nil_r. split; [done|]. split; [lia|]. done.
    + apply (Hretry (S (MCPBrowserClient.connects st)) true); lia.
  - apply (Hretry (MCPBrowserClient.connects st) (MCPBrowserClient.transport st)); lia.
Qed.

End ClientFacts.

Lemma disconnect_inv transportClose st :
  clientInv st -> clientInv (MCPBrowserClient.disconnect transportClose st).
Proof.
  intros [Hs Hr]. unfold MCPBrowserClient.disconnect.
  destruct (MCPBrowserClient.transport st); [|done].
  destruct transportClose as [[]|e]; [|done].
  split; [|simpl; lia]. intros s. simpl. done.
Qed.

Lemma clientReachable_inv st : clientReachable st -> clientInv st.
Proof.
  induction 1 as [|pu url cc gs fuel st outcome st' _ IH Hrun|tc st _ IH].
  - split; [|simpl; lia]. intros s. simpl. done.
  - by eapply connect_inv.
  - by apply disconnect_inv.
Qed.

(** ** The MCP client: after a failed connect *)

Lemma keptDown_inv st st1 :
  MCPBrowserClient.connectionStatus st <> MCPBrowserClient.connected ->
  MCPBrowserClient.retryCount st = 3%Z ->
  keptDown st st1 ->
  MCPBrowserClient.connectionStatus st1 <> MCPBrowserClient.connected
  /\ MCPBrowserClient.retryCount st1 = 3%Z
  /\ MCPBrowserClient.waits st1 = MCPBrowserClient.waits st.
Proof.
  intros Hst Hr. induction 1 as [|pu url cc gs fuel st1 e st2 _ IH Hrun|tc st1 _ IH].
  - done.
  - destruct IH as (Hst1 & Hr1 & Hw1).
    destruct fuel as [|fuel]; [done|].
    destruct (connect_spec pu url cc gs (S fuel) st1 Hst1)
      as (outcome & st' & k & Hrun' & Hk & Hw & _ & Hout); [lia|rewrite Hr1; simpl; lia|].
    rewrite Hrun in Hrun'. injection Hrun' as <- <-.
    destruct Hout as (_ & Herr & Hr2 & _).
    split; [by rewrite Herr|]. split; [done|].
    rewrite Hr1 in Hk. simpl in Hk. assert (k = 0) as -> by lia.
    by rewrite Hw, take_0, app_nil_r.
  - destruct IH as (Hst1 & Hr1 & Hw1). unfold MCPBrowserClient.disconnect.
    destruct (MCPBrowserClient.transport st1); [|done].
    destruct tc as [[]|e]; [|done]. simpl. done.
Qed.

(** X19: the retry budget of [connect] is spent once and restored by a
    success only.  On a client that is not connected (in any state
    reached by [connect] and [disconnect] calls), [connect] settles within
    four calls of itself: it retries at most [3 - retryCount] times,
    sleeping 2000, 4000 and 8000 ms before the retries its counter still
    allows, and calls the SDK at most once per try.  On success the client
    is connected and the counter is back at 0.  On failure the status is
    [error], the session is what it was and the counter is at 3, where it
    stays through every further failed [connect] and every [disconnect]:
    until a [connect] succeeds, each one makes a single try and never
    waits, whatever the server does. *)
Theorem connect_spends_its_retries_once
    (parseUrl : Completion unit) (url : string)
    (clientConnect : nat -> Completion (list string * list string * list string))
    (generateSessionId : nat -> string) (st : MCPBrowserClient.State) :
  clientReachable st ->
  MCPBrowserClient.connectionStatus st <> MCPBrowserClient.connected ->
  exists outcome st' retries,
    MCPBrowserClient.connect parseUrl url clientConnect generateSessionId 4 st
      = Some (outcome, st')
    /\ retries <= Z.to_nat (3 - MCPBrowserClient.retryCount st)
    /\ MCPBrowserClient.waits st'
       = MCPBrowserClient.waits st
         ++ take retries (drop (Z.to_nat (MCPBrowserClient.retryCount st))
                               [2000; 4000; 8000]%Z)
    /\ MCPBrowserClient.connects st' <= MCPBrowserClient.connects st + S retries
    /\ match outcome with
       | Return _ =>
           MCPBrowserClient.isConnected st' = true
           /\ MCPBrowserClient.retryCount st' = 0%Z
       | Throw _ =>
           retries = Z.to_nat (3 - MCPBrowserClient.retryCount st)
           /\ MCPBrowserClient.connectionStatus st' = MCPBrowserClient.error
           /\ MCPBrowserClient.retryCount st' = 3%Z
           /\ MCPBrowserClient.session st' = MCPBrowserClient.session st
           /\ forall st1, keptDown st' st1 ->
                MCPBrowserClient.retryCount st1 = 3%Z
                /\ MCPBrowserClient.waits st1 = MCPBrowserClient.waits st'
                /\ forall parseUrl' url' clientConnect' generateSessionId',
                     exists outcome' st2,
                       MCPBrowserClient.connect parseUrl' url' clientConnect'
                         generateSessionId' 4 st1 = Some (outcome', st2)
                       /\ MCPBrowserClient.waits st2 = MCPBrowserClient.waits st1
                       /\ MCPBrowserClient.connects st2 <= S (MCPBrowserClient.connects st1)
                       /\ MCPBrowserClient.retryCount st2
                          = match outcome' with Return _ => 0%Z | Throw _ => 3%Z end
       end.
Proof.
  intros Hreach Hst. destruct (clientReachable_inv st Hreach) as [_ Hr].
  destruct (connect_spec parseUrl url clientConnect generateSessionId 4 st Hst Hr)
    as (outcome & st' & k & Hrun & Hk & Hw & Hn & Hout); [lia|].
  exists outcome, st', k. split; [exact Hrun|]. split; [exact Hk|]. split; [exact Hw|].
  split; [lia|]. destruct outcome as [[]|e]; [exact Hout|].
  destruct Hout as (Hk' & Herr & Hr' & Hs). do 4 (split; [done|]).
  intros st1 Hdown.
  destruct (keptDown_inv st' st1) as (Hst1 & Hr1 & Hw1); [by rewrite Herr|done|done|].
  split; [done|]. split; [done|].
  intros parseUrl' url' clientConnect' generateSessionId'.
  destruct (connect_spec parseUrl' url' clientConnect' generateSessionId' 4 st1 Hst1)
    as (outcome' & st2 & k' & Hrun' & Hk'' & Hw' & Hn' & Hout'); [lia|rewrite Hr1; simpl; lia|].
  exists outcome', st2. split; [exact Hrun'|].
  rewrite Hr1 in Hk'', Hw'. simpl in Hk''. assert (k' = 0) as -> by lia.
  rewrite take_0, app_nil_r in Hw'. split; [done|]. split; [lia|].
  destruct outcome' as [[]|e']; [by destruct Hout'|by destruct Hout' as (_ & _ & ? & _)].
Qed.

Lemma connect_spends_its_retries_once_witness :
  exists outcome st' retries,
    MCPBrowserClient.connect (Return tt) "http://localhost:3000/mcp" serverDown sessionName
      4 MCPBrowserClient.new = Some (outcome, st')
    /\ retries <= Z.to_nat (3 - MCPBrowserClient.retryCount MCPBrowserClient.new)
    /\ MCPBrowserClient.waits st'
       = MCPBrowserClient.waits MCPBrowserClient.new
         ++ take retries (drop (Z.to_nat (MCPBrowserClient.retryCount MCPBrowserClient.new))
                               [2000; 4000; 8000]%Z)
    /\ MCPBrowserClient.connects st'
       <= MCPBrowserClient.connects MCPBrowserClient.new + S retries
    /\ match outcome with
       | Return _ =>
           MCPBrowserClient.isConnected st' = true
           /\ MCPBrowserClient.retryCount st' = 0%Z
       | Throw _ =>
           retries = Z.to_nat (3 - MCPBrowserClient.retryCount MCPBrowserClient.new)
           /\ MCPBrowserClient.connectionStatus st' = MCPBrowserClient.error
           /\ MCPBrowserClient.retryCount st' = 3%Z
           /\ MCPBrowserClient.session st' = MCPBrowserClient.session MCPBrowserClient.new
           /\ forall st1, keptDown st' st1 ->
                MCPBrowserClient.retryCount st1 = 3%Z
                /\ MCPBrowserClient.waits st1 = MCPBrowserClient.waits st'
                /\ forall parseUrl' url' clientConnect' generateSessionId',
                     exists outcome' st2,
                       MCPBrowserClient.connect parseUrl' url' clientConnect'
                         generateSessionId' 4 st1 = Some (outcome', st2)
                       /\ MCPBrowserClient.waits st2 = MCPBrowserClient.waits st1
                       /\ MCPBrowserClient.connects st2 <= S (MCPBrowserClient.connects st1)
                       /\ MCPBrowserClient.retryCount st2
                          = match outcome' with Return _ => 0%Z | Throw _ => 3%Z end
       end.
Proof.
  apply (connect_spends_its_retries_once (Return tt) "http://localhost:3000/mcp"
           serverDown sessionName MCPBrowserClient.new).
  - apply client_new.
  - discriminate.
Defined.

(** After the budget is spent, a server that has come back connects the
    client at the first try, and the next failure has its three retries
    again. *)
Example budget_is_restored_by_a_success :
  exists down up again,
    MCPBrowserClient.connect (Return tt) "http://localhost:3000/mcp" serverDown sessionName
      4 MCPBrowserClient.new
    = Some (Throw "Failed to connect to MCP server: fetch failed", down)
    /\ MCPBrowserClient.connect (Return tt) "http://localhost:3000/mcp"
         (fun _ => Return (["search"], [], [])) sessionName 4 down
       = Some (Return tt, up)
    /\ MCPBrowserClient.retryCount up = 0%Z
    /\ MCPBrowserClient.connect (Return tt) "http://localhost:3000/mcp" serverDown
         sessionName 4 (MCPBrowserClient.disconnect (Return tt) up)
       = Some (Throw "Failed to connect to MCP server: fetch failed", again)
    /\ MCPBrowserClient.waits again
       = [2000; 4000; 8000; 2000; 4000; 8000]%Z.
Proof.
  eexists _, _, _. split; [vm_compute; reflexivity|].
  split; [vm_compute; reflexivity|]. split; [reflexivity|].
  split; [vm_compute; reflexivity|reflexivity].
Qed.

(** A server that is down costs a new client four attempts and the waits
    of 2, 4 and 8 seconds; one that answers the second attempt leaves the
    client connected after one wait. *)
Example connect_against_a_dead_server :
  exists st',
    MCPBrowserClient.connect (Return tt) "http://localhost:3000/mcp" serverDown sessionName
      4 MCPBrowserClient.new
    = Some (Throw "Failed to connect to MCP server: fetch failed", st')
    /\ MCPBrowserClient.connects st' = 4
    /\ MCPBrowserClient.waits st' = [2000; 4000; 8000]%Z
    /\ exists st'',
         MCPBrowserClient.connect (Return tt) "http://localhost:3000/mcp" serverDown
           sessionName 4 st'
         = Some (Throw "Failed to connect to MCP server: fetch failed", st'')
         /\ MCPBrowserClient.connects st'' = 5
         /\ MCPBrowserClient.waits st'' = [2000; 4000; 8000]%Z.
Proof.
  eexists. split; [vm_compute; reflexivity|]. do 2 (split; [reflexivity|]).
  eexists. split; [vm_compute; reflexivity|]. by split.
Qed.

Section ToolFacts.
Variable Args : Type.
Variable Raw : Type.
Variable clientCallTool : string -> Args -> Completion Raw.
Variable isError : Raw -> bool.
Variable parseContent : Raw -> Completion (option string).
Variable builtInTools : string -> option (Args -> Completion string).

Abbreviation callTool :=
  (Atlas.callTool Args Raw clientCallTool isError parseContent builtInTools).
Abbreviation callToolAt :=
  (Atlas.callToolAt Args Raw clientCallTool isError parseContent builtInTools).

(** No call of [callTool] throws: the built-in tools catch what a tool
    throws, and the client throws only without a connected session, which
    [isConnected] has just excluded. *)
Lemma callTool_returns mcpClient toolName args :
  (forall client, mcpClient = Some client -> sessionOk client) ->
  exists result, callTool mcpClient toolName args = Return result.
Proof.
  intros Hok. unfold Atlas.callTool. destruct mcpClient as [client|]; [|eauto].
  unfold MCPBrowserClient.isConnected, MCPBrowserClient.callTool.
  destruct (MCPBrowserClient.status_eqb _ _); simpl; [|eauto].
  destruct (MCPBrowserClient.session client) as [s|] eqn:Hs; simpl; [|eauto].
  rewrite (Hok client eq_refl s Hs). simpl.
  destruct (clientCallTool _ _) as [raw|e]; [|eauto].
  destruct (parseContent raw); eauto.
Qed.

End ToolFacts.

Section RecordingFacts.
Variable Args : Type.
Variable callTool : Z -> string -> Args -> MCPToolResult + string.
Variable attemptParameterFix : string -> Args -> string -> Completion (option Args).
Variable duration : Z -> Z.
Variable timestamp : Z -> Z.

(** The recording loop answers what the loop of the retry facts answers. *)
Lemma recordingLoop_result fuel history request attempt lastError delays errors :
  fst <$> Atlas.recordingLoop Args callTool attemptParameterFix duration timestamp
            fuel history request attempt lastError delays errors
  = Atlas.retryLoop Args callTool attemptParameterFix fuel request attempt lastError
      delays errors.
Proof.
  revert request attempt lastError delays errors.
  induction fuel as [|fuel IH]; intros request attempt lastError delays errors; simpl; [done|].
  destruct (_ <=? _)%Z; [|done].
  destruct (callTool _ _ _) as [result|message]; [done|].
  destruct (negb _); [done|].
  destruct (Atlas.isParameterError message); [|apply IH].
  destruct (attemptParameterFix _ _ _) as [[fixedArgs|]|e]; [apply IH|apply IH|done].
Qed.

(** The way out of the first attempt when [callTool] returns. *)
Lemma recording_first_attempt history request result :
  (0 <= Atlas.maxRetries Args request)%Z ->
  callTool 1 (Atlas.toolName Args request) (Atlas.arguments Args request) = inl result ->
  Atlas.executeToolWithRetryRecording Args callTool attemptParameterFix duration timestamp
    history request
  = Some (Return (Atlas.mkExecResult (tr_success result) (tr_content result)
                    (tr_error result) 1 [] []),
          Atlas.recordExecution history (Atlas.toolName Args request) true
            (duration 1) (timestamp 1)).
Proof.
  intros Hmax Hcall. unfold Atlas.executeToolWithRetryRecording.
  cbn [Atlas.recordingLoop].
  destruct (Z.leb_spec 0 (Atlas.maxRetries Args request)); [|lia].
  change (0 + 1)%Z with 1%Z. by rewrite Hcall.
Qed.

End RecordingFacts.

Lemma recordExecution_drop history toolName success duration now :
  Atlas.recordExecution history toolName success duration now
  = drop (S (length history) - 100)
         (history ++ [Atlas.mkExecution toolName success duration now]).
Proof.
  unfold Atlas.recordExecution. rewrite length_app. cbn [length].
  rewrite Nat.add_1_r.
  destruct (Nat.ltb_spec 100 (S (length history))) as [Hlt|Hge].
  - unfold JS.sliceFrom. rewrite length_app. cbn [length].
    destruct (Z.ltb_spec (-100) 0); [|lia]. f_equal. lia.
  - replace (S (length history) - 100) with 0 by lia. reflexivity.
Qed.

Lemma last_drop_lt {A} (k : nat) (l : list A) : k < length l -> last (drop k l) = last l.
Proof.
  intros Hk. rewrite !last_lookup, lookup_drop, length_drop. f_equal. lia.
Qed.

Lemma recordExecution_length history toolName success duration now :
  length (Atlas.recordExecution history toolName success duration now)
  = Nat.min 100 (S (length history)).
Proof. rewrite recordExecution_drop, length_drop, length_app. cbn [length]. lia. Qed.

Lemma recordExecution_Forall (P : Atlas.Execution -> Prop) history toolName success duration now :
  Forall P history -> P (Atlas.mkExecution toolName success duration now) ->
  Forall P (Atlas.recordExecution history toolName success duration now).
Proof.
  intros Hh He. rewrite recordExecution_drop. apply Forall_drop, Forall_app. by split; [|constructor].
Qed.

Lemma filter_Forall_all {A} (f : A -> bool) (l : list A) :
  Forall (fun x => f x = true) l -> List.filter f l = l.
Proof. induction 1 as [|x l Hx _ IH]; simpl; [done|]. by rewrite Hx, IH. Qed.

Lemma filter_length_all {A} (f : A -> bool) (l : list A) :
  length (List.filter f l) = length l -> Forall (fun x => f x = true) l.
Proof.
  induction l as [|x l IH]; simpl; [constructor|].
  pose proof (List.filter_length_le f l) as Hle.
  destruct (f x) eqn:Hx; simpl; intros Hlen; [|lia].
  constructor; [done|]. apply IH. lia.
Qed.

Lemma successRate_value history :
  history <> [] ->
  Atlas.successRate (Atlas.getExecutionStats history)
  = (inject_Z (Z.of_nat (length (List.filter Atlas.e_success history)))
     / inject_Z (Z.of_nat (length history)))%Q.
Proof. intros Hne. unfold Atlas.getExecutionStats. by destruct history. Qed.

Lemma successRate_all history :
  history <> [] -> Forall (fun e => Atlas.e_success e = true) history ->
  (Atlas.successRate (Atlas.getExecutionStats history) == 1)%Q.
Proof.
  intros Hne Hall. rewrite (successRate_value _ Hne), (filter_Forall_all _ _ Hall).
  apply Qmult_inv_r. destruct history; [done|]. simpl. discriminate.
Qed.

Section RunnerFacts.
Variable Args : Type.
Variable Raw : Type.
Variable clientCallTool : string -> Args -> Completion Raw.
Variable isError : Raw -> bool.
Variable parseContent : Raw -> Completion (option string).
Variable builtInTools : string -> option (Args -> Completion string).
Variable attemptParameterFix : string -> Args -> string -> Completion (option Args).
Variable duration : Z -> Z.
Variable timestamp : Z -> Z.

Abbreviation toolCall :=
  (Atlas.callTool Args Raw clientCallTool isError parseContent builtInTools).
Abbreviation toolCallAt :=
  (Atlas.callToolAt Args Raw clientCallTool isError parseContent builtInTools).

Lemma callToolAt_returns mcpClient request :
  (forall attempt client, mcpClient attempt = Some client -> clientReachable client) ->
  exists result,
    toolCall (mcpClient 1%Z) (Atlas.toolName Args request) (Atlas.arguments Args request)
      = Return result
    /\ toolCallAt mcpClient 1 (Atlas.toolName Args request) (Atlas.arguments Args request)
       = inl result.
Proof.
  intros Hreach.
  destruct (callTool_returns Args Raw clientCallTool isError parseContent builtInTools
              (mcpClient 1%Z) (Atlas.toolName Args request) (Atlas.arguments Args request))
    as [result Hres].
  { intros client Hc. by destruct (clientReachable_inv client (Hreach _ _ Hc)). }
  exists result. split; [done|]. unfold Atlas.callToolAt. by rewrite Hres.
Qed.

(** X20: tools are never retried.  [callTool] cannot throw (the built-in
    tools catch what a tool throws and answer with a failed result; the
    MCP client throws only without a connected session, and is only
    asked when [isConnected] holds), so for every request with
    [maxRetries >= 0] and every client reached by [connect] and
    [disconnect] calls, [executeToolWithRetry] returns after exactly one
    attempt with the fields of that one tool result, no back-off wait and
    no thrown error; an unknown built-in tool, or one that throws, is a
    failed result after one attempt. *)
Theorem tools_are_called_once
    (mcpClient : Z -> option MCPBrowserClient.State)
    (request : Atlas.ToolExecutionRequest Args) :
  (forall attempt client, mcpClient attempt = Some client -> clientReachable client) ->
  (0 <= Atlas.maxRetries Args request)%Z ->
  exists result,
    toolCall (mcpClient 1%Z) (Atlas.toolName Args request) (Atlas.arguments Args request)
      = Return result
    /\ Atlas.executeToolWithRetry Args (toolCallAt mcpClient) attemptParameterFix request
       = Some (Return (Atlas.mkExecResult (tr_success result) (tr_content result)
                         (tr_error result) 1 [] []))
    /\ (mcpClient 1%Z = None ->
        builtInTools (Atlas.toolName Args request) = None ->
        result = mkToolResult false None
                   (Some ("Unknown tool: " +:+ Atlas.toolName Args request)))
    /\ (forall tool e,
        mcpClient 1%Z = None ->
        builtInTools (Atlas.toolName Args request) = Some tool ->
        tool (Atlas.arguments Args request) = Throw e ->
        result = mkToolResult false None (Some e)).
Proof.
  intros Hreach Hmax.
  destruct (callToolAt_returns mcpClient request Hreach) as (result & Hres & Hat).
  exists result. split; [exact Hres|]. split.
  - unfold Atlas.executeToolWithRetry.
    rewrite <- recordingLoop_result with (duration := duration) (timestamp := timestamp)
                                         (history := []).
    pose proof (recording_first_attempt Args (toolCallAt mcpClient) attemptParameterFix
                  duration timestamp [] request result Hmax Hat) as Hrun.
    unfold Atlas.executeToolWithRetryRecording in Hrun. by rewrite Hrun.
  - split.
    + intros Hnone Htool. rewrite Hnone in Hres. unfold Atlas.callTool in Hres.
      unfold Atlas.executeBuiltInTool in Hres. rewrite Htool in Hres. congruence.
    + intros tool e Hnone Htool He. rewrite Hnone in Hres. unfold Atlas.callTool in Hres.
      unfold Atlas.executeBuiltInTool in Hres. rewrite Htool, He in Hres. congruence.
Qed.

(** X21: the execution history counts failed tools as successes.  Under
    the conditions of X20, [executeToolWithRetry] appends an entry with
    [success = true] to the history whatever the [success] of the result
    it returns; so a history that has only seen such runs holds only
    successes, and [getExecutionStats] reports a success rate of 1 over
    [min 100 (n + 1)] executions. *)
Theorem failed_tools_are_recorded_as_successes
    (mcpClient : Z -> option MCPBrowserClient.State)
    (request : Atlas.ToolExecutionRequest Args)
    (executionHistory : list Atlas.Execution) :
  (forall attempt client, mcpClient attempt = Some client -> clientReachable client) ->
  (0 <= Atlas.maxRetries Args request)%Z ->
  Forall (fun e => Atlas.e_success e = true) executionHistory ->
  exists result executionHistory',
    Atlas.executeToolWithRetryRecording Args (toolCallAt mcpClient) attemptParameterFix
      duration timestamp executionHistory request
    = Some (Return result, executionHistory')
    /\ toolCall (mcpClient 1%Z) (Atlas.toolName Args request) (Atlas.arguments Args request)
       = Return (mkToolResult (Atlas.x_success result) (Atlas.x_output result)
                              (Atlas.x_error result))
    /\ last executionHistory'
       = Some (Atlas.mkExecution (Atlas.toolName Args request) true
                 (duration 1) (timestamp 1))
    /\ Forall (fun e => Atlas.e_success e = true) executionHistory'
    /\ Atlas.totalExecutions (Atlas.getExecutionStats executionHistory')
       = Nat.min 100 (S (length executionHistory))
    /\ (Atlas.successRate (Atlas.getExecutionStats executionHistory') == 1)%Q.
Proof.
  intros Hreach Hmax Hall.
  destruct (callToolAt_returns mcpClient request Hreach) as (result & Hres & Hat).
  eexists _, _. split.
  { exact (recording_first_attempt Args (toolCallAt mcpClient) attemptParameterFix
             duration timestamp executionHistory request result Hmax Hat). }
  cbn [Atlas.x_success Atlas.x_output Atlas.x_error].
  split; [by destruct result|].
  assert (Hne : Atlas.recordExecution executionHistory (Atlas.toolName Args request) true
                  (duration 1) (timestamp 1) <> []).
  { intros Hnil. apply (f_equal length) in Hnil.
    rewrite recordExecution_length in Hnil. simpl in Hnil. lia. }
  assert (Hall' : Forall (fun e => Atlas.e_success e = true)
                    (Atlas.recordExecution executionHistory (Atlas.toolName Args request)
                       true (duration 1) (timestamp 1))).
  { by apply recordExecution_Forall. }
  split.
  { rewrite recordExecution_drop, last_drop_lt, last_snoc; [done|].
    rewrite length_app. cbn [length]. lia. }
  split; [exact Hall'|]. split; [|by apply successRate_all].
  rewrite <- (recordExecution_length executionHistory (Atlas.toolName Args request) true
                (duration 1) (timestamp 1)).
  unfold Atlas.getExecutionStats.
  by destruct (Atlas.recordExecution _ _ _ _ _).
Qed.

End RunnerFacts.

Lemma tools_are_called_once_witness :
  exists result,
    Atlas.callTool unit unit noServer (fun _ => false) (fun _ => Return None) twoTools
      (noClient 1%Z) (Atlas.toolName unit launchRequest) (Atlas.arguments unit launchRequest)
      = Return result
    /\ Atlas.executeToolWithRetry unit
         (Atlas.callToolAt unit unit noServer (fun _ => false) (fun _ => Return None)
            twoTools noClient) noFix launchRequest
       = Some (Return (Atlas.mkExecResult (tr_success result) (tr_content result)
                         (tr_error result) 1 [] []))
    /\ (noClient 1%Z = None ->
        twoTools (Atlas.toolName unit launchRequest) = None ->
        result = mkToolResult false None
                   (Some ("Unknown tool: " +:+ Atlas.toolName unit launchRequest)))
    /\ (forall tool e,
        noClient 1%Z = None ->
        twoTools (Atlas.toolName unit launchRequest) = Some tool ->
        tool (Atlas.arguments unit launchRequest) = Throw e ->
        result = mkToolResult false None (Some e)).
Proof.
  apply (tools_are_called_once unit unit noServer (fun _ => false) (fun _ => Return None)
           twoTools noFix (fun _ => 0%Z) (fun _ => 0%Z) noClient launchRequest).
  - intros attempt client H. discriminate H.
  - simpl. lia.
Defined.

Lemma failed_tools_are_recorded_as_successes_witness :
  exists result executionHistory',
    Atlas.executeToolWithRetryRecording unit
      (Atlas.callToolAt unit unit noServer (fun _ => false) (fun _ => Return None)
         twoTools noClient) noFix (fun attempt => (40 * attempt)%Z) (fun _ => 1000%Z)
      [] launchRequest = Some (Return result, executionHistory')
    /\ Atlas.callTool unit unit noServer (fun _ => false) (fun _ => Return None) twoTools
         (noClient 1%Z) (Atlas.toolName unit launchRequest)
         (Atlas.arguments unit launchRequest)
       = Return (mkToolResult (Atlas.x_success result) (Atlas.x_output result)
                              (Atlas.x_error result))
    /\ last executionHistory'
       = Some (Atlas.mkExecution (Atlas.toolName unit launchRequest) true
                 (40 * 1) 1000)
    /\ Forall (fun e => Atlas.e_success e = true) executionHistory'
    /\ Atlas.totalExecutions (Atlas.getExecutionStats executionHistory')
       = Nat.min 100 (S (length (@nil Atlas.Execution)))
    /\ (Atlas.successRate (Atlas.getExecutionStats executionHistory') == 1)%Q.
Proof.
  apply (failed_tools_are_recorded_as_successes unit unit noServer (fun _ => false)
           (fun _ => Return None) twoTools noFix (fun attempt => (40 * attempt)%Z)
           (fun _ => 1000%Z) noClient launchRequest []).
  - intros attempt client H. discriminate H.
  - simpl. lia.
  - constructor.
Defined.

(** A tool that does not exist: the answer is a failure after one attempt,
    the history says success and the success rate is 1. *)
Example unknown_tool_counts_as_a_success :
  Atlas.executeToolWithRetryRecording unit
    (Atlas.callToolAt unit unit noServer (fun _ => false) (fun _ => Return None)
       twoTools noClient) noFix (fun attempt => (40 * attempt)%Z) (fun _ => 1000%Z)
    [] launchRequest
  = Some (Return (Atlas.mkExecResult false None (Some "Unknown tool: launch_rocket")
                    1 [] []),
          [Atlas.mkExecution "launch_rocket" true 40 1000])
  /\ Atlas.getExecutionStats [Atlas.mkExecution "launch_rocket" true 40 1000]
     = Atlas.mkExecutionStats 1 (1 / 1) (40 / 1).
Proof. split; reflexivity. Qed.

(** X22: [recordExecution] keeps the newest hundred entries: the history
    after it is the old one with the new entry at the end, cut from the
    front down to 100 entries, whatever its length was; and on it
    [getExecutionStats] counts [min 100 (n + 1)] executions with a success
    rate between 0 and 1, which is 1 exactly when every entry kept is a
    success. *)
Theorem execution_history_keeps_the_newest_hundred
    (executionHistory : list Atlas.Execution) (toolName : string) (success : bool)
    (duration now : Z) :
  let entry := Atlas.mkExecution toolName success duration now in
  let executionHistory' :=
    Atlas.recordExecution executionHistory toolName success duration now in
  let stats := Atlas.getExecutionStats executionHistory' in
  executionHistory' = drop (S (length executionHistory) - 100) (executionHistory ++ [entry])
  /\ last executionHistory' = Some entry
  /\ Atlas.totalExecutions stats = Nat.min 100 (S (length executionHistory))
  /\ (0 <= Atlas.successRate stats <= 1)%Q
  /\ ((Atlas.successRate stats == 1)%Q
      <-> Forall (fun e => Atlas.e_success e = true) executionHistory').
Proof.
  intros entry executionHistory' stats.
  assert (Hlen : length executionHistory' = Nat.min 100 (S (length executionHistory)))
    by apply recordExecution_length.
  assert (Hne : executionHistory' <> []).
  { intros Hnil. rewrite Hnil in Hlen. simpl in Hlen. lia. }
  split; [apply recordExecution_drop|]. split.
  { unfold executionHistory'. rewrite recordExecution_drop, last_drop_lt, last_snoc; [done|].
    rewrite length_app. cbn [length]. lia. }
  split.
  { rewrite <- Hlen. unfold stats, Atlas.getExecutionStats. by destruct executionHistory'. }
  unfold stats. rewrite (successRate_value _ Hne).
  pose proof (List.filter_length_le Atlas.e_success executionHistory') as Hle.
  assert (Hpos : (0 < inject_Z (Z.of_nat (length executionHistory')))%Q).
  { change 0%Q with (inject_Z 0). rewrite <- Zlt_Qlt. destruct executionHistory'; [done|].
    simpl. lia. }
  split; [split|].
  - apply Qle_shift_div_l; [exact Hpos|]. rewrite Qmult_0_l.
    change 0%Q with (inject_Z 0). rewrite <- Zle_Qle. lia.
  - apply Qle_shift_div_r; [exact Hpos|]. rewrite Qmult_1_l. rewrite <- Zle_Qle. lia.
  - split.
    + intros Hone. apply filter_length_all.
      assert (Heq : (inject_Z (Z.of_nat (length (List.filter Atlas.e_success executionHistory')))
                     == inject_Z (Z.of_nat (length executionHistory')))%Q).
      { rewrite <- (Qmult_1_l (inject_Z (Z.of_nat (length executionHistory')))), <- Hone.
        rewrite Qmult_comm, Qmult_div_r; [reflexivity|].
        intros H0. rewrite H0 in Hpos. by apply Qlt_irrefl in Hpos. }
      rewrite inject_Z_injective in Heq. by apply Nat2Z.inj in Heq.
    + intros Hall. rewrite (filter_Forall_all _ _ Hall). apply Qmult_inv_r.
      intros H0. rewrite H0 in Hpos. by apply Qlt_irrefl in Hpos.
Qed.


(** ** The critic's recommendation *)

Lemma countSeverity_nonneg sev issues : (0 <= Lilith.countSeverity sev issues)%Z.
Proof. unfold Lilith.countSeverity. lia. Qed.

Lemma calculateScore_counts issues :
  Lilith.calculateScore issues
  = Z.max 0 (100 - 25 * Lilith.countSeverity "critical" issues
                 - 15 * Lilith.countSeverity "major" issues
                 - 5 * Lilith.countSeverity "minor" issues
                 - Lilith.countSeverity "info" issues)%Z.
Proof. unfold Lilith.calculateScore. by rewrite fold_penalise. Qed.

Lemma approved_counts st llm fc :
  Lilith.approved (Lilith.critique st llm fc)
  = (70 <=? Lilith.score (Lilith.critique st llm fc))%Z
    && (Lilith.countSeverity "critical" (Lilith.issues (Lilith.critique st llm fc)) =? 0)%Z.
Proof.
  simpl. rewrite existsb_countSeverity, negb_involutive. f_equal. by rewrite Z.geb_leb.
Qed.

(** X23: what the critic recommends and what it decides.  In the
    critique [critique] returns, 'No issues found' is said exactly when
    there is no issue (the score is then 100 and the content approved);
    'Minor issues found ... acceptable' is only said of approved content
    without critical or major issue; 'Significant issues' and 'Critical
    issues detected' are only said of rejected content.  'Several issues
    found' goes with either verdict: the content is approved exactly when
    no issue is critical (there is at most one), so a single critical
    issue is rejected under the advice to address the major issues; and
    'Critical issues detected' is also said when no issue is critical
    (four major ones). *)
Theorem recommendation_and_verdict (staticIssues llmIssues factCheckIssues : list CritiqueIssue) :
  let c := Lilith.critique staticIssues llmIssues factCheckIssues in
  let r := Lilith.recommendation c in
  (r = "No issues found. The content passes quality checks."
   <-> Lilith.issues c = [])
  /\ (Lilith.issues c = [] -> Lilith.score c = 100%Z /\ Lilith.approved c = true)
  /\ (r = "Minor issues found. Consider addressing them but the content is acceptable."
      -> Lilith.approved c = true
         /\ Lilith.countSeverity "critical" (Lilith.issues c) = 0%Z
         /\ Lilith.countSeverity "major" (Lilith.issues c) = 0%Z)
  /\ (r = "Several issues found. Address the major issues before proceeding."
      -> (Lilith.approved c = true
          <-> Lilith.countSeverity "critical" (Lilith.issues c) = 0%Z)
         /\ (Lilith.countSeverity "critical" (Lilith.issues c) <= 1)%Z)
  /\ (r = "Significant issues found. The content needs revision before approval."
      \/ r = "Critical issues detected. The content should not be used as-is. Major revision required."
      -> Lilith.approved c = false)
  /\ (forall t d,
        let one := Lilith.critique [] [mkIssue t "critical" d] [] in
        Lilith.recommendation one
          = "Several issues found. Address the major issues before proceeding."
        /\ Lilith.approved one = false
        /\ Lilith.countSeverity "major" (Lilith.issues one) = 0%Z)
  /\ (forall t d,
        let four := Lilith.critique [] (replicate 4 (mkIssue t "major" d)) [] in
        Lilith.recommendation four
          = "Critical issues detected. The content should not be used as-is. Major revision required."
        /\ Lilith.countSeverity "critical" (Lilith.issues four) = 0%Z).
Proof.
  intros c r.
  pose proof (approved_counts staticIssues llmIssues factCheckIssues) as Happ.
  fold c in Happ.
  assert (Hscore : Lilith.score c = Lilith.calculateScore (Lilith.issues c)) by done.
  rewrite calculateScore_counts in Hscore.
  pose proof (countSeverity_nonneg "critical" (Lilith.issues c)) as Hc.
  pose proof (countSeverity_nonneg "major" (Lilith.issues c)) as Hm.
  pose proof (countSeverity_nonneg "minor" (Lilith.issues c)) as Hn.
  pose proof (countSeverity_nonneg "info" (Lilith.issues c)) as Hi.
  assert (Hr : r = Lilith.generateRecommendation (Lilith.issues c) (Lilith.score c)) by done.
  clearbody r c. unfold Lilith.generateRecommendation in Hr.
  split.
  { destruct (Lilith.issues c) as [|i l]; simpl in Hr; [by rewrite Hr|].
    split; [|done]. rewrite Hr.
    repeat match goal with |- context [if ?b then _ else _] => destruct b end; discriminate. }
  split.
  { intros Hnil. rewrite Hnil in *. unfold Lilith.countSeverity in Hscore. simpl in Hscore.
    rewrite Happ, Hscore. done. }
  destruct (Lilith.issues c) as [|i l] eqn:Hissues; simpl in Hr.
  { rewrite Hr. split; [discriminate|]. split; [discriminate|].
    split; [by intros [|]|]. split; intros; by vm_compute. }
  rewrite Happ.
  destruct (Z.geb_spec (Lilith.score c) 90) as [H90|H90];
    [|destruct (Z.geb_spec (Lilith.score c) 70) as [H70|H70];
      [|destruct (Z.geb_spec (Lilith.score c) 50) as [H50|H50]]];
    rewrite Hr.
  - split.
    { intros _. assert (Lilith.countSeverity "critical" (i :: l) = 0%Z) as -> by lia.
      assert (Lilith.countSeverity "major" (i :: l) = 0%Z) as -> by lia.
      split; [|done]. destruct (Z.leb_spec 70 (Lilith.score c)); [done|lia]. }
    split; [discriminate|]. split; [by intros [|]|]. split; intros; by vm_compute.
  - split; [discriminate|]. split.
    { intros _. split; [|lia].
      destruct (Z.leb_spec 70 (Lilith.score c)); [|lia]. simpl.
      destruct (Z.eqb_spec (Lilith.countSeverity "critical" (i :: l)) 0); split; done. }
    split; [by intros [|]|]. split; intros; by vm_compute.
  - split; [discriminate|]. split; [discriminate|]. split.
    { intros _. destruct (Z.leb_spec 70 (Lilith.score c)); [lia|done]. }
    split; intros; by vm_compute.
  - split; [discriminate|]. split; [discriminate|]. split.
    { intros _. destruct (Z.leb_spec 70 (Lilith.score c)); [lia|done]. }
    split; intros; by vm_compute.
Qed.

(** ** The researcher: gathering sources *)

Lemma gatherStep_gathered results m r :
  gathered results m -> gathered (results ++ [r]) (Pythagoras.gatherStep m r).
Proof.
  intros (Hnd & Hcov & Hget). unfold Pythagoras.gatherStep. fold (idOf r).
  destruct (JSMap.get m (idOf r)) as [existing|] eqn:Hex.
  - destruct (Hget _ _ Hex) as (Hid & (r0 & Hr0 & Hr0id & Hr0s) & Hmax).
    destruct (Qle_bool (sr_score r) (src_relevance existing)) eqn:Hle; simpl.
    + apply Qle_bool_iff in Hle. split; [done|]. split.
      { intros r' [Hr'|Hr']%elem_of_app; [by apply Hcov|].
        apply list_elem_of_singleton in Hr' as ->. by eapply get_Some_keys. }
      intros k s Hs. destruct (Hget _ _ Hs) as (Hk & (r1 & Hr1 & Hr1id & Hr1s) & Hmax1).
      split; [done|]. split.
      { exists r1. split; [apply elem_of_app; by left|done]. }
      intros r' [Hr'|Hr']%elem_of_app Hr'id; [by apply Hmax1|].
      apply list_elem_of_singleton in Hr' as ->. rewrite Hr'id in Hex.
      assert (s = existing) as -> by congruence. done.
    + assert (Hlt : (src_relevance existing < sr_score r)%Q).
      { apply Qnot_le_lt. intros H. apply Qle_bool_iff in H. congruence. }
      split; [by rewrite keys_update|]. split.
      { intros r' [Hr'|Hr']%elem_of_app; rewrite keys_update; [by apply Hcov|].
        apply list_elem_of_singleton in Hr' as ->. by eapply get_Some_keys. }
      intros k s Hs. apply get_update_inv in Hs as [(-> & v & Hv & ->)|(Hne & Hs)].
      * assert (v = existing) as -> by congruence. simpl.
        split; [done|]. split.
        { exists r. split; [apply elem_of_app; right; apply list_elem_of_here|done]. }
        intros r' [Hr'|Hr']%elem_of_app Hr'id.
        -- apply Qlt_le_weak. eapply Qle_lt_trans; [by apply Hmax|done].
        -- apply list_elem_of_singleton in Hr' as ->. apply Qle_refl.
      * destruct (Hget _ _ Hs) as (Hk & (r1 & Hr1 & Hr1id & Hr1s) & Hmax1).
        split; [done|]. split.
        { exists r1. split; [apply elem_of_app; by left|done]. }
        intros r' [Hr'|Hr']%elem_of_app Hr'id; [by apply Hmax1|].
        apply list_elem_of_singleton in Hr' as ->. done.
  - assert (Hfresh : idOf r ∉ JSMap.keys m) by by apply get_None_keys.
    split; [by apply NoDup_keys_set|]. split.
    { intros r' [Hr'|Hr']%elem_of_app.
      - rewrite keys_set_fresh by done. unfold JSMap.keys. rewrite fmap_app.
        apply elem_of_app. left. by apply Hcov.
      - apply list_elem_of_singleton in Hr' as ->. eapply get_Some_keys, get_set_eq. }
    intros k s Hs. destruct (decide (k = idOf r)) as [->|Hne].
    + rewrite get_set_eq in Hs. injection Hs as <-. simpl.
      split; [done|]. split.
      { exists r. split; [apply elem_of_app; right; apply list_elem_of_here|done]. }
      intros r' [Hr'|Hr']%elem_of_app Hr'id.
      * exfalso. apply Hfresh. rewrite <- Hr'id. by apply Hcov.
      * apply list_elem_of_singleton in Hr' as ->. apply Qle_refl.
    + rewrite get_set_ne in Hs by done.
      destruct (Hget _ _ Hs) as (Hk & (r1 & Hr1 & Hr1id & Hr1s) & Hmax1).
      split; [done|]. split.
      { exists r1. split; [apply elem_of_app; by left|done]. }
      intros r' [Hr'|Hr']%elem_of_app Hr'id; [by apply Hmax1|].
      apply list_elem_of_singleton in Hr' as ->. done.
Qed.

Lemma fold_gatherStep_gathered batch results m :
  gathered results m -> gathered (results ++ batch) (fold_left Pythagoras.gatherStep batch m).
Proof.
  revert results m. induction batch as [|r batch IH]; intros results m H; simpl.
  - by rewrite app_nil_r.
  - replace (results ++ r :: batch) with ((results ++ [r]) ++ batch)
      by by rewrite <- app_assoc.
    by apply IH, gatherStep_gathered.
Qed.

Lemma gathered_empty : gathered [] JSMap.empty.
Proof.
  split; [constructor|]. split; [intros r Hr; by apply elem_of_nil in Hr|].
  intros k s. done.
Qed.

Lemma gathered_values results m s :
  gathered results m -> s ∈ JSMap.values m -> JSMap.get m (src_id s) = Some s.
Proof.
  intros (Hnd & _ & Hget) Hs. unfold JSMap.values in Hs.
  apply list_elem_of_fmap in Hs as ([k s'] & -> & Hin). simpl.
  pose proof (elem_get_Some _ _ _ Hnd Hin) as Hk.
  destruct (Hget _ _ Hk) as (-> & _). done.
Qed.

Lemma gathered_ids results m :
  gathered results m -> map src_id (JSMap.values m) = JSMap.keys m.
Proof.
  intros (Hnd & _ & Hget). unfold JSMap.values, JSMap.keys.
  rewrite map_map. apply map_ext_in. intros [k s] Hin. simpl.
  apply list_elem_of_In in Hin. pose proof (elem_get_Some _ _ _ Hnd Hin) as Hk.
  by destruct (Hget _ _ Hk) as (-> & _).
Qed.

Section GatherFacts.
Variable generateEmbedding : string -> option (list Q).
Variable voySearch : list VoyEntry -> list Q -> nat -> list Neighbor.
Variable flexSearch : list PunkDocument -> string -> nat -> option (list (list PunkDocument)).

Abbreviation hybridSearch st query :=
  (PunkRecords.search generateEmbedding voySearch flexSearch st query
     (mkOptions (Some 5) None (Some hybrid) None)).

Lemma hybridSearch_initialize st query :
  hybridSearch st query
  = (fst (hybridSearch (PunkRecords.initialize st) query), PunkRecords.initialize st).
Proof.
  unfold PunkRecords.search. cbn [default from_option id o_limit o_threshold o_searchMode
                                 o_semanticWeight].
  unfold PunkRecords.semanticSearch, PunkRecords.keywordSearch.
  rewrite !initialize_idem.
  destruct (generateEmbedding query), (PunkRecords.voyIndex (PunkRecords.initialize st));
    rewrite ?initialize_idem; destruct (flexSearch _ _ _); reflexivity.
Qed.

(** The results the searches of [gatherSources] give, in order. *)
Lemma gatherSources_fold queries st m results :
  gathered results m ->
  let out :=
    fold_left
      (fun acc query =>
         let '(results, st1) := hybridSearch (snd acc) query in
         (fold_left Pythagoras.gatherStep results (fst acc), st1))
      queries (m, st) in
  gathered (results ++ concat (map (fun q => fst (hybridSearch (PunkRecords.initialize st) q))
                                   queries))
           (fst out).
Proof.
  revert st m results. induction queries as [|q queries IH]; intros st m results H; simpl.
  - by rewrite app_nil_r.
  - rewrite (hybridSearch_initialize st q). cbn [fst snd].
    rewrite app_assoc.
    specialize (IH (PunkRecords.initialize st)
                   (fold_left Pythagoras.gatherStep
                      (fst (hybridSearch (PunkRecords.initialize st) q)) m)
                   (results ++ fst (hybridSearch (PunkRecords.initialize st) q))).
    rewrite initialize_idem in IH. cbn zeta in IH. apply IH.
    by apply fold_gatherStep_gathered.
Qed.

(** X24: [gatherSources] answers at most ten sources with distinct ids,
    by descending relevance, each with the best score of its document:
    over the hybrid searches (limit 5) of all the queries on the
    initialised store, the relevance of a source is the score of one of
    the results for its document and no result for it scores higher.  A
    document some search found is among the sources, unless ten sources
    of at least its score are. *)
Theorem gatherSources_keeps_the_best_score (st : PunkRecords.State) (queries : list string) :
  let sources :=
    fst (Pythagoras.gatherSources generateEmbedding voySearch flexSearch st queries) in
  let results :=
    concat (map (fun q => fst (hybridSearch (PunkRecords.initialize st) q)) queries) in
  length sources <= 10
  /\ NoDup (map src_id sources)
  /\ StronglySorted (fun a b => (src_relevance b <= src_relevance a)%Q) sources
  /\ (forall s, s ∈ sources ->
        (exists r, r ∈ results /\ idOf r = src_id s /\ sr_score r = src_relevance s)
        /\ (forall r, r ∈ results -> idOf r = src_id s ->
              (sr_score r <= src_relevance s)%Q))
  /\ (forall r, r ∈ results ->
        (exists s, s ∈ sources /\ src_id s = idOf r)
        \/ (length sources = 10
            /\ forall s, s ∈ sources -> (sr_score r <= src_relevance s)%Q)).
Proof.
  intros sources results.
  pose proof (gatherSources_fold queries st JSMap.empty [] gathered_empty) as Hg.
  cbn zeta in Hg. rewrite app_nil_l in Hg. fold results in Hg.
  unfold Pythagoras.gatherSources in sources.
  destruct (fold_left _ queries (JSMap.empty, st)) as [m st'] eqn:Hfold.
  cbn [fst] in Hg, sources.
  pose proof (sortDescBy_Permutation src_relevance (JSMap.values m)) as Hperm.
  pose proof (sortDescBy_sorted src_relevance (JSMap.values m)) as Hsorted.
  assert (Hsub : sources `sublist_of` JS.sortDescBy src_relevance (JSMap.values m))
    by apply sublist_take.
  assert (Hin : forall s, s ∈ sources -> JSMap.get m (src_id s) = Some s).
  { intros s Hs. apply (gathered_values results); [done|].
    rewrite <- Hperm. by eapply elem_of_sublist. }
  split; [unfold sources; rewrite length_take; lia|]. split.
  { apply (sublist_NoDup _ (map src_id (JS.sortDescBy src_relevance (JSMap.values m)))).
    - pose proof (gathered_ids _ _ Hg) as Hids.
      assert (Hp : map src_id (JS.sortDescBy src_relevance (JSMap.values m))
                   ≡ₚ JSMap.keys m) by (rewrite <- Hids; by apply fmap_Permutation).
      rewrite Hp. by destruct Hg.
    - unfold sources. change (map src_id) with (fmap (M:=list) src_id).
      rewrite fmap_take. apply sublist_take. }
  split; [by eapply StronglySorted_sublist|]. split.
  { intros s Hs. destruct Hg as (_ & _ & Hget).
    destruct (Hget _ _ (Hin s Hs)) as (_ & Hex & Hmax). done. }
  intros r Hr. destruct Hg as (Hnd & Hcov & Hget).
  pose proof (Hcov r Hr) as Hk.
  destruct (JSMap.get m (idOf r)) as [s|] eqn:Hs;
    [|by apply get_None_keys in Hs].
  destruct (Hget _ _ Hs) as (Hid & _ & Hmax).
  assert (Hsv : s ∈ JS.sortDescBy src_relevance (JSMap.values m)).
  { rewrite Hperm. unfold JSMap.values. apply list_elem_of_fmap.
    exists (idOf r, s). split; [done|]. by apply get_Some_elem. }
  apply list_elem_of_lookup in Hsv as [i Hi].
  destruct (decide (i < 10)) as [Hlt|Hge].
  - left. exists s. split; [|done]. apply list_elem_of_lookup. exists i.
    unfold sources. by rewrite lookup_take_lt.
  - right. assert (Hlen : 10 <= length (JS.sortDescBy src_relevance (JSMap.values m))).
    { apply lookup_lt_Some in Hi. lia. }
    split; [unfold sources; rewrite length_take; lia|].
    intros s' Hs'. apply list_elem_of_lookup in Hs' as [j Hj].
    unfold sources in Hj. apply lookup_take_Some in Hj as [Hj Hj10].
    apply Qle_trans with (src_relevance s); [by apply Hmax|].
    assert (Hij : j < i) by lia.
    clear -Hsorted Hi Hj Hij. revert i j Hi Hj Hij.
    induction Hsorted as [|x l Hl IH Hx]; intros i j Hi Hj Hij; [done|].
    destruct j as [|j], i as [|i]; try lia; simpl in *.
    + injection Hj as <-. rewrite List.Forall_forall in Hx. apply Hx.
      apply list_elem_of_In. by eapply list_elem_of_lookup_2.
    + apply (IH i j); [done|done|lia].
Qed.

End GatherFacts.

(** ** The researcher: attributing findings *)

Lemma numbered_elem i batch n s :
  (n, s) ∈ Pythagoras.numbered i batch -> exists idx, batch !! idx = Some s /\ n = i + idx + 1.
Proof.
  unfold Pythagoras.numbered. intros Hin.
  apply elem_of_lookup_imap in Hin as (idx & s' & [= -> ->] & Hs). eauto.
Qed.

(** In a batch that does not start the list, a finding that cites a
    number its prompt showed finds no source. *)
Lemma findingOf_later i sources f n s :
  Pythagoras.batchSize <= i ->
  (n, s) ∈ Pythagoras.numbered i (take Pythagoras.batchSize (drop i sources)) ->
  sourceIndex f = Z.of_nat n ->
  Pythagoras.findingOf (take Pythagoras.batchSize (drop i sources)) f = None.
Proof.
  intros Hi Hin Hf. apply numbered_elem in Hin as (idx & Hs & Hn).
  unfold Pythagoras.findingOf. unfold Pythagoras.batchSize in *.
  destruct (Z.ltb_spec (sourceIndex f - 1) 0) as [|Hge]; [done|].
  rewrite lookup_take_ge; [done|lia].
Qed.

(** In the first batch it finds the source shown under that number. *)
Lemma findingOf_first batch f n s :
  (n, s) ∈ Pythagoras.numbered 0 batch ->
  sourceIndex f = Z.of_nat n ->
  Pythagoras.findingOf batch f
  = Some (mkFinding (src_id s) (excerpt f) (Pythagoras.relevanceToNumber (relevance f))
                    (confidence f)).
Proof.
  intros Hin Hf. apply numbered_elem in Hin as (idx & Hs & Hn).
  unfold Pythagoras.findingOf.
  destruct (Z.ltb_spec (sourceIndex f - 1) 0) as [|Hge]; [lia|].
  replace (Z.to_nat (sourceIndex f - 1)) with idx by lia. by rewrite Hs.
Qed.

Lemma findingOf_source batch f x :
  Pythagoras.findingOf batch f = Some x -> exists s, s ∈ batch /\ f_sourceId x = src_id s.
Proof.
  unfold Pythagoras.findingOf. destruct (_ <? _)%Z; [done|].
  destruct (batch !! _) as [s|] eqn:Hs; [|done]. intros [= <-].
  exists s. split; [by eapply list_elem_of_lookup_2|done].
Qed.

Section AnalyzeFacts.
Variable extractFindings :
  string -> list (nat * SearchSource) -> Completion (option (list ParsedFinding)).

Abbreviation analyzeLoop := (Pythagoras.analyzeLoop extractFindings).

(** The loop ends within its fuel. *)
Lemma analyzeLoop_total fuel question sources i findings :
  length sources - i < fuel ->
  exists outcome, analyzeLoop fuel question sources i findings = Some outcome.
Proof.
  revert i findings. induction fuel as [|fuel IH]; intros i findings Hfuel; [lia|].
  simpl. destruct (Nat.ltb_spec i (length sources)); [|eauto].
  destruct (extractFindings _ _); [|eauto].
  apply IH. unfold Pythagoras.batchSize. lia.
Qed.

Lemma analyzeLoop_later fuel question sources i findings found :
  citesShownNumbers extractFindings ->
  Pythagoras.batchSize <= i ->
  analyzeLoop fuel question sources i findings = Some (Return found) ->
  found = findings.
Proof.
  intros Hcites. revert i findings.
  induction fuel as [|fuel IH]; intros i findings Hi; simpl; [done|].
  destruct (i <? length sources); [|by intros [= <-]].
  destruct (extractFindings _ _) as [parsed|e] eqn:Hex; [|done].
  intros Hrun. apply IH in Hrun; [|lia]. rewrite Hrun.
  destruct parsed as [parsed|]; simpl; [|by rewrite app_nil_r].
  assert (Hnone : omap (Pythagoras.findingOf
                          (take Pythagoras.batchSize (drop i sources))) parsed = []).
  { assert (Hall : forall f, f ∈ parsed ->
              Pythagoras.findingOf (take Pythagoras.batchSize (drop i sources)) f = None).
    { intros f Hf. destruct (Hcites _ _ _ f Hex Hf) as (n & s & Hs & Hn).
      by eapply findingOf_later. }
    clear -Hall. induction parsed as [|f parsed IHp]; [done|]. csimpl.
    rewrite (Hall f) by apply list_elem_of_here.
    apply IHp. intros f' Hf'. apply Hall. by apply list_elem_of_further. }
  by rewrite Hnone, app_nil_r.
Qed.

(** X25: findings about the fourth and later sources are lost.  The
    prompt of [analyzeSources] numbers the sources of a batch from
    [i + 1] on, and a finding is looked up at [sourceIndex - 1] in the
    batch.  So when every finding cites a number its prompt showed,
    [analyzeSources] settles, and if it returns, its findings are those of
    the first batch alone (sorted by relevance): each names one of the
    first three sources, every finding reported for one of those is
    there under its source, and whatever was reported in the later
    batches is dropped. *)
Theorem findings_reach_only_the_first_batch
    (question : string) (sources : list SearchSource) :
  citesShownNumbers extractFindings ->
  exists outcome,
    Pythagoras.analyzeSources extractFindings question sources = Some outcome
    /\ forall findings, outcome = Return findings ->
         (forall x, x ∈ findings ->
            exists s, s ∈ take 3 sources /\ f_sourceId x = src_id s)
         /\ (sources <> [] ->
             exists parsed,
               extractFindings question (Pythagoras.numbered 0 (take 3 sources))
                 = Return parsed
               /\ findings
                  = JS.sortDescBy f_relevance
                      (omap (Pythagoras.findingOf (take 3 sources)) (default [] parsed))
               /\ forall f n s, f ∈ default [] parsed ->
                    (n, s) ∈ Pythagoras.numbered 0 (take 3 sources) ->
                    sourceIndex f = Z.of_nat n ->
                    exists x, x ∈ findings /\ f_sourceId x = src_id s
                              /\ f_excerpt x = excerpt f).
Proof.
  intros Hcites. unfold Pythagoras.analyzeSources.
  destruct sources as [|s0 sources']; [|set (sources := s0 :: sources')].
  { eexists. split; [reflexivity|]. intros findings [= <-].
    split; [|done]. intros x Hx. by apply elem_of_nil in Hx. }
  cbn [length Nat.eqb].
  destruct (analyzeLoop_total (S (length sources)) question sources 0 [])
    as [outcome Hrun]; [lia|].
  fold sources. change (S (length sources')) with (length sources). rewrite Hrun.
  destruct outcome as [found|e].
  2:{ eexists. split; [reflexivity|]. intros findings H. discriminate H. }
  eexists. split; [reflexivity|]. intros findings [= <-].
  cbn [Pythagoras.analyzeLoop] in Hrun.
  change (0 <? length sources) with true in Hrun. cbn iota in Hrun.
  rewrite drop_0 in Hrun.
  change Pythagoras.batchSize with 3 in Hrun.
  destruct (extractFindings question (Pythagoras.numbered 0 (take 3 sources)))
    as [parsed|e] eqn:Hex; [|done].
  apply analyzeLoop_later in Hrun; [|done|unfold Pythagoras.batchSize; simpl; lia].
  rewrite app_nil_l in Hrun. subst found.
  assert (Hmem : forall x,
            x ∈ JS.sortDescBy f_relevance
                  (omap (Pythagoras.findingOf (take 3 sources)) (default [] parsed))
            <-> x ∈ omap (Pythagoras.findingOf (take 3 sources)) (default [] parsed)).
  { intros x. by rewrite sortDescBy_Permutation. }
  split.
  - intros x Hx. apply Hmem in Hx. apply list_elem_of_omap in Hx as (f & _ & Hf).
    by apply findingOf_source in Hf.
  - intros _. exists parsed. split; [done|]. split; [done|].
    intros f n s Hf Hs Hn.
    exists (mkFinding (src_id s) (excerpt f) (Pythagoras.relevanceToNumber (relevance f))
                      (confidence f)).
    split; [|split; reflexivity].
    apply Hmem. apply list_elem_of_omap. exists f. split; [done|].
    by eapply findingOf_first.
Qed.

End AnalyzeFacts.

Lemma findings_reach_only_the_first_batch_witness :
  exists outcome,
    Pythagoras.analyzeSources citeEverySource "what is a den den mushi?" fourSources
      = Some outcome
    /\ forall findings, outcome = Return findings ->
         (forall x, x ∈ findings ->
            exists s, s ∈ take 3 fourSources /\ f_sourceId x = src_id s)
         /\ (fourSources <> [] ->
             exists parsed,
               citeEverySource "what is a den den mushi?"
                 (Pythagoras.numbered 0 (take 3 fourSources)) = Return parsed
               /\ findings
                  = JS.sortDescBy f_relevance
                      (omap (Pythagoras.findingOf (take 3 fourSources)) (default [] parsed))
               /\ forall f n s, f ∈ default [] parsed ->
                    (n, s) ∈ Pythagoras.numbered 0 (take 3 fourSources) ->
                    sourceIndex f = Z.of_nat n ->
                    exists x, x ∈ findings /\ f_sourceId x = src_id s
                              /\ f_excerpt x = excerpt f).
Proof.
  apply (findings_reach_only_the_first_batch citeEverySource
           "what is a den den mushi?" fourSources).
  intros question shown parsed f [= <-] Hf.
  apply list_elem_of_fmap in Hf as ([n s] & -> & Hin). by exists n, s.
Defined.

(** Four sources, one finding reported for each under the number shown:
    the finding about the fourth source is lost. *)
Example fourth_source_is_never_cited :
  Pythagoras.analyzeSources citeEverySource "what is a den den mushi?" fourSources
  = Some (Return [mkFinding "doc-0" "Title 0" 1 1; mkFinding "doc-1" "Title 1" 1 1;
                  mkFinding "doc-2" "Title 2" 1 1])
  /\ citeEverySource "what is a den den mushi?"
       (Pythagoras.numbered 3 (drop 3 fourSources))
     = Return (Some [mkParsed 4 "Title 3" "high" 1]).
Proof. split; vm_compute; reflexivity. Qed.
